(* ===== verification/_CoqProject ===== *)
-Q . S2P
Prelude.v
Interleaving.v
Text.v
Sectors.v
Memory.v
Semaphore.v
FileBuffer.v
StorageAllocator.v
Queue.v
RingThreads.v
QueueObjects.v
CapioFile.v
Monitors.v
ClientManager.v
PosixPath.v
Locations.v
LocationLocks.v
Server.v
StorageManager.v
StorageLocks.v
Handlers.v
RemoteHandlers.v
ServerInv.v
ServerProps.v
ServerBehaviour.v
Creation.v
ServerLiveness.v
Requests.v
RemoteText.v
Mtcl.v
Mpi.v
Configuration.v
Discovery.v
ServerMain.v
Cluster.v
PosixFs.v
PosixCache.v
PosixCacheProps.v
PosixCalls.v
PosixStat.v
PosixCopy.v
PosixCopyProps.v
PosixFcntl.v
PosixProcess.v
PosixHook.v
PosixHookProps.v
EndToEnd.v
CopyEndToEnd.v
RemoteCopy.v
