(* ===== verification/Prelude.v ===== *)
(** * CAPIO: a verification development

    CAPIO lets the applications of a workflow share files in memory while they
    are being written.  A library loaded into each application
    ([capio/posix]) intercepts its system calls; those on paths under the CAPIO
    directory become requests to the server of the node ([capio/server]).
    Requests go through a queue in shared memory as text, replies and file data
    through queues of each thread ([capio/common/queue.hpp]).  The servers of
    the nodes find each other's files through location files on a shared file
    system and exchange data by messages.

    ** The parts and the files that model them

    Shared by all:
    - [Prelude]: the outcomes of a C++ call (a return, an exception, [ERR_EXIT],
      a wait nothing ends, undefined behaviour), the state monad all operations
      are written in, the properties a call preserves, machine integers.
    - [Text]: printing and scanning of numbers, words and lines, as [sprintf],
      [sscanf], [std::from_chars] and [std::string] do it.
    - [Interleaving]: threads that run one step at a time, and sums over them.
    - [Memory]: memory as a map from offsets to bytes, an absent byte being
      uninitialised; [memcpy].
    - [Queue]: the template of [common/queue.hpp], a ring of slots with two
      counting semaphores, and the order of slots [Fifo] that it refines.  The
      other files use [Fifo].

    The server:
    - [Sectors]: the ordered set of sectors of [CapioFile]
      ([server/src/capio_file.cpp]): insertion, size, [SEEK_DATA], [SEEK_HOLE].
    - [FileBuffer]: [storage/file_buffer.hpp] and its two storages,
      [interfaces/heap.hpp] and [interfaces/mapped.hpp].  The results of the
      system calls and the memory quota are parameters.
    - [StorageAllocator]: [server/src/storage_allocator.cpp], the memory quota:
      the control group of the process, its limits, the files of the kernel that
      say how much is used.  What these files hold is the class [Host].
    - [CapioFile]: the class of a file: sectors, buffer, commit state, counts of
      opens and closes, descriptors.
    - [Monitors]: the methods of that class that wait, notify, or use what is
      waited for, as instructions of threads that interleave: its mutexes, the
      condition variables with their spurious wakeups, [insertSector] between its
      erasure and its insertion.
    - [ClientManager]: the clients of a server, their queues, the files their
      applications produced, the children of [clone] that wait.
    - [Locations]: [utils/location.hpp], the map of locations and the location
      files of the nodes, which the servers share.
    - [LocationLocks]: the calls of several servers on one location file, a
      character at a time, with the record locks of [Flock] and what the streams
      hold of earlier searches.
    - [Server]: the state of a server: the heap of files, the paths, the
      descriptors of the threads with their shared offsets, the two components
      above, the threads that wait, the messages sent.  Pointers are addresses
      in a heap, so that a destroyed file leaves a dangling one.  [Config] holds
      what the command line, the environment and the CAPIO-CL library decide and
      what the operating system answers.
    - [StorageManager]: [server/src/storage_manager.cpp], with directories.
    - [StorageLocks]: the mutexes its methods take and the accesses they make, as
      instructions of threads that interleave.
    - [Handlers], [RemoteHandlers]: every handler of a client request
      ([server/include/handlers]) and of a message of another server
      ([server/include/remote]).  A thread that a handler detaches to wait is a
      task; [task_ready] is the condition it waits for and [run_task] what it
      then does.  [step] is one event of the server.
    - [Requests]: the text of the requests, printed by
      [posix/utils/requests.hpp] and scanned by the server, and the server's
      loop.
    - [RemoteText]: the text of the messages between servers
      ([remote/requests.hpp], [remote_request.cpp]) and the listener
      ([remote/listener.hpp]).
    - [Mtcl]: the network backend [mtcl_backend.cpp]: frames, connections, sends
      that complete later, the loop that waits for the next request.  A handle of
      the MTCL library is a number; what the library answers at each turn of the
      loop is an argument.
    - [Mpi]: the other backends, [mpi_backend.cpp] and [none_backend.cpp]: names and
      ranks, files sent in pieces.
    - [Configuration]: [runtime_configuration.cpp], the choice of the backend and of
      the discovery, and what the client reads from its environment
      ([common/env.hpp]).
    - [Discovery]: token files, multicast tokens and the canary
      ([server/src/*discovery_service.cpp], [shm_canary.cpp]); what a scan lists
      and which datagrams arrive are arguments.
    - [Cluster]: [remote/backend.hpp] as a class with the two backends as its
      instances, and the whole way of a message between two servers.
    - [ServerMain]: [capio_server.cpp] ([main], its threads), [utils/signals.hpp] and
      the destructors that the end of the server runs.
    - [ServerInv], [ServerProps], [ServerBehaviour], [Creation],
      [ServerLiveness]: the
      theorems on the server.

    What clients and servers share:
    - [Semaphore]: [common/semaphore.hpp] over the named semaphores of the system.
    - [RingThreads]: the calls of [common/queue.hpp] as steps of threads that
      interleave, a byte at a time.
    - [QueueObjects]: the constructor and destructor of a queue over the named
      objects of the system ([common/shm.hpp]), and the names of the channels.

    The client library:
    - [PosixPath], [PosixFs]: paths and descriptor tables
      ([posix/utils/filesystem.hpp]), with the part of [std::filesystem] they
      use.
    - [PosixCache], [PosixCalls]: the read and write caches
      ([posix/utils/cache.hpp], [data.hpp]) and the system calls on descriptors
      and on paths ([posix/handlers]).  The server is a parameter, [Peer].
    - [PosixStat]: [stat], [statx] and the calls CAPIO answers by itself.
    - [PosixCopy]: [copy_file_range]; the files of the kernel are [KernelFiles].
    - [PosixFcntl]: every command of [fcntl].
    - [PosixProcess]: [execve] and the snapshot of the descriptors in shared
      memory ([posix/utils/snapshot.hpp]), [fork], [clone], exit.
    - [PosixHook]: [posix/libcapio_posix.cpp], the table of handlers, each
      handler on registers, memory and [errno], and [hook].
    - [PosixCacheProps], [PosixCopyProps], [PosixHookProps]: their theorems, those
      on data against the interfaces [PeerLaws], [ReadingPeer] and [CopyingPeer]
      of a server.

    Both:
    - [EndToEnd]: the server of this development as a [Peer] that satisfies
      [PeerLaws] and [ReadingPeer], and the client on top of it.
    - [CopyEndToEnd]: that server as a [CopyingPeer], and [copy_file_range] from the
      system call to its files.
    - [RemoteCopy]: a copy whose input another node stores, through both servers.

    ** What the theorems show

    - Data: inserting a sector is set union; the queries on sectors are right;
      growing a buffer keeps the data; a write stores its bytes and keeps the
      others; copies are right also when source and destination overlap.
    - Transport: the ring is a FIFO of slots under every schedule, a message
      comes out as it went in; a request is served as it was made; a message and
      its file reach the other server as they were sent; no connection is lost
      or closed twice; nothing but a frame of the protocol is accepted.
    - Server: an invariant of all reachable states (no dangling descriptor, no
      shared file, every file well formed); the effect of writes, local reads,
      reads that waited, reads through another server, closes and directory
      updates, on every branch; every reader that waits for committed files is
      answered, in whatever order the threads run.
    - Memory: the quota is the most that the build allows, for every content of the
      files of the kernel; the search for the control group ends.
    - Cluster: a published location is found by every node; deleting it removes
      exactly it.
    - Start: client and server find the same directory, queue length and workflow,
      and the same line size when the variable is a positive number; options are
      read exactly in their format; a node connects to every node of a larger name
      whose token it sees and can be reached then, whatever the order and
      repetitions.
    - Threads: any interleaving of threads that read and write the rings is the
      effect of whole calls one after the other, in the order of one queue; calls
      that fit together all end.  The server reads no request and the listener no
      message before the objects they use exist; after the signal handler, run
      alone, nothing of the server is left in the system.
    - Locks: the interleaved methods of a file are the operations of [CapioFile]
      one after the other, and a thread that waits for data or for a commit is
      not asleep once it has come; the calls of servers, a thread of each, on a
      location file are whole calls one after the other, except that a search may
      miss a deletion; the methods of the storage never
      wait for each other for ever, and what their mutexes guard is never
      accessed by two threads at once.  The exceptions are theorems as well.
    - Servers together: over MTCL and over MPI, the handlers of two servers act
      as if they called each other, and a client reads the bytes of a file that
      another node stores.
    - Client: the tables stay consistent; normal paths are normal; both caches
      are transparent; [statx] agrees with [fstatat]; [fcntl] answers every
      command; copies move the right bytes and end; a snapshot gives the new
      image the descriptors of the old one; each system call reaches its handler
      and those on other files go to the kernel with nothing changed.
    - End to end: a process reads, through both caches, both queues, the text of
      the requests and the handlers, exactly what the file holds, and what it
      wrote itself; what it copies between two files arrives there, also when
      another node stores the input; a new file is open, published and listed in
      its directory, and so is one that is written for the first time.
    - Corner cases: further theorems state on a concrete run what the code does
      where it is not what it means to do.

    ** Bounds and termination

    Operations are total functions.  Loops over containers are structural.
    Other loops have fuel: printing numbers one more than the binary logarithm,
    which is more than the number of digits; a copy one turn per byte, since a
    turn that goes on has moved a byte ([PosixCopyProps.copy_on_server] and its
    neighbours prove that the fuel is enough); the walk over the control groups
    one turn per character of the path ([StorageAllocator.resolve_cgroup_ends]).
    The loop that waits for the next message runs on the list of what the
    library answers at each turn.  [int] and [off64_t] values that the code
    narrows or that cross the text of a request are cut to their width ([s32],
    [s64], [clamp64], ["%zu"]); other offsets are unbounded integers.

    ** Not modelled

    The interleaving of whole handlers: in [Handlers] a handler is one step and
    the threads it starts are others.  The code does not make a handler one step:
    it keeps references to files and to map entries after it has given the mutex
    back, and some accesses have no mutex ([StorageLocks.unguarded_accesses_race]),
    so that a finer model of the handlers would have undefined behaviour that
    depends on the order of the threads.  What the mutexes do guarantee is proved
    for the queues, the files, the location files and the storage, each on its
    own.  Also left out: the buffers of the C streams;
    the MTCL, MPI, [args] and CAPIO-CL libraries;
    logging; the examples.  [std::filesystem::copy], by which [renameat2] copies a
    file of the kernel into the CAPIO directory, is a parameter: its system calls
    are intercepted again. *)
From Stdlib Require Export ZArith Lia Ascii String.
From stdpp Require Export base gmap strings list numbers sorting.
Export list_basics.list.

#[export] Set Default Goal Selector "1".
Open Scope Z_scope.

(** ** Outcomes and the state monad *)

(** How a C++ call ends.  [Done] is a normal return; [Throw] an exception that
    leaves the function; [Exit] a call of the [ERR_EXIT] macro, which ends the
    process; [Blocks] a call that waits for an event that nothing in the state
    can produce any more; [UB] an execution whose behaviour the C++ standard
    does not define. *)
Inductive outcome (A : Type) : Type :=
| Done (a : A)
| Throw (what : string)
| Exit (what : string)
| Blocks (what : string)
| UB (what : string).
Arguments Done {A} a.
Arguments Throw {A} what.
Arguments Exit {A} what.
Arguments Blocks {A} what.
Arguments UB {A} what.

Definition outcome_bind {A B} (m : outcome A) (k : A -> outcome B) : outcome B :=
  match m with
  | Done a => k a
  | Throw w => Throw w
  | Exit w => Exit w
  | Blocks w => Blocks w
  | UB w => UB w
  end.

(** A call that reads and writes the state [S]. *)
Definition M (S A : Type) : Type := S -> outcome (A * S).

Definition ret {S A} (a : A) : M S A := fun s => Done (a, s).
Definition bind {S A B} (m : M S A) (k : A -> M S B) : M S B :=
  fun s => outcome_bind (m s) (fun '(a, s') => k a s').
Definition get {S} : M S S := fun s => Done (s, s).
Definition put {S} (s' : S) : M S unit := fun _ => Done (tt, s').
Definition gets {S A} (f : S -> A) : M S A := fun s => Done (f s, s).
Definition modify {S} (f : S -> S) : M S unit := fun s => Done (tt, f s).
Definition throw {S A} (w : string) : M S A := fun _ => Throw w.
Definition err_exit {S A} (w : string) : M S A := fun _ => Exit w.
Definition undefined {S A} (w : string) : M S A := fun _ => UB w.
Definition blocks {S A} (w : string) : M S A := fun _ => Blocks w.
Definition lift {S A} (m : outcome A) : M S A :=
  fun s => outcome_bind m (fun a => Done (a, s)).
Definition when {S} (b : bool) (m : M S unit) : M S unit :=
  if b then m else ret tt.

(** [v.at(k)] and [*p] : the value, or the stated failure when there is none. *)
Definition or_throw {S A} (o : option A) (w : string) : M S A :=
  match o with Some a => ret a | None => throw w end.
Definition or_ub {S A} (o : option A) (w : string) : M S A :=
  match o with Some a => ret a | None => undefined w end.
Definition or_exit {S A} (o : option A) (w : string) : M S A :=
  match o with Some a => ret a | None => err_exit w end.

(** A loop over a container. *)
Fixpoint for_each {S A} (l : list A) (f : A -> M S unit) : M S unit :=
  match l with
  | [] => ret tt
  | x :: l' => bind (f x) (fun _ => for_each l' f)
  end.

Declare Scope capio_scope.
Delimit Scope capio_scope with capio.
Notation "'let*' p ':=' m 'in' k" := (bind m (fun p => k))
  (at level 10, p pattern, m at level 100, k at level 200,
   format "'let*'  p  ':='  m  'in' '//' k") : capio_scope.
Notation "m ;; k" := (bind m (fun _ => k))
  (at level 100, right associativity) : capio_scope.
Open Scope capio_scope.

(** A call that returns, then the rest. *)
Lemma bind_done {S A B} (m : M S A) (k : A -> M S B) s x s1 r : m s = Done (x, s1) -> k x s1 = r -> bind m k s = r.
Proof. intros E <-. unfold bind. by rewrite E. Qed.

(** ** Calls that preserve a property of the state *)

(** Whenever [m] returns, [I] holds after it if it held before. *)
Definition preserves {S A} (I : S -> Prop) (m : M S A) : Prop := forall s a s', I s -> m s = Done (a, s') -> I s'.

Section Preserves.
Context {S : Type} (I : S -> Prop).

Lemma preserves_bind {A B} (m : M S A) (k : A -> M S B) :
  preserves I m -> (forall a, preserves I (k a)) -> preserves I (bind m k).
Proof.
  intros Hm Hk s b s' HI. unfold bind. destruct (m s) as [[a s1]| | | |] eqn:E; try done. simpl. apply Hk. by eapply Hm.
Qed.
Lemma preserves_ret {A} (a : A) : preserves I (ret a).
Proof. by intros s ? ? HI [= <- <-]. Qed.
Lemma preserves_get : preserves I get.
Proof. by intros s ? ? HI [= <- <-]. Qed.
Lemma preserves_modify (g : S -> S) : (forall s, I s -> I (g s)) -> preserves I (modify g).
Proof. intros Hg s ? ? HI [= <- <-]. by apply Hg. Qed.
Lemma preserves_if {A} (b : bool) (m k : M S A) : preserves I m -> preserves I k -> preserves I (if b then m else k).
Proof. by destruct b. Qed.
Lemma preserves_when (b : bool) (m : M S unit) : preserves I m -> preserves I (when b m).
Proof. intros Hm. apply preserves_if; [done|apply preserves_ret]. Qed.
End Preserves.

(** A part of the state that has every value it had. *)
Lemma preserves_part {S A B} (f : S -> B) (m : M S A) :
  (forall v, preserves (fun s => f s = v) m) -> forall s a s', m s = Done (a, s') -> f s' = f s.
Proof. intros Hm s a s'. by apply (Hm (f s)). Qed.

(** The result of a call that returned, for executable examples. *)
Definition result_of {A} (m : outcome A) : option A :=
  match m with Done a => Some a | _ => None end.

(** ** Machine integers: [unsigned int] and [int] *)
Definition u32 (x : Z) : Z := x mod 2 ^ 32.
Definition u64 (x : Z) : Z := x mod 2 ^ 64.
Definition s32 (x : Z) : Z := (x + 2 ^ 31) mod 2 ^ 32 - 2 ^ 31.
Definition s64 (x : Z) : Z := (x + 2 ^ 63) mod 2 ^ 64 - 2 ^ 63.

Lemma u32_small x : 0 <= x < 2 ^ 32 -> u32 x = x.
Proof. intros. unfold u32. by rewrite Z.mod_small. Qed.
Lemma u64_small x : 0 <= x < 2 ^ 64 -> u64 x = x.
Proof. intros. unfold u64. by rewrite Z.mod_small. Qed.
Lemma s32_small x : - 2 ^ 31 <= x < 2 ^ 31 -> s32 x = x.
Proof. intros. unfold s32. rewrite Z.mod_small; lia. Qed.
Lemma s64_small x : - 2 ^ 63 <= x < 2 ^ 63 -> s64 x = x.
Proof. intros. unfold s64. rewrite Z.mod_small; lia. Qed.

(** ** Automation *)

(** [weaken H] closes a [Forall] goal from [H : Forall P l] by arithmetic. *)
Ltac weaken H := eapply Forall_impl; [exact H|]; simpl; intros; lia.

Create HintDb capio.
