(* ===== verification/Interleaving.v ===== *)
(** * Threads that run one step at a time

    What the models of concurrent code share ([RingThreads], [Monitors],
    [LocationLocks], [StorageLocks]): the threads of a system are a list, a quantity of the
    system is the sum of what its threads have of it, and a run is the list of
    the events of its threads, each with the index of its thread. *)
From S2P Require Import Prelude.

(** ** Counting threads *)

Section Total.
Context {A : Type}.
Implicit Types (f g : A -> Z) (ts : list A).

Definition total (f : A -> Z) (ts : list A) : Z := foldr (fun t z => f t + z) 0 ts.

Lemma total_insert f ts i t t' :
  ts !! i = Some t -> total f (<[i := t']> ts) = total f ts - f t + f t'.
Proof.
  revert i. induction ts as [|u ts IH]; intros [|i] H; simplify_eq/=; [lia|]. rewrite (IH _ H). lia.
Qed.

Lemma total_ge0 f ts : (forall t, 0 <= f t) -> 0 <= total f ts.
Proof. intros H. induction ts as [|u ts IH]; simpl; [lia|]. specialize (H u). lia. Qed.

Lemma total_one f ts i t : (forall t, 0 <= f t) -> ts !! i = Some t -> f t <= total f ts.
Proof.
  intros H. revert i. induction ts as [|u ts IH]; intros [|i] E; simplify_eq/=.
  - pose proof (total_ge0 f ts H). lia.
  - specialize (H u). specialize (IH _ E). lia.
Qed.

Lemma total_two f ts i j t u :
  (forall t, 0 <= f t) -> i <> j -> ts !! i = Some t -> ts !! j = Some u -> f t + f u <= total f ts.
Proof.
  intros H. revert i j. induction ts as [|v ts IH]; intros [|i] [|j] Hne Ei Ej; simplify_eq/=.
  - pose proof (total_one f ts j u H Ej). lia.
  - pose proof (total_one f ts i t H Ei). lia.
  - specialize (H v). specialize (IH i j ltac:(congruence) Ei Ej). lia.
Qed.

Lemma total_le f g ts : (forall t, f t <= g t) -> total f ts <= total g ts.
Proof. intros H. induction ts as [|u ts IH]; simpl; [lia|]. specialize (H u). lia. Qed.

Lemma total_zero f ts : Forall (fun t => f t = 0) ts -> total f ts = 0.
Proof. induction 1; simpl; lia. Qed.

(** A change of every thread, by at most [d] each. *)
Lemma total_map_le f (h : A -> A) d ts :
  (forall t, f (h t) <= f t + d) -> total f (h <$> ts) <= total f ts + d * Z.of_nat (length ts).
Proof.
  intros H. induction ts as [|u ts IH]; simpl; [lia|]. specialize (H u). unfold fmap in IH. lia.
Qed.
End Total.

(** ** The events of a thread *)

Definition events_of {E} (i : nat) (tr : list (nat * E)) : list E := (filter (fun e => e.1 = i) tr).*2.

Lemma snd_pairs {A B} (i : A) (es : list B) : ((fun e => (i, e)) <$> es).*2 = es.
Proof. induction es; f_equal/=; done. Qed.

Lemma events_of_app {E} i (tr : list (nat * E)) es j :
  events_of i (tr ++ ((fun e => (j, e)) <$> es)) = events_of i tr ++ (if decide (j = i) then es else []).
Proof.
  unfold events_of. rewrite filter_app, fmap_app. f_equal.
  destruct (decide (j = i)) as [->|Hne]; induction es as [|e es IH]; try done; rewrite fmap_cons.
  - by rewrite filter_cons_True, fmap_cons, IH.
  - by rewrite filter_cons_False.
Qed.
