(* ===== verification/Text.v ===== *)
(** * Text: numbers, words and lines

    What the sources use of [sprintf], [sscanf], [std::from_chars],
    [std::string::find] and [std::getline]: decimal numbers printed and scanned,
    formats as lists of conversions, the pieces of a text between separators.
    The files that model text in the program require it: [Requests],
    [RemoteText], [StorageAllocator], [PosixPath]. *)
From S2P Require Import Prelude.

(** ** Printing and scanning numbers *)

Definition digit_char (d : Z) : ascii := ascii_of_N (Z.to_N (48 + d)).
Definition char_digit (c : ascii) : option Z :=
  let n := Z.of_N (N_of_ascii c) - 48 in if (0 <=? n) && (n <=? 9) then Some n else None.

(** The decimal digits of [n >= 0] before [tail]. *)
Fixpoint print_digits (fuel : nat) (n : Z) (tail : string) : string :=
  match fuel with
  | O => tail
  | S fuel' =>
      let tail' := String (digit_char (n mod 10)) tail in
      if n <? 10 then tail' else print_digits fuel' (n / 10) tail'
  end.
Definition print_nonneg (n : Z) : string := print_digits (S (Z.to_nat (Z.log2 n))) n "".
(** ["%ld"], and ["%zu"] of a 64-bit value. *)
Definition print_ld (n : Z) : string :=
  if n <? 0 then String "-" (print_nonneg (- n)) else print_nonneg n.
Definition print_zu (n : Z) : string := print_nonneg (n mod 2 ^ 64).
(** ["%04d"] of a code. *)
Definition print_code (n : Z) : string :=
  let pad := if n <? 10 then "000"%string else if n <? 100 then "00"%string
             else if n <? 1000 then "0"%string else ""%string in
  (pad ++ print_nonneg n)%string.

Definition is_space (c : ascii) : bool :=
  let n := N_of_ascii c in (n =? 32)%N || ((9 <=? n) && (n <=? 13))%N.

Fixpoint skip_spaces (s : string) : string :=
  match s with String c s' => if is_space c then skip_spaces s' else s | EmptyString => s end.

Fixpoint scan_digits (s : string) (acc : Z) : Z * string :=
  match s with
  | String c s' => match char_digit c with Some d => scan_digits s' (acc * 10 + d) | None => (acc, s) end
  | EmptyString => (acc, s)
  end.
Definition starts_with_digit (s : string) : bool :=
  match s with String c _ => bool_decide (is_Some (char_digit c)) | EmptyString => false end.

(** ["%ld"]: the value is cut to the range of [long]. *)
Definition clamp64 (n : Z) : Z := Z.max (- 2 ^ 63) (Z.min (2 ^ 63 - 1) n).
Definition scan_ld (s : string) : option (Z * string) :=
  let s := skip_spaces s in
  let '(sign, s) := match s with
                    | String "-" s' => (-1, s')
                    | String "+" s' => (1, s')
                    | _ => (1, s)
                    end in
  if starts_with_digit s then let '(n, rest) := scan_digits s 0 in Some (clamp64 (sign * n), rest) else None.
(** ["%d"] stores the low 32 bits. *)
Definition scan_d (s : string) : option (Z * string) :=
  match scan_ld s with Some (n, rest) => Some (s32 n, rest) | None => None end.

(** ["%s"]: the characters up to the next space, at least one. *)
Fixpoint scan_word (s : string) : string * string :=
  match s with
  | String c s' => if is_space c then (EmptyString, s) else let '(w, rest) := scan_word s' in (String c w, rest)
  | EmptyString => (EmptyString, EmptyString)
  end.
Definition scan_s (s : string) : option (string * string) :=
  let '(w, rest) := scan_word (skip_spaces s) in
  if String.eqb w "" then None else Some (w, rest).

(** ** Formats *)

Inductive field : Type := F_ld (n : Z) | F_zu (n : Z) | F_s (s : string).
Inductive conversion : Type := C_d | C_ld | C_s.
Inductive value : Type := V_int (n : Z) | V_str (s : string).

Definition print_field (f : field) : string :=
  match f with F_ld n => print_ld n | F_zu n => print_zu n | F_s s => s end.
Fixpoint print_fields (fs : list field) : string :=
  match fs with [] => "" | f :: fs' => String " " (print_field f ++ print_fields fs') end.

Fixpoint sscanf (cs : list conversion) (s : string) : option (list value) :=
  match cs with
  | [] => Some []
  | C_d :: cs' => match scan_d s with Some (n, r) => cons (V_int n) <$> sscanf cs' r | None => None end
  | C_ld :: cs' => match scan_ld s with Some (n, r) => cons (V_int n) <$> sscanf cs' r | None => None end
  | C_s :: cs' => match scan_s s with Some (w, r) => cons (V_str w) <$> sscanf cs' r | None => None end
  end.

(** ** Pieces between separators *)

(** The pieces between the occurrences of [sep], empty ones included. *)
Fixpoint split_on (sep : ascii) (s : string) : list string :=
  match s with
  | EmptyString => [""%string]
  | String c s' =>
      if Ascii.eqb c sep then ""%string :: split_on sep s'
      else match split_on sep s' with
           | w :: ws => String c w :: ws
           | [] => [String c ""]
           end
  end.
Definition newline : ascii := "010"%char.
(** What a loop of [std::getline] sees: the last piece counts unless it is
    empty. *)
Fixpoint lines_of (pieces : list string) : list string :=
  match pieces with
  | [] => []
  | [w] => if String.eqb w "" then [] else [w]
  | w :: ws => w :: lines_of ws
  end.
Definition getlines (s : string) : list string := lines_of (split_on newline s).

(** ** Scanning gives back what was printed *)

#[local] Arguments String.append !_ _ /.

Definition int32 (n : Z) : Prop := - 2 ^ 31 <= n < 2 ^ 31.
Definition int64 (n : Z) : Prop := - 2 ^ 63 <= n < 2 ^ 63.
Fixpoint no_spaces (s : string) : Prop :=
  match s with String c s' => is_space c = false /\ no_spaces s' | EmptyString => True end.
(** A name without white space, as ["%s"] reads it. *)
Definition word (s : string) : Prop := s <> ""%string /\ no_spaces s.

(** What follows a field: nothing, or a space. *)
Definition stops (s : string) : Prop :=
  match s with String c _ => is_space c = true | EmptyString => True end.

Lemma digit_not_special c d :
  char_digit c = Some d ->
  is_space c = false /\ c <> "-"%char /\ c <> "+"%char.
Proof. destruct c as [[] [] [] [] [] [] [] []]; vm_compute; intros ?; repeat split; congruence. Qed.

Lemma char_digit_char d : 0 <= d <= 9 -> char_digit (digit_char d) = Some d.
Proof.
  intros Hd. assert (Hin : d ∈ seqZ 0 10) by (apply elem_of_seqZ; lia). vm_compute in Hin.
  repeat (apply elem_of_cons in Hin as [->|Hin]; [done|]). by apply elem_of_nil in Hin.
Qed.

Lemma print_digits_app fuel n s t : (print_digits fuel n s ++ t = print_digits fuel n (s ++ t))%string.
Proof. revert n s; induction fuel as [|fuel IH]; intros n s; simpl; [done|]. case_match; [done|]. apply IH. Qed.

Lemma print_digits_starts fuel n s :
  0 <= n -> starts_with_digit s = true \/ (0 < fuel)%nat -> starts_with_digit (print_digits fuel n s) = true.
Proof.
  revert n s; induction fuel as [|fuel IH]; intros n s Hn Hs; [destruct Hs; [done|lia]|]. simpl.
  assert (Hd : starts_with_digit (String (digit_char (n mod 10)) s) = true).
  { simpl. rewrite char_digit_char by (pose proof (Z.mod_pos_bound n 10); lia). done. }
  case_match; [done|]. apply IH; [apply Z.div_pos; lia|by left].
Qed.

Lemma scan_print_digits fuel n s :
  0 <= n < 10 ^ Z.of_nat fuel ->
  exists k, 0 <= k /\ forall acc, scan_digits (print_digits fuel n s) acc = scan_digits s (acc * 10 ^ k + n).
Proof.
  revert n s; induction fuel as [|fuel IH]; intros n s Hn.
  { exists 0. split; [done|]. intros acc. simpl. f_equal. simpl in Hn. lia. }
  pose proof (Z.mod_pos_bound n 10 ltac:(lia)) as Hm. pose proof (Z.div_mod n 10 ltac:(lia)) as Hdm.
  assert (Hone : forall acc, scan_digits (String (digit_char (n mod 10)) s) acc = scan_digits s (acc * 10 + n mod 10)).
  { intros acc. simpl. rewrite char_digit_char by lia. done. }
  cbn [print_digits]. case_match eqn:Hlt.
  - apply Z.ltb_lt in Hlt. exists 1. split; [lia|]. intros acc. rewrite Hone, Z.mod_small by lia. f_equal; lia.
  - apply Z.ltb_ge in Hlt. destruct (IH (n / 10) (String (digit_char (n mod 10)) s)) as (k & Hk & HIH).
    { split; [apply Z.div_pos; lia|]. apply Z.div_lt_upper_bound; [lia|].
      rewrite Nat2Z.inj_succ, Z.pow_succ_r in Hn by lia. lia. }
    exists (k + 1). split; [lia|]. intros acc. rewrite HIH, Hone. f_equal. rewrite Z.pow_add_r by lia. lia.
Qed.

Lemma scan_digits_stops s acc : stops s -> scan_digits s acc = (acc, s).
Proof.
  destruct s as [|c s]; [done|]. simpl. destruct (char_digit c) eqn:Hc; [|done].
  apply digit_not_special in Hc as (Hc & _). congruence.
Qed.

Lemma print_nonneg_scan n rest :
  0 <= n -> stops rest ->
  starts_with_digit (print_nonneg n ++ rest) = true /\ scan_digits (print_nonneg n ++ rest) 0 = (n, rest).
Proof.
  intros Hn Hrest. unfold print_nonneg. rewrite print_digits_app.
  split; [apply print_digits_starts; [done|right; lia]|].
  destruct (scan_print_digits (S (Z.to_nat (Z.log2 n))) n ("" ++ rest)) as (k & Hk & H).
  { split; [done|]. rewrite Nat2Z.inj_succ, Z2Nat.id by apply Z.log2_nonneg.
    destruct (decide (n = 0)) as [->|]; [done|].
    destruct (Z.log2_spec n ltac:(lia)) as [_ ?].
    apply Z.lt_le_trans with (2 ^ Z.succ (Z.log2 n)); [done|]. apply Z.pow_le_mono_l. lia. }
  rewrite H, Z.mul_0_l, Z.add_0_l. by apply scan_digits_stops.
Qed.

(** A text that starts with a digit has no white space and no sign before it. *)
Lemma scan_ld_digits s :
  starts_with_digit s = true ->
  scan_ld s = let '(n, rest) := scan_digits s 0 in Some (clamp64 (1 * n), rest).
Proof.
  intros Hs. assert (Hs' := Hs). destruct s as [|c s]; [done|]. simpl in Hs'. apply bool_decide_eq_true in Hs' as [d Hd].
  destruct (digit_not_special c d Hd) as (Hsp & Hm & Hp).
  unfold scan_ld, skip_spaces. rewrite Hsp.
  replace (match String c s with String "-" s' => (-1, s') | String "+" s' => (1, s') | _ => (1, String c s) end)
    with (1, String c s); [by rewrite Hs|].
  clear -Hm Hp. destruct c as [[] [] [] [] [] [] [] []]; congruence.
Qed.

Lemma scan_ld_minus s :
  starts_with_digit s = true ->
  scan_ld (String "-" s) = let '(n, rest) := scan_digits s 0 in Some (clamp64 (-1 * n), rest).
Proof. intros Hs. unfold scan_ld. simpl skip_spaces. cbv beta iota zeta. by rewrite Hs. Qed.

Lemma clamp64_id n : int64 n -> clamp64 n = n.
Proof. unfold int64, clamp64. lia. Qed.

Lemma scan_print_ld n rest : int64 n -> stops rest -> scan_ld (print_ld n ++ rest) = Some (n, rest).
Proof.
  intros Hn Hrest. unfold print_ld. destruct (n <? 0) eqn:Hneg; cbn [String.append].
  - apply Z.ltb_lt in Hneg. destruct (print_nonneg_scan (- n) rest) as [Hs Hd]; [lia|done|].
    rewrite (scan_ld_minus _ Hs), Hd. rewrite clamp64_id by (unfold int64 in *; lia). do 2 f_equal. lia.
  - apply Z.ltb_ge in Hneg. destruct (print_nonneg_scan n rest) as [Hs Hd]; [lia|done|].
    rewrite (scan_ld_digits _ Hs), Hd. rewrite clamp64_id by (unfold int64 in *; lia). do 2 f_equal. lia.
Qed.

Lemma print_ld_inj n m : int64 n -> int64 m -> print_ld n = print_ld m -> n = m.
Proof.
  intros Hn Hm E. pose proof (scan_print_ld n "" Hn I) as En. pose proof (scan_print_ld m "" Hm I) as Em.
  rewrite E in En. congruence.
Qed.

Lemma string_app_inj (s : string) t t' : (s ++ t = s ++ t')%string -> t = t'.
Proof. induction s; simpl; intros [=]; auto. Qed.

Lemma scan_print_zu n rest : stops rest -> scan_ld (print_zu n ++ rest) = Some (clamp64 (n mod 2 ^ 64), rest).
Proof.
  intros Hrest. unfold print_zu.
  destruct (print_nonneg_scan (n mod 2 ^ 64) rest) as [Hs Hd]; [apply Z.mod_pos_bound; lia|done|].
  rewrite (scan_ld_digits _ Hs), Hd. do 2 f_equal. f_equal. lia.
Qed.

Lemma scan_word_app w rest : no_spaces w -> stops rest -> scan_word (w ++ rest) = (w, rest).
Proof.
  intros Hw Hrest. induction w as [|c w IH]; simpl.
  - destruct rest as [|c rest]; [done|]. simpl in *. by rewrite Hrest.
  - destruct Hw as [-> Hw]. by rewrite IH.
Qed.

Lemma scan_print_s w rest : word w -> stops rest -> scan_s (w ++ rest) = Some (w, rest).
Proof.
  intros [Hne Hw] Hrest. unfold scan_s.
  replace (skip_spaces (w ++ rest)) with (w ++ rest)%string.
  - rewrite scan_word_app by done. case_match eqn:He; [|done]. apply String.eqb_eq in He. done.
  - destruct w as [|c w]; [done|]. simpl in *. destruct Hw as [-> _]. done.
Qed.

(** ** A format scans what the matching format printed *)

Definition scans (f : field) (c : conversion) : Prop :=
  match f, c with
  | F_ld n, C_d => int32 n
  | F_ld n, C_ld => int64 n
  | F_zu n, C_ld => 0 <= n < 2 ^ 63
  | F_s s, C_s => word s
  | _, _ => False
  end.
Definition value_of (f : field) : value := match f with F_ld n | F_zu n => V_int n | F_s s => V_str s end.

Lemma sscanf_skips cs s : cs <> [] -> sscanf cs (String " " s) = sscanf cs s.
Proof. destruct cs as [|[] cs]; done. Qed.

Lemma scan_ld_skips s : scan_ld (String " " s) = scan_ld s.
Proof. done. Qed.

Lemma print_fields_stops fs : stops (print_fields fs).
Proof. by destruct fs. Qed.
Create HintDb scan.
#[export] Hint Resolve print_fields_stops : scan.

Lemma sscanf_print fs cs :
  Forall2 scans fs cs -> sscanf cs (print_fields fs) = Some (value_of <$> fs).
Proof.
  induction 1 as [|f c fs cs Hf _ IH]; [done|]. cbn [print_fields]. rewrite sscanf_skips by done.
  destruct f as [n|n|w], c; try done; simpl in Hf; cbn [sscanf print_field].
  - unfold scan_d. rewrite scan_print_ld by (unfold int32, int64 in *; auto with scan; lia).
    rewrite IH. simpl. do 3 f_equal. apply s32_small, Hf.
  - rewrite scan_print_ld by auto with scan. by rewrite IH.
  - rewrite scan_print_zu by auto with scan. rewrite Z.mod_small, clamp64_id by (unfold int64; lia). by rewrite IH.
  - rewrite scan_print_s by auto with scan. by rewrite IH.
Qed.

(** ** Substrings and searches *)

(** The text from position [n] on. *)
Fixpoint sdrop (n : nat) (s : string) : string :=
  match n, s with
  | S n', String _ s' => sdrop n' s'
  | _, _ => s
  end.
(** [s.find_first_not_of(' ')], as the text from there on. *)
Fixpoint skip_blanks (s : string) : string :=
  match s with String c s' => if Ascii.eqb c " " then skip_blanks s' else s | EmptyString => s end.
(** [s.rfind(c)] *)
Fixpoint rindex (c : ascii) (s : string) : option nat :=
  match s with
  | EmptyString => None
  | String d s' => match rindex c s' with
                   | Some n => Some (S n)
                   | None => if Ascii.eqb d c then Some O else None
                   end
  end.
(** [std::from_chars] into a [uint64_t]: digits at the start of the text, no
    sign and no white space, a value that fits. *)
Definition from_chars_u64 (s : string) : option Z :=
  if starts_with_digit s then
    let n := (scan_digits s 0).1 in if n <? 2 ^ 64 then Some n else None
  else None.

Lemma char_digit_range c d : char_digit c = Some d -> 0 <= d <= 9.
Proof. unfold char_digit. case_match eqn:Hr; [|done]. intros [= <-]. apply andb_true_iff in Hr. lia. Qed.

Lemma scan_digits_nonneg s acc : 0 <= acc -> 0 <= (scan_digits s acc).1.
Proof.
  revert acc; induction s as [|c s IH]; intros acc Hacc; simpl; [done|].
  destruct (char_digit c) as [d|] eqn:Hd; [|done]. apply char_digit_range in Hd. apply IH. lia.
Qed.

Lemma from_chars_u64_range s n : from_chars_u64 s = Some n -> 0 <= n < 2 ^ 64.
Proof.
  unfold from_chars_u64. case_match; [|done]. case_match eqn:Hlt; [|done]. intros [= <-].
  apply Z.ltb_lt in Hlt. split; [|done]. by apply scan_digits_nonneg.
Qed.

(** A number ends at the end of its line. *)
Lemma scan_digits_line s rest acc : (scan_digits (s ++ String newline rest) acc).1 = (scan_digits s acc).1.
Proof. revert acc; induction s as [|c s IH]; intros acc; simpl; [done|]. destruct (char_digit c); [apply IH|done]. Qed.

Lemma from_chars_u64_line s rest : from_chars_u64 (s ++ String newline rest) = from_chars_u64 s.
Proof. unfold from_chars_u64. rewrite scan_digits_line. by destruct s. Qed.

Lemma skip_blanks_line s rest :
  skip_blanks (s ++ String newline rest) = (skip_blanks s ++ String newline rest)%string.
Proof. induction s as [|c s IH]; simpl; [done|]. by case_match. Qed.

Lemma sdrop_drop n m s : sdrop n (sdrop m s) = sdrop (m + n) s.
Proof. revert s; induction m as [|m IH]; intros [|c s]; simpl; try done. by destruct n. Qed.

Lemma sdrop_app s t : sdrop (String.length s) (s ++ t) = t.
Proof. induction s; simpl; done. Qed.

Lemma sdrop_get n s c : String.get n s = Some c -> sdrop n s = String c (sdrop (S n) s).
Proof. revert s; induction n as [|n IH]; intros [|d s]; simpl; try done; [by intros [= ->]|]. intros. by rewrite IH. Qed.

Lemma get_lt n s : (n < String.length s)%nat <-> is_Some (String.get n s).
Proof.
  revert s; induction n as [|n IH]; intros [|d s]; simpl.
  - split; [lia|intros [? [=]]].
  - split; [eauto|lia].
  - split; [lia|intros [? [=]]].
  - rewrite <- IH. lia.
Qed.

Lemma sdrop_long n s : (String.length s <= n)%nat -> sdrop n s = ""%string.
Proof. revert s; induction n as [|n IH]; intros [|d s]; simpl; try done; try lia. intros. apply IH. lia. Qed.

(** An occurrence of [key] at [n] is a prefix of the text from [n] on. *)
Lemma substring_sdrop n m s : substring n m s = substring 0 m (sdrop n s).
Proof. revert s; induction n as [|n IH]; intros [|d s]; simpl; try done. by destruct m. Qed.

Lemma string_prefix_app key s : String.prefix key s = true <-> s = (key ++ sdrop (String.length key) s)%string.
Proof.
  revert s; induction key as [|c key IH]; intros [|d s]; simpl; try done.
  - destruct (ascii_dec c d) as [->|Hne].
    + rewrite IH. split; [by intros <-|congruence].
    + split; [done|congruence].
Qed.

Lemma prefix_substring m key s :
  String.prefix key (sdrop m s) = true <-> substring m (String.length key) s = key.
Proof. rewrite substring_sdrop. apply prefix_correct. Qed.

Lemma index_ge n key s m : String.index n key s = Some m -> (n <= m)%nat.
Proof.
  revert n m; induction s as [|c s IH]; intros [|n] m; simpl; try (intros; lia).
  - by destruct key.
  - destruct (String.index n key s) as [k|] eqn:Hk; [|done]. intros [= <-]. apply IH in Hk. lia.
Qed.

Lemma get_sdrop m i s : String.get i (sdrop m s) = String.get (m + i) s.
Proof. revert s; induction m as [|m IH]; intros [|c s]; simpl; try done. Qed.

Lemma get_append_l i s t : (i < String.length s)%nat -> String.get i (s ++ t) = String.get i s.
Proof. revert i; induction s as [|c s IH]; intros [|i] Hi; simpl in *; try lia; [done|]. apply IH. lia. Qed.

(** The characters of [s] are not [c]. *)
Fixpoint lacks (c : ascii) (s : string) : bool :=
  match s with String d s' => negb (Ascii.eqb d c) && lacks c s' | EmptyString => true end.

Lemma lacks_get c s i : lacks c s = true -> String.get i s <> Some c.
Proof.
  revert i; induction s as [|d s IH]; intros [|i]; simpl; try done; intros Hl;
    apply andb_true_iff in Hl as [Hd Hs]; [|by apply IH].
  intros [= ->]. by rewrite Ascii.eqb_refl in Hd.
Qed.

Lemma lacks_app c s t : lacks c (s ++ t) = lacks c s && lacks c t.
Proof. induction s as [|d s IH]; simpl; [done|]. by rewrite IH, andb_assoc. Qed.

(** A number has no characters but digits and a minus sign. *)
Lemma print_digits_lacks c fuel n s :
  char_digit c = None -> 0 <= n -> lacks c s = true -> lacks c (print_digits fuel n s) = true.
Proof.
  intros Hc. revert n s; induction fuel as [|fuel IH]; intros n s Hn Hs; [done|]. cbn [print_digits].
  assert (lacks c (String (digit_char (n mod 10)) s) = true).
  { simpl. rewrite Hs, andb_true_r. apply negb_true_iff, Ascii.eqb_neq. intros <-.
    rewrite char_digit_char in Hc by (pose proof (Z.mod_pos_bound n 10); lia). done. }
  case_match; [done|]. apply IH; [apply Z.div_pos; lia|done].
Qed.
Lemma print_ld_lacks c n : char_digit c = None -> c <> "-"%char -> lacks c (print_ld n) = true.
Proof.
  intros Hc Hm. unfold print_ld, print_nonneg. destruct (Z.ltb_spec n 0).
  - cbn [lacks]. rewrite (proj2 (Ascii.eqb_neq _ _)) by done. apply print_digits_lacks; (done || lia).
  - apply print_digits_lacks; (done || lia).
Qed.

(** The first piece, and what follows it. *)
Lemma split_on_first sep s :
  exists w ws, split_on sep s = w :: ws /\ lacks sep w = true /\
    ((ws = [] /\ s = w) \/ exists rest, s = (w ++ String sep rest)%string /\ ws = split_on sep rest).
Proof.
  induction s as [|c s (w & ws & Hs & Hw & Hrest)]; simpl.
  { exists ""%string, []. auto. }
  destruct (Ascii.eqb c sep) eqn:Hc.
  - apply Ascii.eqb_eq in Hc as ->. exists ""%string, (split_on sep s). split_and!; [done|done|]. right. by exists s.
  - rewrite Hs. exists (String c w), ws. simpl. rewrite Hc. split_and!; [done|done|].
    destruct Hrest as [[-> ->]|(rest & -> & ->)]; [by left|right; by exists rest].
Qed.

(** A prefix without separators lies in the first piece. *)
Lemma prefix_first sep key w rest :
  lacks sep key = true -> String.prefix key (w ++ String sep rest) = String.prefix key w.
Proof.
  revert w; induction key as [|c key IH]; intros [|d w]; simpl; try done; intros Hl.
  - apply andb_true_iff in Hl as [Hc _]. destruct (ascii_dec c sep) as [->|]; [|done].
    by rewrite Ascii.eqb_refl in Hc.
  - apply andb_true_iff in Hl as [_ Hl]. destruct (ascii_dec c d); [by apply IH|done].
Qed.

Lemma sdrop_prefix key w rest :
  String.prefix key w = true ->
  sdrop (String.length key) (w ++ rest) = (sdrop (String.length key) w ++ rest)%string.
Proof.
  revert w; induction key as [|c key IH]; intros [|d w]; simpl; try done.
  destruct (ascii_dec c d); [by apply IH|done].
Qed.

(** ** Searches for one character *)

Lemma string_app_assoc a b c : ((a ++ b) ++ c = a ++ (b ++ c))%string.
Proof. induction a as [|x a IH]; simpl; congruence. Qed.
Lemma string_app_nil s : (s ++ "" = s)%string.
Proof. induction s as [|c s IH]; simpl; [done|]. by rewrite IH. Qed.

Lemma length_append s t : String.length (s ++ t) = (String.length s + String.length t)%nat.
Proof. induction s as [|c s IH]; simpl; [done|]. by rewrite IH. Qed.

Lemma substring_prefix s t : substring 0 (String.length s) (s ++ t) = s.
Proof. induction s as [|c s IH]; simpl; [by destruct t|]. by rewrite IH. Qed.

Lemma length_substring n s : (n <= String.length s)%nat -> String.length (substring 0 n s) = n.
Proof. revert s; induction n as [|n IH]; intros [|c s]; simpl; try done; try lia. intros. rewrite IH; lia. Qed.

Lemma substring_longer s t n :
  (String.length s <= n)%nat -> substring 0 n (s ++ t) = (s ++ substring 0 (n - String.length s) t)%string.
Proof.
  revert n; induction s as [|c s IH]; intros n Hn; simpl in *; [by rewrite Nat.sub_0_r|].
  destruct n as [|n]; [lia|]. simpl. rewrite IH by lia. done.
Qed.

Lemma rindex_lacks c s : lacks c s = true -> rindex c s = None.
Proof.
  induction s as [|d s IH]; simpl; [done|]. intros [Hd Hs]%andb_true_iff. rewrite IH by done. by destruct (Ascii.eqb d c).
Qed.

(** The last occurrence is the one nothing follows. *)
Lemma rindex_last c s t : lacks c t = true -> rindex c (s ++ String c t) = Some (String.length s).
Proof.
  intros Ht. induction s as [|d s IH]; simpl.
  - by rewrite rindex_lacks, Ascii.eqb_refl.
  - by rewrite IH.
Qed.

Lemma rindex_lt c s n : rindex c s = Some n -> (n < String.length s)%nat.
Proof.
  revert n; induction s as [|d s IH]; simpl; [done|]. intros n. destruct (rindex c s) as [k|].
  - intros [= <-]. specialize (IH k eq_refl). lia.
  - case_match; [|done]. intros [= <-]. lia.
Qed.

Lemma rindex_found c s t : lacks c s = false -> is_Some (rindex c (s ++ t)).
Proof.
  induction s as [|d s IH]; simpl; [done|]. destruct (Ascii.eqb d c); simpl.
  - destruct (rindex c (s ++ t)); eauto.
  - intros Hs. destruct (IH Hs) as [n ->]. eauto.
Qed.

Lemma index_char_lacks c s : lacks c s = true -> String.index 0 (String c "") s = None.
Proof.
  induction s as [|d s IH]; simpl; [done|]. intros [Hd Hs]%andb_true_iff. rewrite IH by done.
  destruct (ascii_dec c d) as [->|]; [|done]. by rewrite Ascii.eqb_refl in Hd.
Qed.

Lemma index_char_first c s t :
  lacks c s = true -> String.index 0 (String c "") (s ++ String c t) = Some (String.length s).
Proof.
  induction s as [|d s IH]; simpl.
  - intros _. destruct (ascii_dec c c); [by destruct t|done].
  - intros [Hd Hs]%andb_true_iff. rewrite IH by done.
    destruct (ascii_dec c d) as [->|]; [|done]. by rewrite Ascii.eqb_refl in Hd.
Qed.

Lemma index_sdrop p key s :
  (p <= String.length s)%nat -> String.index p key s = Nat.add p <$> String.index 0 key (sdrop p s).
Proof.
  revert s; induction p as [|p IH]; intros s Hp.
  - simpl. destruct (String.index 0 key s); done.
  - destruct s as [|c s]; simpl in *; [lia|]. rewrite IH by lia. by destruct (String.index 0 key (sdrop p s)).
Qed.

(** A text is its pieces with the separators between them. *)
Definition path_of (sep : ascii) (ws : list string) : string :=
  foldr (fun w s => String sep (w ++ s)) ""%string ws.

Lemma path_of_split sep s : path_of sep (split_on sep s) = String sep s.
Proof.
  induction s as [|c s IH]; simpl; [done|]. destruct (Ascii.eqb_spec c sep) as [->|].
  - simpl. by rewrite IH.
  - destruct (split_on sep s) as [|w ws]; simpl in *; [done|]. by injection IH as ->.
Qed.

Lemma path_of_snoc sep ws w : path_of sep (ws ++ [w]) = (path_of sep ws ++ String sep w)%string.
Proof.
  induction ws as [|v ws IH]; simpl.
  - by rewrite string_app_nil.
  - rewrite IH. by rewrite string_app_assoc.
Qed.

Lemma split_on_lacks sep s : Forall (fun w => lacks sep w = true) (split_on sep s).
Proof.
  induction s as [|c s IH]; simpl; [by repeat constructor|]. destruct (Ascii.eqb c sep) eqn:Hc; [by constructor|].
  destruct (split_on sep s) as [|w ws]; [repeat constructor; simpl; by rewrite Hc|].
  inversion_clear IH. constructor; [|done]. simpl. by rewrite Hc.
Qed.

Lemma length_sdrop n s : String.length (sdrop n s) = (String.length s - n)%nat.
Proof. revert s; induction n as [|n IH]; intros [|c s]; simpl; done. Qed.

Lemma split_on_length sep s : (length (split_on sep s) <= S (String.length s))%nat.
Proof.
  induction s as [|c s IH]; simpl; [lia|]. case_match; simpl; [lia|]. destruct (split_on sep s); simpl in *; lia.
Qed.

Lemma substring_all n s : (String.length s <= n)%nat -> substring 0 n s = s.
Proof. revert s; induction n as [|n IH]; intros [|c s]; simpl; try done; [lia|]. intros. rewrite IH by lia. done. Qed.

(** A substring that asks for more than there is. *)
Lemma substring_min n m s :
  (m <= n)%nat -> (n <= m \/ String.length s <= m)%nat -> substring 0 n s = substring 0 m s.
Proof.
  intros Hm [Hn|Hs]; [by replace n with m by lia|]. by rewrite !substring_all by lia.
Qed.

(** ** The fields after a code *)

Definition string_tail (s : string) : string := match s with String _ s' => s' | EmptyString => EmptyString end.

(** The separator after the code is white space for [sscanf]. *)
Lemma sscanf_tail fs cs :
  cs <> [] -> Forall2 scans fs cs -> sscanf cs (string_tail (print_fields fs)) = Some (value_of <$> fs).
Proof. intros Hcs H. rewrite <- (sscanf_print fs cs H). destruct fs; [done|]. cbn. by rewrite sscanf_skips. Qed.

Ltac solve_scans := repeat first [apply Forall2_nil_2 | apply Forall2_cons_2]; simpl;
  unfold int32, int64 in *; intuition lia.
Ltac parse_fields := rewrite sscanf_tail; [simpl fmap; cbv iota|done|solve_scans].
