(* ===== verification/Sectors.v ===== *)
(** * The set of data sectors of a file

    [CapioFile::_sectors] is a [std::set] of pairs ordered by their first
    component: the ranges of the file that hold data.  The set is the list of
    its elements in iteration order, and an iterator is an index in that list,
    the length of the list being [end()].  The operations are those of
    [capio_file.cpp] that read or change the set. *)
From S2P Require Import Prelude.

Abbreviation sector := (Z * Z)%type.
Abbreviation sectors := (list (Z * Z)).

(** [CAPIO_SECTOR_NOT_FOUND] *)
Definition CAPIO_SECTOR_NOT_FOUND : Z := -1.

(** [compareSectors::operator()] *)
Definition compareSectors (lhs rhs : sector) : bool := lhs.1 <? rhs.1.

(** [_sectors.lower_bound]: the first element not ordered before [k]. *)
Fixpoint lower_bound (k : sector) (l : sectors) : nat :=
  match l with
  | [] => 0
  | x :: l' => if compareSectors x k then S (lower_bound k l') else 0%nat
  end.

(** [_sectors.upper_bound]: the first element ordered after [k]. *)
Fixpoint upper_bound (k : sector) (l : sectors) : nat :=
  match l with
  | [] => 0
  | x :: l' => if compareSectors k x then 0%nat else S (upper_bound k l')
  end.

(** [_sectors.emplace]: no effect when an element compares equal. *)
Fixpoint set_emplace (x : sector) (l : sectors) : sectors :=
  match l with
  | [] => [x]
  | y :: l' =>
      if compareSectors x y then x :: y :: l'
      else if compareSectors y x then y :: set_emplace x l'
      else y :: l'
  end.

(** [_sectors.erase(first, last)] *)
Definition set_erase (first last : nat) (l : sectors) : sectors :=
  take first l ++ drop last l.

(** [LLONG_MIN], the second component of the keys of [insertSector]. *)
Definition LLONG_MIN : Z := - 2 ^ 63.

(** [CapioFile::insertSector], the update of [_sectors]. *)
Definition insertSector (l : sectors) (new_start new_end : Z) : sectors :=
  let it_start := lower_bound (new_start, LLONG_MIN) l in
  let '(new_start, new_end, it_start) :=
    match it_start with
    | O => (new_start, new_end, it_start)
    | S p =>
        match l !! p with
        | Some it_prev =>
            if new_start <=? it_prev.2
            then (it_prev.1, Z.max new_end it_prev.2, p)
            else (new_start, new_end, it_start)
        | None => (new_start, new_end, it_start)
        end
    end in
  let it_end := upper_bound (new_end + 1, LLONG_MIN) l in
  let new_end :=
    match it_end with
    | O => new_end
    | S p =>
        match l !! p with
        | Some it_last => if new_end <? it_last.2 then it_last.2 else new_end
        | None => new_end
        end
    end in
  set_emplace (new_start, new_end) (set_erase it_start it_end l).

(** [CapioFile::getFileSize] and [CapioFile::_getStoredSize]: the end of the
    last sector, [_sectors.rbegin()->second]. *)
Definition getFileSize (l : sectors) : Z :=
  match last l with
  | Some s => s.2
  | None => 0
  end.

(** [CapioFile::getSectorEnd] *)
Definition getSectorEnd (l : sectors) (offset : Z) : Z :=
  match l with
  | [] => CAPIO_SECTOR_NOT_FOUND
  | _ =>
      match upper_bound (offset, 0) l with
      | O => CAPIO_SECTOR_NOT_FOUND
      | S it =>
          match l !! it with
          | Some s => if offset <=? s.2 then s.2 else CAPIO_SECTOR_NOT_FOUND
          | None => CAPIO_SECTOR_NOT_FOUND
          end
      end
  end.

(** [CapioFile::seekData] *)
Definition seekData (l : sectors) (offset : Z) : Z :=
  match l with
  | [] => if offset =? 0 then 0 else -1
  | first :: _ =>
      match upper_bound (offset, 0) l with
      | O => first.1
      | S it =>
          match l !! it with
          | Some s =>
              if offset <=? s.2 then offset
              else match l !! S it with
                   | None => -1
                   | Some next => next.1
                   end
          | None => -1
          end
      end
  end.

(** [CapioFile::seekHole] *)
Definition seekHole (l : sectors) (offset : Z) : Z :=
  match l with
  | [] => if offset =? 0 then 0 else -1
  | first :: _ =>
      match upper_bound (offset, 0) l with
      | O => offset
      | S it =>
          match l !! it with
          | Some s =>
              if offset <=? s.2 then s.2
              else match l !! S it with
                   | None => -1
                   | Some _ => offset
                   end
          | None => -1
          end
      end
  end.

(** ** Well-formed sets

    The sectors are not empty the wrong way round, and each one ends strictly
    before the next one starts. *)
Definition apart (p q : sector) : Prop := p.2 < q.1.
Definition sectors_wf (l : sectors) : Prop :=
  StronglySorted apart l /\ Forall (fun s => s.1 <= s.2) l.

(** The offsets a set describes, a sector being read as the closed interval of
    its two ends ([covers], the reading of [getSectorEnd]) or as the bytes
    from its start to its end excluded ([holds], the reading of the writers
    and of [HeapStorageInterface::grow]). *)
Definition covers (l : sectors) (x : Z) : Prop := Exists (fun s => s.1 <= x <= s.2) l.
Definition holds (l : sectors) (x : Z) : Prop := Exists (fun s => s.1 <= x < s.2) l.

#[export] Instance covers_dec l x : Decision (covers l x).
Proof. unfold covers. apply _. Defined.
#[export] Instance holds_dec l x : Decision (holds l x).
Proof. unfold holds. apply _. Defined.

Lemma covers_app l1 l2 x : covers (l1 ++ l2) x <-> covers l1 x \/ covers l2 x.
Proof. apply Exists_app. Qed.
Lemma covers_cons s l x : covers (s :: l) x <-> s.1 <= x <= s.2 \/ covers l x.
Proof. apply Exists_cons. Qed.
Lemma covers_nil x : ~ covers [] x.
Proof. intros H. inversion H. Qed.
Lemma holds_app l1 l2 x : holds (l1 ++ l2) x <-> holds l1 x \/ holds l2 x.
Proof. apply Exists_app. Qed.
Lemma holds_cons s l x : holds (s :: l) x <-> s.1 <= x < s.2 \/ holds l x.
Proof. apply Exists_cons. Qed.
Lemma holds_nil x : ~ holds [] x.
Proof. intros H. inversion H. Qed.
Lemma holds_covers l x : holds l x -> covers l x.
Proof. intros H. eapply Exists_impl; [exact H|]. simpl. intros. lia. Qed.

(** A set is split by any offset: what is before and what is after. *)
Lemma wf_nil : sectors_wf [].
Proof. split; constructor. Qed.

Lemma wf_cons s l :
  sectors_wf (s :: l) <->
  s.1 <= s.2 /\ Forall (apart s) l /\ sectors_wf l.
Proof.
  unfold sectors_wf. split.
  - intros [H1 H2]. inversion_clear H1. inversion_clear H2. auto.
  - intros (H1 & H2 & H3 & H4). split; constructor; auto.
Qed.

Lemma wf_app l1 l2 :
  sectors_wf (l1 ++ l2) <->
  sectors_wf l1 /\ sectors_wf l2 /\
  (forall p q, p ∈ l1 -> q ∈ l2 -> apart p q).
Proof.
  induction l1 as [|s l1 IH]; simpl.
  - split; [intros; split_and!; auto using wf_nil; set_solver | tauto].
  - rewrite !wf_cons, IH, Forall_app, !Forall_forall. split.
    + intros (? & [? ?] & ? & ? & Hsep). split_and!; auto.
      intros p q [->|Hp]%elem_of_cons Hq; auto.
    + intros ((? & ? & ?) & ? & Hsep). split_and!; auto.
      * intros q Hq. apply Hsep; [left | done].
      * intros p q Hp Hq. apply Hsep; [by right | done].
Qed.

Lemma wf_sorted_fst l p q l1 l2 :
  sectors_wf l -> l = l1 ++ l2 -> p ∈ l1 -> q ∈ l2 -> p.1 < q.1.
Proof.
  intros Hwf -> Hp Hq. apply wf_app in Hwf as (Hwf1 & Hwf2 & Hsep).
  specialize (Hsep p q Hp Hq). unfold apart in Hsep.
  destruct Hwf1 as [_ H]. rewrite Forall_forall in H. specialize (H p Hp). lia.
Qed.

Lemma lower_bound_spec k l :
  sectors_wf l ->
  exists L R, l = L ++ R /\ lower_bound k l = length L /\
    Forall (fun s => s.1 < k.1) L /\ Forall (fun s => k.1 <= s.1) R.
Proof.
  induction l as [|s l IH]; intros Hwf; simpl.
  - exists [], []. auto.
  - unfold compareSectors. destruct (Z.ltb_spec s.1 k.1).
    + apply wf_cons in Hwf as (? & ? & Hwf). destruct (IH Hwf) as (L & R & -> & -> & ? & ?).
      exists (s :: L), R. auto.
    + exists [], (s :: l). split_and!; auto. apply Forall_forall. intros q Hq.
      apply elem_of_cons in Hq as [->|Hq]; [done|].
      pose proof (wf_sorted_fst _ s q [s] l Hwf eq_refl) as Hlt.
      assert (s.1 < q.1) by (apply Hlt; set_solver). lia.
Qed.

Lemma upper_bound_spec k l :
  sectors_wf l ->
  exists L R, l = L ++ R /\ upper_bound k l = length L /\
    Forall (fun s => s.1 <= k.1) L /\ Forall (fun s => k.1 < s.1) R.
Proof.
  induction l as [|s l IH]; intros Hwf; simpl.
  - exists [], []. auto.
  - unfold compareSectors. destruct (Z.ltb_spec k.1 s.1).
    + exists [], (s :: l). split_and!; auto. apply Forall_forall. intros q Hq.
      apply elem_of_cons in Hq as [->|Hq]; [done|].
      pose proof (wf_sorted_fst _ s q [s] l Hwf eq_refl) as Hlt.
      assert (s.1 < q.1) by (apply Hlt; set_solver). lia.
    + apply wf_cons in Hwf as (? & ? & Hwf). destruct (IH Hwf) as (L & R & -> & -> & ? & ?).
      exists (s :: L), R. auto.
Qed.

(** Two splits of the same list, one part of each satisfying [P] and the other
    not, are nested. *)
Lemma split_nested {A} (P : A -> Prop) (L R U V : list A) :
  L ++ R = U ++ V -> Forall P L -> Forall (fun x => ~ P x) V ->
  exists K, U = L ++ K /\ R = K ++ V.
Proof.
  intros Heq HL HV. apply app_eq_inv in Heq as [(K & -> & ->) | (K & -> & ->)].
  - destruct K as [|x K].
    + exists []. by rewrite !app_nil_r.
    + apply Forall_app in HL as [_ HL]. inversion_clear HL. inversion_clear HV. contradiction.
  - by exists K.
Qed.

Lemma set_emplace_app s e L V :
  Forall (fun p => p.1 < s) L -> Forall (fun q => s < q.1) V ->
  set_emplace (s, e) (L ++ V) = L ++ (s, e) :: V.
Proof.
  intros HL HV. induction HL as [|p L Hp HL IH]; simpl.
  - destruct V as [|q V]; [done|]. inversion_clear HV. unfold set_emplace, compareSectors.
    simpl. by destruct (Z.ltb_spec s q.1); [|lia].
  - unfold compareSectors; simpl. destruct (Z.ltb_spec s p.1); [lia|].
    destruct (Z.ltb_spec p.1 s); [|lia]. by rewrite IH.
Qed.

Lemma snoc_app {A} (l : list A) x l' : (l ++ [x]) ++ l' = l ++ x :: l'.
Proof. by rewrite <- app_assoc. Qed.

(** The left half of [insertSector]: the sector before the new range is taken
    in when it reaches the range. *)
Lemma insertSector_left l ns ne :
  sectors_wf l -> ns <= ne ->
  exists L P R s e,
    l = L ++ P ++ R /\
    Forall (fun p => p.2 < s) L /\ Forall (fun q => ns <= q.1) R /\
    ((P = [] /\ s = ns /\ e = ne) \/
     (exists p, P = [p] /\ p.1 < ns <= p.2 /\ s = p.1 /\ e = Z.max ne p.2)) /\
    (let it_start := lower_bound (ns, LLONG_MIN) l in
     match it_start with
     | O => (ns, ne, it_start)
     | S p => match l !! p with
              | Some it_prev =>
                  if ns <=? it_prev.2 then (it_prev.1, Z.max ne it_prev.2, p)
                  else (ns, ne, it_start)
              | None => (ns, ne, it_start)
              end
     end) = (s, e, length L).
Proof.
  intros Hwf Hle. destruct (lower_bound_spec (ns, LLONG_MIN) l Hwf) as (L & R & -> & Hlb & HL & HR).
  simpl in *. rewrite Hlb. destruct L as [|p L _] using rev_ind.
  { exists [], [], R, ns, ne. split_and!; auto. }
  rewrite length_app, Nat.add_1_r, snoc_app.
  rewrite list_lookup_middle by done.
  apply Forall_app in HL as [HL Hp]. inversion_clear Hp.
  rewrite snoc_app in Hwf. pose proof Hwf as Hwf'.
  apply wf_app in Hwf' as (_ & Hwf2 & Hsep). apply wf_cons in Hwf2 as (? & _).
  assert (Forall (fun q => q.2 < p.1) L).
  { apply Forall_forall. intros q Hq. apply Hsep; [done | left]. }
  destruct (Z.leb_spec ns p.2).
  - exists L, [p], R, p.1, (Z.max ne p.2). split_and!; auto. right. exists p. split_and!; auto.
  - exists (L ++ [p]), [], R, ns, ne. rewrite snoc_app, length_app, Nat.add_1_r.
    split_and!; auto. apply Forall_app. split; [|by constructor].
    eapply Forall_impl; [eassumption|]. simpl. intros. lia.
Qed.

(** The right half: the sectors that start inside the range, or one past its
    end, are taken in, the last one with its end. *)
Lemma insertSector_right L T s e :
  sectors_wf (L ++ T) -> s <= e -> Forall (fun p => p.2 < s) L ->
  Forall (fun q => s <= q.1) T ->
  exists K V e',
    T = K ++ V /\ Forall (fun q => e' < q.1) V /\ e <= e' /\
    Forall (fun k => k.1 <= e + 1 /\ k.2 <= e') K /\
    (e' = e \/ exists k, k ∈ K /\ k.1 <= e + 1 /\ e < k.2 /\ e' = k.2) /\
    (let it_end := upper_bound (e + 1, LLONG_MIN) (L ++ T) in
     let e1 :=
       match it_end with
       | O => e
       | S p => match (L ++ T) !! p with
                | Some it_last => if e <? it_last.2 then it_last.2 else e
                | None => e
                end
       end in
     set_emplace (s, e1) (set_erase (length L) it_end (L ++ T))) = L ++ (s, e') :: V.
Proof.
  intros Hwf Hle HL HT.
  destruct (upper_bound_spec (e + 1, LLONG_MIN) _ Hwf) as (U & V & Heq & Hub & HU & HV).
  simpl in *. rewrite Hub.
  assert (Hlo : Forall (fun p => p.1 < s) L).
  { apply wf_app in Hwf as ((_ & Hw) & _). rewrite Forall_forall in *.
    intros p Hp. specialize (Hw p Hp). specialize (HL p Hp). lia. }
  destruct (split_nested (fun p => p.1 <= e + 1) L T U V Heq) as (K & -> & ->).
  { weaken Hlo. }
  { weaken HV. }
  apply Forall_app in HU as [_ HK]. apply Forall_app in HT as [_ HTV].
  unfold set_erase. rewrite take_app_length, app_assoc, drop_app_length.
  assert (HsV : Forall (fun q => s < q.1) V).
  { weaken HV. }
  destruct K as [|k K _] using rev_ind.
  - exists [], V, e. rewrite app_nil_r. split_and!; auto; try lia.
    { weaken HV. }
    destruct L as [|p L _] using rev_ind; [by rewrite set_emplace_app|].
    rewrite length_app, Nat.add_1_r, snoc_app, list_lookup_middle by done.
    apply Forall_app in HL as [_ Hp]. inversion_clear Hp. destruct (Z.ltb_spec e p.2); [lia|].
    rewrite <- snoc_app. by rewrite set_emplace_app.
  - rewrite (app_assoc L K [k]), (length_app (L ++ K)), Nat.add_1_r.
    rewrite (snoc_app (L ++ K) k V), list_lookup_middle by done.
    apply Forall_app in HK as [HK Hk]. inversion_clear Hk.
    rewrite (app_assoc L (K ++ [k]) V), (app_assoc L K [k]) in Hwf.
    rewrite snoc_app in Hwf.
    apply wf_app in Hwf as (_ & Hw2 & Hsep). apply wf_cons in Hw2 as (Hkk & HkV & _).
    assert (HK2 : forall q, q ∈ K -> q.2 < k.1).
    { intros q Hq. apply Hsep; [apply elem_of_app; by right | left]. }
    exists (K ++ [k]), V, (Z.max e k.2). rewrite set_emplace_app by done.
    split_and!; auto.
    + rewrite Forall_forall in *. intros q Hq. specialize (HV q Hq). specialize (HkV q Hq).
      unfold apart in HkV. simpl in *. lia.
    + lia.
    + apply Forall_app. split; [|constructor; [split; lia | constructor]].
      rewrite Forall_forall in *. intros q Hq. specialize (HK q Hq). specialize (HK2 q Hq). lia.
    + destruct (Z.max_spec e k.2) as [[? ->]|[? ->]]; [right | by left].
      exists k. split_and!; auto. apply elem_of_app. right. by left.
    + destruct (Z.ltb_spec e k.2); do 3 f_equal; lia.
Qed.

(** What [insertSector] does to a well-formed set: the sectors [K] that meet
    the new range are replaced by one sector that spans them. *)
Lemma insertSector_shape l ns ne :
  sectors_wf l -> ns <= ne ->
  exists L K R s e,
    l = L ++ K ++ R /\ insertSector l ns ne = L ++ (s, e) :: R /\
    Forall (fun p => p.2 < s) L /\ Forall (fun q => e < q.1) R /\
    s <= ns /\ ne <= e /\ Forall (fun k => s <= k.1 /\ k.2 <= e) K /\
    (forall x, s <= x <= e -> ns <= x <= ne \/ covers K x) /\
    (forall x, s <= x < e -> ns <= x < ne \/ holds K x \/
       ((x = ne \/ exists p, p ∈ K /\ p.2 = x) /\ exists k, k ∈ K /\ k.1 = x + 1)).
Proof.
  intros Hwf Hle.
  destruct (insertSector_left l ns ne Hwf Hle) as (L & P & R & s & e1 & -> & HL & HR & HP & Hleft).
  assert (HT : Forall (fun q => s <= q.1) (P ++ R) /\ s <= ns /\ ne <= e1).
  { rewrite Forall_app. destruct HP as [(-> & -> & ->) | (p & -> & ? & -> & ->)].
    - split_and!; auto; lia.
    - split_and!; try lia; [constructor; [lia | constructor] |].
      weaken HR. }
  destruct HT as (HT & Hs & He).
  destruct (insertSector_right L (P ++ R) s e1 Hwf ltac:(lia) HL HT)
    as (K & V & e & HKV & HV & Hee & HK & He' & Hright).
  assert (HPK : forall p, P = [p] -> p ∈ K).
  { intros p ->. destruct K as [|k K]; simpl in *.
    - destruct HP as [[? _]|(p' & [= <-] & ?)]; [done|]. subst V. inversion_clear HV. lia.
    - simplify_eq. left. }
  exists L, K, V, s, e. rewrite HKV in *. unfold insertSector. cbv zeta in *.
  rewrite Hleft. split_and!; auto; try lia.
  - apply Forall_app in HT as [HT _]. rewrite Forall_forall in *. intros k Hk.
    specialize (HK k Hk). specialize (HT k Hk). lia.
  - intros x Hx. unfold covers. rewrite Exists_exists.
    destruct (Z.le_gt_cases x e1).
    + destruct HP as [(-> & -> & ->) | (p & -> & ? & -> & ->)]; [lia|].
      destruct (decide (ns <= x <= ne)); [by left|].
      right. exists p. split; [by apply HPK | lia].
    + destruct He' as [-> | (k & Hk & ? & ? & ->)]; [lia|]. right. exists k. split; [done | lia].
  - intros x Hx. unfold holds. rewrite Exists_exists.
    destruct (Z.lt_ge_cases x e1).
    + destruct HP as [(-> & -> & ->) | (p & -> & ? & -> & ->)]; [lia|].
      destruct (decide (ns <= x < ne)); [by left|].
      right; left. exists p. split; [by apply HPK | lia].
    + destruct He' as [-> | (k & Hk & ? & ? & ->)]; [lia|].
      destruct (Z.le_gt_cases k.1 x); [right; left; exists k; split; [done | lia]|].
      right; right. split; [|exists k; split; [done | lia]].
      assert (x = e1) as -> by lia.
      destruct HP as [(-> & -> & ->) | (p & -> & ? & -> & ->)]; [by left|].
      destruct (Z.max_spec ne p.2) as [[? ->]|[? ->]]; [right | by left].
      exists p. split; [by apply HPK | done].
Qed.

(** Inserting a range keeps the set well formed. *)
Lemma insertSector_wf_aux l ns ne :
  sectors_wf l -> ns <= ne -> sectors_wf (insertSector l ns ne).
Proof.
  intros Hwf Hle.
  destruct (insertSector_shape l ns ne Hwf Hle)
    as (L & K & R & s & e & -> & -> & HL & HR & ? & ? & _ & _ & _).
  apply wf_app in Hwf as (HwL & HwKR & Hsep). apply wf_app in HwKR as (_ & HwR & _).
  rewrite Forall_forall in HL. apply wf_app. split_and!; auto.
  - apply wf_cons. simpl. split_and!; auto; lia.
  - intros p q Hp [->|Hq]%elem_of_cons; unfold apart; simpl; [by apply HL|].
    apply Hsep; [done|]. apply elem_of_app. by right.
Qed.

Lemma insertSector_covers_aux l ns ne x :
  sectors_wf l -> ns <= ne ->
  covers (insertSector l ns ne) x <-> covers l x \/ ns <= x <= ne.
Proof.
  intros Hwf Hle.
  destruct (insertSector_shape l ns ne Hwf Hle)
    as (L & K & R & s & e & -> & -> & _ & _ & ? & ? & HK & Hcov & _).
  rewrite !covers_app, covers_cons. simpl. split.
  - intros [?|[Hx|?]]; [tauto| |tauto]. destruct (Hcov x Hx); tauto.
  - intros [[?|[HxK|?]]|?]; [tauto| |tauto|right; left; lia].
    right; left. unfold covers in HxK. rewrite Exists_exists in HxK. rewrite Forall_forall in HK.
    destruct HxK as (k & Hk & ?). specialize (HK k Hk). lia.
Qed.

Lemma insertSector_holds_sub l ns ne x :
  sectors_wf l -> ns <= ne ->
  holds l x \/ ns <= x < ne -> holds (insertSector l ns ne) x.
Proof.
  intros Hwf Hle.
  destruct (insertSector_shape l ns ne Hwf Hle)
    as (L & K & R & s & e & -> & -> & _ & _ & ? & ? & HK & _ & _).
  rewrite !holds_app, holds_cons. simpl.
  intros [[?|[HxK|?]]|?]; [tauto| |tauto|right; left; lia].
  right; left. unfold holds in HxK. rewrite Exists_exists in HxK. rewrite Forall_forall in HK.
  destruct HxK as (k & Hk & ?). specialize (HK k Hk). lia.
Qed.

Lemma insertSector_holds_inv l ns ne x :
  sectors_wf l -> ns <= ne -> holds (insertSector l ns ne) x ->
  holds l x \/ ns <= x < ne \/
  ((x = ne \/ exists p, p ∈ l /\ p.2 = x) /\ exists k, k ∈ l /\ k.1 = x + 1).
Proof.
  intros Hwf Hle.
  destruct (insertSector_shape l ns ne Hwf Hle)
    as (L & K & R & s & e & -> & -> & _ & _ & ? & ? & _ & _ & Hh).
  rewrite !holds_app, holds_cons. simpl.
  intros [?|[Hx|?]]; [tauto| |tauto].
  destruct (Hh x Hx) as [?|[?|[Hp (k & Hk & ?)]]]; [tauto|tauto|].
  right; right. split.
  - destruct Hp as [?|(p & ? & ?)]; [by left|]. right. exists p. split; [|done].
    rewrite !elem_of_app. tauto.
  - exists k. split; [|done]. rewrite !elem_of_app. tauto.
Qed.

(** ** Lookups *)

(** Where an offset falls: before the first sector, or at or after the start
    of a sector [s] that starts last at or before it. *)
Lemma upper_bound_cases l x :
  sectors_wf l ->
  (upper_bound (x, 0) l = 0%nat /\ Forall (fun q => x < q.1) l) \/
  (exists L s R, l = L ++ s :: R /\ upper_bound (x, 0) l = S (length L) /\
     Forall (fun p => p.2 < s.1) L /\ s.1 <= x /\ s.1 <= s.2 /\
     Forall (fun q => x < q.1 /\ s.2 < q.1) R).
Proof.
  intros Hwf. destruct (upper_bound_spec (x, 0) l Hwf) as (L & R & -> & Hub & HL & HR).
  simpl in *. destruct L as [|s L _] using rev_ind; [by left; auto|right].
  rewrite snoc_app in *. rewrite length_app, Nat.add_1_r in Hub.
  apply Forall_app in HL as [_ Hs]. inversion_clear Hs.
  apply wf_app in Hwf as (_ & Hw & Hsep). apply wf_cons in Hw as (? & HsR & _).
  exists L, s, R. split_and!; auto.
  - apply Forall_forall. intros p Hp. apply Hsep; [done | left].
  - rewrite Forall_forall in *. intros q Hq. split; [by apply HR | by apply HsR].
Qed.

Lemma not_covers_before l x : Forall (fun q => x < q.1) l -> ~ covers l x.
Proof.
  unfold covers. rewrite Exists_exists, Forall_forall. intros H (s & Hs & ?).
  specialize (H s Hs). lia.
Qed.
Lemma not_covers_after l x : Forall (fun q => q.2 < x) l -> ~ covers l x.
Proof.
  unfold covers. rewrite Exists_exists, Forall_forall. intros H (s & Hs & ?).
  specialize (H s Hs). lia.
Qed.
Lemma not_holds_before l x : Forall (fun q => x < q.1) l -> ~ holds l x.
Proof. intros H Hx%holds_covers. by eapply not_covers_before. Qed.
Lemma not_holds_after l x : Forall (fun q => q.2 <= x) l -> ~ holds l x.
Proof.
  unfold holds. rewrite Exists_exists, Forall_forall. intros H (s & Hs & ?).
  specialize (H s Hs). lia.
Qed.

(** [getSectorEnd] finds the sector whose closed interval contains the offset. *)
Lemma getSectorEnd_spec l x :
  sectors_wf l ->
  (exists s, s ∈ l /\ s.1 <= x <= s.2 /\ getSectorEnd l x = s.2) \/
  (~ covers l x /\ getSectorEnd l x = CAPIO_SECTOR_NOT_FOUND).
Proof.
  intros Hwf. destruct (upper_bound_cases l x Hwf)
    as [[Hub Hall] | (L & s & R & -> & Hub & HL & ? & ? & HR)].
  - right. split; [by apply not_covers_before|].
    unfold getSectorEnd. rewrite Hub. by destruct l.
  - assert (Hend : getSectorEnd (L ++ s :: R) x =
        if x <=? s.2 then s.2 else CAPIO_SECTOR_NOT_FOUND).
    { unfold getSectorEnd. rewrite Hub, list_lookup_middle by done. by destruct L. }
    rewrite Hend. destruct (Z.leb_spec x s.2).
    + left. exists s. split_and!; auto. apply elem_of_app. right. left.
    + right. split; [|done]. rewrite covers_app, covers_cons.
      intros [Hc|[Hc|Hc]]; [|lia|].
      * revert Hc. apply not_covers_after. weaken HL.
      * revert Hc. apply not_covers_before. weaken HR.
Qed.

Lemma getSectorEnd_found l x :
  sectors_wf l -> Forall (fun s => 0 <= s.1) l ->
  getSectorEnd l x <> CAPIO_SECTOR_NOT_FOUND <-> covers l x.
Proof.
  intros Hwf Hnn. destruct (getSectorEnd_spec l x Hwf) as [(s & Hs & ? & ->)|[? ->]].
  - split; [intros _ | intros _].
    + apply Exists_exists. eauto.
    + rewrite Forall_forall in Hnn. specialize (Hnn s Hs). unfold CAPIO_SECTOR_NOT_FOUND. lia.
  - tauto.
Qed.

(** The bytes from the offset to the reported end are all held. *)
Lemma getSectorEnd_holds l x y :
  sectors_wf l -> x <= y < getSectorEnd l x -> 0 <= x -> holds l y.
Proof.
  intros Hwf Hy Hx. destruct (getSectorEnd_spec l x Hwf) as [(s & Hs & ? & Hend)|[? Hend]];
    rewrite Hend in Hy.
  - apply Exists_exists. exists s. split; [done | lia].
  - unfold CAPIO_SECTOR_NOT_FOUND in Hy. lia.
Qed.

(** The reported end is where the data stops: no byte is held there. *)
Lemma getSectorEnd_maximal l x :
  sectors_wf l -> covers l x -> ~ holds l (getSectorEnd l x).
Proof.
  intros Hwf Hc. destruct (upper_bound_cases l x Hwf)
    as [[Hub Hall] | (L & s & R & -> & Hub & HL & ? & ? & HR)].
  - by apply not_covers_before in Hall.
  - unfold getSectorEnd. rewrite Hub, list_lookup_middle by done.
    destruct (Z.leb_spec x s.2).
    + assert (Hnot : ~ holds (L ++ s :: R) s.2); [|by destruct L].
      rewrite holds_app, holds_cons. intros [Hh|[Hh|Hh]]; [|lia|]; revert Hh.
      * apply not_holds_after. weaken HL.
      * apply not_holds_before. weaken HR.
    + exfalso. revert Hc. rewrite covers_app, covers_cons. intros [Hc|[Hc|Hc]]; [|lia|]; revert Hc.
      * apply not_covers_after. weaken HL.
      * apply not_covers_before. weaken HR.
Qed.

(** Every sector ends at or before the size of the file. *)
Lemma getFileSize_max l : sectors_wf l -> Forall (fun s => s.2 <= getFileSize l) l.
Proof.
  intros Hwf. unfold getFileSize. destruct l as [|s l _] using rev_ind; [constructor|].
  rewrite last_snoc. apply wf_app in Hwf as (_ & Hw & Hsep). apply wf_cons in Hw as (? & _).
  apply Forall_app. split; [|by constructor].
  apply Forall_forall. intros p Hp. assert (apart p s) by (apply Hsep; [done | left]).
  unfold apart in *. lia.
Qed.

Lemma getFileSize_covers l : sectors_wf l -> l <> [] -> covers l (getFileSize l).
Proof.
  intros [_ Hwf] Hne. unfold getFileSize. destruct l as [|s l _] using rev_ind; [done|].
  rewrite last_snoc. apply Forall_app in Hwf as [_ Hs]. inversion_clear Hs.
  apply covers_app. right. apply covers_cons. left. lia.
Qed.

Lemma covers_le_getFileSize l x : sectors_wf l -> covers l x -> x <= getFileSize l.
Proof.
  intros Hwf Hc. pose proof (getFileSize_max l Hwf) as Hmax.
  unfold covers in Hc. rewrite Exists_exists in Hc. rewrite Forall_forall in Hmax.
  destruct Hc as (s & Hs & ?). specialize (Hmax s Hs). simpl in Hmax. lia.
Qed.

Lemma getFileSize_nonneg l :
  sectors_wf l -> Forall (fun s => 0 <= s.1) l -> 0 <= getFileSize l.
Proof.
  intros Hwf Hnn. destruct (decide (l = [])) as [->|Hne]; [done|].
  pose proof (getFileSize_covers l Hwf Hne) as Hc. apply Exists_exists in Hc as (s & Hs & ?).
  rewrite Forall_forall in Hnn. specialize (Hnn s Hs). simpl in Hnn. lia.
Qed.

Lemma insertSector_nonempty l ns ne : insertSector l ns ne <> [].
Proof.
  unfold insertSector. repeat case_match; simplify_eq;
  match goal with |- set_emplace ?x ?l <> [] => destruct l as [|y m]; simpl end;
    repeat case_match; done.
Qed.

(** A write extends the file to its end, and never shrinks it. *)
Lemma getFileSize_insertSector l ns ne :
  sectors_wf l -> Forall (fun s => 0 <= s.1) l -> 0 <= ns <= ne ->
  getFileSize (insertSector l ns ne) = Z.max (getFileSize l) ne.
Proof.
  intros Hwf Hnn Hle.
  pose proof (insertSector_wf_aux l ns ne Hwf ltac:(lia)) as Hwf'.
  pose proof (getFileSize_covers _ Hwf' (insertSector_nonempty l ns ne)) as Hc.
  pose proof (getFileSize_nonneg l Hwf Hnn).
  assert (ne <= getFileSize (insertSector l ns ne)).
  { apply covers_le_getFileSize; [done|]. apply insertSector_covers_aux; auto; lia. }
  assert (getFileSize l <= getFileSize (insertSector l ns ne)).
  { destruct (decide (l = [])) as [->|Hne]; [simpl; unfold getFileSize at 1; simpl; lia|].
    apply covers_le_getFileSize; [done|]. apply insertSector_covers_aux; [done|lia|].
    left. by apply getFileSize_covers. }
  apply insertSector_covers_aux in Hc as [Hc|?]; [|lia|done|lia].
  apply covers_le_getFileSize in Hc; [lia | done].
Qed.

Lemma insertSector_nonneg l ns ne :
  sectors_wf l -> Forall (fun s => 0 <= s.1) l -> 0 <= ns <= ne ->
  Forall (fun s => 0 <= s.1) (insertSector l ns ne).
Proof.
  intros Hwf Hnn Hle. pose proof (insertSector_wf_aux l ns ne Hwf ltac:(lia)) as [_ Hwf'].
  rewrite Forall_forall in *. intros s Hs. specialize (Hwf' s Hs).
  assert (Hc : covers (insertSector l ns ne) s.1) by (apply Exists_exists; exists s; split; [done|lia]).
  apply insertSector_covers_aux in Hc as [Hc|?]; [|lia|done|lia].
  apply Exists_exists in Hc as (q & Hq & ?). specialize (Hnn q Hq). lia.
Qed.

(** ** Seeking *)

Lemma seekData_spec l x :
  sectors_wf l -> l <> [] ->
  (seekData l x = -1 /\ forall y, x <= y -> ~ covers l y) \/
  (x <= seekData l x /\ covers l (seekData l x) /\
   forall y, x <= y < seekData l x -> ~ covers l y).
Proof.
  intros Hwf Hne. destruct (upper_bound_cases l x Hwf)
    as [[Hub Hall] | (L & s & R & -> & Hub & HL & ? & ? & HR)].
  - right. destruct l as [|f l]; [done|]. unfold seekData. rewrite Hub.
    apply Forall_cons in Hall as [Hf Hall]. apply wf_cons in Hwf as (? & Hf' & Hwf).
    split_and!; [lia | apply covers_cons; left; lia |].
    intros y Hy. apply not_covers_before. constructor; [lia|].
    eapply Forall_impl; [exact Hf'|]. unfold apart. simpl; intros; lia.
  - assert (Hs : seekData (L ++ s :: R) x =
        if x <=? s.2 then x else match R with [] => -1 | q :: _ => q.1 end).
    { unfold seekData. rewrite Hub, list_lookup_middle by done.
      replace (S (length L)) with (length (L ++ [s])) by (rewrite length_app; simpl; lia).
      rewrite <- snoc_app. destruct R as [|q R].
      - rewrite app_nil_r, lookup_ge_None_2 by lia. destruct L; simpl; done.
      - rewrite list_lookup_middle by done. by destruct L. }
    rewrite Hs. apply wf_app in Hwf as (_ & Hw & _). apply wf_cons in Hw as (_ & _ & HwR).
    assert (HL' : forall y, x <= y -> ~ covers L y).
    { intros y ?. apply not_covers_after. weaken HL. }
    destruct (Z.leb_spec x s.2).
    + right. split_and!; [lia | apply covers_app; right; apply covers_cons; left; lia | lia].
    + destruct R as [|q R].
      * left. split; [done|]. intros y Hy. rewrite covers_app, covers_cons.
        intros [Hc|[Hc|Hc]]; [by eapply HL' | lia | by apply covers_nil in Hc].
      * right. apply Forall_cons in HR as [? HR]. apply wf_cons in HwR as (? & HqR & _).
        split_and!; [lia | rewrite covers_app, !covers_cons; right; right; left; lia |].
        intros y Hy. rewrite covers_app, covers_cons. intros [Hc|[Hc|Hc]]; [by eapply HL'; [|exact Hc]; lia | lia |].
        revert Hc. apply not_covers_before. constructor; [lia|].
        eapply Forall_impl; [exact HqR|]. unfold apart. simpl; intros; lia.
Qed.

Lemma seekHole_spec l x :
  sectors_wf l -> l <> [] ->
  (seekHole l x = -1 /\ getFileSize l < x) \/
  (x <= seekHole l x /\ x <= getFileSize l /\ ~ holds l (seekHole l x) /\
   forall y, x <= y < seekHole l x -> holds l y).
Proof.
  intros Hwf Hne. pose proof (getFileSize_max l Hwf) as Hmax.
  destruct (upper_bound_cases l x Hwf)
    as [[Hub Hall] | (L & s & R & -> & Hub & HL & ? & ? & HR)].
  - right. destruct l as [|f l]; [done|]. unfold seekHole. rewrite Hub.
    split_and!; [lia | | by apply not_holds_before | lia].
    apply Forall_cons in Hmax as [? _]. apply Forall_cons in Hall as [? _].
    apply wf_cons in Hwf as (? & _). lia.
  - assert (Hs : seekHole (L ++ s :: R) x =
        if x <=? s.2 then s.2 else match R with [] => -1 | q :: _ => x end).
    { unfold seekHole. rewrite Hub, list_lookup_middle by done.
      replace (S (length L)) with (length (L ++ [s])) by (rewrite length_app; simpl; lia).
      rewrite <- snoc_app. destruct R as [|q R].
      - rewrite app_nil_r, lookup_ge_None_2 by lia. destruct L; simpl; done.
      - rewrite list_lookup_middle by done. by destruct L. }
    rewrite Hs. apply Forall_app in Hmax as [_ Hmax]. apply Forall_cons in Hmax as [? HmaxR].
    destruct (Z.leb_spec x s.2).
    + right. split_and!; [lia | lia | |].
      * rewrite holds_app, holds_cons. intros [Hh|[Hh|Hh]]; [|lia|]; revert Hh.
        -- apply not_holds_after. weaken HL.
        -- apply not_holds_before. weaken HR.
      * intros y Hy. apply holds_app. right. apply holds_cons. left. lia.
    + destruct R as [|q R].
      * left. split; [done|]. unfold getFileSize. rewrite last_snoc. lia.
      * right. apply Forall_cons in HmaxR as [? _]. pose proof HR as HR'.
        apply Forall_cons in HR' as [? _].
        apply wf_app in Hwf as (_ & Hw & _). apply wf_cons in Hw as (_ & _ & Hw).
        apply wf_cons in Hw as (? & _).
        split_and!; [lia | lia | | lia].
        rewrite holds_app, holds_cons. intros [Hh|[Hh|Hh]]; [|lia|]; revert Hh.
        -- apply not_holds_after. weaken HL.
        -- apply not_holds_before. weaken HR.
Qed.

(** ** Properties *)

(** C13. [insertSector] implements set union: the set stays well formed, and
    the offsets it covers, read as closed intervals, are those it covered
    before together with the new range. *)
Theorem insertSector_union l new_start new_end :
  sectors_wf l -> new_start <= new_end ->
  sectors_wf (insertSector l new_start new_end) /\
  forall x, covers (insertSector l new_start new_end) x <->
            covers l x \/ new_start <= x <= new_end.
Proof. auto using insertSector_wf_aux, insertSector_covers_aux. Qed.

Lemma insertSector_union_witness :
  sectors_wf [(0, 4); (9, 12)] /\
  sectors_wf (insertSector [(0, 4); (9, 12)] 2 9) /\
  forall x, covers (insertSector [(0, 4); (9, 12)] 2 9) x <->
            covers [(0, 4); (9, 12)] x \/ 2 <= x <= 9.
Proof.
  assert (H : sectors_wf [(0, 4); (9, 12)]).
  { split; repeat constructor; unfold apart; simpl; lia. }
  split; [exact H | apply (insertSector_union _ 2 9); [exact H | lia]].
Defined.

(** Read as the bytes written, each sector without its end, the set never
    loses a byte and gains the new range; the only other byte it can gain is
    one that ends the data on the left when another sector starts right after
    it. *)
Theorem insertSector_bytes l new_start new_end x :
  sectors_wf l -> new_start <= new_end ->
  (holds l x \/ new_start <= x < new_end -> holds (insertSector l new_start new_end) x) /\
  (holds (insertSector l new_start new_end) x ->
   holds l x \/ new_start <= x < new_end \/
   ((x = new_end \/ exists p, p ∈ l /\ p.2 = x) /\ exists k, k ∈ l /\ k.1 = x + 1)).
Proof. split; [by apply insertSector_holds_sub | by apply insertSector_holds_inv]. Qed.

Lemma insertSector_bytes_witness :
  holds (insertSector [(0, 4); (20, 30)] 8 12) 10 /\
  (holds [(0, 4); (20, 30)] 10 \/ 8 <= 10 < 12 \/
   ((10 = 12 \/ exists p, p ∈ [(0, 4); (20, 30)] /\ p.2 = 10) /\
    exists k, k ∈ [(0, 4); (20, 30)] /\ k.1 = 10 + 1)).
Proof.
  assert (H : holds (insertSector [(0, 4); (20, 30)] 8 12) 10) by (apply (bool_decide_unpack _); vm_compute; exact I).
  split; [exact H|]. revert H.
  apply (insertSector_bytes _ 8 12 10); [|lia].
  split; repeat constructor; unfold apart; simpl; lia.
Defined.

(** The byte between two writes becomes readable although nobody wrote it:
    with bytes 11 to 19 present, writing bytes 0 to 9 makes byte 10 part of
    the data, while writing in the other order keeps the hole. *)
Theorem insertSector_swallows_hole :
  insertSector [(11, 20)] 0 10 = [(0, 20)] /\
  insertSector [(0, 10)] 11 20 = [(0, 10); (11, 20)] /\
  ~ (holds [(11, 20)] 10 \/ 0 <= 10 < 10) /\
  holds (insertSector [(11, 20)] 0 10) 10 /\
  getSectorEnd (insertSector [(11, 20)] 0 10) 0 = 20.
Proof.
  split_and!.
  - by vm_compute.
  - by vm_compute.
  - intros [H|H]; [|lia]. inversion_clear H as [? ? H'|? ? H']; [simpl in H'; lia | inversion H'].
  - apply holds_cons. left. vm_compute. split; [discriminate | reflexivity].
  - by vm_compute.
Qed.

(** [getSectorEnd] answers for exactly the covered offsets, and what it
    answers is right: every byte from the offset to the end it reports is
    data, and the byte at that end is not. *)
Theorem getSectorEnd_correct l offset :
  sectors_wf l -> Forall (fun s => 0 <= s.1) l -> 0 <= offset ->
  (getSectorEnd l offset <> CAPIO_SECTOR_NOT_FOUND <-> covers l offset) /\
  (forall y, offset <= y < getSectorEnd l offset -> holds l y) /\
  (covers l offset -> offset <= getSectorEnd l offset /\ ~ holds l (getSectorEnd l offset)).
Proof.
  intros Hwf Hnn Hx. split_and!.
  - by apply getSectorEnd_found.
  - intros y Hy. by eapply getSectorEnd_holds.
  - intros Hc. split; [|by apply getSectorEnd_maximal].
    destruct (getSectorEnd_spec l offset Hwf) as [(s & _ & ? & ->)|[? _]]; [lia | done].
Qed.

Lemma getSectorEnd_correct_witness :
  (getSectorEnd [(0, 4); (9, 12)] 10 <> CAPIO_SECTOR_NOT_FOUND <->
     covers [(0, 4); (9, 12)] 10) /\
  (forall y, 10 <= y < getSectorEnd [(0, 4); (9, 12)] 10 -> holds [(0, 4); (9, 12)] y) /\
  (covers [(0, 4); (9, 12)] 10 ->
     10 <= getSectorEnd [(0, 4); (9, 12)] 10 /\
     ~ holds [(0, 4); (9, 12)] (getSectorEnd [(0, 4); (9, 12)] 10)).
Proof.
  apply (getSectorEnd_correct [(0, 4); (9, 12)] 10); [| repeat constructor; simpl; lia | lia].
  split; repeat constructor; unfold apart; simpl; lia.
Defined.

(** [seekData] and [seekHole] on a file with data behave as [lseek] does
    with [SEEK_DATA] and [SEEK_HOLE]: the first covered offset at or after the
    one given, or -1 when there is none; and the first offset at or after it
    that is not data, with everything before it data, or -1 past the end of
    the file. *)
Theorem seek_correct l offset :
  sectors_wf l -> l <> [] ->
  ((seekData l offset = -1 /\ forall y, offset <= y -> ~ covers l y) \/
   (offset <= seekData l offset /\ covers l (seekData l offset) /\
    forall y, offset <= y < seekData l offset -> ~ covers l y)) /\
  ((seekHole l offset = -1 /\ getFileSize l < offset) \/
   (offset <= seekHole l offset /\ offset <= getFileSize l /\
    ~ holds l (seekHole l offset) /\
    forall y, offset <= y < seekHole l offset -> holds l y)).
Proof. auto using seekData_spec, seekHole_spec. Qed.

Lemma seek_correct_witness :
  ((seekData [(0, 4); (9, 12)] 5 = -1 /\
      forall y, 5 <= y -> ~ covers [(0, 4); (9, 12)] y) \/
   (5 <= seekData [(0, 4); (9, 12)] 5 /\
    covers [(0, 4); (9, 12)] (seekData [(0, 4); (9, 12)] 5) /\
    forall y, 5 <= y < seekData [(0, 4); (9, 12)] 5 -> ~ covers [(0, 4); (9, 12)] y)) /\
  ((seekHole [(0, 4); (9, 12)] 5 = -1 /\ getFileSize [(0, 4); (9, 12)] < 5) \/
   (5 <= seekHole [(0, 4); (9, 12)] 5 /\ 5 <= getFileSize [(0, 4); (9, 12)] /\
    ~ holds [(0, 4); (9, 12)] (seekHole [(0, 4); (9, 12)] 5) /\
    forall y, 5 <= y < seekHole [(0, 4); (9, 12)] 5 -> holds [(0, 4); (9, 12)] y)).
Proof.
  apply (seek_correct [(0, 4); (9, 12)] 5); [|discriminate].
  split; repeat constructor; unfold apart; simpl; lia.
Defined.
