(* ===== verification/Memory.v ===== *)
(** * Byte buffers

    The memory behind a file, a queue slot or a message.  A cell is a byte or
    [None], a byte that was never written (the contents of [new char[n]] and
    the padding of a struct are not initialised).  A memory block is the map of
    its initialised bytes by offset; the functions follow [memcpy] and
    [memmove] on ranges of it. *)
From S2P Require Import Prelude.
From Stdlib Require Export Strings.Byte.

Abbreviation byte := Byte.byte.
Abbreviation cell := (option Byte.byte).
Abbreviation mem := (gmap Z Byte.byte).

#[export] Instance byte_eq_dec : EqDecision Byte.byte.
Proof. exact Byte.byte_eq_dec. Defined.

(** The cells of the range of [n] bytes at [off]. *)
Definition mem_read (m : mem) (off n : Z) : list cell :=
  (fun i => m !! i) <$> seqZ off n.

(** Store the cells [cs] at [off]. *)
Fixpoint mem_write (m : mem) (off : Z) (cs : list cell) : mem :=
  match cs with
  | [] => m
  | c :: cs' => mem_write (partial_alter (fun _ => c) off m) (off + 1) cs'
  end.

(** [memcpy(dst + d, src + s, n)] *)
Definition mem_copy (dst : mem) (d : Z) (src : mem) (s n : Z) : mem :=
  mem_write dst d (mem_read src s n).

(** Whether the range of [n] bytes at [off] is inside a block of [size] bytes. *)
Definition in_range (size off n : Z) : bool :=
  (0 <=? off) && (0 <=? n) && (off + n <=? size).

Lemma in_range_spec size off n :
  in_range size off n = true <-> 0 <= off /\ 0 <= n /\ off + n <= size.
Proof. unfold in_range. lia. Qed.

Lemma length_mem_read m off n : length (mem_read m off n) = Z.to_nat n.
Proof. unfold mem_read. by rewrite length_fmap, length_seqZ. Qed.

Lemma lookup_mem_read m off n i :
  0 <= i < n -> mem_read m off n !! Z.to_nat i = Some (m !! (off + i)).
Proof.
  intros Hi. unfold mem_read. rewrite list_lookup_fmap, lookup_seqZ_lt by lia.
  simpl. do 2 f_equal. lia.
Qed.

Lemma mem_read_ext m1 m2 off n :
  (forall i, off <= i < off + n -> m1 !! i = m2 !! i) ->
  mem_read m1 off n = mem_read m2 off n.
Proof.
  intros H. unfold mem_read. apply list_fmap_ext. intros k x Hk.
  apply lookup_seqZ in Hk as [-> Hk]. apply H. lia.
Qed.

Lemma mem_read_nil m off n : n <= 0 -> mem_read m off n = [].
Proof. intros H. unfold mem_read. by rewrite seqZ_nil. Qed.

Lemma mem_read_app m off a b :
  0 <= a -> 0 <= b -> mem_read m off (a + b) = mem_read m off a ++ mem_read m (off + a) b.
Proof. intros. unfold mem_read. by rewrite seqZ_app, fmap_app. Qed.

Lemma lookup_mem_write m off cs i :
  mem_write m off cs !! i =
  if decide (off <= i < off + Z.of_nat (length cs))
  then default None (cs !! Z.to_nat (i - off)) else m !! i.
Proof.
  revert m off. induction cs as [|c cs IH]; intros m off; simpl.
  - by rewrite decide_False by lia.
  - rewrite IH. destruct (decide (i = off)) as [->|Hne].
    + rewrite decide_False by lia. rewrite decide_True by lia.
      rewrite Z.sub_diag. simpl. by rewrite lookup_partial_alter_eq.
    + rewrite lookup_partial_alter_ne by done.
      destruct (decide (off + 1 <= i < off + 1 + Z.of_nat (length cs))).
      * rewrite decide_True by lia.
        replace (Z.to_nat (i - off)) with (S (Z.to_nat (i - (off + 1)))) by lia. done.
      * by rewrite decide_False by lia.
Qed.

Lemma mem_write_outside m off cs i :
  i < off \/ off + Z.of_nat (length cs) <= i -> mem_write m off cs !! i = m !! i.
Proof. intros H. rewrite lookup_mem_write, decide_False by lia. done. Qed.

Lemma mem_read_outside m off cs o n :
  o + n <= off \/ off + Z.of_nat (length cs) <= o ->
  mem_read (mem_write m off cs) o n = mem_read m o n.
Proof. intros H. apply mem_read_ext. intros i Hi. apply mem_write_outside. lia. Qed.

(** What was stored is read back. *)
Lemma mem_read_write m off cs :
  mem_read (mem_write m off cs) off (Z.of_nat (length cs)) = cs.
Proof.
  apply list_eq. intros i. unfold mem_read. rewrite list_lookup_fmap.
  destruct (decide (i < length cs)%nat) as [Hi|Hi].
  - rewrite lookup_seqZ_lt by lia. simpl. rewrite lookup_mem_write, decide_True by lia.
    replace (Z.to_nat (off + Z.of_nat i - off)) with i by lia.
    destruct (lookup_lt_is_Some_2 cs i Hi) as [c Hc]. by rewrite Hc.
  - rewrite lookup_seqZ_ge by lia. simpl. symmetry. apply lookup_ge_None. lia.
Qed.

Lemma mem_write_app m off cs1 cs2 :
  mem_write m off (cs1 ++ cs2) =
  mem_write (mem_write m off cs1) (off + Z.of_nat (length cs1)) cs2.
Proof.
  revert m off. induction cs1 as [|c cs1 IH]; intros m off; simpl.
  - by rewrite Z.add_0_r.
  - rewrite IH. f_equal. lia.
Qed.

Lemma mem_read_copy dst d src s n :
  0 <= n -> mem_read (mem_copy dst d src s n) d n = mem_read src s n.
Proof.
  intros Hn. unfold mem_copy.
  replace n with (Z.of_nat (length (mem_read src s n))) at 2
    by (rewrite length_mem_read; lia).
  apply mem_read_write.
Qed.

Lemma lookup_mem_copy dst d src s n i :
  mem_copy dst d src s n !! i =
  if decide (d <= i < d + n) then src !! (s + (i - d)) else dst !! i.
Proof.
  unfold mem_copy. rewrite lookup_mem_write, length_mem_read.
  destruct (decide (d <= i < d + n)).
  - rewrite decide_True by lia. by rewrite lookup_mem_read by lia.
  - by rewrite decide_False by lia.
Qed.

