(* ===== verification/Semaphore.v ===== *)
(** * Semaphores

    [common/semaphore.hpp]: [NamedSemaphore] and [Semaphore] over the counters
    of the kernel, and [NoLock], which the queues with one producer and one
    consumer take in the place of a mutex.  The kernel's table of named
    semaphores is [sem_table]; the value of a semaphore is a counter between 0
    and [SEM_VALUE_MAX].  The log messages are left out. *)
From S2P Require Import Prelude.

Definition SEM_VALUE_MAX : Z := 2 ^ 31 - 1.

(** ** The counter: [sem_wait] and [sem_post] *)

(** How [sem_wait] ends: it takes a unit, waits for one, or, while it waits, a
    handler of a signal runs and it fails with [EINTR]. *)
Definition sem_wait (interrupted : bool) (value : Z) : outcome (Z * Z) :=
  if 0 <? value then Done (0, value - 1)
  else if interrupted then Done (-1, value) else Blocks "sem_wait".

(** [sem_post] fails with [EOVERFLOW] at the largest value. *)
Definition sem_post (value : Z) : Z * Z :=
  if value <? SEM_VALUE_MAX then (0, value + 1) else (-1, value).

(** [NamedSemaphore::lock]; [Semaphore::lock] differs in its message. *)
Definition sem_lock (interrupted : bool) : M Z unit := fun value =>
  match sem_wait interrupted value with
  | Done (res, value') => if res =? -1 then Exit "unable to acquire" else Done (tt, value')
  | Throw w => Throw w | Exit w => Exit w | Blocks w => Blocks w | UB w => UB w
  end.

(** [NamedSemaphore::unlock] *)
Definition sem_unlock : M Z unit := fun value =>
  let '(res, value') := sem_post value in
  if res =? -1 then Exit "unable to release" else Done (tt, value').

(** ** [Semaphore]: an unnamed semaphore *)

Definition Semaphore_new (init_value : Z) : outcome Z :=
  let value := u32 init_value in
  if value <=? SEM_VALUE_MAX then Done value
  else Exit "initialization of unnamed semaphore failed".
Definition Semaphore_lock (interrupted : bool) : M Z unit := sem_lock interrupted.
Definition Semaphore_unlock : M Z unit := sem_unlock.

(** ** [NamedSemaphore]: the table of the kernel *)

Notation sem_table := (gmap string Z).

(** [sem_open] with [O_CREAT]: a semaphore that exists keeps its value. *)
Definition sem_open (name : string) (init_value : Z) (ks : sem_table) : option sem_table :=
  match ks !! name with
  | Some _ => Some ks
  | None => if init_value <=? SEM_VALUE_MAX then Some (<[name := init_value]> ks) else None
  end.
Definition sem_unlink (name : string) (ks : sem_table) : option sem_table :=
  match ks !! name with Some _ => Some (delete name ks) | None => None end.

(** The constructor, whose parameter is an [unsigned int]. *)
Definition NamedSemaphore_new (name : string) (init_value : Z) : M sem_table unit := fun ks =>
  match sem_open name (u32 init_value) ks with
  | Some ks' => Done (tt, ks')
  | None => Exit "sem_open failed"
  end.

(** The destructor: [sem_destroy] leaves the counter of a named semaphore as it
    is, [sem_unlink] takes its name away; a failure is only reported. *)
Definition NamedSemaphore_delete (name : string) : M sem_table unit := fun ks =>
  match sem_unlink name ks with
  | Some ks' => Done (tt, ks')
  | None => Done (tt, ks)
  end.

(** [lock] and [unlock] act on the counter the name stood for. *)
Definition in_table (name : string) (op : M Z unit) : M sem_table unit := fun ks =>
  match ks !! name with
  | None => UB "semaphore without a counter"
  | Some v =>
      match op v with
      | Done (_, v') => Done (tt, <[name := v']> ks)
      | Throw w => Throw w | Exit w => Exit w | Blocks w => Blocks w | UB w => UB w
      end
  end.
Definition NamedSemaphore_lock (name : string) (interrupted : bool) : M sem_table unit :=
  in_table name (sem_lock interrupted).
Definition NamedSemaphore_unlock (name : string) : M sem_table unit := in_table name sem_unlock.

(** ** What a queue asks of its [Mutex] *)

(** The template parameter of [Queue]: what [std::lock_guard] calls.  A lock
    that has to wait is [Blocks], and [Exit] when a signal interrupts the wait. *)
Class Mutex : Type := {
  mutex_lock : bool -> M Z unit;
  mutex_unlock : M Z unit
}.

(** [NoLock] *)
Definition NoLock_lock : M Z unit := ret tt.
Definition NoLock_unlock : M Z unit := ret tt.
Definition NoLock : Mutex := {| mutex_lock := fun _ => NoLock_lock; mutex_unlock := NoLock_unlock |}.

(** [NamedSemaphore] *)
Definition NamedMutex : Mutex := {| mutex_lock := sem_lock; mutex_unlock := sem_unlock |}.

(** ** The counters *)

Lemma sem_lock_pos b v : 0 < v -> sem_lock b v = Done (tt, v - 1).
Proof. intros H. unfold sem_lock, sem_wait. by rewrite (proj2 (Z.ltb_lt _ _) H). Qed.

Lemma sem_lock_done b v v' : sem_lock b v = Done (tt, v') -> 0 < v /\ v' = v - 1.
Proof.
  unfold sem_lock, sem_wait. destruct (Z.ltb_spec 0 v), b; simpl; intros E; simplify_eq; lia.
Qed.

(** A lock takes a unit, or waits for one; a wait that is interrupted exits. *)
Lemma sem_lock_outcome b v :
  (0 < v /\ sem_lock b v = Done (tt, v - 1)) \/
  (v <= 0 /\ sem_lock b v = if b then Exit "unable to acquire" else Blocks "sem_wait").
Proof. unfold sem_lock, sem_wait. destruct (Z.ltb_spec 0 v), b; simpl; auto. Qed.

Lemma sem_unlock_lt v : v < SEM_VALUE_MAX -> sem_unlock v = Done (tt, v + 1).
Proof. intros H. unfold sem_unlock, sem_post. by rewrite (proj2 (Z.ltb_lt _ _) H). Qed.

(** A second constructor of the same name joins the first; the destructor of
    either takes the name away from both. *)
Lemma NamedSemaphore_joins name i1 i2 ks ks1 :
  NamedSemaphore_new name i1 ks = Done (tt, ks1) -> NamedSemaphore_new name i2 ks1 = Done (tt, ks1).
Proof.
  unfold NamedSemaphore_new, sem_open. destruct (ks !! name) as [v|] eqn:E.
  - intros [= <-]. by rewrite E.
  - destruct (u32 i1 <=? SEM_VALUE_MAX); [|done]. intros [= <-]. by rewrite lookup_insert_eq.
Qed.

Lemma NamedSemaphore_new_delete name i ks ks1 :
  ks !! name = None -> NamedSemaphore_new name i ks = Done (tt, ks1) ->
  NamedSemaphore_delete name ks1 = Done (tt, ks).
Proof.
  unfold NamedSemaphore_new, sem_open, NamedSemaphore_delete, sem_unlink. intros E. rewrite E.
  destruct (u32 i <=? SEM_VALUE_MAX); [|done]. intros [= <-].
  by rewrite lookup_insert_eq, delete_insert_eq, delete_id.
Qed.

(** A signal whose handler runs while a thread waits ends its process. *)
Lemma interrupted_lock_exits : sem_lock true 0 = Exit "unable to acquire".
Proof. reflexivity. Qed.
