(* ===== verification/FileBuffer.v ===== *)
(** * File buffers

    [storage/file_buffer.hpp] and its two storage strategies,
    [storage/interfaces/heap.hpp] and [storage/interfaces/mapped.hpp].  The
    operating system calls of the mapped strategy are an argument, [kernel],
    that says which of them fail; the memory quota is the class [MemQuota],
    implemented in [StorageAllocator]. *)
From S2P Require Import Prelude Memory Sectors.

(** What the buffers ask of [computeAllocableMemQuota]: never more than was
    requested, and never a negative size for a request that is not (a request is
    an [off64_t]). *)
Class MemQuota : Type := {
  computeAllocableMemQuota : Z -> Z;
  quota_le (r : Z) : 0 <= r < 2 ^ 63 -> computeAllocableMemQuota r <= r;
  quota_nonneg (r : Z) : 0 <= r < 2 ^ 63 -> 0 <= computeAllocableMemQuota r
}.

(** The outcome of the system calls of one operation: [true] for success. *)
Record kernel : Type := {
  sys_open : bool;
  sys_ftruncate : bool;
  sys_mmap : bool;
  sys_mremap : bool;
  sys_close : bool;
  sys_mkdir : bool;  (* [create_directory] and [permissions] *)
  sys_new : bool     (* [operator new] finds the memory *)
}.
Definition kernel_ok : kernel := {|
  sys_open := true; sys_ftruncate := true; sys_mmap := true; sys_mremap := true; sys_close := true;
  sys_mkdir := true; sys_new := true |}.

(** [new char[n]]: the block is not initialised; a negative size throws, and
    so does a memory that is full. *)
Definition new_char (k : kernel) (n : Z) : outcome mem :=
  if n <? 0 then Throw "std::bad_array_new_length"
  else if sys_new k then Done ∅ else Throw "std::bad_alloc".

(** ** Heap storage: [HeapStorageInterface] *)

Inductive HeapStorage : Type := heap_storage.

(** [HeapStorageInterface::allocate]: the new base and size, and success. *)
Definition heap_allocate `{MemQuota} (k : kernel) (requested : Z) : outcome (bool * option mem * Z) :=
  let size := computeAllocableMemQuota requested in
  outcome_bind (new_char k size) (fun data => Done (true, Some data, size)).

(** The copy loop of [HeapStorageInterface::grow].  A copy from a null base or
    outside one of the two blocks is undefined; an empty copy does nothing. *)
Fixpoint heap_copy_sectors (data : option mem) (size new_size : Z) (nb : mem)
    (ss : sectors) : outcome mem :=
  match ss with
  | [] => Done nb
  | (lo, hi) :: ss' =>
      if hi - lo =? 0 then heap_copy_sectors data size new_size nb ss' else
      match data with
      | None => UB "memcpy from a null buffer"
      | Some src =>
          if in_range size lo (hi - lo) && in_range new_size lo (hi - lo)
          then heap_copy_sectors data size new_size (mem_copy nb lo src lo (hi - lo)) ss'
          else UB "memcpy out of bounds"
      end
  end.

(** [HeapStorageInterface::grow] *)
Definition heap_grow (k : kernel) (data : option mem) (size new_size : Z) (ss : sectors)
  : outcome (bool * option mem * Z) :=
  outcome_bind (new_char k new_size) (fun nb =>
  outcome_bind (heap_copy_sectors data size new_size nb ss) (fun nb' =>
  Done (true, Some nb', new_size))).

(** [HeapStorageInterface::commit] *)
Definition heap_commit (size committed : Z) : bool * Z := (false, size).

(** ** Mapped storage: [MappedStorageInterface]

    [_fd] is -1 once closed.  [file_size] is the length of the backing file. *)
Record MappedStorage : Type := { _fd : Z; _map_len : Z; file_size : Z }.
Definition mapped_init : MappedStorage := {| _fd := -1; _map_len := 0; file_size := 0 |}.

(** [MappedStorageInterface::allocate]; [fd] is the descriptor [open] returns. *)
Definition mapped_allocate `{MemQuota} (k : kernel) (fd : Z) (st : MappedStorage)
    (data : option mem) (requested : Z) : bool * option mem * Z * MappedStorage :=
  let size := computeAllocableMemQuota requested in
  if negb (sys_open k) then
    (false, data, size, {| _fd := -1; _map_len := _map_len st; file_size := file_size st |})
  else if negb (sys_ftruncate k) then
    (false, data, size, {| _fd := -1; _map_len := _map_len st; file_size := file_size st |})
  else if negb (sys_mmap k) then
    (false, None, size, {| _fd := -1; _map_len := _map_len st; file_size := size |})
  else (true, Some ∅, size, {| _fd := fd; _map_len := size; file_size := size |}).

(** [MappedStorageInterface::commit]: [ftruncate] and [close] of -1 fail. *)
Definition mapped_commit (k : kernel) (st : MappedStorage) (size committed : Z)
  : bool * Z * MappedStorage :=
  if (_fd st <? 0) || negb (sys_ftruncate k) then (false, size, st)
  else if negb (sys_close k) then
    (false, committed, {| _fd := _fd st; _map_len := _map_len st; file_size := committed |})
  else (true, committed, {| _fd := -1; _map_len := _map_len st; file_size := committed |}).

(** [MappedStorageInterface::grow] *)
Definition mapped_grow (k : kernel) (st : MappedStorage) (data : option mem)
    (size new_size : Z) : bool * option mem * Z * MappedStorage :=
  if (_fd st <? 0) || negb (sys_ftruncate k) then (false, data, size, st)
  else if negb (sys_mremap k) then
    (false, data, size, {| _fd := _fd st; _map_len := _map_len st; file_size := new_size |})
  else (true, data, new_size, {| _fd := _fd st; _map_len := new_size; file_size := new_size |}).

(** [MappedStorageInterface::freeBuffer] *)
Definition mapped_freeBuffer (st : MappedStorage) (data : option mem) : MappedStorage :=
  {| _fd := -1; _map_len := 0; file_size := file_size st |}.

(** ** The buffer: [FileBuffer<StorageInterface>] *)

Record FileBuffer (St : Type) : Type := { _data : option mem; _size : Z; storage_ : St }.
Arguments _data {St}.
Arguments _size {St}.
Arguments storage_ {St}.

(** [CapioFile::_buffer], the variant of the two buffers. *)
Inductive Buffer : Type :=
| BHeap (b : FileBuffer HeapStorage)
| BMapped (b : FileBuffer MappedStorage).

Definition heap_buffer0 : FileBuffer HeapStorage :=
  {| _data := None; _size := 0; storage_ := heap_storage |}.
Definition mapped_buffer0 : FileBuffer MappedStorage :=
  {| _data := None; _size := 0; storage_ := mapped_init |}.

(** [FileBuffer::empty], [data] and [size]. *)
Definition buffer_data (b : Buffer) : option mem :=
  match b with BHeap h => _data h | BMapped m => _data m end.
Definition buffer_size (b : Buffer) : Z :=
  match b with BHeap h => _size h | BMapped m => _size m end.
Definition buffer_empty (b : Buffer) : bool :=
  match buffer_data b with None => true | Some _ => false end.

(** [FileBuffer<HeapStorageInterface>::allocate] *)
Definition buffer_allocate_heap `{MemQuota} (k : kernel) (b : FileBuffer HeapStorage) (size : Z)
  : outcome (bool * FileBuffer HeapStorage) :=
  match _data b with
  | Some _ => Done (false, b)
  | None =>
      outcome_bind (heap_allocate k size) (fun '(ok, d, sz) =>
      Done (ok, {| _data := d; _size := sz; storage_ := storage_ b |}))
  end.

(** [FileBuffer<MappedStorageInterface>::allocate] *)
Definition buffer_allocate_mapped `{MemQuota} (k : kernel) (fd : Z)
    (b : FileBuffer MappedStorage) (size : Z) : bool * FileBuffer MappedStorage :=
  match _data b with
  | Some _ => (false, b)
  | None =>
      let '(ok, d, sz, st) := mapped_allocate k fd (storage_ b) (_data b) size in
      (ok, {| _data := d; _size := sz; storage_ := st |})
  end.

(** [FileBuffer<MappedStorageInterface>::commit] *)
Definition buffer_commit (k : kernel) (b : FileBuffer MappedStorage) (size : Z)
  : bool * FileBuffer MappedStorage :=
  let '(ok, sz, st) := mapped_commit k (storage_ b) (_size b) size in
  (ok, {| _data := _data b; _size := sz; storage_ := st |}).

(** [FileBuffer::grow] on the two storages: [false] is the null result. *)
Definition buffer_grow `{MemQuota} (k : kernel) (b : Buffer) (data_size : Z) (ss : sectors)
  : outcome (bool * Buffer) :=
  let new_size := Z.max data_size (computeAllocableMemQuota (buffer_size b * 2)) in
  match b with
  | BHeap h =>
      outcome_bind (heap_grow k (_data h) (_size h) new_size ss) (fun '(ok, d, sz) =>
      Done (ok, BHeap {| _data := d; _size := sz; storage_ := storage_ h |}))
  | BMapped m =>
      let '(ok, d, sz, st) := mapped_grow k (storage_ m) (_data m) (_size m) new_size in
      Done (ok, BMapped {| _data := d; _size := sz; storage_ := st |})
  end.

(** [FileBuffer::release] *)
Definition buffer_release (b : Buffer) : Buffer :=
  match b with
  | BHeap h => BHeap {| _data := None; _size := 0; storage_ := storage_ h |}
  | BMapped m => BMapped {| _data := None; _size := 0;
                            storage_ := mapped_freeBuffer (storage_ m) (_data m) |}
  end.

(** ** What the buffers guarantee *)

(** The sectors [ss] of a file lie inside its buffer. *)
Definition sectors_in (size : Z) (ss : sectors) : Prop :=
  Forall (fun s => 0 <= s.1 /\ s.1 <= s.2 /\ s.2 <= size) ss.
Definition buffer_ok (b : Buffer) (ss : sectors) : Prop :=
  0 <= buffer_size b /\ sectors_in (buffer_size b) ss /\ (buffer_data b = None -> ss = []).

(** The bytes of a block. *)
Definition byte_at (b : Buffer) (x : Z) : cell := buffer_data b ≫= (fun m => m !! x).

Lemma heap_copy_sectors_spec src size new_size nb ss :
  sectors_in size ss -> size <= new_size ->
  exists nb', heap_copy_sectors (Some src) size new_size nb ss = Done nb' /\
    forall x, nb' !! x = if decide (holds ss x) then src !! x else nb !! x.
Proof.
  intros Hin Hle. revert nb. induction Hin as [|[lo hi] ss (H1 & H2 & H3) _ IH]; intros nb.
  - exists nb. split; [done|]. intros x. by rewrite decide_False by apply holds_nil.
  - simpl in H1, H2, H3. cbn [heap_copy_sectors].
    destruct (Z.eqb_spec (hi - lo) 0) as [Hz|Hz].
    { destruct (IH nb) as (nb' & -> & Hx). exists nb'. split; [done|]. intros x. rewrite Hx.
      destruct (decide (holds ss x)) as [Hs|Hs].
      - rewrite decide_True; [done|]. apply holds_cons. by right.
      - rewrite decide_False; [done|]. rewrite holds_cons. simpl. intros [?|?]; [lia|done]. }
    rewrite (proj2 (in_range_spec size lo (hi - lo))), (proj2 (in_range_spec new_size lo (hi - lo))) by lia.
    cbn [andb]. destruct (IH (mem_copy nb lo src lo (hi - lo))) as (nb' & -> & Hx).
    exists nb'. split; [done|]. intros x. rewrite Hx.
    destruct (decide (holds ss x)) as [Hs|Hs].
    { rewrite decide_True; [done|]. apply holds_cons. by right. }
    rewrite lookup_mem_copy. destruct (decide (lo <= x < lo + (hi - lo))) as [Hr|Hr].
    + rewrite decide_True; [f_equal; lia|]. apply holds_cons. left. simpl. lia.
    + rewrite decide_False; [done|]. rewrite holds_cons. simpl. intros [?|?]; [lia|done].
Qed.

Lemma heap_copy_none size new_size nb : heap_copy_sectors None size new_size nb [] = Done nb.
Proof. done. Qed.

Lemma sectors_in_holds size ss x : sectors_in size ss -> holds ss x -> 0 <= x < size.
Proof.
  intros Hin Hx. unfold holds in Hx. rewrite Exists_exists in Hx. destruct Hx as (s & Hs & Hx).
  unfold sectors_in in Hin. rewrite Forall_forall in Hin. specialize (Hin s Hs). lia.
Qed.

Lemma sectors_in_mono size size' ss : size <= size' -> sectors_in size ss -> sectors_in size' ss.
Proof. intros H Hin. unfold sectors_in in *. weaken Hin. Qed.

(** Growing a heap buffer keeps the bytes of the sectors, when there is memory. *)
Lemma heap_buffer_grow_spec `{MemQuota} k h data_size ss :
  sys_new k = true -> buffer_ok (BHeap h) ss -> _size h <= data_size ->
  exists b', buffer_grow k (BHeap h) data_size ss = Done (true, b') /\
    data_size <= buffer_size b' /\ buffer_ok b' ss /\ buffer_data b' <> None /\
    forall x, holds ss x -> byte_at b' x = byte_at (BHeap h) x.
Proof.
  intros Hnew (Hsz & Hin & Hnone) Hd. simpl in *. unfold buffer_grow, heap_grow, new_char. simpl.
  set (ns := Z.max data_size _). rewrite (proj2 (Z.ltb_ge ns 0)), Hnew by lia. simpl.
  destruct (_data h) as [src|] eqn:E.
  - destruct (heap_copy_sectors_spec src (_size h) ns ∅ ss Hin ltac:(lia)) as (nb & -> & Hx).
    simpl. eexists. split; [done|]. simpl. split; [lia|]. split.
    { split; simpl; [lia|]. split; [|done]. eapply sectors_in_mono; [|done]. lia. }
    split; [done|]. intros x Hs. unfold byte_at. simpl. rewrite E. simpl.
    by rewrite Hx, decide_True.
  - rewrite (Hnone eq_refl). simpl. eexists. split; [done|]. simpl. split; [lia|].
    split; [split; simpl; [lia|by split; [constructor|]]|].
    split; [done|]. intros x Hs. by apply holds_nil in Hs.
Qed.

(** A mapped buffer whose descriptor is open grows in place; once committed it
    cannot grow, and is kept. *)
Lemma mapped_buffer_grow_spec `{MemQuota} k m data_size ss :
  buffer_ok (BMapped m) ss -> _size m <= data_size ->
  exists ok b', buffer_grow k (BMapped m) data_size ss = Done (ok, b') /\
    ok = (0 <=? _fd (storage_ m)) && sys_ftruncate k && sys_mremap k /\
    buffer_data b' = _data m /\ buffer_ok b' ss /\
    (if ok then data_size <= buffer_size b' else buffer_size b' = _size m).
Proof.
  intros (Hsz & Hin & Hnone) Hd. simpl in *. unfold buffer_grow, mapped_grow. simpl.
  set (ns := Z.max data_size _).
  destruct (_fd (storage_ m) <? 0) eqn:E1; simpl.
  { do 2 eexists. split; [done|]. split; [by rewrite (proj2 (Z.leb_gt _ _)) by lia|]. done. }
  rewrite (proj2 (Z.leb_le 0 _)) by lia.
  destruct (sys_ftruncate k); simpl; [|do 2 eexists; by split_and!].
  destruct (sys_mremap k); simpl; do 2 eexists; split_and!; try done; simpl.
  - split; simpl; [lia|]. split; [|done]. eapply sectors_in_mono; [|done]. lia.
  - lia.
Qed.

(** C40. Growing a buffer keeps the data: for both storages, [grow] to at least the
    current size either succeeds, with room for [data_size] bytes and every
    byte of the file's sectors at the offset where it was, or (mapped storage
    only: a failed system call, or a file already committed) fails and keeps
    the old size and bytes, or (heap storage only: no memory is left) throws
    before it has changed anything. *)
Theorem grow_keeps_data `{MemQuota} k b data_size ss :
  buffer_ok b ss -> buffer_size b <= data_size ->
  (exists ok b', buffer_grow k b data_size ss = Done (ok, b') /\ buffer_ok b' ss /\
    (forall x, holds ss x -> byte_at b' x = byte_at b x) /\
    (if ok then data_size <= buffer_size b'
     else buffer_size b' = buffer_size b /\
          exists m, b = BMapped m /\
            (_fd (storage_ m) < 0 \/ sys_ftruncate k = false \/ sys_mremap k = false))) \/
  (sys_new k = false /\ (exists h, b = BHeap h) /\ buffer_grow k b data_size ss = Throw "std::bad_alloc").
Proof.
  intros Hok Hd. destruct b as [h|m].
  - destruct (sys_new k) eqn:Hnew.
    + left. destruct (heap_buffer_grow_spec k h data_size ss Hnew Hok Hd) as (b' & E & Hs & Hok' & _ & Hx).
      by exists true, b'.
    + right. split; [done|]. split; [by eexists|]. destruct Hok as (Hsz & _). simpl in Hsz, Hd.
      unfold buffer_grow, heap_grow, new_char. simpl. rewrite (proj2 (Z.ltb_ge _ 0)), Hnew by lia. done.
  - left. destruct (mapped_buffer_grow_spec k m data_size ss Hok Hd) as (ok & b' & E & Heq & Hdat & Hok' & Hs).
    exists ok, b'. split_and!; try done.
    + intros x _. unfold byte_at. by rewrite Hdat.
    + destruct ok; [done|]. split; [done|]. exists m. split; [done|].
      symmetry in Heq. rewrite !andb_false_iff in Heq. destruct Heq as [[?|?]|?]; [left; lia|auto..].
Qed.

(** A quota without limits, for the examples. *)
Definition quota_unlimited : MemQuota :=
  {| computeAllocableMemQuota := fun r => r;
     quota_le := fun r _ => Z.le_refl r;
     quota_nonneg := fun r H => proj1 H |}.

Lemma grow_keeps_data_witness :
  let b := BHeap {| _data := Some {[0 := x61; 1 := x62; 2 := x63]}; _size := 3; storage_ := heap_storage |} in
  exists ok b', @buffer_grow quota_unlimited kernel_ok b 5 [(1, 3)] = Done (ok, b') /\
    byte_at b' 1 = Some x62 /\ byte_at b' 2 = Some x63 /\ buffer_size b' = 6.
Proof.
  set (b := BHeap _).
  destruct (@grow_keeps_data quota_unlimited kernel_ok b 5 [(1, 3)]) as [(ok & b' & E & _ & Hx & _)|[? _]].
  - split; [done|]. split; [by repeat constructor|done].
  - done.
  - exists ok, b'. split; [exact E|]. split; [|split].
    + rewrite Hx by (left; simpl; lia). vm_compute. reflexivity.
    + rewrite Hx by (left; simpl; lia). vm_compute. reflexivity.
    + vm_compute in E. injection E as _ <-. reflexivity.
  - discriminate.
Defined.

(** A mapped buffer is committed once: after a commit that succeeded the
    descriptor is closed, so a second commit and every later [grow] report
    failure, whatever the operating system does. *)
Theorem commit_is_final `{MemQuota} k b size b' k2 size2 data_size ss :
  buffer_commit k b size = (true, b') ->
  fst (buffer_commit k2 b' size2) = false /\
  exists b2, buffer_grow k2 (BMapped b') data_size ss = Done (false, b2).
Proof.
  unfold buffer_commit, mapped_commit. intros E.
  destruct (_fd (storage_ b) <? 0); [done|]. simpl in E.
  destruct (sys_ftruncate k); [|done]. destruct (sys_close k); [|done]. simpl in E.
  injection E as <-. simpl. split; [done|]. by eexists.
Qed.

Lemma commit_is_final_witness :
  fst (buffer_commit kernel_ok
    (snd (buffer_commit kernel_ok
      {| _data := Some ∅; _size := 8; storage_ := {| _fd := 5; _map_len := 8; file_size := 8 |} |} 3)) 3)
  = false.
Proof.
  apply (@commit_is_final quota_unlimited kernel_ok
    {| _data := Some ∅; _size := 8; storage_ := {| _fd := 5; _map_len := 8; file_size := 8 |} |} 3
    _ kernel_ok 3 0 []). reflexivity.
Defined.
