(* ===== verification/StorageAllocator.v ===== *)
(** * The memory quota of the buffers

    [server/src/storage_allocator.cpp]: how much of a requested buffer can be
    allocated, from the free memory of the machine and the limits of the control
    group of the process.  The operating system is the class [Host]; the group is
    resolved once, so that the host at the first call and the host at a later one
    are different arguments.  The result discharges [MemQuota], which the buffers
    rely on. *)
From S2P Require Import Prelude Text Memory Sectors FileBuffer.

#[local] Arguments String.append !_ _ /.

(** ** What the operating system answers *)

(** [access(path, R_OK) == 0]; the descriptor of [open(path, O_RDONLY)], negative
    when it fails; the bytes one [pread] of at most [count] at [off] returns, none
    at the end of the file and on an error; the text an [std::ifstream] reads,
    [None] when it does not open; [sysconf]. *)
Class Host : Type := {
  access_ok : string -> bool;
  open_rdonly : string -> Z;
  pread : forall (fd : Z) (count off : nat), string;
  ifstream_text : string -> option string;
  avphys_pages : Z;
  page_size : Z
}.

(** ** Numbers in files *)

Definition kUnlimited : Z := 2 ^ 64 - 1.
Definition kV1UnlimitedThreshold : Z := Z.shiftl 1 62.

(** [usage_fd], [stat_fd], [limit], [inactive_key] *)
Record CgroupMem : Type := {
  usage_fd : Z;
  stat_fd : Z;
  cg_limit : Z;
  inactive_key : string
}.
Definition CgroupMem_new : CgroupMem :=
  {| usage_fd := -1; stat_fd := -1; cg_limit := kUnlimited; inactive_key := "" |}.
Definition active (cg : CgroupMem) : bool := 0 <=? usage_fd cg.

(** [buf] holds what was read so far; every turn adds at least one byte. *)
Fixpoint pread_all_loop `{Host} (fuel : nat) (fd : Z) (cap : nat) (buf : string) : string :=
  match fuel with
  | O => buf
  | S fuel' =>
      let len := String.length buf in
      if (len <? cap)%nat then
        let n := pread fd (cap - len) len in
        if String.eqb n "" then buf else pread_all_loop fuel' fd cap (buf ++ n)
      else buf
  end.
Definition pread_all `{Host} (fd : Z) (cap : nat) : string := pread_all_loop (S cap) fd cap "".

Definition parse_u64 (text : string) : option Z :=
  if String.eqb (substring 0 3 text) "max" then Some kUnlimited else from_chars_u64 text.

Definition pread_u64 `{Host} (fd : Z) : option Z :=
  let buf := pread_all fd 32 in
  if (0 <? String.length buf)%nat then parse_u64 buf else None.

(** [f >> token] *)
Definition read_u64 `{Host} (path : string) : option Z :=
  match ifstream_text path with
  | None => None
  | Some text => match scan_s text with Some (token, _) => parse_u64 token | None => None end
  end.

Definition key_back (key : string) : option ascii := String.get (String.length key - 1) key.

(** One turn per occurrence of [key]; the position grows by the length of the key,
    so one more turn than the text has characters is enough. *)
Fixpoint find_key_loop (fuel : nat) (text key : string) (pos : nat) : option Z :=
  match fuel with
  | O => None
  | S fuel' =>
      match String.index pos key text with
      | None => None
      | Some pos =>
          let endp := (pos + String.length key)%nat in
          if ((pos =? 0)%nat || bool_decide (String.get (pos - 1) text = Some newline))
             && (endp <? String.length text)%nat
             && (bool_decide (String.get endp text = Some " "%char)
                 || bool_decide (key_back key = Some ":"%char))
          then match skip_blanks (sdrop endp text) with
               | EmptyString => None
               | num => from_chars_u64 num
               end
          else find_key_loop fuel' text key (pos + String.length key)
      end
  end.
Definition find_key (text key : string) : option Z :=
  find_key_loop (S (String.length text)) text key 0.

(** ** The control group of the process *)

(** The pieces of the controller list between the commas, one per turn. *)
Fixpoint has_memory_loop (fuel : nat) (ctrls : string) (p : nat) : bool :=
  match fuel with
  | O => false
  | S fuel' =>
      if (p <=? String.length ctrls)%nat then
        let comma := match String.index p "," ctrls with Some c => c | None => String.length ctrls end in
        if String.eqb (substring p (comma - p) ctrls) "memory" then true
        else has_memory_loop fuel' ctrls (comma + 1)
      else false
  end.
Definition has_memory (ctrls : string) : bool := has_memory_loop (S (S (String.length ctrls))) ctrls 0.

Fixpoint cgroup_path_of (v2 : bool) (lines : list string) : string :=
  match lines with
  | [] => ""
  | line :: lines' =>
      let c1 := String.index 0 ":" line in
      let c2 := match c1 with None => None | Some c1 => String.index (c1 + 1) ":" line end in
      match c1, c2 with
      | Some c1, Some c2 =>
          let id := substring 0 c1 line in
          let ctrls := substring (c1 + 1) (c2 - c1 - 1) line in
          let path := sdrop (c2 + 1) line in
          if v2 then
            if String.eqb id "0" && String.eqb ctrls "" then path else cgroup_path_of v2 lines'
          else if has_memory ctrls then path else cgroup_path_of v2 lines'
      | _, _ => cgroup_path_of v2 lines'
      end
  end.
Definition self_cgroup_path `{Host} (v2 : bool) : string :=
  match ifstream_text "/proc/self/cgroup" with
  | None => ""
  | Some text => cgroup_path_of v2 (getlines text)
  end.

(** The limit of one directory, in the loop of [try_hierarchy]. *)
Definition dir_limit `{Host} (limit_file d : string) : option Z :=
  match read_u64 (d ++ "/" ++ limit_file) with
  | Some v => Some (if kV1UnlimitedThreshold <=? v then kUnlimited else v)
  | None => None
  end.
Definition min_limit (limit : Z) (v : option Z) : Z :=
  match v with Some v => Z.min limit v | None => limit end.

(** From [d] up to the mount point.  [resize] to the position that [rfind] does
    not find throws; a walk out of fuel never ends. *)
Fixpoint limit_walk `{Host} (fuel : nat) (mount limit_file d : string) (limit : Z) : outcome Z :=
  match fuel with
  | O => Blocks "for (std::string d = dir;;)"
  | S fuel' =>
      let limit := min_limit limit (dir_limit limit_file d) in
      if (String.length d <=? String.length mount)%nat then Done limit
      else match rindex "/" d with
           | None => Throw "std::length_error"
           | Some n => limit_walk fuel' mount limit_file (substring 0 n d) limit
           end
  end.

(** The result and the group, which the caller passes by reference. *)
Definition try_hierarchy `{Host} (cg : CgroupMem) (mount : string) (v2 : bool)
  : outcome (bool * CgroupMem) :=
  let usage_file := (if v2 then "memory.current" else "memory.usage_in_bytes")%string in
  let limit_file := (if v2 then "memory.max" else "memory.limit_in_bytes")%string in
  let path := self_cgroup_path v2 in
  let dir := if negb (String.eqb path "") && negb (String.eqb path "/")
                && access_ok (mount ++ path ++ "/" ++ usage_file)
             then (mount ++ path)%string else mount in
  let fd := open_rdonly (dir ++ "/" ++ usage_file) in
  if fd <? 0 then
    Done (false, {| usage_fd := fd; stat_fd := stat_fd cg; cg_limit := cg_limit cg;
                    inactive_key := inactive_key cg |})
  else
    match pread_u64 fd with
    | None =>
        Done (false, {| usage_fd := -1; stat_fd := stat_fd cg; cg_limit := cg_limit cg;
                        inactive_key := inactive_key cg |})
    | Some _ =>
        let sfd := open_rdonly (dir ++ "/memory.stat") in
        let key := (if v2 then "inactive_file" else "total_inactive_file")%string in
        outcome_bind (limit_walk (S (String.length dir)) mount limit_file dir (cg_limit cg)) (fun limit =>
        let limit :=
          if negb v2 && (0 <=? sfd) then
            match find_key (pread_all sfd 8192) "hierarchical_memory_limit" with
            | Some h => if h <? kV1UnlimitedThreshold then Z.min limit h else limit
            | None => limit
            end
          else limit in
        Done (true, {| usage_fd := fd; stat_fd := sfd; cg_limit := limit; inactive_key := key |}))
    end.

(** [a || b || c], the group threaded through. *)
Definition or_try (a : outcome (bool * CgroupMem)) (b : CgroupMem -> outcome (bool * CgroupMem))
  : outcome (bool * CgroupMem) :=
  outcome_bind a (fun '(found, cg) => if found : bool then Done (true, cg) else b cg).

Definition resolve_cgroup `{Host} : outcome CgroupMem :=
  outcome_bind
    (or_try (or_try (try_hierarchy CgroupMem_new "/sys/fs/cgroup" true)
                    (fun cg => try_hierarchy cg "/sys/fs/cgroup/unified" true))
            (fun cg => try_hierarchy cg "/sys/fs/cgroup/memory" false))
    (fun '(found, cg) =>
     Done (if negb found || (cg_limit cg =? kUnlimited) then CgroupMem_new else cg)).

(** ** The quota *)

(** [CAPIO_MEMORY_CHECKS_NONE], [_FAST] and [_FULL]: how the server was built. *)
Inductive memory_checks : Type := CHECKS_NONE | CHECKS_FAST | CHECKS_FULL.

(** What the group still allows, from what it uses. *)
Definition cg_available (limit used : Z) : Z := if used <? limit then limit - used else 0.

(** The host's free memory, [None] when it cannot be queried. *)
Definition host_available `{Host} (build : memory_checks) : option Z :=
  match build with
  | CHECKS_NONE => None
  | CHECKS_FAST =>
      if (avphys_pages <? 0) || (page_size <? 0) then None else Some (u64 (u64 avphys_pages * u64 page_size))
  | CHECKS_FULL =>
      let meminfo_fd := open_rdonly "/proc/meminfo" in
      let meminfo := pread meminfo_fd 256 0 in
      match find_key meminfo "MemAvailable:" with Some kb => Some (u64 (kb * 1024)) | None => None end
  end.

(** The memory the group is charged with, without what the kernel can drop. *)
Definition cg_used `{Host} (build : memory_checks) (cg : CgroupMem) : option Z :=
  if active cg then
    match pread_u64 (usage_fd cg) with
    | None => None
    | Some usage =>
        match build with
        | CHECKS_FULL =>
            let inactive := if 0 <=? stat_fd cg
                            then default 0 (find_key (pread_all (stat_fd cg) 8192) (inactive_key cg))
                            else 0 in
            Some (if inactive <? usage then usage - inactive else 0)
        | _ => Some usage
        end
    end
  else None.

Definition computeQuota `{Host} (build : memory_checks) (cg : CgroupMem) (requested_size : Z) : Z :=
  match host_available build with
  | None => requested_size
  | Some mem_available =>
      let mem_available := match cg_used build cg with
                           | Some used => Z.min mem_available (cg_available (cg_limit cg) used)
                           | None => mem_available
                           end in
      if (requested_size <? 0) || (requested_size <=? mem_available) then requested_size
      else s64 mem_available
  end.

(** ** Short reads *)

(** [fd] is open on a file that holds [content]: each call returns some of what was
    asked for, nothing only at the end. *)
Definition serves `{Host} (fd : Z) (content : string) : Prop :=
  forall count off, (0 < count)%nat -> exists n, (n <= count)%nat /\
    pread fd count off = substring off n content /\ ((off < String.length content)%nat -> (0 < n)%nat).

Lemma substring_next len n s :
  (substring 0 len s ++ substring len n s)%string = substring 0 (len + n) s.
Proof.
  revert s; induction len as [|len IH]; intros s; simpl; [by destruct s|].
  destruct s as [|c s]; simpl; [done|]. by rewrite IH.
Qed.

Lemma pread_all_loop_reads `{Host} fuel fd cap content len :
  serves fd content -> (len <= cap)%nat -> (len <= String.length content)%nat -> (cap < fuel + len)%nat ->
  pread_all_loop fuel fd cap (substring 0 len content) = substring 0 cap content.
Proof.
  intros Hfd. revert len; induction fuel as [|fuel IH]; intros len Hcap Hlen Hfuel; [lia|].
  cbn [pread_all_loop]. rewrite length_substring by done. case_match eqn:Hlt.
  - apply Nat.ltb_lt in Hlt. destruct (Hfd (cap - len)%nat len ltac:(lia)) as (n & Hn & -> & Hpos).
    destruct (decide (len < String.length content)%nat) as [Hin|Hout].
    + specialize (Hpos Hin). assert (exists m, (0 < m <= n)%nat /\ (len + m <= String.length content)%nat
        /\ substring len n content = substring len m content) as (m & Hm & Hle & Heq).
      { exists (n `min` (String.length content - len))%nat. split_and!; [lia|lia|lia|].
        rewrite !(substring_sdrop len). apply substring_min; [lia|]. rewrite length_sdrop. lia. }
      rewrite Heq. case_match eqn:He.
      * apply String.eqb_eq in He. apply (f_equal String.length) in He.
        rewrite substring_sdrop, length_substring in He by (rewrite length_sdrop; lia). simpl in He. lia.
      * rewrite substring_next. apply IH; lia.
    + replace (substring len n content) with ""%string.
      * simpl. rewrite !substring_all by lia. done.
      * rewrite substring_sdrop, sdrop_long by lia. by destruct n.
  - apply Nat.ltb_ge in Hlt. by replace cap with len by lia.
Qed.

(** The loop reads the file, or as much of it as the buffer takes, however the
    kernel splits the reads. *)
Lemma pread_all_reads `{Host} fd cap content :
  serves fd content -> pread_all fd cap = substring 0 cap content.
Proof.
  intros Hfd. unfold pread_all. rewrite <- (pread_all_loop_reads (S cap) fd cap content 0) by (done || lia).
  by destruct content.
Qed.

(** ** A key is looked up line by line *)

Definition number_after (rest : string) : option Z := from_chars_u64 (skip_blanks rest).
(** What follows the key on its line: a space, or anything after a colon. *)
Definition key_ends (key rest : string) : bool :=
  bool_decide (String.get 0 rest = Some " "%char) || bool_decide (key_back key = Some ":"%char).

(** The specification: the first line that starts with the key decides. *)
Fixpoint key_of_lines (key : string) (lines : list string) : option Z :=
  match lines with
  | [] => None
  | l :: lines' =>
      let rest := sdrop (String.length key) l in
      if String.prefix key l && key_ends key rest then number_after rest else key_of_lines key lines'
  end.

Section find_key.
Variable key : string.
Hypothesis key_nonempty : key <> ""%string.
Hypothesis key_line : lacks newline key = true.

(** The search character by character: [bol] says that a line starts here. *)
Definition key_here (s : string) : bool :=
  let rest := sdrop (String.length key) s in
  String.prefix key s && negb (String.eqb rest "") && key_ends key rest.
Fixpoint walk (bol : bool) (s : string) : option Z :=
  if bol && key_here s then number_after (sdrop (String.length key) s)
  else match s with EmptyString => None | String c s' => walk (Ascii.eqb c newline) s' end.

Lemma prefix_empty : String.prefix key "" = false.
Proof. by destruct key. Qed.

Lemma walk_empty bol : walk bol "" = None.
Proof. simpl. unfold key_here. rewrite prefix_empty, andb_false_r. done. Qed.

Definition line_start (text : string) (pos : nat) : bool :=
  (pos =? 0)%nat || bool_decide (String.get (pos - 1) text = Some newline).

Lemma line_start_S text pos c :
  String.get pos text = Some c -> line_start text (S pos) = Ascii.eqb c newline.
Proof.
  intros Hc. unfold line_start. simpl. rewrite Nat.sub_0_r, Hc.
  destruct (Ascii.eqb_spec c newline) as [->|Hne]; [by rewrite bool_decide_eq_true_2|].
  rewrite bool_decide_eq_false_2; [done|congruence].
Qed.

Lemma walk_skip text n p :
  (forall m, p <= m < p + n -> line_start text m && key_here (sdrop m text) = false)%nat ->
  walk (line_start text p) (sdrop p text) = walk (line_start text (p + n)) (sdrop (p + n) text).
Proof.
  revert p; induction n as [|n IH]; intros p Hno; [by rewrite Nat.add_0_r|].
  assert (Hp := Hno p ltac:(lia)).
  destruct (String.get p text) as [c|] eqn:Hc.
  - rewrite (sdrop_get p text c Hc) in Hp |- *. cbn [walk]. rewrite Hp.
    rewrite <- (line_start_S text p c Hc). rewrite (IH (S p)) by (intros m Hm; apply Hno; lia).
    by rewrite Nat.add_succ_r.
  - assert (String.length text <= p)%nat.
    { apply Nat.nlt_ge. rewrite get_lt, Hc. by intros []. }
    rewrite !sdrop_long by lia. by rewrite !walk_empty.
Qed.

Lemma key_here_occurs text m : key_here (sdrop m text) = true -> substring m (String.length key) text = key.
Proof. unfold key_here. rewrite <- prefix_substring. by destruct (String.prefix key (sdrop m text)). Qed.

(** Inside an occurrence of the key no line starts. *)
Lemma no_start_inside text m k :
  substring m (String.length key) text = key -> (m < k < m + String.length key)%nat -> line_start text k = false.
Proof.
  intros Hocc Hk. apply prefix_substring, string_prefix_app in Hocc.
  unfold line_start. rewrite (proj2 (Nat.eqb_neq k 0)) by lia. apply bool_decide_eq_false_2.
  replace (k - 1)%nat with (m + (k - 1 - m))%nat by lia. rewrite <- get_sdrop, Hocc, get_append_l by lia.
  by apply lacks_get.
Qed.

Lemma key_here_at text m :
  substring m (String.length key) text = key ->
  key_here (sdrop m text)
  = (m + String.length key <? String.length text)%nat
    && (bool_decide (String.get (m + String.length key) text = Some " "%char)
        || bool_decide (key_back key = Some ":"%char)).
Proof.
  intros Hocc. unfold key_here, key_ends. rewrite (proj2 (prefix_substring _ _ _) Hocc).
  rewrite sdrop_drop, get_sdrop, Nat.add_0_r. simpl. f_equal.
  destruct (Nat.ltb_spec (m + String.length key) (String.length text)) as [Hlt|Hge].
  - apply get_lt in Hlt as [c Hc]. by rewrite (sdrop_get _ _ _ Hc).
  - by rewrite sdrop_long.
Qed.

Lemma find_key_walk fuel text pos :
  (String.length text < fuel + pos)%nat ->
  find_key_loop fuel text key pos = walk (line_start text pos) (sdrop pos text).
Proof.
  assert (Hlen : (0 < String.length key)%nat) by (destruct key; simpl; [done|lia]).
  revert pos; induction fuel as [|fuel IH]; intros pos Hfuel.
  { simpl. rewrite sdrop_long by lia. by rewrite walk_empty. }
  cbn [find_key_loop]. destruct (String.index pos key text) as [m|] eqn:Hidx.
  - pose proof (index_correct1 _ _ _ _ Hidx) as Hocc. pose proof (index_ge _ _ _ _ Hidx) as Hle.
    rewrite (walk_skip text (m - pos) pos).
    2: { intros k Hk. apply andb_false_iff. right. apply not_true_iff_false. intros Hh.
         apply (index_correct2 _ _ _ _ Hidx k); [lia|lia|]. by apply key_here_occurs. }
    replace (pos + (m - pos))%nat with m by lia.
    pose proof (key_here_at text m Hocc) as Hhere. unfold line_start in Hhere |- *. rewrite <- andb_assoc, <- Hhere.
    fold (line_start text m). destruct (line_start text m && key_here (sdrop m text)) eqn:Hcand.
    + destruct (sdrop m text) as [|c s] eqn:Hs; cbn [walk]; rewrite Hcand, <- Hs, sdrop_drop; unfold number_after;
        by destruct (skip_blanks _).
    + rewrite IH by lia. symmetry. apply walk_skip. intros k Hk.
      destruct (decide (k = m)) as [->|]; [done|]. by rewrite (no_start_inside text m k) by (done || lia).
  - rewrite (walk_skip text (String.length text) pos).
    + rewrite sdrop_long by lia. by rewrite walk_empty.
    + intros k Hk. apply andb_false_iff. right. apply not_true_iff_false. intros Hh.
      apply (index_correct3 pos k key text Hidx key_nonempty); [lia|]. by apply key_here_occurs.
Qed.

(** The text from a key that is a whole line on holds no number. *)
Lemma key_ends_walk s w ws :
  split_on newline s = w :: ws ->
  String.prefix key w && key_ends key (sdrop (String.length key) w) = true ->
  key_here s = true /\ number_after (sdrop (String.length key) s) = number_after (sdrop (String.length key) w)
  \/ ws = [] /\ key_here s = false /\ number_after (sdrop (String.length key) w) = None.
Proof.
  intros Hs [Hp He]%andb_true_iff. destruct (split_on_first newline s) as (w' & ws' & Hs' & Hw & Hrest).
  rewrite Hs in Hs'. injection Hs' as <- <-. unfold key_here.
  destruct Hrest as [[-> ->]|(rest & -> & _)].
  - rewrite Hp. destruct (sdrop (String.length key) w) as [|c r]; [right|left]; by rewrite ?He.
  - left. rewrite (prefix_first newline) by done. rewrite sdrop_prefix by done. rewrite Hp.
    unfold number_after. rewrite skip_blanks_line, from_chars_u64_line. split; [|done].
    unfold key_ends in *. destruct (sdrop (String.length key) w) as [|c r]; [|done]. simpl in *.
    done.
Qed.

Lemma key_ends_none s w ws :
  split_on newline s = w :: ws ->
  String.prefix key w && key_ends key (sdrop (String.length key) w) = false -> key_here s = false.
Proof.
  intros Hs Hn. destruct (split_on_first newline s) as (w' & ws' & Hs' & Hw & Hrest).
  rewrite Hs in Hs'. injection Hs' as <- <-. unfold key_here. destruct Hrest as [[-> ->]|(rest & -> & _)].
  - destruct (String.prefix key w); [|done]. simpl in *. by rewrite Hn, andb_false_r.
  - rewrite (prefix_first newline) by done. destruct (String.prefix key w) eqn:Hp; [|done]. simpl in *.
    rewrite sdrop_prefix by done. unfold key_ends in *.
    destruct (sdrop (String.length key) w) as [|c r]; simpl in *; [|done]. by case_bool_decide.
Qed.

Lemma walk_lines s :
  walk true s = key_of_lines key (split_on newline s) /\ walk false s = key_of_lines key (tail (split_on newline s)).
Proof.
  induction s as [|c s [IHt IHf]]; simpl split_on.
  { rewrite !walk_empty. cbn [key_of_lines tail]. by rewrite prefix_empty. }
  assert (Hstep : walk false (String c s) = key_of_lines key (tail (split_on newline (String c s)))).
  { cbn [walk andb split_on]. destruct (Ascii.eqb c newline); [done|]. rewrite IHf. by destruct (split_on newline s). }
  simpl split_on in Hstep. split; [|exact Hstep].
  destruct (split_on_first newline (String c s)) as (w & ws & Hs & _). simpl split_on in Hs. rewrite Hs in Hstep |- *.
  cbn [key_of_lines tail] in *.
  destruct (String.prefix key w && key_ends key (sdrop (String.length key) w)) eqn:Hw.
  - destruct (key_ends_walk (String c s) w ws Hs Hw) as [[Hh Hn]|(-> & Hh & Hn)].
    + cbn [walk andb]. by rewrite Hh, Hn.
    + rewrite Hn. cbn [walk andb]. rewrite Hh. exact Hstep.
  - rewrite <- Hstep. cbn [walk andb]. by rewrite (key_ends_none (String c s) w ws Hs Hw).
Qed.
End find_key.

(** [find_key] is a lookup by line: for a key that is not empty and holds no line
    break, it gives the number after the key on the first line that starts with
    the key followed by a space (or by anything, when the key ends with a colon),
    and fails when there is no such line or no number that fits 64 bits there.
    Occurrences of the key elsewhere, as in [total_inactive_file], do not
    count. *)
Theorem find_key_by_line (text key : string) :
  key <> ""%string -> lacks newline key = true ->
  find_key text key = key_of_lines key (split_on newline text).
Proof.
  intros Hne Hline. unfold find_key. rewrite find_key_walk by (done || lia).
  apply (walk_lines key Hne Hline text).
Qed.

Lemma find_key_by_line_witness :
  let text := String.concat (String newline "") ["total_inactive_file 7"; "inactive_file 42"; "active_file 3"]%string in
  find_key text "inactive_file" = key_of_lines "inactive_file" (split_on newline text)
  /\ find_key text "inactive_file" = Some 42.
Proof. split; [apply find_key_by_line; [done|reflexivity]|vm_compute; reflexivity]. Defined.

(** ** The controllers of a group *)

(** The loop over the commas looks for a piece of the list. *)
Lemma has_memory_split fuel ctrls p :
  (String.length ctrls + 1 < fuel + p)%nat -> (p <= String.length ctrls)%nat ->
  has_memory_loop fuel ctrls p = existsb (String.eqb "memory") (split_on "," (sdrop p ctrls)).
Proof.
  revert p; induction fuel as [|fuel IH]; intros p Hfuel Hp; [lia|].
  cbn [has_memory_loop]. rewrite (proj2 (Nat.leb_le _ _)) by done.
  rewrite index_sdrop, substring_sdrop by done.
  destruct (split_on_first "," (sdrop p ctrls)) as (w & ws & Hs & Hw & [[-> Heq]|(rest & Heq & ->)]);
    rewrite Hs; cbn [existsb]; rewrite (String.eqb_sym "memory").
  - rewrite Heq, index_char_lacks by done. simpl fmap.
    assert (Hlen : String.length (sdrop p ctrls) = (String.length ctrls - p)%nat) by apply length_sdrop.
    rewrite Heq in Hlen. cbv beta iota. rewrite <- Hlen. rewrite <- (string_app_nil w) at 2. rewrite substring_prefix.
    destruct (String.eqb w "memory"); [done|]. destruct fuel as [|fuel]; [done|].
    cbn [has_memory_loop]. by rewrite (proj2 (Nat.leb_gt _ _)) by lia.
  - assert (Hlen : String.length (sdrop p ctrls) = (String.length ctrls - p)%nat) by apply length_sdrop.
    rewrite Heq, length_append in Hlen. simpl in Hlen.
    rewrite Heq, index_char_first by done. simpl fmap.
    cbv beta iota. replace (p + String.length w - p)%nat with (String.length w) by lia. rewrite substring_prefix.
    destruct (String.eqb w "memory"); [done|]. simpl orb. rewrite IH by lia. do 2 f_equal.
    replace (p + String.length w + 1)%nat with (p + (String.length w + 1))%nat by lia.
    rewrite <- sdrop_drop, Heq, <- sdrop_drop, sdrop_app. done.
Qed.

Lemma has_memory_correct ctrls : has_memory ctrls = existsb (String.eqb "memory") (split_on "," ctrls).
Proof. unfold has_memory. rewrite has_memory_split by lia. done. Qed.

(** ** The walk to the mount point *)

Lemma min_limit_le limit v : min_limit limit v <= limit.
Proof. destruct v; simpl; lia. Qed.

Lemma min_limit_some limit v x : v = Some x -> min_limit limit v <= x.
Proof. intros ->. simpl. lia. Qed.

(** [limit_walk] from a directory below the mount point that need not be
    normal. *)
Lemma limit_walk_ends `{Host} fuel mount limit_file x limit :
  lacks "/" mount = false -> (String.length x < fuel)%nat ->
  exists l, limit_walk fuel mount limit_file (mount ++ x) limit = Done l /\ l <= limit.
Proof.
  intros Hm. revert x limit; induction fuel as [|fuel IH]; intros x limit Hfuel; [lia|].
  cbn [limit_walk]. set (limit' := min_limit limit _). assert (Hl : limit' <= limit) by apply min_limit_le.
  rewrite length_append. case_match eqn:Hle; [by exists limit'|]. apply Nat.leb_gt in Hle.
  destruct (rindex_found "/" mount x Hm) as [n Hn]. rewrite Hn. apply rindex_lt in Hn. rewrite length_append in Hn.
  destruct (decide (String.length mount <= n)%nat) as [Hin|Hout].
  - rewrite substring_longer by done.
    destruct (IH (substring 0 (n - String.length mount) x) limit') as (l & Hd & ?);
      [rewrite length_substring by lia; lia|].
    exists l. split; [done|lia].
  - destruct fuel as [|fuel]; [lia|]. cbn [limit_walk].
    rewrite length_substring by (rewrite length_append; lia). rewrite (proj2 (Nat.leb_le _ _)) by lia.
    eexists. split; [done|]. etrans; [apply min_limit_le|done].
Qed.

Lemma limit_walk_names `{Host} fuel mount limit_file ws limit :
  Forall (fun w => lacks "/" w = true) ws -> (length ws < fuel)%nat ->
  exists l, limit_walk fuel mount limit_file (mount ++ path_of "/" ws) limit = Done l
    /\ l <= limit
    /\ (forall k v, (k <= length ws)%nat -> dir_limit limit_file (mount ++ path_of "/" (take k ws)) = Some v -> l <= v)
    /\ (l = limit \/ exists k, (k <= length ws)%nat /\ dir_limit limit_file (mount ++ path_of "/" (take k ws)) = Some l).
Proof.
  revert fuel limit; induction ws as [|w ws IH] using rev_ind; intros fuel limit Hws Hfuel;
    (destruct fuel as [|fuel]; [lia|]); cbn [limit_walk];
    set (v0 := dir_limit _ _); set (limit' := min_limit limit v0);
    assert (Hlim : limit' = limit \/ v0 = Some limit') by (subst limit'; destruct v0 as [x|]; simpl; [|by left];
      destruct (Z.min_spec limit x) as [[_ ->]|[_ ->]]; auto).
  - rewrite length_append, (proj2 (Nat.leb_le _ _)) by (simpl; lia). exists limit'. split_and!; [done|apply min_limit_le| |].
    + intros k v _ Hk. rewrite take_nil in Hk. by apply min_limit_some.
    + destruct Hlim; [by left|right]. exists O. split; [simpl; lia|done].
  - apply Forall_app in Hws as [Hws Hw%Forall_inv].
    rewrite length_app in Hfuel. simpl in Hfuel. rewrite path_of_snoc in *. rewrite <- string_app_assoc in *.
    rewrite length_append, (proj2 (Nat.leb_gt _ _)) by (rewrite length_append; simpl; lia).
    rewrite rindex_last by exact Hw. rewrite substring_prefix.
    destruct (IH fuel limit') as (l & Hl & Hle & Hall & Hsome); [done|lia|].
    exists l. split_and!; [done|etrans; [exact Hle|apply min_limit_le]| |].
    + intros k v Hk Hv. destruct (decide (k <= length ws)%nat) as [Hin|Hout].
      * rewrite take_app_le in Hv by lia. by apply Hall with k.
      * rewrite take_ge, path_of_snoc, <- string_app_assoc in Hv by (rewrite length_app; simpl; lia).
        etrans; [exact Hle|]. apply min_limit_some. subst v0. by rewrite path_of_snoc, <- string_app_assoc.
    + rewrite length_app; simpl. destruct Hsome as [->|(k & Hk & Hv)].
      * destruct Hlim as [|Hv]; [by left|right]. exists (length ws + 1)%nat. split; [lia|].
        rewrite take_ge, path_of_snoc, <- string_app_assoc by (rewrite length_app; simpl; lia). subst v0. by rewrite path_of_snoc, <- string_app_assoc in Hv.
      * right. exists k. split; [lia|]. by rewrite take_app_le by lia.
Qed.

(** The limit of a control group is the smallest one on the way to the mount point.
    From the directory of the process, [mount] followed by an absolute path, the
    walk ends after as many turns as the path has names and one more; its result
    is not above the limit it starts from nor above the limit file of any
    directory between the mount point and the process, and is one of these. *)
Theorem limit_walk_smallest `{Host} (mount limit_file rest : string) (limit : Z) :
  let ws := split_on "/" rest in
  exists l, limit_walk (S (String.length (mount ++ String "/" rest))) mount limit_file (mount ++ String "/" rest) limit = Done l
    /\ l <= limit
    /\ (forall k v, (k <= length ws)%nat -> dir_limit limit_file (mount ++ path_of "/" (take k ws)) = Some v -> l <= v)
    /\ (l = limit \/ exists k, (k <= length ws)%nat /\ dir_limit limit_file (mount ++ path_of "/" (take k ws)) = Some l).
Proof.
  intros ws. rewrite <- (path_of_split "/" rest). apply limit_walk_names; [apply split_on_lacks|].
  rewrite (path_of_split "/" rest), length_append. pose proof (split_on_length "/" rest) as Hlen. simpl. unfold ws. lia.
Qed.

(** The usage file that is open is the one of the directory of the process in the
    hierarchy, or of its mount point, and a number can be read from it. *)
Definition usable_group `{Host} (mount : string) (v2 : bool) (cg : CgroupMem) : Prop :=
  0 <= usage_fd cg /\ is_Some (pread_u64 (usage_fd cg))
  /\ exists dir, (dir = mount \/ dir = (mount ++ self_cgroup_path v2)%string) /\
     usage_fd cg = open_rdonly (dir ++ "/" ++ (if v2 then "memory.current" else "memory.usage_in_bytes"))%string.

(** A group that was found can be read and has a limit below that of a group
    without one. *)
Lemma try_hierarchy_ends `{Host} cg mount v2 :
  lacks "/" mount = false ->
  exists found cg', try_hierarchy cg mount v2 = Done (found, cg')
    /\ cg_limit cg' <= cg_limit cg /\ (found = true -> usable_group mount v2 cg').
Proof.
  intros Hm. unfold try_hierarchy. set (path := self_cgroup_path v2).
  set (dir := if negb (String.eqb path "") && _ && _ then (mount ++ path)%string else mount).
  assert (exists x, dir = (mount ++ x)%string) as [x Hx].
  { subst dir. case_match; [by eexists|]. exists ""%string. by rewrite string_app_nil. }
  assert (dir = mount \/ dir = (mount ++ path)%string) as Hdir by (subst dir; case_match; auto).
  set (fd := open_rdonly _). destruct (fd <? 0) eqn:Hfd; [by exists false; eexists; split_and!|]. apply Z.ltb_ge in Hfd.
  destruct (pread_u64 fd) as [u|] eqn:Hu; [|by exists false; eexists; split_and!]. rewrite Hx.
  set (limit_file := if v2 then "memory.max"%string else _).
  destruct (limit_walk_ends (S (String.length (mount ++ x))) mount limit_file x (cg_limit cg)) as (l & -> & Hl); [done| |].
  { rewrite length_append. lia. }
  exists true. eexists. split_and!; [reflexivity| |]; [simpl; repeat case_match; lia|]. intros _. unfold usable_group. simpl.
  split_and!; [done|by rewrite Hu|]. exists dir. split; [exact Hdir|done].
Qed.

Definition hierarchies : list (string * bool) :=
  [("/sys/fs/cgroup", true); ("/sys/fs/cgroup/unified", true); ("/sys/fs/cgroup/memory", false)]%string.

(** C35. The search for the control group ends on every machine, whatever the files of
    [/proc] and [/sys] hold: no walk to a mount point runs forever or throws.
    A group that is kept has a limit, and its usage file, the one of the directory
    of the process or of the mount point in one of the three hierarchies, is open
    and has been read as a number; a group without a limit is given up, so that
    later calls do not read it. *)
Theorem resolve_cgroup_ends `{Host} :
  exists cg, resolve_cgroup = Done cg /\ cg_limit cg <= kUnlimited
    /\ (active cg = true <-> cg_limit cg < kUnlimited)
    /\ (active cg = true -> exists mount v2, (mount, v2) ∈ hierarchies /\ usable_group mount v2 cg).
Proof.
  unfold resolve_cgroup, or_try.
  destruct (try_hierarchy_ends CgroupMem_new "/sys/fs/cgroup" true) as (f1 & cg1 & -> & Hl1 & Hf1); [done|].
  change (cg_limit CgroupMem_new) with kUnlimited in Hl1.
  destruct (try_hierarchy_ends cg1 "/sys/fs/cgroup/unified" true) as (f2 & cg2 & H2 & Hl2 & Hf2); [done|].
  destruct (try_hierarchy_ends cg2 "/sys/fs/cgroup/memory" false) as (f3 & cg3 & H3 & Hl3 & Hf3); [done|].
  assert (Hend : forall found cg m v, (m, v) ∈ hierarchies -> (found = true -> usable_group m v cg) -> cg_limit cg <= kUnlimited ->
    let cg' := if negb found || (cg_limit cg =? kUnlimited) then CgroupMem_new else cg in
    cg_limit cg' <= kUnlimited /\ (active cg' = true <-> cg_limit cg' < kUnlimited)
    /\ (active cg' = true -> exists mount v2, (mount, v2) ∈ hierarchies /\ usable_group mount v2 cg')).
  { intros found cg m v Hin Hf Hl. unfold active. destruct found; simpl; [|done].
    destruct (Z.eqb_spec (cg_limit cg) kUnlimited); simpl; [done|]. specialize (Hf eq_refl). pose proof (proj1 Hf) as Hu.
    split_and!; [done|lia|]. intros _. by exists m, v. }
  assert (forall i e, hierarchies !! i = Some e -> e ∈ hierarchies) as Hel by (intros i e He; by eapply list_elem_of_lookup_2).
  cbn [outcome_bind]. destruct f1; [eexists; split; [done|]; by apply (Hend true cg1 _ _ (Hel 0%nat _ eq_refl))|]. rewrite H2.
  cbn [outcome_bind]. destruct f2; [eexists; split; [done|]; apply (Hend true cg2 _ _ (Hel 1%nat _ eq_refl)); [done|lia]|]. rewrite H3.
  cbn [outcome_bind]. eexists. split; [by destruct f3|]. destruct f3; apply (Hend _ cg3 _ _ (Hel 2%nat _ eq_refl)); done || lia.
Qed.

(** ** The quota *)

Lemma pread_u64_nonneg `{Host} fd n : pread_u64 fd = Some n -> 0 <= n.
Proof.
  unfold pread_u64, parse_u64. case_match; [|done]. case_match; [by intros [= <-]|].
  intros Hn%from_chars_u64_range. lia.
Qed.

Lemma cg_used_nonneg `{Host} build cg used : cg_used build cg = Some used -> 0 <= used.
Proof.
  unfold cg_used. destruct (active cg); [|done]. destruct (pread_u64 (usage_fd cg)) as [usage|] eqn:Hu; [|done].
  apply pread_u64_nonneg in Hu. set (inactive := if 0 <=? stat_fd cg then _ else 0). clearbody inactive.
  destruct build; [by intros [= <-]..|]. intros [= <-]. destruct (Z.ltb_spec inactive usage); lia.
Qed.

Lemma host_available_range `{Host} build avail : host_available build = Some avail -> 0 <= avail < 2 ^ 64.
Proof.
  unfold host_available. destruct build; repeat case_match; intros; simplify_eq; apply Z.mod_pos_bound; lia.
Qed.

(** What the quota is compared with. *)
Lemma computeQuota_min `{Host} build cg r host :
  0 <= r < 2 ^ 63 -> host_available build = Some host ->
  computeQuota build cg r
  = Z.min r (match cg_used build cg with Some used => Z.min host (Z.max 0 (cg_limit cg - used)) | None => host end).
Proof.
  intros Hr Hhost. unfold computeQuota. rewrite Hhost. pose proof (host_available_range _ _ Hhost).
  rewrite (proj2 (Z.ltb_ge r 0)) by lia. simpl.
  destruct (cg_used build cg) as [used|]; unfold cg_available.
  - destruct (Z.ltb_spec used (cg_limit cg)); case_match eqn:Hle;
      rewrite ?Z.leb_le, ?Z.leb_gt in Hle; rewrite ?s64_small by lia; lia.
  - case_match eqn:Hle; rewrite ?Z.leb_le, ?Z.leb_gt in Hle; rewrite ?s64_small by lia; lia.
Qed.

(** The cache the kernel can drop, which the full build takes off the usage. *)
Definition droppable `{Host} (build : memory_checks) (cg : CgroupMem) : Z :=
  match build with
  | CHECKS_FULL => if 0 <=? stat_fd cg then default 0 (find_key (pread_all (stat_fd cg) 8192) (inactive_key cg)) else 0
  | _ => 0
  end.
Lemma cg_used_eq `{Host} build cg :
  cg_used build cg = if active cg then (fun usage => Z.max 0 (usage - droppable build cg)) <$> pread_u64 (usage_fd cg) else None.
Proof.
  unfold cg_used, droppable. destruct (active cg); [|done]. destruct (pread_u64 (usage_fd cg)) as [usage|] eqn:Hu; [|done].
  apply pread_u64_nonneg in Hu. simpl. destruct build; [f_equal; lia..|]. set (inactive := if 0 <=? stat_fd cg then _ else 0).
  clearbody inactive. f_equal. destruct (Z.ltb_spec inactive usage); lia.
Qed.


(** The quota of a build is what the buffers rely on. *)
Lemma computeQuota_range `{Host} build cg r : 0 <= r < 2 ^ 63 -> 0 <= computeQuota build cg r <= r.
Proof.
  intros Hr. destruct (host_available build) as [host|] eqn:Hh.
  - pose proof (host_available_range _ _ Hh). rewrite (computeQuota_min _ _ _ _ Hr Hh). destruct (cg_used build cg); lia.
  - unfold computeQuota. rewrite Hh. lia.
Qed.
Instance allocator_quota `{Host} (build : memory_checks) (cg : CgroupMem) : MemQuota := {|
  computeAllocableMemQuota := computeQuota build cg;
  quota_le := fun r Hr => proj2 (computeQuota_range build cg r Hr);
  quota_nonneg := fun r Hr => proj1 (computeQuota_range build cg r Hr)
|}.

(** ** A container with a limit *)

(** Version 2 control groups: the group of the process has no limit, its parent
    one of 1000000 bytes. *)
Definition demo_files (path : string) : option string :=
  if String.eqb path "/proc/self/cgroup" then Some "0::/job/step"%string
  else if String.eqb path "/sys/fs/cgroup/job/step/memory.max" then Some "max"%string
  else if String.eqb path "/sys/fs/cgroup/job/memory.max" then Some "1000000"%string
  else None.
Definition demo_open (path : string) : Z :=
  if String.eqb path "/proc/meminfo" then 3
  else if String.eqb path "/sys/fs/cgroup/job/step/memory.current" then 4
  else if String.eqb path "/sys/fs/cgroup/job/step/memory.stat" then 5 else -1.
Definition demo_text (fd : Z) : string :=
  if fd =? 3 then String.concat (String newline "") ["MemTotal: 8000 kB"; "MemAvailable:  4000 kB"]%string
  else if fd =? 4 then "700000"%string
  else if fd =? 5 then String.concat (String newline "") ["anon 1"; "inactive_file 200000"]%string else ""%string.
Definition demo_host : Host := {|
  access_ok path := String.eqb path "/sys/fs/cgroup/job/step/memory.current";
  open_rdonly := demo_open;
  pread fd count off := substring off count (demo_text fd);
  ifstream_text := demo_files;
  avphys_pages := 1000;
  page_size := 4096
|}.
Definition demo_cgroup : CgroupMem :=
  {| usage_fd := 4; stat_fd := 5; cg_limit := 1000000; inactive_key := "inactive_file" |}.

