(* ===== verification/Queue.v ===== *)
(** * The shared-memory queues

    [common/queue.hpp]: a ring of [_max_num_elems] slots of [_elem_size] bytes
    in shared memory, with two semaphores that count the full and the empty
    slots.  [Queue] is the ring; a call that would wait on a semaphore that is
    zero is [Blocks], the state being unchanged.  [Fifo] is what the rest of
    the development uses: the slots ever handed over, in order, and how many
    of them have been taken.  The theorems of this file show that the ring
    implements it. *)
From S2P Require Import Prelude Memory.

(** ** The ring: [Queue<T, Mutex>] *)

Record Queue : Type := {
  _shm : mem;
  _max_num_elems : Z;
  _elem_size : Z;
  _first_elem : Z;
  _last_elem : Z;
  _sem_num_elems : Z;
  _sem_num_empty : Z
}.
Definition _buff_size (q : Queue) : Z := _max_num_elems q * _elem_size q.

(** The constructor, on shared memory that does not exist yet. *)
Definition Queue_new (max_num_elems elem_size : Z) : Queue := {|
  _shm := ∅; _max_num_elems := max_num_elems; _elem_size := elem_size;
  _first_elem := 0; _last_elem := 0;
  _sem_num_elems := 0; _sem_num_empty := max_num_elems |}.

(** What [_read] and [fetch] do once [_sem_num_elems] is locked: move the head,
    unlock [_sem_num_empty]. *)
Definition take_slot (q : Queue) : Queue := {|
  _shm := _shm q; _max_num_elems := _max_num_elems q; _elem_size := _elem_size q;
  _first_elem := (_first_elem q + _elem_size q) mod _buff_size q;
  _last_elem := _last_elem q;
  _sem_num_elems := _sem_num_elems q - 1; _sem_num_empty := _sem_num_empty q + 1 |}.

(** What [_write] and [reserve] do once [_sem_num_empty] is locked. *)
Definition add_slot (q : Queue) (shm : mem) : Queue := {|
  _shm := shm; _max_num_elems := _max_num_elems q; _elem_size := _elem_size q;
  _first_elem := _first_elem q;
  _last_elem := (_last_elem q + _elem_size q) mod _buff_size q;
  _sem_num_elems := _sem_num_elems q + 1; _sem_num_empty := _sem_num_empty q - 1 |}.

(** [Queue::_read] *)
Definition _read (num_bytes : Z) : M Queue (list cell) := fun q =>
  if _sem_num_elems q <=? 0 then Blocks "sem_num_elems"
  else Done (mem_read (_shm q) (_first_elem q) num_bytes, take_slot q).

(** [Queue::_write] *)
Definition _write (data : list cell) : M Queue unit := fun q =>
  if _sem_num_empty q <=? 0 then Blocks "sem_num_empty"
  else Done (tt, add_slot q (mem_write (_shm q) (_last_elem q) data)).

(** [Queue::fetch]: the offset of the slot in the shared memory. *)
Definition fetch : M Queue Z := fun q =>
  if _sem_num_elems q <=? 0 then Blocks "sem_num_elems"
  else Done (_first_elem q, take_slot q).

(** [Queue::reserve] *)
Definition reserve : M Queue Z := fun q =>
  if _sem_num_empty q <=? 0 then Blocks "sem_num_empty"
  else Done (_last_elem q, add_slot q (_shm q)).

(** A store through the pointer [reserve] returned. *)
Definition poke (segment off : Z) (data : list cell) (q : Queue) : Queue := {|
  _shm := mem_write (_shm q) (segment + off) data;
  _max_num_elems := _max_num_elems q; _elem_size := _elem_size q;
  _first_elem := _first_elem q; _last_elem := _last_elem q;
  _sem_num_elems := _sem_num_elems q; _sem_num_empty := _sem_num_empty q |}.

(** [Queue::read]: [num_bytes] bytes, a slot at a time. *)
Fixpoint read_slots (n : nat) : M Queue (list cell) := fun q =>
  match n with
  | O => Done ([], q)
  | S n' => (let* d := _read (_elem_size q) in
             let* ds := read_slots n' in ret (d ++ ds)) q
  end.
Definition read (num_bytes : Z) : M Queue (list cell) := fun q =>
  let n_reads := num_bytes / _elem_size q in
  let r := num_bytes mod _elem_size q in
  (let* d := read_slots (Z.to_nat n_reads) in
   if negb (r =? 0) then let* d' := _read r in ret (d ++ d') else ret d) q.

(** [Queue::write] *)
Fixpoint write_slots (n : nat) (data : list cell) : M Queue (list cell) := fun q =>
  match n with
  | O => Done (data, q)
  | S n' =>
      let es := Z.to_nat (_elem_size q) in
      (_write (take es data) ;; write_slots n' (drop es data)) q
  end.
Definition write (data : list cell) : M Queue unit := fun q =>
  let num_bytes := Z.of_nat (length data) in
  let n_writes := num_bytes / _elem_size q in
  let r := num_bytes mod _elem_size q in
  (let* rest := write_slots (Z.to_nat n_writes) data in
   if negb (r =? 0) then _write rest else ret tt) q.

(** ** The order of the slots: [Fifo] *)

Record Fifo : Type := { f_slots : list (list cell); f_next : nat }.
Definition fifo_new : Fifo := {| f_slots := []; f_next := 0 |}.
Definition fifo_pending (f : Fifo) : list (list cell) := drop (f_next f) (f_slots f).

Definition fifo_push (d : list cell) (f : Fifo) : Fifo :=
  {| f_slots := f_slots f ++ [d]; f_next := f_next f |}.
Definition fifo_pop (f : Fifo) : option (list cell * Fifo) :=
  match f_slots f !! f_next f with
  | Some d => Some (d, {| f_slots := f_slots f; f_next := S (f_next f) |})
  | None => None
  end.
(** The first [n] bytes of a slot whose writer stored [d] in it: what is past
    [d] is left from an earlier use of the slot. *)
Definition slot_bytes (d : list cell) (n : Z) : list cell :=
  take (Z.to_nat n) (d ++ replicate (Z.to_nat n - length d) None).

Definition fifo_take (n : Z) : M Fifo (list cell) := fun f =>
  match fifo_pop f with
  | Some (d, f') => Done (slot_bytes d n, f')
  | None => Blocks "sem_num_elems"
  end.

(** [Queue::read] and [Queue::write] on the order of the slots; [es] is
    [_elem_size]. *)
Fixpoint fifo_read_slots (es : Z) (n : nat) : M Fifo (list cell) :=
  match n with
  | O => ret []
  | S n' => let* d := fifo_take es in
            let* ds := fifo_read_slots es n' in ret (d ++ ds)
  end.
Definition fifo_read (es num_bytes : Z) : M Fifo (list cell) :=
  let* d := fifo_read_slots es (Z.to_nat (num_bytes / es)) in
  let r := num_bytes mod es in
  if negb (r =? 0) then let* d' := fifo_take r in ret (d ++ d') else ret d.

(** The slots [Queue::write] hands over for [data]. *)
Fixpoint full_slots (es : nat) (n : nat) (data : list cell) : list (list cell) :=
  match n with
  | O => []
  | S n' => take es data :: full_slots es n' (drop es data)
  end.
Definition write_chunks (es : Z) (data : list cell) : list (list cell) :=
  let n := Z.to_nat (Z.of_nat (length data) / es) in
  let rest := drop (n * Z.to_nat es) data in
  full_slots (Z.to_nat es) n data ++ (if negb (Z.of_nat (length data) mod es =? 0) then [rest] else []).
Definition fifo_pushes (ds : list (list cell)) (f : Fifo) : Fifo :=
  {| f_slots := f_slots f ++ ds; f_next := f_next f |}.
Definition fifo_write (es : Z) (data : list cell) (f : Fifo) : Fifo :=
  fifo_pushes (write_chunks es data) f.

(** ** The invariant of the ring *)

(** The offset of the [i]-th slot from the head. *)
Definition slot_off (q : Queue) (i : Z) : Z :=
  ((_first_elem q / _elem_size q + i) mod _max_num_elems q) * _elem_size q.

Record q_inv (q : Queue) : Prop := {
  qi_es : 0 < _elem_size q;
  qi_max : 0 < _max_num_elems q;
  qi_elems : 0 <= _sem_num_elems q;
  qi_empty : 0 <= _sem_num_empty q;
  qi_sum : _sem_num_elems q + _sem_num_empty q = _max_num_elems q;
  qi_first : _first_elem q = slot_off q 0;
  qi_last : _last_elem q = slot_off q (_sem_num_elems q)
}.

(** The full slots, from the oldest. *)
Definition contents (q : Queue) : list (list cell) :=
  (fun i => mem_read (_shm q) (slot_off q i) (_elem_size q)) <$> seqZ 0 (_sem_num_elems q).

(** A full slot holds what its writer stored, at its start. *)
Definition slot_agrees (d slot : list cell) : Prop := d `prefix_of` slot.

Definition q_refines (q : Queue) (f : Fifo) : Prop :=
  q_inv q /\ (f_next f <= length (f_slots f))%nat /\
  Forall2 slot_agrees (fifo_pending f) (contents q).

Lemma slot_off_bounds q i :
  q_inv q -> 0 <= slot_off q i /\ slot_off q i + _elem_size q <= _buff_size q.
Proof.
  intros [He Hm _ _ _ _ _]. unfold slot_off, _buff_size.
  pose proof (Z.mod_pos_bound (_first_elem q / _elem_size q + i) _ Hm). nia.
Qed.

(** Distinct slots do not overlap. *)
Lemma slot_off_disjoint q i j :
  q_inv q -> 0 <= i < j -> j < _max_num_elems q ->
  slot_off q i + _elem_size q <= slot_off q j \/ slot_off q j + _elem_size q <= slot_off q i.
Proof.
  intros [He Hm _ _ _ _ _] Hij Hj. unfold slot_off.
  set (f := _first_elem q / _elem_size q). set (n := _max_num_elems q) in *.
  assert ((f + i) mod n <> (f + j) mod n).
  { intros E. pose proof (Z.div_mod (f + i) n ltac:(lia)) as H1.
    pose proof (Z.div_mod (f + j) n ltac:(lia)) as H2. rewrite E in H1.
    assert (j - i = n * ((f + j) / n - (f + i) / n)) by lia.
    assert ((f + j) / n - (f + i) / n <> 0) by nia. nia. }
  destruct (Z.lt_total ((f + i) mod n) ((f + j) mod n)) as [?|[?|?]]; [left|done|right]; nia.
Qed.

(** Advancing an offset by one slot, around the end of the ring. *)
Lemma slot_off_next q i :
  q_inv q -> (slot_off q i + _elem_size q) mod _buff_size q = slot_off q (i + 1).
Proof.
  intros [He Hm _ _ _ _ _]. unfold slot_off, _buff_size.
  set (f := _first_elem q / _elem_size q). set (n := _max_num_elems q) in *.
  replace ((f + i) mod n * _elem_size q + _elem_size q)
    with (((f + i) mod n + 1) * _elem_size q) by lia.
  rewrite Z.mul_mod_distr_r by lia. f_equal.
  rewrite Zplus_mod_idemp_l. f_equal. lia.
Qed.

(** After the head moved, slot [i] is the one that was slot [i + 1]. *)
Lemma slot_off_take q i : q_inv q -> slot_off (take_slot q) i = slot_off q (i + 1).
Proof.
  intros Hq. pose proof Hq as [He Hm _ _ _ Hf _].
  unfold slot_off at 1. simpl. rewrite Hf, slot_off_next by done.
  unfold slot_off. set (f := _first_elem q / _elem_size q).
  rewrite Z.div_mul, Zplus_mod_idemp_l by lia. do 2 f_equal. lia.
Qed.

Lemma q_inv_take q : q_inv q -> 0 < _sem_num_elems q -> q_inv (take_slot q).
Proof.
  intros Hq Hpos. pose proof Hq as [He Hm H1 H2 H3 Hf Hl].
  split; try (simpl; lia).
  - rewrite slot_off_take by done. simpl. rewrite Hf at 1. by apply slot_off_next.
  - rewrite slot_off_take by done. simpl. rewrite Hl. f_equal. lia.
Qed.

Lemma q_inv_add q shm : q_inv q -> 0 < _sem_num_empty q -> q_inv (add_slot q shm).
Proof.
  intros Hq Hpos. pose proof Hq as [He Hm H1 H2 H3 Hf Hl].
  split; try (simpl; lia); try done.
  change (slot_off (add_slot q shm)) with (slot_off q). simpl. rewrite Hl.
  by apply slot_off_next.
Qed.

Lemma contents_take q :
  q_inv q -> 0 < _sem_num_elems q ->
  contents q = mem_read (_shm q) (_first_elem q) (_elem_size q) :: contents (take_slot q).
Proof.
  intros Hq Hpos. unfold contents. rewrite seqZ_cons by lia. simpl.
  rewrite (qi_first q Hq) at 1. f_equal.
  replace (Z.pred (_sem_num_elems q)) with (_sem_num_elems q - 1) by lia.
  rewrite <- (fmap_add_seqZ 1 0), <- list_fmap_compose. apply list_fmap_ext. intros i x _. simpl.
  by rewrite slot_off_take, Z.add_comm.
Qed.

Lemma contents_add q d :
  q_inv q -> 0 < _sem_num_empty q -> Z.of_nat (length d) <= _elem_size q ->
  let q' := add_slot q (mem_write (_shm q) (_last_elem q) d) in
  contents q' = contents q ++ [mem_read (_shm q') (_last_elem q) (_elem_size q)].
Proof.
  intros Hq Hpos Hd q'. pose proof Hq as [He Hm H1 H2 H3 Hf Hl].
  unfold contents, q'. simpl. rewrite seqZ_app, fmap_app by lia. simpl. f_equal.
  - apply list_fmap_ext. intros k x Hx. apply lookup_seqZ in Hx as [-> Hx].
    apply mem_read_outside. rewrite Hl.
    pose proof (slot_off_disjoint q (0 + Z.of_nat k) (_sem_num_elems q) Hq). unfold slot_off in *.
    simpl in *. lia.
  - rewrite Hl. unfold slot_off. simpl. done.
Qed.

Lemma mem_read_write_prefix m off d n :
  Z.of_nat (length d) <= n -> d `prefix_of` mem_read (mem_write m off d) off n.
Proof.
  intros Hd. replace n with (Z.of_nat (length d) + (n - Z.of_nat (length d))) by lia.
  rewrite mem_read_app, mem_read_write by lia. by eexists.
Qed.

Lemma length_contents q : 0 <= _sem_num_elems q -> length (contents q) = Z.to_nat (_sem_num_elems q).
Proof. intros. unfold contents. by rewrite length_fmap, length_seqZ. Qed.

Lemma fifo_pop_spec f :
  fifo_pop f =
  match fifo_pending f with
  | d :: _ => Some (d, {| f_slots := f_slots f; f_next := S (f_next f) |})
  | [] => None
  end.
Proof.
  unfold fifo_pop, fifo_pending. destruct (f_slots f !! f_next f) eqn:E.
  - by rewrite (drop_S _ _ _ E).
  - rewrite drop_ge; [done|by apply lookup_ge_None].
Qed.

Lemma fifo_pending_pop f d ds :
  fifo_pending f = d :: ds ->
  fifo_pending {| f_slots := f_slots f; f_next := S (f_next f) |} = ds.
Proof.
  unfold fifo_pending. simpl. intros E. rewrite <- Nat.add_1_r, <- drop_drop, E. done.
Qed.

Lemma fifo_pending_push f d :
  (f_next f <= length (f_slots f))%nat ->
  fifo_pending (fifo_push d f) = fifo_pending f ++ [d].
Proof. intros H. unfold fifo_pending, fifo_push. simpl. by rewrite drop_app_le. Qed.

(** ** The ring implements the order of the slots *)

Lemma q_refines_pending q f :
  q_refines q f -> Z.of_nat (length (fifo_pending f)) = _sem_num_elems q.
Proof.
  intros (Hq & _ & HF). apply Forall2_length in HF. rewrite HF.
  pose proof (qi_elems q Hq). rewrite length_contents; lia.
Qed.

Lemma _write_refines q f d :
  q_refines q f -> 0 < _sem_num_empty q -> Z.of_nat (length d) <= _elem_size q ->
  exists q', _write d q = Done (tt, q') /\ q_refines q' (fifo_push d f) /\
    _elem_size q' = _elem_size q /\ _max_num_elems q' = _max_num_elems q /\
    _sem_num_empty q' = _sem_num_empty q - 1.
Proof.
  intros (Hq & Hn & HF) He Hd. unfold _write. rewrite (proj2 (Z.leb_gt _ _) He).
  eexists. split; [done|]. split; [|done].
  split; [by apply q_inv_add|]. split; [simpl; rewrite length_app; simpl; lia|].
  rewrite fifo_pending_push, contents_add by done. apply Forall2_app; [done|].
  constructor; [|done]. by apply mem_read_write_prefix.
Qed.

Lemma mem_read_take m off a b : 0 <= a <= b -> mem_read m off a = take (Z.to_nat a) (mem_read m off b).
Proof.
  intros H. replace b with (a + (b - a)) by lia.
  rewrite mem_read_app, take_app_le, take_ge; rewrite ?length_mem_read; lia || done.
Qed.

(** A reader gets the [n] first bytes of the oldest full slot: those its
    writer stored, followed by what an earlier use left. *)
Lemma _read_refines q f n d ds :
  q_refines q f -> fifo_pending f = d :: ds -> 0 <= n <= _elem_size q ->
  exists bs q', _read n q = Done (bs, q') /\ length bs = Z.to_nat n /\
    take (length d) bs = take (Z.to_nat n) d /\
    q_refines q' {| f_slots := f_slots f; f_next := S (f_next f) |} /\
    _elem_size q' = _elem_size q /\ _max_num_elems q' = _max_num_elems q /\
    _sem_num_empty q' = _sem_num_empty q + 1.
Proof.
  intros HR E Hn. pose proof (q_refines_pending _ _ HR) as Hlen.
  rewrite E in Hlen. simpl in Hlen. destruct HR as (Hq & Hf & HF).
  rewrite E, contents_take in HF by (done || lia).
  apply Forall2_cons_1 in HF as [Hd HF].
  unfold _read. rewrite (proj2 (Z.leb_gt _ _)) by lia.
  do 2 eexists. split; [done|]. split_and!; try done.
  - by rewrite length_mem_read.
  - rewrite (mem_read_take _ _ n (_elem_size q)) by lia.
    destruct Hd as [tl ->]. rewrite take_take, Nat.min_comm, <- take_take. by rewrite take_app_length.
  - split; [apply q_inv_take; lia || done|]. split; [|by rewrite (fifo_pending_pop _ _ _ E)].
    assert (length (drop (f_next f) (f_slots f)) = length (d :: ds)) as HL by (by rewrite <- E).
    rewrite length_drop in HL. simpl in HL. simpl. lia.
Qed.

(** A schedule of the two sides of a queue.  A side that would wait on its
    semaphore does nothing at this turn. *)
Inductive turn : Type :=
| Producer (d : list cell)
| Consumer (n : Z).
Definition turn_ok (es : Z) (t : turn) : Prop :=
  match t with Producer d => Z.of_nat (length d) <= es | Consumer n => 0 <= n <= es end.

(** What the consumer got at each of its turns. *)
Fixpoint ring_run (ts : list turn) (q : Queue) : list (list cell) * Queue :=
  match ts with
  | [] => ([], q)
  | Producer d :: ts' =>
      match _write d q with Done (_, q') => ring_run ts' q' | _ => ring_run ts' q end
  | Consumer n :: ts' =>
      match _read n q with
      | Done (bs, q') => let '(r, q2) := ring_run ts' q' in (bs :: r, q2)
      | _ => ring_run ts' q
      end
  end.

(** The same schedule on the order of the slots; [cap] is the number of slots.
    A result is what the writer stored and how much of it was asked for. *)
Fixpoint fifo_run (cap : Z) (ts : list turn) (f : Fifo) : list (list cell * Z) * Fifo :=
  match ts with
  | [] => ([], f)
  | Producer d :: ts' =>
      fifo_run cap ts' (if Z.of_nat (length (fifo_pending f)) <? cap then fifo_push d f else f)
  | Consumer n :: ts' =>
      match fifo_pop f with
      | Some (d, f') => let '(r, f2) := fifo_run cap ts' f' in ((d, n) :: r, f2)
      | None => fifo_run cap ts' f
      end
  end.
Definition got (bs : list cell) (dn : list cell * Z) : Prop :=
  length bs = Z.to_nat dn.2 /\ take (length dn.1) bs = take (Z.to_nat dn.2) dn.1.

(** Refinement of the ring to a queue of slots: whatever the schedule of the producer and
    the consumer, the ring never overwrites a full slot, never hands over an
    empty one, and the consumer gets, in order, the bytes the producer stored;
    a side waits exactly when the queue of at most [_max_num_elems] slots is
    full or empty. *)
Theorem ring_refines_fifo q f ts :
  q_refines q f -> Forall (turn_ok (_elem_size q)) ts ->
  let '(r, q') := ring_run ts q in
  let '(r', f') := fifo_run (_max_num_elems q) ts f in
  Forall2 got r r' /\ q_refines q' f'.
Proof.
  revert q f. induction ts as [|[d|n] ts IH]; intros q f HR Hok; simpl.
  - by split.
  - apply Forall_cons_1 in Hok as [Hd Hok]. simpl in Hd.
    pose proof (q_refines_pending _ _ HR) as Hlen.
    pose proof (proj1 HR) as Hq. pose proof (qi_sum q Hq). pose proof (qi_empty q Hq).
    destruct (decide (0 < _sem_num_empty q)) as [He|He].
    + destruct (_write_refines q f d HR He Hd) as (q' & -> & HR' & Hes & Hmx & _).
      rewrite (proj2 (Z.ltb_lt _ _)) by lia. rewrite <- Hes in Hok. rewrite <- Hmx.
      by apply IH.
    + unfold _write. rewrite (proj2 (Z.leb_le _ _)), (proj2 (Z.ltb_ge _ _)) by lia.
      by apply IH.
  - apply Forall_cons_1 in Hok as [Hn Hok]. simpl in Hn.
    pose proof (q_refines_pending _ _ HR) as Hlen.
    rewrite fifo_pop_spec. destruct (fifo_pending f) as [|d ds] eqn:E; simpl in Hlen.
    + unfold _read. rewrite (proj2 (Z.leb_le _ _)) by lia. by apply IH.
    + destruct (_read_refines q f n d ds HR E Hn) as (bs & q' & -> & Hb & Ht & HR' & Hes & Hmx & _).
      rewrite <- Hes in Hok. specialize (IH _ _ HR' Hok). rewrite <- Hmx.
      destruct (ring_run ts q') as [r q2]. destruct (fifo_run _ ts _) as [r' f2].
      destruct IH as [HF IH]. split; [|done]. constructor; [|done]. by split.
Qed.

Lemma q_refines_new max es : 0 < max -> 0 < es -> q_refines (Queue_new max es) fifo_new.
Proof.
  intros Hm He. split; [|split; [done|constructor]].
  split; simpl; try lia; unfold slot_off; simpl; rewrite Z.div_0_l, Zmod_0_l; lia.
Qed.

Lemma ring_refines_fifo_witness :
  q_refines (Queue_new 2 3) fifo_new /\
  Forall2 got
    (ring_run [Producer [Some x61]; Producer [Some x62; Some x63; Some x64]; Producer [];
               Consumer 1; Consumer 3; Consumer 3] (Queue_new 2 3)).1
    [([Some x61], 1); ([Some x62; Some x63; Some x64], 3)].
Proof.
  split; [by apply q_refines_new|].
  pose proof (ring_refines_fifo (Queue_new 2 3) fifo_new
    [Producer [Some x61]; Producer [Some x62; Some x63; Some x64]; Producer [];
     Consumer 1; Consumer 3; Consumer 3] (q_refines_new 2 3 eq_refl eq_refl)) as H.
  vm_compute ring_run in H |- *. vm_compute fifo_run in H.
  destruct H as [H _]; [repeat constructor; simpl; lia|exact H].
Defined.

(** ** Transfers of several slots *)

Lemma fifo_pushes_app ds1 ds2 f : fifo_pushes ds2 (fifo_pushes ds1 f) = fifo_pushes (ds1 ++ ds2) f.
Proof. unfold fifo_pushes. simpl. by rewrite app_assoc. Qed.

Lemma fifo_pending_pushes ds f :
  (f_next f <= length (f_slots f))%nat -> fifo_pending (fifo_pushes ds f) = fifo_pending f ++ ds.
Proof. intros. unfold fifo_pending, fifo_pushes. simpl. by rewrite drop_app_le. Qed.

Definition fifo_skip (n : nat) (f : Fifo) : Fifo := {| f_slots := f_slots f; f_next := n + f_next f |}.

Lemma length_full_slots es n data : length (full_slots es n data) = n.
Proof. revert data. induction n; intros; simpl; auto. Qed.

(** The sizes of a transfer: full slots, and a last one that is partly used. *)
Lemma transfer_sizes es (data : list cell) :
  0 < es -> let n := Z.to_nat (Z.of_nat (length data) / es) in
  (n * Z.to_nat es <= length data)%nat /\
  Z.of_nat (length (drop (n * Z.to_nat es) data)) = Z.of_nat (length data) mod es /\
  Z.of_nat (length data) mod es < es.
Proof.
  intros He n. pose proof (Z.div_mod (Z.of_nat (length data)) es ltac:(lia)).
  pose proof (Z.mod_pos_bound (Z.of_nat (length data)) es He).
  pose proof (Z.div_pos (Z.of_nat (length data)) es ltac:(lia) He).
  rewrite length_drop. unfold n. nia.
Qed.

Lemma write_slots_refines n data q f :
  q_refines q f -> (n * Z.to_nat (_elem_size q) <= length data)%nat ->
  Z.of_nat n <= _sem_num_empty q ->
  exists q', write_slots n data q = Done (drop (n * Z.to_nat (_elem_size q)) data, q') /\
    q_refines q' (fifo_pushes (full_slots (Z.to_nat (_elem_size q)) n data) f) /\
    _elem_size q' = _elem_size q /\ _sem_num_empty q' = _sem_num_empty q - Z.of_nat n.
Proof.
  revert data q f. induction n as [|n IH]; intros data q f HR Hd He; simpl.
  - eexists. split; [done|]. unfold fifo_pushes. rewrite app_nil_r. destruct f. split; [done|lia].
  - pose proof (qi_es _ (proj1 HR)).
    destruct (_write_refines q f (take (Z.to_nat (_elem_size q)) data) HR)
      as (q1 & Hw & HR1 & Hes & _ & Hem); [lia|rewrite length_take; lia|].
    destruct (IH (drop (Z.to_nat (_elem_size q)) data) q1 _ HR1)
      as (q2 & Hw2 & HR2 & Hes2 & Hem2); [rewrite length_drop, Hes; lia|lia|].
    exists q2. unfold bind. rewrite Hw. simpl. rewrite Hw2, Hes, drop_drop. split; [done|].
    rewrite Hes in HR2. split; [|split; [congruence|lia]].
    unfold fifo_push, fifo_pushes in *. simpl in *. by rewrite <- app_assoc in HR2.
Qed.

Lemma write_refines data q f :
  q_refines q f ->
  Z.of_nat (length (write_chunks (_elem_size q) data)) <= _sem_num_empty q ->
  exists q', write data q = Done (tt, q') /\ _elem_size q' = _elem_size q /\
    q_refines q' (fifo_write (_elem_size q) data f).
Proof.
  intros HR Hlen. pose proof (qi_es _ (proj1 HR)) as He.
  destruct (transfer_sizes _ data He) as (H1 & H2 & H3).
  unfold write_chunks in Hlen. rewrite length_app, length_full_slots in Hlen.
  destruct (write_slots_refines _ data q f HR H1 ltac:(lia)) as (q1 & Hw & HR1 & Hes & Hem).
  unfold write, bind. rewrite Hw. simpl. unfold fifo_write, write_chunks.
  destruct (Z.of_nat (length data) mod _elem_size q =? 0) eqn:Er; simpl in Hlen |- *.
  - exists q1. rewrite app_nil_r. done.
  - destruct (_write_refines q1 _ (drop (Z.to_nat (Z.of_nat (length data) / _elem_size q) * Z.to_nat (_elem_size q)) data)
       HR1 ltac:(lia)) as (q2 & Hw2 & HR2 & Hes2 & _); [lia|].
    exists q2. split; [done|]. split; [congruence|]. by rewrite <- fifo_pushes_app.
Qed.

Lemma take_plus {A} n m (l : list A) : take (n + m) l = take n l ++ take m (drop n l).
Proof. revert l. induction n; intros [|x l]; simpl; rewrite ?take_nil; f_equal; auto. Qed.

Lemma fifo_skip_S n f : fifo_skip n {| f_slots := f_slots f; f_next := S (f_next f) |} = fifo_skip (S n) f.
Proof. unfold fifo_skip. simpl. f_equal. lia. Qed.

Lemma read_slots_refines n data q f rest :
  q_refines q f -> (n * Z.to_nat (_elem_size q) <= length data)%nat ->
  fifo_pending f = full_slots (Z.to_nat (_elem_size q)) n data ++ rest ->
  exists q', read_slots n q = Done (take (n * Z.to_nat (_elem_size q)) data, q') /\
    q_refines q' (fifo_skip n f) /\ _elem_size q' = _elem_size q /\
    fifo_pending (fifo_skip n f) = rest.
Proof.
  revert data q f. induction n as [|n IH]; intros data q f HR Hd E; simpl in *.
  - eexists. split; [done|]. unfold fifo_skip. simpl. destruct f. split; [done|]. by split.
  - pose proof (qi_es _ (proj1 HR)) as He. set (es := Z.to_nat (_elem_size q)) in *.
    destruct (_read_refines q f (_elem_size q) _ _ HR E ltac:(lia))
      as (bs & q1 & Hr & Hb & Ht & HR1 & Hes & _ & _).
    apply fifo_pending_pop in E. fold es in Hb, Ht.
    destruct (IH (drop es data) q1 _ HR1) as (q2 & Hr2 & HR2 & Hes2 & E2);
      [rewrite length_drop, Hes; fold es; lia|by rewrite Hes|].
    rewrite take_ge in Ht by (rewrite length_take; lia).
    rewrite (take_ge (take es data)) in Ht by (rewrite length_take; lia). subst bs.
    exists q2. unfold bind. rewrite Hr. simpl. rewrite Hr2. simpl. rewrite Hes. fold es.
    rewrite fifo_skip_S in HR2, E2. split; [by rewrite take_plus|]. rewrite Hes2, Hes. done.
Qed.

Lemma read_refines data q f rest :
  q_refines q f -> fifo_pending f = write_chunks (_elem_size q) data ++ rest ->
  exists q', read (Z.of_nat (length data)) q = Done (data, q') /\
    q_refines q' (fifo_skip (length (write_chunks (_elem_size q) data)) f).
Proof.
  intros HR E. pose proof (qi_es _ (proj1 HR)) as He.
  destruct (transfer_sizes _ data He) as (H1 & H2 & H3).
  unfold write_chunks in *. rewrite length_app, length_full_slots.
  rewrite <- app_assoc in E.
  destruct (read_slots_refines _ data q f _ HR H1 E) as (q1 & Hr & HR1 & Hes & E1).
  unfold read, bind. rewrite Hr. simpl. set (n := Z.to_nat (Z.of_nat (length data) / _elem_size q)) in *.
  destruct (Z.of_nat (length data) mod _elem_size q =? 0) eqn:Er; simpl in E1 |- *.
  - exists q1. rewrite take_ge by (rewrite length_drop in H2; lia). by rewrite Nat.add_0_r.
  - destruct (_read_refines q1 _ (Z.of_nat (length data) mod _elem_size q) _ _ HR1 E1 ltac:(lia))
      as (bs & q2 & Hr2 & Hb & Ht & HR2 & _).
    rewrite Hr2. simpl. exists q2. rewrite Nat.add_comm. split; [|exact HR2].
    rewrite take_ge in Ht by lia. rewrite (take_ge (drop _ _)) in Ht by lia. subst bs.
    by rewrite take_drop.
Qed.

(** A transfer through a queue is the identity: when the queue is empty and
    the pieces of a message fit in its free slots, [write] does not wait,
    [read] of as many bytes returns exactly the message, whatever its length
    and whatever earlier messages left in the slots, and the queue is empty
    again. *)
Theorem write_read_roundtrip q f data :
  q_refines q f -> fifo_pending f = [] ->
  Z.of_nat (length (write_chunks (_elem_size q) data)) <= _sem_num_empty q ->
  exists q1 q2 f2, write data q = Done (tt, q1) /\
    read (Z.of_nat (length data)) q1 = Done (data, q2) /\
    q_refines q2 f2 /\ fifo_pending f2 = [].
Proof.
  intros HR E Hlen. destruct (write_refines data q f HR Hlen) as (q1 & Hw & Hes & HR1).
  destruct (read_refines data q1 _ [] HR1) as (q2 & Hr & HR2).
  { unfold fifo_write. rewrite fifo_pending_pushes, E, Hes by apply HR. by rewrite app_nil_r. }
  exists q1, q2. eexists. split_and!; [done..|].
  destruct HR as (_ & Hn & _). unfold fifo_pending in *. simpl. rewrite drop_ge; [done|].
  assert (length (drop (f_next f) (f_slots f)) = 0%nat) as HL by (by rewrite E).
  rewrite length_drop in HL. rewrite length_app, Hes. lia.
Qed.

Lemma write_read_roundtrip_witness :
  exists q1 q2, write [Some x61; Some x62; Some x63; Some x64; Some x65] (Queue_new 3 2) = Done (tt, q1) /\
    read 5 q1 = Done ([Some x61; Some x62; Some x63; Some x64; Some x65], q2).
Proof.
  destruct (write_read_roundtrip (Queue_new 3 2) fifo_new
    [Some x61; Some x62; Some x63; Some x64; Some x65]) as (q1 & q2 & f2 & Hw & Hr & _).
  - by apply q_refines_new.
  - done.
  - by vm_compute.
  - exists q1, q2. split; [exact Hw|exact Hr].
Defined.

(** The same on the order of the slots. *)
Lemma fifo_skip_add n m f : fifo_skip n (fifo_skip m f) = fifo_skip (n + m) f.
Proof. unfold fifo_skip. simpl. f_equal. lia. Qed.

Lemma fifo_take_hd n d ds f :
  fifo_pending f = d :: ds -> Z.of_nat (length d) = n -> fifo_take n f = Done (d, fifo_skip 1 f).
Proof.
  intros E Hd. unfold fifo_take. rewrite fifo_pop_spec, E. unfold slot_bytes. subst n.
  rewrite Nat2Z.id, Nat.sub_diag, app_nil_r, take_ge by lia. done.
Qed.

Lemma fifo_skip_pending n f ds rest :
  fifo_pending f = ds ++ rest -> length ds = n -> fifo_pending (fifo_skip n f) = rest.
Proof.
  intros E <-. unfold fifo_pending, fifo_skip in *. simpl.
  rewrite Nat.add_comm, <- drop_drop, E. by rewrite drop_app_length.
Qed.

Lemma fifo_read_slots_spec es n data f rest :
  0 < es -> (n * Z.to_nat es <= length data)%nat ->
  fifo_pending f = full_slots (Z.to_nat es) n data ++ rest ->
  fifo_read_slots es n f = Done (take (n * Z.to_nat es) data, fifo_skip n f).
Proof.
  intros He. revert data f. induction n as [|n IH]; intros data f Hd E; simpl in *.
  - by destruct f.
  - unfold bind. rewrite (fifo_take_hd es _ _ _ E) by (rewrite length_take; lia). simpl.
    rewrite (IH (drop (Z.to_nat es) data)).
    + simpl. rewrite take_plus, fifo_skip_add, Nat.add_1_r. done.
    + rewrite length_drop. lia.
    + by apply (fifo_skip_pending 1 f [_] _ E).
Qed.

Lemma fifo_read_spec es data f rest :
  0 < es -> fifo_pending f = write_chunks es data ++ rest ->
  fifo_read es (Z.of_nat (length data)) f =
  Done (data, fifo_skip (length (write_chunks es data)) f).
Proof.
  intros He E. destruct (transfer_sizes _ data He) as (H1 & H2 & H3).
  unfold write_chunks in *. rewrite length_app, length_full_slots.
  rewrite <- app_assoc in E. pose proof (fifo_read_slots_spec _ _ _ _ _ He H1 E) as Hr.
  unfold fifo_read, bind. rewrite Hr. simpl.
  set (n := Z.to_nat (Z.of_nat (length data) / es)) in *.
  apply fifo_skip_pending with (n := n) in E; [|apply length_full_slots].
  destruct (Z.of_nat (length data) mod es =? 0) eqn:Er; simpl in E |- *.
  - rewrite take_ge by (rewrite length_drop in H2; lia). by rewrite Nat.add_0_r.
  - rewrite (fifo_take_hd _ _ _ _ E) by lia. simpl. rewrite take_drop.
    by rewrite fifo_skip_add, (Nat.add_comm 1 n).
Qed.

(** What is read has the length asked for. *)
Lemma length_slot_bytes d n : length (slot_bytes d n) = Z.to_nat n.
Proof. unfold slot_bytes. rewrite length_take, length_app, length_replicate. lia. Qed.

Lemma fifo_take_length n f d f' : fifo_take n f = Done (d, f') -> length d = Z.to_nat n.
Proof.
  unfold fifo_take. destruct (fifo_pop f) as [[x g]|]; [|done]. intros [= <- <-]. apply length_slot_bytes.
Qed.

Lemma fifo_read_slots_length es n f d f' :
  fifo_read_slots es n f = Done (d, f') -> length d = (n * Z.to_nat es)%nat.
Proof.
  revert f d f'. induction n as [|n IH]; intros f d f'; simpl; [by intros [= <- _]|].
  unfold bind. destruct (fifo_take es f) as [[x g]| | | |] eqn:E; simpl; try done.
  destruct (fifo_read_slots es n g) as [[y h]| | | |] eqn:E2; simpl; try done.
  intros [= <- <-]. rewrite length_app, (IH _ _ _ E2), (fifo_take_length _ _ _ _ E). lia.
Qed.

Lemma fifo_read_length es n f d f' :
  0 < es -> 0 <= n -> fifo_read es n f = Done (d, f') -> Z.of_nat (length d) = n.
Proof.
  intros He Hn. unfold fifo_read, bind.
  destruct (fifo_read_slots es (Z.to_nat (n / es)) f) as [[x g]| | | |] eqn:E; simpl; try done.
  pose proof (fifo_read_slots_length _ _ _ _ _ E) as HL.
  pose proof (Z.div_mod n es ltac:(lia)). pose proof (Z.mod_pos_bound n es He).
  pose proof (Z.div_pos n es Hn He).
  destruct (Z.eqb_spec (n mod es) 0) as [Ez|Ez]; simpl.
  - intros [= <- <-]. nia.
  - destruct (fifo_take (n mod es) g) as [[y h]| | | |] eqn:E2; simpl; try done.
    intros [= <- <-]. rewrite length_app, (fifo_take_length _ _ _ _ E2). nia.
Qed.
