(* ===== verification/RingThreads.v ===== *)
(** * The queues under any interleaving

    [Queue] runs a call of [_read] or [_write] in one step.  Here the calls of
    [common/queue.hpp] are run by threads, of any number of processes, a memory
    access or a semaphore operation at a time: a call waits for its token,
    takes the [Mutex] of the queue, copies byte by byte, moves its index, posts
    the other semaphore and leaves the [Mutex].  A handler of a signal may
    interrupt a wait for a semaphore, which ends the process ([ERR_EXIT]): its
    threads then stay where they are, that is, the schedule runs them no more.
    [fetch] and [reserve] are the calls that copy no bytes; what is read or
    stored later through the pointer they return is not part of the call.
    The shared memory is
    sequentially consistent, which the semaphores give to programs without
    data races.  The theorems hold for the two instances of the template:
    [CircularBuffer], with a mutex and any number of producers and consumers,
    and [SPSCQueue], without one, with one producer and one consumer. *)
From S2P Require Import Prelude Interleaving Memory Semaphore Queue.

(** ** Threads *)

(** Where a thread is in [_write] or [_read]; the call is the first of those it
    has to do until its index is moved. *)
Inductive place : Type :=
| Enter                       (* before the semaphore of its side *)
| Token                       (* before the [lock_guard] *)
| Copy (copied : list cell)   (* in the [memcpy] *)
| Posting (writer : bool)     (* the index is moved, before the [unlock] of the other semaphore *)
| Releasing (writer : bool).  (* before the end of the [lock_guard] *)

Record thread : Type := { at_ : place; todo : list turn; bufs : list (list cell) }.
Record sys : Type := { ring : Queue; mutex : Z; pool : list thread }.

Definition set_shm m (q : Queue) : Queue := {|
  _shm := m; _max_num_elems := _max_num_elems q; _elem_size := _elem_size q;
  _first_elem := _first_elem q; _last_elem := _last_elem q;
  _sem_num_elems := _sem_num_elems q; _sem_num_empty := _sem_num_empty q |}.
Definition set_first i (q : Queue) : Queue := {|
  _shm := _shm q; _max_num_elems := _max_num_elems q; _elem_size := _elem_size q;
  _first_elem := i; _last_elem := _last_elem q;
  _sem_num_elems := _sem_num_elems q; _sem_num_empty := _sem_num_empty q |}.
Definition set_last i (q : Queue) : Queue := {|
  _shm := _shm q; _max_num_elems := _max_num_elems q; _elem_size := _elem_size q;
  _first_elem := _first_elem q; _last_elem := i;
  _sem_num_elems := _sem_num_elems q; _sem_num_empty := _sem_num_empty q |}.
Definition set_elems v (q : Queue) : Queue := {|
  _shm := _shm q; _max_num_elems := _max_num_elems q; _elem_size := _elem_size q;
  _first_elem := _first_elem q; _last_elem := _last_elem q;
  _sem_num_elems := v; _sem_num_empty := _sem_num_empty q |}.
Definition set_empty v (q : Queue) : Queue := {|
  _shm := _shm q; _max_num_elems := _max_num_elems q; _elem_size := _elem_size q;
  _first_elem := _first_elem q; _last_elem := _last_elem q;
  _sem_num_elems := _sem_num_elems q; _sem_num_empty := v |}.

(** The semaphores of the queue. *)
Definition on_elems (m : M Z unit) : M Queue unit := fun q =>
  outcome_bind (m (_sem_num_elems q)) (fun r => Done (tt, set_elems r.2 q)).
Definition on_empty (m : M Z unit) : M Queue unit := fun q =>
  outcome_bind (m (_sem_num_empty q)) (fun r => Done (tt, set_empty r.2 q)).

(** What the others can see of a step: a slot handed over, or taken. *)
Inductive event : Type :=
| Pushed (d : list cell)
| Popped (n : Z) (bs : list cell).
Definition turn_of (e : event) : turn :=
  match e with Pushed d => Producer d | Popped n _ => Consumer n end.
Definition received (e : event) : list (list cell) :=
  match e with Pushed _ => [] | Popped _ bs => [bs] end.

(** What one step of a thread gives: its events, the queue, the mutex and the thread. *)
Definition stepped : Type := list event * Queue * Z * thread.
Definition moved (p : place) (t : thread) : thread := {| at_ := p; todo := todo t; bufs := bufs t |}.

(** [Queue::fetch] and [Queue::reserve], as calls on the queue. *)
Definition fetch_turn : turn := Consumer 0.
Definition reserve_turn : turn := Producer [].

Section Step.
Context {Mx : Mutex}.
(** Whether a signal interrupts the thread if it has to wait. *)
Context (interrupted : bool).

(** [_write], from where the thread is in it. *)
Definition write_step (d : list cell) (rest : list turn) (q : Queue) (mx : Z) (t : thread) : outcome stepped :=
  match at_ t with
  | Enter => outcome_bind (on_empty (sem_lock interrupted) q) (fun r => Done ([], r.2, mx, moved Token t))
  | Token => outcome_bind (mutex_lock interrupted mx) (fun r => Done ([], q, r.2, moved (Copy []) t))
  | Copy cs =>
      match d !! length cs with
      | Some c =>
          Done ([], set_shm (mem_write (_shm q) (_last_elem q + Z.of_nat (length cs)) [c]) q, mx,
                moved (Copy (cs ++ [c])) t)
      | None =>
          Done ([Pushed d], set_last ((_last_elem q + _elem_size q) mod _buff_size q) q, mx,
                {| at_ := Posting true; todo := rest; bufs := bufs t |})
      end
  | _ => UB "not in _write"
  end.

(** [_read] *)
Definition read_step (n : Z) (rest : list turn) (q : Queue) (mx : Z) (t : thread) : outcome stepped :=
  match at_ t with
  | Enter => outcome_bind (on_elems (sem_lock interrupted) q) (fun r => Done ([], r.2, mx, moved Token t))
  | Token => outcome_bind (mutex_lock interrupted mx) (fun r => Done ([], q, r.2, moved (Copy []) t))
  | Copy cs =>
      if Z.of_nat (length cs) <? n then
        Done ([], q, mx, moved (Copy (cs ++ [_shm q !! (_first_elem q + Z.of_nat (length cs))])) t)
      else
        Done ([Popped n cs], set_first ((_first_elem q + _elem_size q) mod _buff_size q) q, mx,
              {| at_ := Posting false; todo := rest; bufs := bufs t ++ [cs] |})
  | _ => UB "not in _read"
  end.

Definition thread_step (q : Queue) (mx : Z) (t : thread) : outcome stepped :=
  match at_ t with
  | Posting true => outcome_bind (on_elems sem_unlock q) (fun r => Done ([], r.2, mx, moved (Releasing true) t))
  | Posting false => outcome_bind (on_empty sem_unlock q) (fun r => Done ([], r.2, mx, moved (Releasing false) t))
  | Releasing _ => outcome_bind (mutex_unlock mx) (fun r => Done ([], q, r.2, moved Enter t))
  | _ =>
      match todo t with
      | Producer d :: rest => write_step d rest q mx t
      | Consumer n :: rest => read_step n rest q mx t
      | [] => Blocks "no call left"
      end
  end.

(** The system takes a step of one of its threads. *)
Definition sys_step (i : nat) (s : sys) : outcome (list event * sys) :=
  match pool s !! i with
  | None => Blocks "no such thread"
  | Some t =>
      outcome_bind (thread_step (ring s) (mutex s) t) (fun '(es, q, mx, t') =>
        Done (es, {| ring := q; mutex := mx; pool := <[i := t']> (pool s) |}))
  end.

End Step.

Section Runs.
Context {Mx : Mutex}.

(** The runs of the system, with the events of every thread in order. *)
Inductive steps (s0 : sys) : list (nat * event) -> sys -> Prop :=
| steps_nil : steps s0 [] s0
| steps_snoc tr s b i es s' :
    steps s0 tr s -> sys_step b i s = Done (es, s') -> steps s0 (tr ++ ((fun e => (i, e)) <$> es)) s'.

(** A run for a given schedule; a thread that waits loses its turn. *)
Fixpoint run (sched : list nat) (s : sys) : list (nat * event) * sys :=
  match sched with
  | [] => ([], s)
  | i :: sched' =>
      match sys_step false i s with
      | Done (es, s') => let '(tr, s2) := run sched' s' in (((fun e => (i, e)) <$> es) ++ tr, s2)
      | _ => run sched' s
      end
  end.
End Runs.
#[global] Arguments steps_nil {_ _}.

(** A new queue, with threads that have calls to make. *)
Definition start (max es : Z) (calls : list (list turn)) : sys := {|
  ring := Queue_new max es; mutex := 1;
  pool := (fun ts => {| at_ := Enter; todo := ts; bufs := [] |}) <$> calls |}.

(** ** The order of the slots, as a machine that takes events *)

Inductive fifo_trace (cap : Z) : list event -> Fifo -> Prop :=
| ft_new : fifo_trace cap [] fifo_new
| ft_push tr f d :
    fifo_trace cap tr f -> Z.of_nat (length (fifo_pending f)) < cap ->
    fifo_trace cap (tr ++ [Pushed d]) (fifo_push d f)
| ft_pop tr f n bs d f' :
    fifo_trace cap tr f -> fifo_pop f = Some (d, f') -> got bs (d, n) ->
    fifo_trace cap (tr ++ [Popped n bs]) f'.

(** ** Counting threads *)

(** What a thread holds: a token of its side, or the one it has not posted yet. *)
Definition is_producer (c : list turn) : bool := match c with Producer _ :: _ => true | _ => false end.
Definition is_consumer (c : list turn) : bool := match c with Consumer _ :: _ => true | _ => false end.
Definition in_copy (t : thread) : bool := match at_ t with Copy _ => true | _ => false end.
Definition has_token (t : thread) : bool := match at_ t with Token | Copy _ => true | _ => false end.
Definition holds_empty (t : thread) : Z := Z.b2z (has_token t && is_producer (todo t)).
Definition holds_elem (t : thread) : Z := Z.b2z (has_token t && is_consumer (todo t)).
Definition posts_elem (t : thread) : Z := match at_ t with Posting true => 1 | _ => 0 end.
Definition posts_empty (t : thread) : Z := match at_ t with Posting false => 1 | _ => 0 end.
Definition writing (t : thread) : Z := Z.b2z (in_copy t && is_producer (todo t)).
Definition reading (t : thread) : Z := Z.b2z (in_copy t && is_consumer (todo t)).
(** Between the [lock] and the [unlock] of the mutex. *)
Definition inside (t : thread) : Z :=
  match at_ t with Copy _ | Posting _ | Releasing _ => 1 | _ => 0 end.

(** ** What the two sides exclude *)

(** The invariant [excl] of a mutex: at most one thread copies into the ring and
    at most one out of it. *)
Class Excludes (Mx : Mutex) : Type := {
  excl : Z -> list thread -> Prop;
  excl_writing mx ts : excl mx ts -> total writing ts <= 1;
  excl_reading mx ts : excl mx ts -> total reading ts <= 1;
  (** taking the mutex *)
  excl_lock mx mx' ts i t :
    excl mx ts -> ts !! i = Some t -> at_ t = Token -> mutex_lock false mx = Done (tt, mx') ->
    excl mx' (<[i := moved (Copy []) t]> ts);
  excl_waits mx : (forall b, mutex_lock b mx = mutex_lock false mx) /\ (exists mx', mutex_lock false mx = Done (tt, mx')) \/
    (exists w, mutex_lock false mx = Blocks w) /\ (exists w, mutex_lock true mx = Exit w);
  (** leaving it *)
  excl_unlock mx ts i t w :
    excl mx ts -> ts !! i = Some t -> at_ t = Releasing w ->
    exists mx', mutex_unlock mx = Done (tt, mx') /\ excl mx' (<[i := moved Enter t]> ts);
  (** a step that does neither *)
  excl_step mx ts i t t' :
    excl mx ts -> ts !! i = Some t -> inside t' = inside t -> todo t' `suffix_of` todo t ->
    excl mx (<[i := t']> ts);
  (** with nobody inside, a thread can enter *)
  excl_free mx ts : excl mx ts -> total inside ts = 0 -> exists mx', mutex_lock false mx = Done (tt, mx')
}.

Ltac count := unfold holds_empty, holds_elem, posts_elem, posts_empty, writing, reading, inside, has_token, in_copy.

(** The tokens after the thread [Ht] speaks of has moved. *)
Ltac tally Ht :=
  split; simpl; rewrite ?(total_insert _ _ _ _ _ Ht);
  repeat match goal with
  | |- context [total ?g ?ts] => let x := fresh "n" in set (x := total g ts) in *; clearbody x
  end; unfold moved; count; simpl; rewrite ?length_app; simpl; lia.

Lemma count_ge0 t :
  0 <= holds_empty t /\ 0 <= holds_elem t /\ 0 <= posts_elem t /\ 0 <= posts_empty t /\
  0 <= writing t /\ 0 <= reading t /\ 0 <= inside t.
Proof. count. destruct (at_ t) as [| |?|[]|[]], (todo t) as [|[] ?]; simpl; lia. Qed.

(** [CircularBuffer]: the counter of the mutex accounts for the thread inside. *)
#[export] Program Instance NamedMutex_excludes : Excludes NamedMutex := {
  excl mx ts := 0 <= mx /\ mx + total inside ts = 1 }.
Next Obligation.
  intros mx ts [? ?]. etrans; [apply (total_le writing inside)|lia].
  intros t. count. destruct (at_ t), (todo t) as [|[] ?]; simpl; lia.
Qed.
Next Obligation.
  intros mx ts [? ?]. etrans; [apply (total_le reading inside)|lia].
  intros t. count. destruct (at_ t), (todo t) as [|[] ?]; simpl; lia.
Qed.
Next Obligation.
  intros mx mx' ts i t [? ?] Ht Hat [? ->]%sem_lock_done. rewrite (total_insert _ _ _ _ _ Ht).
  unfold inside at 2 3. rewrite Hat. simpl. lia.
Qed.
Next Obligation.
  intros mx. pose proof (sem_lock_outcome false mx) as H0. pose proof (sem_lock_outcome true mx) as H1. simpl in *.
  destruct H0 as [[? E]|[? E]], H1 as [[? F]|[? F]]; try lia; [left|right; eauto].
  split; [intros []; by rewrite ?E, ?F|eauto].
Qed.
Next Obligation.
  intros mx ts i t w [? ?] Ht Hat. exists (mx + 1).
  pose proof (total_one inside ts i t ltac:(intros u; apply count_ge0) Ht) as Hin.
  unfold inside at 1 in Hin. rewrite Hat in Hin.
  split; [apply sem_unlock_lt; unfold SEM_VALUE_MAX; lia|].
  rewrite (total_insert _ _ _ _ _ Ht). unfold inside at 2 3. rewrite Hat. simpl. lia.
Qed.
Next Obligation. intros mx ts i t t' [? ?] Ht Hin _. rewrite (total_insert _ _ _ _ _ Ht). lia. Qed.
Next Obligation. intros mx ts [? ?] Hin. exists (mx - 1). apply sem_lock_pos. lia. Qed.

(** [SPSCQueue]: one thread has writes to do, and one has reads. *)
Definition produces (t : thread) : Z :=
  Z.b2z (existsb (fun c => match c with Producer _ => true | _ => false end) (todo t)).
Definition consumes (t : thread) : Z :=
  Z.b2z (existsb (fun c => match c with Consumer _ => true | _ => false end) (todo t)).

Lemma existsb_suffix {A} (f : A -> bool) l k : l `suffix_of` k -> Z.b2z (existsb f l) <= Z.b2z (existsb f k).
Proof. intros [h ->]. rewrite existsb_app. destruct (existsb f h), (existsb f l); simpl; lia. Qed.

#[export] Program Instance NoLock_excludes : Excludes NoLock := {
  excl _ ts := total produces ts <= 1 /\ total consumes ts <= 1 }.
Next Obligation.
  intros mx ts [? _]. etrans; [apply (total_le writing produces)|lia].
  intros t. unfold produces. count. destruct (at_ t), (todo t) as [|[] ?]; simpl; try destruct (existsb _ _); simpl; lia.
Qed.
Next Obligation.
  intros mx ts [_ ?]. etrans; [apply (total_le reading consumes)|lia].
  intros t. unfold consumes. count. destruct (at_ t), (todo t) as [|[] ?]; simpl; try destruct (existsb _ _); simpl; lia.
Qed.
Next Obligation.
  intros mx mx' ts i t [? ?] Ht _ _. rewrite !(total_insert _ _ _ _ _ Ht).
  unfold produces, consumes, moved in *. simpl. lia.
Qed.
Next Obligation. intros mx. left. split; [done|by eexists]. Qed.
Next Obligation.
  intros mx ts i t w [? ?] Ht _. eexists. split; [done|]. rewrite !(total_insert _ _ _ _ _ Ht).
  unfold produces, consumes, moved in *. simpl. lia.
Qed.
Next Obligation.
  intros mx ts i t t' [? ?] Ht _ Hs. rewrite !(total_insert _ _ _ _ _ Ht).
  unfold produces, consumes in *. pose proof (existsb_suffix (fun c => match c with Producer _ => true | _ => false end) _ _ Hs).
  pose proof (existsb_suffix (fun c => match c with Consumer _ => true | _ => false end) _ _ Hs). lia.
Qed.
Next Obligation. intros mx ts _ _. by eexists. Qed.

(** ** The invariant *)

(** The offset of the [j]-th slot ever handed over. *)
Definition nth_slot (q : Queue) (j : nat) : Z := (Z.of_nat j mod _max_num_elems q) * _elem_size q.

(** A copy under way has moved the bytes it has counted. *)
Definition copy_ok (q : Queue) (t : thread) : Prop :=
  match at_ t, todo t with
  | Copy cs, Producer d :: _ =>
      cs `prefix_of` d /\ mem_read (_shm q) (_last_elem q) (Z.of_nat (length cs)) = cs
  | Copy cs, Consumer n :: _ =>
      Z.of_nat (length cs) <= n /\ mem_read (_shm q) (_first_elem q) (Z.of_nat (length cs)) = cs
  | (Copy _ | Token), [] => False
  | _, _ => True
  end.

Record slots_ok (q : Queue) (f : Fifo) : Prop := {
  so_es : 0 < _elem_size q;
  so_max : 0 < _max_num_elems q <= SEM_VALUE_MAX;
  so_next : (f_next f <= length (f_slots f))%nat;
  so_first : _first_elem q = nth_slot q (f_next f);
  so_last : _last_elem q = nth_slot q (length (f_slots f));
  so_data j d : (f_next f <= j)%nat -> f_slots f !! j = Some d ->
    Z.of_nat (length d) <= _elem_size q /\ mem_read (_shm q) (nth_slot q j) (Z.of_nat (length d)) = d
}.

(** The tokens: every full slot is counted by the semaphore of the elements or
    by a thread, every other slot by the semaphore of the empty slots or by a
    thread. *)
Record tokens_ok (q : Queue) (ts : list thread) (f : Fifo) : Prop := {
  to_elems : 0 <= _sem_num_elems q;
  to_empty : 0 <= _sem_num_empty q;
  to_full : Z.of_nat (length (f_slots f)) - Z.of_nat (f_next f) =
            _sem_num_elems q + total posts_elem ts + total holds_elem ts;
  to_free : _max_num_elems q - (Z.of_nat (length (f_slots f)) - Z.of_nat (f_next f)) =
            _sem_num_empty q + total posts_empty ts + total holds_empty ts
}.

Lemma nth_slot_next q j :
  0 < _elem_size q -> 0 < _max_num_elems q ->
  (nth_slot q j + _elem_size q) mod _buff_size q = nth_slot q (S j).
Proof.
  intros He Hm. unfold nth_slot, _buff_size.
  replace (Z.of_nat j mod _max_num_elems q * _elem_size q + _elem_size q)
    with ((Z.of_nat j mod _max_num_elems q + 1) * _elem_size q) by lia.
  rewrite Z.mul_mod_distr_r by lia. f_equal. rewrite Zplus_mod_idemp_l. f_equal. lia.
Qed.

(** Slots less than the size of the ring apart do not overlap. *)
Lemma nth_slot_disjoint q i j :
  0 < _elem_size q -> (i < j)%nat -> Z.of_nat j - Z.of_nat i < _max_num_elems q ->
  nth_slot q i + _elem_size q <= nth_slot q j \/ nth_slot q j + _elem_size q <= nth_slot q i.
Proof.
  intros He Hij Hn. unfold nth_slot. set (n := _max_num_elems q) in *.
  assert (Z.of_nat i mod n <> Z.of_nat j mod n).
  { intros E. pose proof (Z.div_mod (Z.of_nat i) n ltac:(lia)) as H1.
    pose proof (Z.div_mod (Z.of_nat j) n ltac:(lia)) as H2. rewrite E in H1.
    assert (Z.of_nat j - Z.of_nat i = n * (Z.of_nat j / n - Z.of_nat i / n)) by lia.
    assert (Z.of_nat j / n - Z.of_nat i / n <> 0) by nia. nia. }
  destruct (Z.lt_total (Z.of_nat i mod n) (Z.of_nat j mod n)) as [?|[?|?]]; [left|done|right]; nia.
Qed.

Lemma length_fifo_pending f :
  (f_next f <= length (f_slots f))%nat ->
  Z.of_nat (length (fifo_pending f)) = Z.of_nat (length (f_slots f)) - Z.of_nat (f_next f).
Proof. intros H. unfold fifo_pending. rewrite length_drop. lia. Qed.

Section Safety.
Context {Mx : Mutex} {EX : Excludes Mx}.

Record sys_inv (f : Fifo) (s : sys) : Prop := {
  si_slots : slots_ok (ring s) f;
  si_tokens : tokens_ok (ring s) (pool s) f;
  si_excl : excl (mutex s) (pool s);
  si_copy : Forall (copy_ok (ring s)) (pool s);
  si_turns : Forall (fun t => Forall (turn_ok (_elem_size (ring s))) (todo t)) (pool s)
}.

(** What a step of one thread has to keep, besides its own place. *)
Lemma sys_inv_step f f' s i t t' q mx :
  sys_inv f s -> pool s !! i = Some t ->
  slots_ok q f' -> tokens_ok q (<[i := t']> (pool s)) f' -> excl mx (<[i := t']> (pool s)) ->
  copy_ok q t' -> (forall j u, j <> i -> pool s !! j = Some u -> copy_ok q u) ->
  todo t' `suffix_of` todo t -> _elem_size q = _elem_size (ring s) ->
  sys_inv f' {| ring := q; mutex := mx; pool := <[i := t']> (pool s) |}.
Proof.
  intros HI Ht Hs Htk He Hc Ho Hsuf Hes. split; simpl; try done.
  - apply Forall_lookup_2. intros j u. rewrite list_lookup_insert_Some.
    intros [(-> & <- & _)|[Hne Hu]]; [done|]. eauto.
  - rewrite Hes. apply Forall_lookup_2. intros j u. rewrite list_lookup_insert_Some.
    pose proof (si_turns _ _ HI) as HF. rewrite Forall_lookup in HF.
    intros [(-> & <- & _)|[Hne Hu]]; [|by eapply HF].
    destruct Hsuf as [h E]. specialize (HF _ _ Ht). simpl in HF. rewrite E in HF.
    by apply Forall_app in HF as [_ HF].
Qed.

(** The copies of the others do not look at the semaphores. *)
Lemma copy_ok_sems q q' t :
  _shm q' = _shm q -> _first_elem q' = _first_elem q -> _last_elem q' = _last_elem q ->
  copy_ok q t -> copy_ok q' t.
Proof. intros E1 E2 E3. unfold copy_ok. by rewrite E1, E2, E3. Qed.

Lemma slots_ok_sems q q' f :
  _shm q' = _shm q -> _first_elem q' = _first_elem q -> _last_elem q' = _last_elem q ->
  _elem_size q' = _elem_size q -> _max_num_elems q' = _max_num_elems q ->
  slots_ok q f -> slots_ok q' f.
Proof.
  intros E1 E2 E3 E4 E5 [? ? ? ? ? Hd].
  split; rewrite ?E1, ?E2, ?E3, ?E4, ?E5; try done; unfold nth_slot; rewrite ?E4, ?E5; done.
Qed.

(** The machine of slots takes the events of one step. *)
Definition takes (cap : Z) (f : Fifo) (es : list event) (f' : Fifo) : Prop :=
  match es with
  | [] => f' = f
  | [Pushed d] => Z.of_nat (length (fifo_pending f)) < cap /\ f' = fifo_push d f
  | [Popped n bs] => exists d, fifo_pop f = Some (d, f') /\ got bs (d, n)
  | _ => False
  end.

(** A step that is taken and keeps the invariant. *)
Definition step_ok (f : Fifo) (s : sys) (i : nat) (r : stepped) : Prop :=
  let '(es, q, mx, t') := r in
  exists f', takes (_max_num_elems (ring s)) f es f' /\
    _max_num_elems q = _max_num_elems (ring s) /\
    sys_inv f' {| ring := q; mutex := mx; pool := <[i := t']> (pool s) |}.
#[local] Arguments step_ok : simpl never.
#[local] Arguments mem_write : simpl never.

Lemma copy_in f s i t : sys_inv f s -> pool s !! i = Some t -> copy_ok (ring s) t.
Proof. intros HI. apply (proj1 (Forall_lookup _ _) (si_copy _ _ HI)). Qed.
Lemma others_ok f s i : sys_inv f s -> forall j u, j <> i -> pool s !! j = Some u -> copy_ok (ring s) u.
Proof. intros HI j u _. by apply copy_in with f. Qed.

Lemma turn_in f s i c rest b p :
  sys_inv f s -> pool s !! i = Some {| at_ := p; todo := c :: rest; bufs := b |} ->
  turn_ok (_elem_size (ring s)) c.
Proof.
  intros HI Ht. pose proof (si_turns _ _ HI) as HF. rewrite Forall_lookup in HF.
  specialize (HF _ _ Ht). by apply Forall_cons_1 in HF as [HF _].
Qed.

(** A step that leaves the slots as they are. *)
Lemma step_same f s i t t' q mx :
  sys_inv f s -> pool s !! i = Some t ->
  _shm q = _shm (ring s) -> _first_elem q = _first_elem (ring s) -> _last_elem q = _last_elem (ring s) ->
  _elem_size q = _elem_size (ring s) -> _max_num_elems q = _max_num_elems (ring s) ->
  tokens_ok q (<[i := t']> (pool s)) f -> excl mx (<[i := t']> (pool s)) ->
  copy_ok (ring s) t' -> todo t' = todo t -> step_ok f s i ([], q, mx, t').
Proof.
  intros HI Ht E1 E2 E3 E4 E5 Htk He Hc Htd. exists f. split; [done|]. split; [done|].
  eapply sys_inv_step; eauto.
  - eapply slots_ok_sems; eauto using si_slots.
  - by eapply copy_ok_sems.
  - intros j u Hne Hu. eapply copy_ok_sems; [done..|]. eapply others_ok; eauto.
  - by rewrite Htd.
Qed.

Lemma enter_ok intr f s i c rest b :
  sys_inv f s -> pool s !! i = Some {| at_ := Enter; todo := c :: rest; bufs := b |} ->
  match thread_step intr (ring s) (mutex s) {| at_ := Enter; todo := c :: rest; bufs := b |} with
  | Done r => step_ok f s i r | Blocks _ => True
  | Exit _ => intr = true /\ exists w, thread_step false (ring s) (mutex s) {| at_ := Enter; todo := c :: rest; bufs := b |} = Blocks w
  | _ => False
  end.
Proof.
  intros HI Ht. pose proof (si_tokens _ _ HI) as [H1 H2 H3 H4].
  assert (excl (mutex s) (<[i := {| at_ := Token; todo := c :: rest; bufs := b |}]> (pool s))) as HE
    by (eapply excl_step; eauto using si_excl; done).
  destruct c as [d|n]; unfold thread_step, write_step, read_step, on_empty, on_elems; simpl.
  - destruct (sem_lock_outcome intr (_sem_num_empty (ring s))) as [[Hp ->]|[? ->]]; simpl;
      [|destruct intr; [|done]; destruct (sem_lock_outcome false (_sem_num_empty (ring s))) as [[? _]|[_ ->]]; [lia|simpl; by eauto]].
    eapply step_same; eauto; try done. tally Ht.
  - destruct (sem_lock_outcome intr (_sem_num_elems (ring s))) as [[Hp ->]|[? ->]]; simpl;
      [|destruct intr; [|done]; destruct (sem_lock_outcome false (_sem_num_elems (ring s))) as [[? _]|[_ ->]]; [lia|simpl; by eauto]].
    eapply step_same; eauto; try done. tally Ht.
Qed.

Lemma token_ok intr f s i c rest b :
  sys_inv f s -> pool s !! i = Some {| at_ := Token; todo := c :: rest; bufs := b |} ->
  match thread_step intr (ring s) (mutex s) {| at_ := Token; todo := c :: rest; bufs := b |} with
  | Done r => step_ok f s i r | Blocks _ => True
  | Exit _ => intr = true /\ exists w, thread_step false (ring s) (mutex s) {| at_ := Token; todo := c :: rest; bufs := b |} = Blocks w
  | _ => False
  end.
Proof.
  intros HI Ht. pose proof (si_tokens _ _ HI) as [H1 H2 H3 H4]. pose proof (si_slots _ _ HI) as HS.
  destruct (excl_waits (mutex s)) as [[Eb [mx' E]]|[[w E] [w' E']]].
  - pose proof (excl_lock _ _ _ _ _ (si_excl _ _ HI) Ht eq_refl E) as HE.
    destruct c as [d|n]; unfold thread_step, write_step, read_step; simpl; rewrite (Eb intr), E; simpl;
      (eapply step_same; eauto; [tally Ht|]).
    + split; [apply prefix_nil|]. by rewrite mem_read_nil.
    + pose proof (turn_in _ _ _ _ _ _ _ HI Ht) as [? ?]. split; [simpl; lia|]. by rewrite mem_read_nil.
  - destruct c, intr; unfold thread_step, write_step, read_step; simpl; rewrite ?E, ?E'; simpl; by eauto.
Qed.

Lemma posting_ok intr f s i w ts b :
  sys_inv f s -> pool s !! i = Some {| at_ := Posting w; todo := ts; bufs := b |} ->
  match thread_step intr (ring s) (mutex s) {| at_ := Posting w; todo := ts; bufs := b |} with
  | Done r => step_ok f s i r | _ => False
  end.
Proof.
  intros HI Ht. pose proof (si_tokens _ _ HI) as [H1 H2 H3 H4]. pose proof (so_max _ _ (si_slots _ _ HI)).
  assert (excl (mutex s) (<[i := {| at_ := Releasing w; todo := ts; bufs := b |}]> (pool s))) as HE
    by (eapply excl_step; eauto using si_excl; done).
  assert (forall g, (forall u, 0 <= g u) -> 0 <= total g (pool s)) as Hge by (intros; by apply total_ge0).
  pose proof (Hge holds_elem ltac:(apply count_ge0)). pose proof (Hge holds_empty ltac:(apply count_ge0)).
  pose proof (total_one posts_elem _ _ _ ltac:(apply count_ge0) Ht) as Hp.
  pose proof (total_one posts_empty _ _ _ ltac:(apply count_ge0) Ht) as Hp'.
  destruct w; unfold thread_step, on_elems, on_empty; unfold posts_elem at 1 in Hp; unfold posts_empty at 1 in Hp';
    simpl in Hp, Hp' |- *; rewrite sem_unlock_lt by lia; simpl;
    (eapply step_same; eauto; tally Ht).
Qed.

Lemma releasing_ok intr f s i w ts b :
  sys_inv f s -> pool s !! i = Some {| at_ := Releasing w; todo := ts; bufs := b |} ->
  match thread_step intr (ring s) (mutex s) {| at_ := Releasing w; todo := ts; bufs := b |} with
  | Done r => step_ok f s i r | _ => False
  end.
Proof.
  intros HI Ht. pose proof (si_tokens _ _ HI) as [H1 H2 H3 H4].
  destruct (excl_unlock _ _ _ _ w (si_excl _ _ HI) Ht eq_refl) as (mx' & E & HE).
  unfold thread_step. simpl. rewrite E. simpl.
  eapply step_same; eauto; try done. tally Ht.
Qed.

(** Room for a thread that holds a token. *)
Lemma writer_room f s i t :
  sys_inv f s -> pool s !! i = Some t -> holds_empty t = 1 ->
  Z.of_nat (length (f_slots f)) - Z.of_nat (f_next f) < _max_num_elems (ring s).
Proof.
  intros HI Ht H. pose proof (si_tokens _ _ HI) as [? ? _ Hf].
  pose proof (total_one holds_empty _ _ _ ltac:(apply count_ge0) Ht).
  pose proof (total_ge0 posts_empty (pool s) ltac:(apply count_ge0)). lia.
Qed.
Lemma reader_data f s i t :
  sys_inv f s -> pool s !! i = Some t -> holds_elem t = 1 -> (f_next f < length (f_slots f))%nat.
Proof.
  intros HI Ht H. pose proof (si_tokens _ _ HI) as [? ? Hf _].
  pose proof (total_one holds_elem _ _ _ ltac:(apply count_ge0) Ht).
  pose proof (total_ge0 posts_elem (pool s) ltac:(apply count_ge0)). lia.
Qed.

(** Another thread than the one that copies into the ring reads, if it copies. *)
Lemma other_reads f s i j t u cs :
  sys_inv f s -> pool s !! i = Some t -> writing t = 1 -> j <> i -> pool s !! j = Some u -> at_ u = Copy cs ->
  exists n rest, todo u = Consumer n :: rest.
Proof.
  intros HI Ht Hw Hne Hu Hat. pose proof (others_ok _ _ i HI _ _ Hne Hu) as Hc.
  pose proof (total_two writing _ j i u t ltac:(apply count_ge0) Hne Hu Ht).
  pose proof (excl_writing _ _ (si_excl _ _ HI)).
  unfold copy_ok in Hc. rewrite Hat in Hc. destruct (todo u) as [|[d|n] rest] eqn:E; [done| |by eauto].
  assert (writing u = 1) by (count; by rewrite Hat, E). lia.
Qed.
Lemma other_writes f s i j t u cs :
  sys_inv f s -> pool s !! i = Some t -> reading t = 1 -> j <> i -> pool s !! j = Some u -> at_ u = Copy cs ->
  exists d rest, todo u = Producer d :: rest.
Proof.
  intros HI Ht Hw Hne Hu Hat. pose proof (others_ok _ _ i HI _ _ Hne Hu) as Hc.
  pose proof (total_two reading _ j i u t ltac:(apply count_ge0) Hne Hu Ht).
  pose proof (excl_reading _ _ (si_excl _ _ HI)).
  unfold copy_ok in Hc. rewrite Hat in Hc. destruct (todo u) as [|[d|n] rest] eqn:E; [done|by eauto|].
  assert (reading u = 1) by (count; by rewrite Hat, E). lia.
Qed.

(** A copy that is not at its end leaves a place without the end of its index. *)
Lemma copy_ok_other q q' u :
  (forall cs, at_ u = Copy cs -> copy_ok q u -> copy_ok q' u) -> copy_ok q u -> copy_ok q' u.
Proof. intros H Hc. destruct (at_ u) eqn:E; try by eapply H. all: revert Hc; unfold copy_ok; by rewrite E. Qed.

Lemma write_byte_slots f s i cs c d rest b :
  sys_inv f s -> pool s !! i = Some {| at_ := Copy cs; todo := Producer d :: rest; bufs := b |} ->
  d !! length cs = Some c ->
  slots_ok (set_shm (mem_write (_shm (ring s)) (_last_elem (ring s) + Z.of_nat (length cs)) [c]) (ring s)) f.
Proof.
  intros HI Ht Hc. pose proof (writer_room _ _ _ _ HI Ht eq_refl).
  pose proof (turn_in _ _ _ _ _ _ _ HI Ht) as Hd. simpl in Hd. apply lookup_lt_Some in Hc.
  destruct (si_slots _ _ HI) as [He Hm Hn Hf Hl Hdata]. split; simpl; try done.
  intros j e Hj Hje. destruct (Hdata j e Hj Hje) as [Hel Hr]. split; [done|].
  rewrite mem_read_outside; [done|]. pose proof (lookup_lt_Some _ _ _ Hje).
  pose proof (nth_slot_disjoint (ring s) j (length (f_slots f)) He). simpl.
  change (nth_slot (set_shm _ _) j) with (nth_slot (ring s) j) in *. lia.
Qed.

Lemma write_byte_others f s i cs c d rest b j u :
  sys_inv f s -> pool s !! i = Some {| at_ := Copy cs; todo := Producer d :: rest; bufs := b |} ->
  d !! length cs = Some c -> j <> i -> pool s !! j = Some u ->
  copy_ok (set_shm (mem_write (_shm (ring s)) (_last_elem (ring s) + Z.of_nat (length cs)) [c]) (ring s)) u.
Proof.
  intros HI Ht Hc Hne Hu. apply (copy_ok_other (ring s)); [|eapply others_ok; eauto].
  intros cs' Hat Hok. destruct (other_reads _ _ i j _ u cs' HI Ht eq_refl Hne Hu Hat) as (n & rest' & E).
  unfold copy_ok in *. rewrite Hat, E in *. destruct Hok as [Hlen Hr]. split; [done|]. simpl.
  pose proof (writer_room _ _ _ _ HI Ht eq_refl).
  pose proof (turn_in _ _ _ _ _ _ _ HI Ht) as Hd. simpl in Hd. apply lookup_lt_Some in Hc.
  assert (holds_elem u = 1) as Hh by (count; by rewrite Hat, E).
  pose proof (reader_data _ _ _ _ HI Hu Hh). destruct u as [p td bb]. simpl in Hat, E. subst p td.
  pose proof (turn_in _ _ _ _ _ _ _ HI Hu) as Hn. simpl in Hn.
  destruct (si_slots _ _ HI) as [He Hm _ Hf Hl _].
  pose proof (nth_slot_disjoint (ring s) (f_next f) (length (f_slots f)) He).
  rewrite mem_read_outside; [done|]. simpl. lia.
Qed.

Lemma write_byte_ok f s i cs c d rest b :
  sys_inv f s -> pool s !! i = Some {| at_ := Copy cs; todo := Producer d :: rest; bufs := b |} ->
  d !! length cs = Some c ->
  step_ok f s i ([], set_shm (mem_write (_shm (ring s)) (_last_elem (ring s) + Z.of_nat (length cs)) [c]) (ring s),
    mutex s, {| at_ := Copy (cs ++ [c]); todo := Producer d :: rest; bufs := b |}).
Proof.
  intros HI Ht Hc. pose proof (si_tokens _ _ HI) as [H1 H2 H3 H4]. exists f. split; [done|]. split; [done|].
  eapply sys_inv_step; eauto using write_byte_slots, write_byte_others; try done.
  - tally Ht.
  - eapply excl_step; eauto using si_excl; done.
  - pose proof (copy_in _ _ _ _ HI Ht) as [[tl E] Hr].
    simpl. split.
    + rewrite E, lookup_app_r, Nat.sub_diag in Hc by lia. destruct tl as [|c' tl]; simplify_eq/=.
      exists tl. by rewrite <- app_assoc.
    + rewrite length_app, Nat2Z.inj_add, mem_read_app by lia. simpl. f_equal.
      * rewrite mem_read_outside; [done|lia].
      * apply (mem_read_write _ _ [c]).
Qed.

Lemma write_move_ok f s i cs d rest b :
  sys_inv f s -> pool s !! i = Some {| at_ := Copy cs; todo := Producer d :: rest; bufs := b |} ->
  d !! length cs = None ->
  step_ok f s i ([Pushed d], set_last ((_last_elem (ring s) + _elem_size (ring s)) mod _buff_size (ring s)) (ring s),
    mutex s, {| at_ := Posting true; todo := rest; bufs := b |}).
Proof.
  intros HI Ht Hc. pose proof (si_tokens _ _ HI) as [H1 H2 H3 H4].
  pose proof (writer_room _ _ _ _ HI Ht eq_refl). pose proof (turn_in _ _ _ _ _ _ _ HI Ht) as Hd. simpl in Hd.
  pose proof (copy_in _ _ _ _ HI Ht) as [[tl E] Hr].
  apply lookup_ge_None in Hc. assert (cs = d) as ->.
  { rewrite E, length_app in Hc. destruct tl; simpl in Hc; [by rewrite app_nil_r in E|lia]. }
  destruct (si_slots _ _ HI) as [He Hm Hn Hf Hl Hdata].
  exists (fifo_push d f). split; [split; [by rewrite length_fifo_pending|done]|]. split; [done|].
  eapply sys_inv_step; eauto; try done.
  - split; simpl; try done; rewrite ?length_app; simpl; try lia.
    + by rewrite Hl, nth_slot_next, Nat.add_1_r by lia.
    + intros j e Hj. rewrite lookup_app_Some. intros [Hje|[Hge Hje]]; [by apply (Hdata j)|].
      apply list_lookup_singleton_Some in Hje as [Hz <-].
      replace j with (length (f_slots f)) by lia. by rewrite Hl in Hr.
  - tally Ht.
  - eapply excl_step; eauto using si_excl. by exists [Producer d].
  - intros j u Hne Hu. apply (copy_ok_other (ring s)); [|eapply others_ok; eauto].
    intros cs' Hat Hok. destruct (other_reads _ _ i j _ u cs' HI Ht eq_refl Hne Hu Hat) as (n & rest' & E').
    unfold copy_ok in *. by rewrite Hat, E' in *.
  - by exists [Producer d].
Qed.

Lemma read_byte_ok f s i cs n rest b :
  sys_inv f s -> pool s !! i = Some {| at_ := Copy cs; todo := Consumer n :: rest; bufs := b |} ->
  Z.of_nat (length cs) < n ->
  step_ok f s i ([], ring s, mutex s,
    {| at_ := Copy (cs ++ [_shm (ring s) !! (_first_elem (ring s) + Z.of_nat (length cs))]);
       todo := Consumer n :: rest; bufs := b |}).
Proof.
  intros HI Ht Hc. pose proof (si_tokens _ _ HI) as [H1 H2 H3 H4].
  eapply step_same; eauto; try done.
  - tally Ht.
  - eapply excl_step; eauto using si_excl; done.
  - pose proof (copy_in _ _ _ _ HI Ht) as [Hl Hr].
    unfold copy_ok; simpl. rewrite length_app, Nat2Z.inj_add. split; [simpl; lia|].
    rewrite mem_read_app by lia. by rewrite Hr.
Qed.

Lemma take_mem_read m off n k : 0 <= n -> take k (mem_read m off n) = mem_read m off (Z.min (Z.of_nat k) n).
Proof.
  intros Hn. destruct (decide (Z.of_nat k <= n)).
  - rewrite Z.min_l, (mem_read_take m off (Z.of_nat k) n), Nat2Z.id by lia. done.
  - rewrite Z.min_r, take_ge; [done|rewrite length_mem_read|]; lia.
Qed.

Lemma read_move_ok f s i cs n rest b :
  sys_inv f s -> pool s !! i = Some {| at_ := Copy cs; todo := Consumer n :: rest; bufs := b |} ->
  n <= Z.of_nat (length cs) ->
  step_ok f s i ([Popped n cs], set_first ((_first_elem (ring s) + _elem_size (ring s)) mod _buff_size (ring s)) (ring s),
    mutex s, {| at_ := Posting false; todo := rest; bufs := b ++ [cs] |}).
Proof.
  intros HI Ht Hc. pose proof (si_tokens _ _ HI) as [H1 H2 H3 H4].
  pose proof (reader_data _ _ _ _ HI Ht eq_refl) as Hlt. pose proof (turn_in _ _ _ _ _ _ _ HI Ht) as Hd. simpl in Hd.
  pose proof (copy_in _ _ _ _ HI Ht) as [Hlen Hr].
  destruct (si_slots _ _ HI) as [He Hm Hn Hf Hl Hdata].
  destruct (lookup_lt_is_Some_2 _ _ Hlt) as [d Hnd]. destruct (Hdata _ _ (Nat.le_refl _) Hnd) as [Hdl Hdr].
  exists {| f_slots := f_slots f; f_next := S (f_next f) |}. split; [|split; [done|]].
  { exists d. unfold fifo_pop. rewrite Hnd. split; [done|]. unfold got. simpl.
    split; [lia|]. rewrite <- Hr, <- Hdr, Hf, !take_mem_read, length_mem_read by lia. f_equal. lia. }
  eapply sys_inv_step; eauto; try done.
  - split; simpl; try done.
    + by rewrite Hf, nth_slot_next by lia.
    + intros j e Hj. apply Hdata. lia.
  - tally Ht.
  - eapply excl_step; eauto using si_excl. by exists [Consumer n].
  - intros j u Hne Hu. apply (copy_ok_other (ring s)); [|eapply others_ok; eauto].
    intros cs' Hat Hok. destruct (other_writes _ _ i j _ u cs' HI Ht eq_refl Hne Hu Hat) as (d' & rest' & E').
    unfold copy_ok in *. by rewrite Hat, E' in *.
  - by exists [Consumer n].
Qed.

(** A thread that takes a step keeps the invariant; it ends its process only
    when a signal interrupts its wait. *)
Lemma thread_safe intr f s i t :
  sys_inv f s -> pool s !! i = Some t ->
  match thread_step intr (ring s) (mutex s) t with
  | Done r => step_ok f s i r | Blocks _ => True
  | Exit _ => intr = true /\ exists w, thread_step false (ring s) (mutex s) t = Blocks w
  | _ => False
  end.
Proof.
  intros HI Ht. pose proof (copy_in _ _ _ _ HI Ht).
  destruct t as [p ts b]. destruct p as [| |cs|w|w].
  - destruct ts as [|c rest]; [done|]. by apply enter_ok.
  - destruct ts as [|c rest]; [done|]. by apply token_ok.
  - destruct ts as [|[d|n] rest]; [done| |]; unfold thread_step; simpl.
    + unfold write_step. simpl. destruct (d !! length cs) eqn:E; [by apply write_byte_ok|by eapply write_move_ok].
    + unfold read_step. simpl. destruct (Z.ltb_spec (Z.of_nat (length cs)) n);
        [by apply read_byte_ok|by eapply read_move_ok].
  - pose proof (posting_ok intr _ _ _ _ _ _ HI Ht). by case_match.
  - pose proof (releasing_ok intr _ _ _ _ _ _ HI Ht). by case_match.
Qed.

Lemma fifo_trace_takes cap tr f es f' :
  fifo_trace cap tr f -> takes cap f es f' -> fifo_trace cap (tr ++ es) f'.
Proof.
  intros HT. destruct es as [|[d|n bs] [|]]; simpl; try done.
  - intros ->. by rewrite app_nil_r.
  - intros [Hp ->]. by constructor.
  - intros (d & Hp & Hg). by econstructor.
Qed.

Lemma steps_inv max s0 tr s :
  sys_inv fifo_new s0 -> _max_num_elems (ring s0) = max -> steps s0 tr s ->
  exists f, fifo_trace max tr.*2 f /\ _max_num_elems (ring s) = max /\ sys_inv f s.
Proof.
  intros H0 Hm HS. induction HS as [|tr s intr i es s' _ IH Hstep].
  - exists fifo_new. split; [constructor|done].
  - destruct IH as (f & HT & Hmx & HI). unfold sys_step in Hstep.
    destruct (pool s !! i) as [t|] eqn:Ht; [|done].
    pose proof (thread_safe intr f s i t HI Ht) as Hok.
    destruct (thread_step _ _ _ t) as [[[[es' q] mx] t']| | | |]; simplify_eq/=.
    destruct Hok as (f' & Htk & Hq & HI'). exists f'. split; [|by rewrite Hq].
    rewrite fmap_app, snd_pairs. rewrite Hmx in Htk. by eapply fifo_trace_takes.
Qed.
End Safety.

(** ** The two queues of the source *)

(** [CircularBuffer] and [SPSCQueue] *)
Inductive flavour : Type := CircularBuffer | SPSCQueue.
Definition mutex_of (k : flavour) : Mutex := match k with CircularBuffer => NamedMutex | SPSCQueue => NoLock end.
#[export] Instance mutex_of_excludes k : Excludes (mutex_of k) :=
  match k with CircularBuffer => NamedMutex_excludes | SPSCQueue => NoLock_excludes end.

(** Which threads may share a queue. *)
Definition writes_any (c : list turn) : bool := existsb (fun c => match c with Producer _ => true | _ => false end) c.
Definition reads_any (c : list turn) : bool := existsb (fun c => match c with Consumer _ => true | _ => false end) c.
Definition shareable (k : flavour) (calls : list (list turn)) : Prop :=
  match k with
  | CircularBuffer => True
  | SPSCQueue => (length (filter (fun c => writes_any c = true) calls) <= 1)%nat /\
                 (length (filter (fun c => reads_any c = true) calls) <= 1)%nat
  end.

Lemma total_filter g (p : list turn -> bool) calls :
  (forall c, g {| at_ := Enter; todo := c; bufs := [] |} = Z.b2z (p c)) ->
  total g ((fun ts => {| at_ := Enter; todo := ts; bufs := [] |}) <$> calls) =
  Z.of_nat (length (filter (fun c => p c = true) calls)).
Proof.
  intros Hg. induction calls as [|c cs IH]; [done|]. rewrite fmap_cons, filter_cons. unfold total in *. simpl.
  rewrite Hg, IH. destruct (p c); simpl; lia.
Qed.

Lemma ring_start_inv k max es calls :
  0 < es -> 0 < max <= SEM_VALUE_MAX -> Forall (Forall (turn_ok es)) calls -> shareable k calls ->
  sys_inv (Mx := mutex_of k) fifo_new (start max es calls).
Proof.
  intros He Hm Hok Hsh.
  assert (forall g, (forall ts, g {| at_ := Enter; todo := ts; bufs := [] |} = 0) ->
          total g (pool (start max es calls)) = 0) as Hz.
  { intros g Hg. apply total_zero. unfold start. simpl. apply Forall_fmap, Forall_true. intros ts. apply Hg. }
  split.
  - split; simpl; try done; try (unfold nth_slot; simpl; rewrite Zmod_0_l; lia).
  - split; simpl; try lia; rewrite !Hz by (intros []; done); lia.
  - destruct k; simpl.
    + rewrite Hz by done. lia.
    + destruct Hsh as [Hw Hr]. rewrite (total_filter _ writes_any), (total_filter _ reads_any) by done. lia.
  - simpl. apply Forall_fmap, Forall_true. by intros ts.
  - simpl. apply Forall_fmap. by eapply Forall_impl.
Qed.

(** ** Program order *)

(** A step does the first of the calls left, or none, and keeps what it received. *)
Lemma thread_step_order `{Mx : Mutex} intr q mx t es q' mx' t' :
  thread_step intr q mx t = Done (es, q', mx', t') ->
  (turn_of <$> es) ++ todo t' = todo t /\ bufs t' = bufs t ++ (es ≫= received).
Proof.
  unfold thread_step, write_step, read_step, moved. intros H.
  repeat (case_match; simplify_eq/=); repeat (destruct_or? H; simplify_eq/=);
    repeat match goal with
    | H : outcome_bind ?m _ = Done _ |- _ => destruct m; simplify_eq/=
    end; rewrite ?app_nil_r; done.
Qed.

Lemma steps_order `{Mx : Mutex} max es calls tr s i c :
  steps (start max es calls) tr s -> calls !! i = Some c ->
  exists t, pool s !! i = Some t /\ (turn_of <$> events_of i tr) ++ todo t = c /\
    bufs t = events_of i tr ≫= received.
Proof.
  intros HS Hc. induction HS as [|tr s intr j evs s' _ (t & Ht & Ho & Hb) Hstep].
  - exists {| at_ := Enter; todo := c; bufs := [] |}. simpl. by rewrite list_lookup_fmap, Hc.
  - unfold sys_step in Hstep. destruct (pool s !! j) as [u|] eqn:Hu; [|done].
    destruct (thread_step _ _ _ u) as [[[[es' q] mx] u']| | | |] eqn:E; simplify_eq/=.
    rewrite events_of_app. destruct (decide (j = i)) as [->|Hne].
    + simplify_eq. apply thread_step_order in E as [E1 E2]. exists u'.
      rewrite list_lookup_insert_eq by eauto using lookup_lt_Some.
      by rewrite fmap_app, bind_app, <- app_assoc, E1, E2, Hb.
    + exists t. rewrite list_lookup_insert_ne by done. by rewrite app_nil_r.
Qed.

(** ** Nobody waits for ever *)

(** No thread can take a step. *)
Definition stuck `{Mutex} (s : sys) : Prop := forall i es s', sys_step false i s <> Done (es, s').

(** How many writes and reads are in a list of calls. *)
Definition n_writes (c : list turn) : Z := foldr (fun t z => match t with Producer _ => 1 + z | _ => z end) 0 c.
Definition n_reads (c : list turn) : Z := foldr (fun t z => match t with Consumer _ => 1 + z | _ => z end) 0 c.

Lemma n_writes_app c1 c2 : n_writes (c1 ++ c2) = n_writes c1 + n_writes c2.
Proof. induction c1 as [|[] c1 IH]; simpl; lia. Qed.
Lemma n_reads_app c1 c2 : n_reads (c1 ++ c2) = n_reads c1 + n_reads c2.
Proof. induction c1 as [|[] c1 IH]; simpl; lia. Qed.
Lemma n_writes_ge0 c : 0 <= n_writes c.
Proof. induction c as [|[] c IH]; simpl; lia. Qed.
Lemma n_reads_ge0 c : 0 <= n_reads c.
Proof. induction c as [|[] c IH]; simpl; lia. Qed.

Lemma fifo_trace_counts cap tr f :
  fifo_trace cap tr f ->
  Z.of_nat (length (f_slots f)) = n_writes (turn_of <$> tr) /\ Z.of_nat (f_next f) = n_reads (turn_of <$> tr).
Proof.
  induction 1 as [|tr f d _ [IH1 IH2] _|tr f n bs d f' _ [IH1 IH2] Hp _]; [done|..];
    rewrite fmap_app, n_writes_app, n_reads_app, <- IH1, <- IH2; simpl.
  - rewrite length_app. simpl. lia.
  - unfold fifo_pop in Hp. destruct (f_slots f !! f_next f); simplify_eq/=. lia.
Qed.

Lemma steps_counts `{Mx : Mutex} (n : list turn -> Z) max es calls tr s :
  (forall c1 c2, n (c1 ++ c2) = n c1 + n c2) ->
  steps (start max es calls) tr s ->
  total (fun t => n (todo t)) (pool s) + n (turn_of <$> tr.*2) = n (concat calls).
Proof.
  intros Happ HS. assert (n [] = 0) as Hnil by (pose proof (Happ [] []); simpl in *; lia).
  induction HS as [|tr s intr j evs s' _ IH Hstep].
  - simpl. rewrite Hnil, Z.add_0_r. induction calls as [|c cs IH]; [done|]. simpl. rewrite Happ.
    simpl in IH. by rewrite <- IH.
  - unfold sys_step in Hstep. destruct (pool s !! j) as [u|] eqn:Hu; [|done].
    destruct (thread_step _ _ _ u) as [[[[es' q] mx] u']| | | |] eqn:E; simplify_eq/=.
    rewrite (total_insert _ _ _ _ _ Hu). apply thread_step_order in E as [E _].
    rewrite <- E, !fmap_app, snd_pairs, !Happ in *. lia.
Qed.

Section Progress.
Context {Mx : Mutex} {EX : Excludes Mx}.

Lemma thread_moves s i t r :
  stuck s -> pool s !! i = Some t -> thread_step false (ring s) (mutex s) t <> Done r.
Proof.
  intros Hst Ht E. destruct r as [[[evs q] mx] t'].
  apply (Hst i evs {| ring := q; mutex := mx; pool := <[i := t']> (pool s) |}).
  unfold sys_step. by rewrite Ht, E.
Qed.

(** When nobody can move, nobody is between the two ends of a call. *)
Lemma stuck_outside f s : sys_inv f s -> stuck s -> Forall (fun t => inside t = 0) (pool s).
Proof.
  intros HI Hst. apply Forall_lookup_2. intros i t Ht. pose proof (copy_in _ _ _ _ HI Ht) as Hc.
  pose proof (fun r => thread_moves _ _ _ r Hst Ht) as Hno.
  destruct t as [[| |cs|w|w] ts b]; [done|done|exfalso..].
  - destruct ts as [|[d|n] rest]; [done|..]; unfold thread_step, write_step, read_step in Hno; simpl in Hno.
    + destruct (d !! length cs); by eapply Hno.
    + destruct (_ <? n); by eapply Hno.
  - pose proof (posting_ok false _ _ _ _ _ _ HI Ht). case_match; [by eapply Hno|done..].
  - pose proof (releasing_ok false _ _ _ _ _ _ HI Ht). case_match; [by eapply Hno|done..].
Qed.

Lemma stuck_enter f s : sys_inv f s -> stuck s -> Forall (fun t => at_ t = Enter) (pool s).
Proof.
  intros HI Hst. pose proof (stuck_outside _ _ HI Hst) as Hout.
  destruct (excl_free _ _ (si_excl _ _ HI) (total_zero _ _ Hout)) as [mx' E].
  rewrite Forall_lookup in Hout. apply Forall_lookup_2. intros i t Ht. specialize (Hout _ _ Ht).
  pose proof (copy_in _ _ _ _ HI Ht) as Hc. pose proof (fun r => thread_moves _ _ _ r Hst Ht) as Hno.
  destruct t as [[| |cs|w|w] ts b]; try done. exfalso.
  destruct ts as [|[d|n] rest]; [done|..]; unfold thread_step, write_step, read_step in Hno; simpl in Hno;
    rewrite E in Hno; by eapply Hno.
Qed.

(** Then whoever has a write to do waits for a full ring, and whoever has a
    read to do for an empty one. *)
Lemma stuck_reason f s i t c rest :
  sys_inv f s -> stuck s -> pool s !! i = Some t -> todo t = c :: rest ->
  match c with
  | Producer _ => Z.of_nat (length (f_slots f)) - Z.of_nat (f_next f) = _max_num_elems (ring s)
  | Consumer _ => length (f_slots f) = f_next f
  end.
Proof.
  intros HI Hst Ht Htd. pose proof (stuck_enter _ _ HI Hst) as Hen.
  destruct (si_tokens _ _ HI) as [H1 H2 H3 H4].
  rewrite !total_zero in H3, H4 by (eapply Forall_impl; [exact Hen|]; intros u Hu; count; by rewrite Hu).
  rewrite Forall_lookup in Hen. specialize (Hen _ _ Ht).
  pose proof (fun r => thread_moves _ _ _ r Hst Ht) as Hno. destruct t as [p ts b]. simpl in Hen, Htd. subst p ts.
  destruct c as [d|n]; unfold thread_step, write_step, read_step, on_empty, on_elems in Hno; simpl in Hno.
  - destruct (sem_lock_outcome false (_sem_num_empty (ring s))) as [[_ E]|[? _]]; [|lia].
    rewrite E in Hno. exfalso. by eapply Hno.
  - destruct (sem_lock_outcome false (_sem_num_elems (ring s))) as [[_ E]|[? _]]; [|lia].
    rewrite E in Hno. exfalso. by eapply Hno.
Qed.
End Progress.

(** The steps a thread still has to take. *)
Definition call_size (c : turn) : nat := match c with Producer d => length d | Consumer n => Z.to_nat n end.
Definition work_of (c : list turn) : nat := foldr (fun t z => 5 + call_size t + z)%nat 0%nat c.
Definition work (t : thread) : nat :=
  match at_ t, todo t with
  | Enter, c => work_of c
  | Token, c => pred (work_of c)
  | Copy cs, c :: rest => (call_size c - length cs) + 3 + work_of rest
  | Copy _, [] => 0
  | Posting _, c => 2 + work_of c
  | Releasing _, c => 1 + work_of c
  end%nat.

Lemma thread_step_work `{Mx : Mutex} intr q mx t es q' mx' t' :
  thread_step intr q mx t = Done (es, q', mx', t') -> (work t' < work t)%nat.
Proof.
  unfold thread_step, write_step, read_step, moved, work. intros H.
  destruct (at_ t) as [| |cs|[]|[]] eqn:Hat, (todo t) as [|[d|n] rest] eqn:Htd; simplify_eq/=;
    try (match type of H with outcome_bind ?m _ = _ => destruct m; simplify_eq/= end; rewrite ?Htd; simpl; lia).
  - destruct (d !! length cs) eqn:E; simplify_eq/=; [|lia].
    rewrite ?Htd, length_app. apply lookup_lt_Some in E. simpl. lia.
  - destruct (Z.ltb_spec (Z.of_nat (length cs)) n); simplify_eq/=; [|lia]. rewrite ?Htd, length_app. simpl. lia.
Qed.

Lemma sys_step_work `{Mx : Mutex} intr i s es s' :
  sys_step intr i s = Done (es, s') ->
  total (fun t => Z.of_nat (work t)) (pool s') < total (fun t => Z.of_nat (work t)) (pool s).
Proof.
  unfold sys_step. intros H. destruct (pool s !! i) as [t|] eqn:Ht; [|done].
  destruct (thread_step _ _ _ t) as [[[[es' q] mx] t']| | | |] eqn:E; simplify_eq/=.
  rewrite (total_insert _ _ _ _ _ Ht). apply thread_step_work in E. lia.
Qed.

(** C6. The queues are linearizable. Whatever the interleaving of the threads that
    use a [CircularBuffer], and of the one producer and the one consumer of an
    [SPSCQueue], at the level of single bytes and semaphore operations, with
    slots of less than [2^31] bytes, at most [SEM_VALUE_MAX] of them, calls that
    fit in a slot, and signals that may interrupt any wait: the slots are handed over as by a queue of at most
    [max] slots that takes one operation at a time, each reader getting the
    bytes of the oldest slot; every thread does its calls in the order of its
    program and has in its buffers what it took; and a call goes on, waits, or
    ends its process because a signal interrupted its wait, for no other
    reason. *)
Theorem queues_linearizable k max es calls tr s :
  0 < es < 2 ^ 31 -> 0 < max <= SEM_VALUE_MAX -> Forall (Forall (turn_ok es)) calls -> shareable k calls ->
  steps (Mx := mutex_of k) (start max es calls) tr s ->
  (exists f, fifo_trace max tr.*2 f) /\
  (forall i c, calls !! i = Some c ->
     exists t, pool s !! i = Some t /\ (turn_of <$> events_of i tr) ++ todo t = c /\
       bufs t = events_of i tr ≫= received) /\
  (forall b i, (exists r, sys_step (Mx := mutex_of k) b i s = Done r) \/
     (exists w, sys_step (Mx := mutex_of k) b i s = Blocks w) \/
     b = true /\ (exists w w', sys_step (Mx := mutex_of k) b i s = Exit w /\
                            sys_step (Mx := mutex_of k) false i s = Blocks w')).
Proof.
  intros He Hm Hok Hsh HS. pose proof (ring_start_inv k max es calls (proj1 He) Hm Hok Hsh) as H0.
  destruct (steps_inv max _ _ _ H0 eq_refl HS) as (f & HT & _ & HI).
  split; [by exists f|]. split; [intros i c; by apply (steps_order (Mx := mutex_of k) max es)|].
  intros b i. unfold sys_step. destruct (pool s !! i) as [t|] eqn:Ht; [|right; left; by eexists].
  pose proof (thread_safe b f s i t HI Ht) as Hsafe.
  destruct (thread_step b _ _ t) as [[[[? ?] ?] ?]|?|w|?|?]; simpl; try done; [left; by eexists| |right; left; by eexists].
  right; right. destruct Hsafe as [? [w' ->]]. simpl. eauto.
Qed.

Lemma steps_length `{Mx : Mutex} max es calls tr s :
  steps (start max es calls) tr s -> length (pool s) = length calls.
Proof.
  induction 1 as [|tr s intr j evs s' _ IH Hstep]; [simpl; by rewrite length_fmap|].
  unfold sys_step in Hstep. destruct (pool s !! j) as [u|]; [|done].
  destruct (thread_step _ _ _ u) as [[[[? ?] ?] ?]| | | |]; simplify_eq/=. by rewrite length_insert.
Qed.

(** A thread that uses one side of the queue goes on doing so. *)
Lemma steps_one_sided `{Mx : Mutex} max es calls tr s :
  Forall (fun c => n_writes c = 0 \/ n_reads c = 0) calls -> steps (start max es calls) tr s ->
  Forall (fun t => n_writes (todo t) = 0 \/ n_reads (todo t) = 0) (pool s).
Proof.
  intros H1 HS. apply Forall_lookup_2. intros i t Ht. pose proof (lookup_lt_Some _ _ _ Ht) as Hi.
  rewrite (steps_length _ _ _ _ _ HS) in Hi. apply lookup_lt_is_Some_2 in Hi as [c Hc].
  destruct (steps_order _ _ _ _ _ _ _ HS Hc) as (t' & Ht' & Hord & _). simplify_eq.
  rewrite Forall_lookup in H1. specialize (H1 _ _ Hc). simpl in H1. rewrite n_writes_app, n_reads_app in H1.
  pose proof (n_writes_ge0 (turn_of <$> events_of i tr)). pose proof (n_reads_ge0 (turn_of <$> events_of i tr)).
  pose proof (n_writes_ge0 (todo t)). pose proof (n_reads_ge0 (todo t)). lia.
Qed.

(** In a state where nobody moves, one side has no calls left. *)
Lemma stuck_side {Mx : Mutex} {EX : Excludes Mx} f s i t c rest :
  sys_inv f s -> stuck s -> pool s !! i = Some t -> todo t = c :: rest ->
  Forall (fun t => n_writes (todo t) = 0 \/ n_reads (todo t) = 0) (pool s) ->
  match c with
  | Producer _ => total (fun t => n_reads (todo t)) (pool s) = 0
  | Consumer _ => total (fun t => n_writes (todo t)) (pool s) = 0
  end.
Proof.
  intros HI Hst Ht Htd Hside. pose proof (stuck_reason _ _ _ _ _ _ HI Hst Ht Htd) as Hc.
  pose proof (so_max _ _ (si_slots _ _ HI)).
  assert (forall j u c' r', pool s !! j = Some u -> todo u = c' :: r' ->
    match c', c with Producer _, Producer _ | Consumer _, Consumer _ => True | _, _ => False end) as Hsame.
  { intros j u c' r' Hu Hc'. pose proof (stuck_reason _ _ _ _ _ _ HI Hst Hu Hc').
    destruct c, c'; try done; lia. }
  destruct c as [d|n]; apply total_zero, Forall_lookup_2; intros j u Hu;
    rewrite Forall_lookup in Hside; specialize (Hside _ _ Hu); simpl in Hside;
    destruct (todo u) as [|[d'|n'] r'] eqn:E; try done; try (by destruct (Hsame _ _ _ _ Hu E));
    simpl in *; [pose proof (n_writes_ge0 r')|pose proof (n_reads_ge0 r')]; lia.
Qed.

(** C15. The calls on a queue all end, unless a process does. For a [CircularBuffer],
    or an [SPSCQueue] with one producer and one consumer, with slots of less than
    [2^31] bytes, at most [SEM_VALUE_MAX] of them, and calls that fit in a slot:
    when each thread is on one side of the queue and they write no less than they
    read, and at most [max] slots more, then no schedule goes on for ever, every step leaving less
    to do, and when no thread can take a step every call of every thread has
    been made: no wakeup is lost and nobody is left waiting. A thread that a
    signal interrupts while it waits does not count as one that cannot take a
    step: it ends its process ([Semaphore.interrupted_lock_exits]), and the
    others may then wait for what it would have written or read. *)
Theorem queues_complete k max es calls tr s :
  0 < es < 2 ^ 31 -> 0 < max <= SEM_VALUE_MAX -> Forall (Forall (turn_ok es)) calls -> shareable k calls ->
  Forall (fun c => n_writes c = 0 \/ n_reads c = 0) calls ->
  n_reads (concat calls) <= n_writes (concat calls) <= n_reads (concat calls) + max ->
  steps (Mx := mutex_of k) (start max es calls) tr s ->
  (forall b i evs s', sys_step (Mx := mutex_of k) b i s = Done (evs, s') ->
     total (fun t => Z.of_nat (work t)) (pool s') < total (fun t => Z.of_nat (work t)) (pool s)) /\
  (stuck (H := mutex_of k) s -> Forall (fun t => todo t = [] /\ at_ t = Enter) (pool s)).
Proof.
  intros He Hm Hok Hsh Hone Hbal HS. split; [intros b i evs s'; apply sys_step_work|]. intros Hst.
  pose proof (ring_start_inv k max es calls (proj1 He) Hm Hok Hsh) as H0.
  destruct (steps_inv max _ _ _ H0 eq_refl HS) as (f & HT & Hmx & HI).
  pose proof (stuck_enter _ _ HI Hst) as Hen. destruct (fifo_trace_counts _ _ _ HT) as [Hw Hr].
  pose proof (steps_counts n_writes _ _ _ _ _ n_writes_app HS) as Cw.
  pose proof (steps_counts n_reads _ _ _ _ _ n_reads_app HS) as Cr.
  rewrite Forall_lookup in Hen. apply Forall_lookup_2. intros i t Ht. split; [|by eapply Hen].
  destruct (todo t) as [|c rest] eqn:Htd; [done|exfalso].
  pose proof (stuck_reason _ _ _ _ _ _ HI Hst Ht Htd) as Hc.
  pose proof (stuck_side _ _ _ _ _ _ HI Hst Ht Htd (steps_one_sided _ _ _ _ _ Hone HS)) as Hz.
  pose proof (total_one (fun t => n_writes (todo t)) _ _ _ ltac:(intros; apply n_writes_ge0) Ht) as Tw.
  pose proof (total_one (fun t => n_reads (todo t)) _ _ _ ltac:(intros; apply n_reads_ge0) Ht) as Tr.
  simpl in Tw, Tr. rewrite Htd in Tw, Tr. pose proof (n_writes_ge0 rest). pose proof (n_reads_ge0 rest).
  destruct c; simpl in Tw, Tr; lia.
Qed.

(** ** Runs of concrete schedules *)

Lemma run_steps `{Mx : Mutex} s0 sched : forall tr s,
  steps s0 tr s -> steps s0 (tr ++ (run sched s).1) (run sched s).2.
Proof.
  induction sched as [|i sched IH]; intros tr s HS; simpl; [by rewrite app_nil_r|].
  destruct (sys_step false i s) as [[es s']| | | |] eqn:E; try by apply IH.
  specialize (IH _ _ (steps_snoc _ _ _ _ _ _ _ HS E)).
  destruct (run sched s') as [tr' s2]. simpl in *. by rewrite app_assoc.
Qed.

Lemma run_from (k : flavour) sched s0 :
  steps (Mx := mutex_of k) s0 (run (Mx := mutex_of k) sched s0).1 (run (Mx := mutex_of k) sched s0).2.
Proof. apply (run_steps (Mx := mutex_of k) s0 sched [] s0). constructor. Qed.

(** Two producers and a consumer on a ring of one slot. *)
Definition three_calls : list (list turn) :=
  [[Producer [Some x61; Some x62]]; [Producer [Some x63]]; [Consumer 2; Consumer 1]].
Definition turns_about (n : nat) : list nat := concat (replicate n [0%nat; 1%nat; 2%nat]).

Lemma queues_linearizable_witness :
  let r := run (Mx := mutex_of CircularBuffer) (turns_about 30) (start 1 2 three_calls) in
  steps (Mx := mutex_of CircularBuffer) (start 1 2 three_calls) r.1 r.2 /\
  r.1.*2 = [Pushed [Some x61; Some x62]; Popped 2 [Some x61; Some x62]; Pushed [Some x63]; Popped 1 [Some x63]] /\
  exists f, fifo_trace 1 r.1.*2 f.
Proof.
  intros r. pose proof (run_from CircularBuffer (turns_about 30) (start 1 2 three_calls)) as HS.
  split; [exact HS|]. split; [vm_compute; reflexivity|].
  refine (proj1 (queues_linearizable CircularBuffer 1 2 three_calls r.1 r.2 _ _ _ I HS)); [by split|by split|].
  repeat constructor; simpl; lia.
Defined.

Lemma queues_complete_witness :
  let r := run (Mx := mutex_of CircularBuffer) (turns_about 30) (start 1 2 three_calls) in
  Forall (fun t => todo t = [] /\ at_ t = Enter) (pool r.2).
Proof.
  intros r. pose proof (run_from CircularBuffer (turns_about 30) (start 1 2 three_calls)) as HS.
  refine (proj2 (queues_complete CircularBuffer 1 2 three_calls r.1 r.2 _ _ _ I _ _ HS) _).
  - by split.
  - by split.
  - repeat constructor; simpl; lia.
  - repeat constructor; simpl; lia.
  - vm_compute. by split.
  - intros [|[|[|i]]] es s'; vm_compute; done.
Defined.

(** An [SPSCQueue] is not for two producers: both write into the same slot, and
    the consumer gets one of the two writes and a slot that nobody wrote. *)
Lemma two_producers_lose_a_slot :
  (run (Mx := NoLock) (turns_about 30)
     (start 2 1 [[Producer [Some x61]]; [Producer [Some x62]]; [Consumer 1; Consumer 1]])).1.*2 =
  [Pushed [Some x61]; Pushed [Some x62]; Popped 1 [Some x62]; Popped 1 [None]].
Proof. vm_compute. reflexivity. Qed.
