(* ===== verification/QueueObjects.v ===== *)
(** * The objects behind a queue

    A queue of [common/queue.hpp] is three objects of shared memory and two or
    three named semaphores, found by name: the constructor makes those that are
    missing and joins the others, the destructor takes the names away.  The
    names are built of the workflow, the kind of the object and the channel; the
    channels are those of [client_manager.cpp], [requests.hpp] and [cache.hpp].
    A process that keeps a mapping after its name is gone is not followed. *)
From S2P Require Import Prelude Text Memory Semaphore Queue RingThreads.
#[local] Arguments String.append !_ _ /.

(** ** The kernel *)

(** An object of shared memory: a [long int], or the slots of a ring. *)
Inductive object : Type := Long (v : Z) | Block (size : Z) (m : mem).
Record Ipc : Type := { sems : sem_table; shms : gmap string object }.
Definition set_sems v (k : Ipc) : Ipc := {| sems := v; shms := shms k |}.
Definition set_shms v (k : Ipc) : Ipc := {| sems := sems k; shms := v |}.
Definition no_ipc : Ipc := {| sems := ∅; shms := ∅ |}.
Definition on_sems {A} (m : M sem_table A) : M Ipc A := fun k =>
  outcome_bind (m (sems k)) (fun '(a, v) => Done (a, set_sems v k)).

(** [create_shm] of a [long int], and of the slots: an object that exists is
    resized, with its contents.  [ftruncate] fails for a negative size and
    [mmap] for an empty one. *)
Definition create_long (name : string) : M Ipc unit := fun k =>
  match shms k !! name with
  | None => Done (tt, set_shms (<[name := Long 0]> (shms k)) k)
  | Some (Long _) => Done (tt, k)
  | Some (Block _ _) => UB "object of another kind"
  end.
Definition create_block (name : string) (size : Z) : M Ipc unit := fun k =>
  if size <=? 0 then Exit "ftruncate or mmap create_shm" else
  match shms k !! name with
  | None => Done (tt, set_shms (<[name := Block size ∅]> (shms k)) k)
  | Some (Block _ m) => Done (tt, set_shms (<[name := Block size m]> (shms k)) k)
  | Some (Long _) => UB "object of another kind"
  end.
Definition store_long (name : string) (v : Z) : M Ipc unit :=
  modify (fun k => set_shms (<[name := Long v]> (shms k)) k).
(** [SHM_DESTROY_CHECK]: a failure is only reported. *)
Definition shm_destroy (name : string) : M Ipc unit := modify (fun k => set_shms (delete name (shms k)) k).

(** ** [Queue::Queue] and [Queue::~Queue] *)

Section Names.
Variables (wf shm_name : string).
Definition _shm_name : string := wf ++ "_" ++ shm_name.
Definition _first_elem_name : string := wf ++ "_first_elem_" ++ shm_name.
Definition _last_elem_name : string := wf ++ "_last_elem_" ++ shm_name.
Definition _mutex_name : string := wf ++ "_mutex_" ++ shm_name.
Definition _sem_elems_name : string := wf ++ "_sem_num_elems_" ++ shm_name.
Definition _sem_empty_name : string := wf ++ "_sem_num_empty_" ++ shm_name.

(** The constructor up to the test of [_shm], and after it. *)
Definition Queue_open_sems (k : flavour) (max_num_elems : Z) : M Ipc bool :=
  on_sems (match k with CircularBuffer => NamedSemaphore_new _mutex_name 1 | SPSCQueue => ret tt end) ;;
  on_sems (NamedSemaphore_new _sem_elems_name 0) ;;
  on_sems (NamedSemaphore_new _sem_empty_name max_num_elems) ;;
  create_long _first_elem_name ;;
  create_long _last_elem_name ;;
  gets (fun k => bool_decide (is_Some (shms k !! _shm_name))).
Definition Queue_open_shm (found : bool) (max_num_elems elem_size : Z) : M Ipc unit :=
  if found then ret tt
  else store_long _first_elem_name 0 ;; store_long _last_elem_name 0 ;;
       create_block _shm_name (max_num_elems * elem_size).
Definition Queue_open (k : flavour) (max_num_elems elem_size : Z) : M Ipc unit :=
  let* found := Queue_open_sems k max_num_elems in Queue_open_shm found max_num_elems elem_size.

(** The destructor, and those of the members, in the reverse order. *)
Definition Queue_destroy (k : flavour) : M Ipc unit :=
  shm_destroy _shm_name ;; shm_destroy _first_elem_name ;; shm_destroy _last_elem_name ;;
  on_sems (NamedSemaphore_delete _sem_empty_name) ;;
  on_sems (NamedSemaphore_delete _sem_elems_name) ;;
  on_sems (match k with CircularBuffer => NamedSemaphore_delete _mutex_name | SPSCQueue => ret tt end).

(** The queue the objects make up, with its mutex. *)
Definition queue_at (k : flavour) (max es : Z) (i : Ipc) : option (Queue * Z) :=
  match shms i !! _shm_name, shms i !! _first_elem_name, shms i !! _last_elem_name,
        sems i !! _sem_elems_name, sems i !! _sem_empty_name,
        (match k with CircularBuffer => sems i !! _mutex_name | SPSCQueue => Some 1 end) with
  | Some (Block size m), Some (Long first), Some (Long last), Some elems, Some empty, Some mx =>
      if size =? max * es then
        Some ({| _shm := m; _max_num_elems := max; _elem_size := es; _first_elem := first; _last_elem := last;
                 _sem_num_elems := elems; _sem_num_empty := empty |}, mx)
      else None
  | _, _, _, _, _, _ => None
  end.
End Names.

(** ** The channels of CAPIO *)

Inductive channel : Type :=
| Requests                 (* [request_buffer], of all the clients *)
| Responses (tid : Z)      (* [response_buffer_] *)
| ToServer (tid : Z)       (* [capio_write_tid_] *)
| ToClient (tid : Z).      (* [capio_read_tid_] *)
#[export] Instance channel_eq_dec : EqDecision channel.
Proof. solve_decision. Defined.
Definition channel_name (c : channel) : string :=
  match c with
  | Requests => "request_buffer"
  | Responses tid => "response_buffer_" ++ print_ld tid
  | ToServer tid => "capio_write_tid_" ++ print_ld tid
  | ToClient tid => "capio_read_tid_" ++ print_ld tid
  end.
Definition channel_kind (c : channel) : flavour :=
  match c with Requests | Responses _ => CircularBuffer | _ => SPSCQueue end.
Definition channel_ok (c : channel) : Prop :=
  match c with Requests => True | Responses tid | ToServer tid | ToClient tid => int64 tid end.

Definition shm_names (wf : string) (c : channel) : list string :=
  [_shm_name wf (channel_name c); _first_elem_name wf (channel_name c); _last_elem_name wf (channel_name c)].
Definition sem_names (wf : string) (c : channel) : list string :=
  [_sem_elems_name wf (channel_name c); _sem_empty_name wf (channel_name c); _mutex_name wf (channel_name c)].

(** ** The names *)

Lemma channel_name_inj c d : channel_ok c -> channel_ok d -> channel_name c = channel_name d -> c = d.
Proof.
  intros Hc Hd E. destruct c, d; simpl in E; try discriminate; try done; f_equal; apply print_ld_inj; try done; congruence.
Qed.

(** The objects of two channels, and the objects of one, have different names. *)
Lemma shm_names_disjoint wf c d x :
  channel_ok c -> channel_ok d -> c <> d -> x ∈ shm_names wf c -> x ∈ shm_names wf d -> False.
Proof.
  intros Hc Hd Hne Hx Hy. unfold shm_names, _shm_name, _first_elem_name, _last_elem_name in *.
  rewrite !list_elem_of_In in Hx, Hy. simpl in Hx, Hy.
  destruct Hx as [<-|[<-|[<-|[]]]], Hy as [E|[E|[E|[]]]]; apply string_app_inj in E;
    first [injection E as E; by destruct Hne; apply channel_name_inj|by destruct c, d].
Qed.
Lemma sem_names_disjoint wf c d x :
  channel_ok c -> channel_ok d -> c <> d -> x ∈ sem_names wf c -> x ∈ sem_names wf d -> False.
Proof.
  intros Hc Hd Hne Hx Hy. unfold sem_names, _sem_elems_name, _sem_empty_name, _mutex_name in *.
  rewrite !list_elem_of_In in Hx, Hy. simpl in Hx, Hy.
  destruct Hx as [<-|[<-|[<-|[]]]], Hy as [E|[E|[E|[]]]]; apply string_app_inj in E;
    first [injection E as E; by destruct Hne; apply channel_name_inj|discriminate].
Qed.
Lemma shm_names_nodup wf c : NoDup (shm_names wf c).
Proof.
  unfold shm_names, _shm_name, _first_elem_name, _last_elem_name.
  repeat constructor; rewrite ?list_elem_of_In; simpl; intros H;
    repeat destruct H as [H|H]; try done; apply string_app_inj in H; by destruct c.
Qed.
Lemma sem_names_nodup wf c : NoDup (sem_names wf c).
Proof.
  unfold sem_names, _sem_elems_name, _sem_empty_name, _mutex_name.
  repeat constructor; rewrite ?list_elem_of_In; simpl; intros H;
    repeat destruct H as [H|H]; try done; apply string_app_inj in H; discriminate.
Qed.

(** ** What the constructor and the destructor do *)

Section Channel.
Variables (wf : string) (c : channel).
#[local] Notation nm := (channel_name c).
#[local] Notation kind := (channel_kind c).

(** No object of the channel exists. *)
Definition absent (i : Ipc) : Prop :=
  Forall (fun n => shms i !! n = None) (shm_names wf c) /\
  sems i !! _sem_elems_name wf nm = None /\ sems i !! _sem_empty_name wf nm = None /\
  (kind = CircularBuffer -> sems i !! _mutex_name wf nm = None).

(** Only objects of the channel differ. *)
Definition same_elsewhere (i i' : Ipc) : Prop :=
  (forall n, n ∉ shm_names wf c -> shms i' !! n = shms i !! n) /\
  (forall n, n ∉ sem_names wf c -> sems i' !! n = sems i !! n).

Lemma preserves_shms i (f : Ipc -> gmap string object) :
  (forall k n, n ∉ shm_names wf c -> f k !! n = shms k !! n) ->
  preserves (same_elsewhere i) (modify (fun k => set_shms (f k) k)).
Proof. intros Hf k [] k' [H1 H2] [= <-]. split; [|done]. intros n Hn. simpl. rewrite Hf; auto. Qed.

Lemma preserves_store i n v : n ∈ shm_names wf c -> preserves (same_elsewhere i) (store_long n v).
Proof. intros Hn. apply preserves_shms. intros k m Hm. apply lookup_insert_ne. by intros ->. Qed.
Lemma preserves_destroy i n : n ∈ shm_names wf c -> preserves (same_elsewhere i) (shm_destroy n).
Proof. intros Hn. apply preserves_shms. intros k m Hm. apply lookup_delete_ne. by intros ->. Qed.
Lemma preserves_create_long i n : n ∈ shm_names wf c -> preserves (same_elsewhere i) (create_long n).
Proof.
  intros Hn k [] k' [H1 H2]. unfold create_long. destruct (shms k !! n) as [[]|]; intros [=]; subst; [done|].
  split; [|done]. intros m Hm. simpl. rewrite lookup_insert_ne by (by intros ->). auto.
Qed.
Lemma preserves_create_block i n size : n ∈ shm_names wf c -> preserves (same_elsewhere i) (create_block n size).
Proof.
  intros Hn k [] k' [H1 H2]. unfold create_block. destruct (size <=? 0); [done|]. destruct (shms k !! n) as [[]|]; intros [=]; subst;
    (split; [|done]); intros x Hx; simpl; rewrite lookup_insert_ne by (by intros ->); auto.
Qed.
Lemma preserves_sem_new i n v : n ∈ sem_names wf c -> preserves (same_elsewhere i) (on_sems (NamedSemaphore_new n v)).
Proof.
  intros Hn k [] k' [H1 H2]. unfold on_sems, NamedSemaphore_new, sem_open.
  destruct (sems k !! n); [intros [= <-]; by split|]. destruct (u32 v <=? _); intros [= <-].
  split; [done|]. intros m Hm. simpl. rewrite lookup_insert_ne by (by intros ->). auto.
Qed.
Lemma preserves_sem_delete i n : n ∈ sem_names wf c -> preserves (same_elsewhere i) (on_sems (NamedSemaphore_delete n)).
Proof.
  intros Hn k [] k' [H1 H2]. unfold on_sems, NamedSemaphore_delete, sem_unlink.
  destruct (sems k !! n); intros [= <-]; [|by split].
  split; [done|]. intros m Hm. simpl. rewrite lookup_delete_ne by (by intros ->). auto.
Qed.

(** The constructor and the destructor leave the objects of other channels alone. *)
Lemma in_shm_names : _shm_name wf nm ∈ shm_names wf c /\ _first_elem_name wf nm ∈ shm_names wf c /\
  _last_elem_name wf nm ∈ shm_names wf c.
Proof. unfold shm_names. rewrite !list_elem_of_In. simpl. tauto. Qed.
Lemma in_sem_names : _sem_elems_name wf nm ∈ sem_names wf c /\ _sem_empty_name wf nm ∈ sem_names wf c /\
  _mutex_name wf nm ∈ sem_names wf c.
Proof. unfold sem_names. rewrite !list_elem_of_In. simpl. tauto. Qed.

#[local] Hint Resolve preserves_store preserves_destroy preserves_create_long preserves_create_block
  preserves_sem_new preserves_sem_delete preserves_ret preserves_if : core.
Lemma preserves_gets_ipc {A} (g : Ipc -> A) i : preserves (same_elsewhere i) (gets g).
Proof. by intros k a k' Hk [= _ <-]. Qed.
Lemma preserves_on_ret i : preserves (same_elsewhere i) (on_sems (ret tt)).
Proof. intros k [] k' Hk [= <-]. by destruct k. Qed.
Lemma Queue_open_elsewhere max es i : preserves (same_elsewhere i) (Queue_open wf nm kind max es).
Proof.
  destruct in_shm_names as (? & ? & ?), in_sem_names as (? & ? & ?).
  unfold Queue_open, Queue_open_sems, Queue_open_shm.
  repeat (apply preserves_bind; [|intros ?]); auto using preserves_gets_ipc.
  - destruct kind; auto using preserves_on_ret.
  - apply preserves_if; auto. repeat (apply preserves_bind; [|intros ?]); auto.
Qed.
Lemma Queue_destroy_elsewhere i : preserves (same_elsewhere i) (Queue_destroy wf nm kind).
Proof.
  destruct in_shm_names as (? & ? & ?), in_sem_names as (? & ? & ?). unfold Queue_destroy.
  repeat (apply preserves_bind; [|intros ?]); auto. destruct kind; auto using preserves_on_ret.
Qed.

Lemma sem_new_fresh n v k : sems k !! n = None -> 0 <= v <= SEM_VALUE_MAX ->
  on_sems (NamedSemaphore_new n v) k = Done (tt, set_sems (<[n := v]> (sems k)) k).
Proof.
  intros E Hv. unfold on_sems, NamedSemaphore_new, sem_open.
  rewrite E, u32_small, (proj2 (Z.leb_le _ _) (proj2 Hv)) by (unfold SEM_VALUE_MAX in Hv; lia). done.
Qed.
Lemma create_long_fresh n k : shms k !! n = None -> create_long n k = Done (tt, set_shms (<[n := Long 0]> (shms k)) k).
Proof. intros E. unfold create_long. by rewrite E. Qed.
Lemma create_block_fresh n size k : shms k !! n = None ->
  create_block n size k =
  if 0 <? size then Done (tt, set_shms (<[n := Block size ∅]> (shms k)) k) else Exit "ftruncate or mmap create_shm".
Proof. intros E. unfold create_block. rewrite E, Z.leb_antisym. by destruct (0 <? size). Qed.
Lemma nodup3 (a x y : string) : NoDup [a; x; y] -> a <> x /\ a <> y /\ x <> y.
Proof. intros [H1 [H2 _]%NoDup_cons]%NoDup_cons. rewrite list_elem_of_In in H1, H2. simpl in *. naive_solver. Qed.

(** On a machine without its objects, the constructor makes an empty queue. *)
Lemma Queue_open_fresh max es i :
  0 <= max <= SEM_VALUE_MAX -> absent i ->
  if 0 <? max * es then
    exists i', Queue_open wf nm kind max es i = Done (tt, i') /\
      queue_at wf nm kind max es i' = Some (Queue_new max es, 1)
  else exists w, Queue_open wf nm kind max es i = Exit w.
Proof.
  intros Hm ([S1 [S2 [S3 _]%Forall_cons]%Forall_cons]%Forall_cons & E1 & E2 & E3).
  destruct (nodup3 _ _ _ (sem_names_nodup wf c)) as (N1 & N2 & N3).
  destruct (nodup3 _ _ _ (shm_names_nodup wf c)) as (N4 & N5 & N6).
  assert (exists mx, Queue_open_sems wf nm kind max i = Done (false,
    {| sems := <[_sem_empty_name wf nm := max]> (<[_sem_elems_name wf nm := 0]> mx);
       shms := <[_last_elem_name wf nm := Long 0]> (<[_first_elem_name wf nm := Long 0]> (shms i)) |}) /\
    (kind = CircularBuffer -> mx !! _mutex_name wf nm = Some 1)) as (mx & E & Hmx).
  { set (mx := match kind with CircularBuffer => <[_mutex_name wf nm := 1]> (sems i) | SPSCQueue => sems i end).
    assert (on_sems (match kind with CircularBuffer => NamedSemaphore_new (_mutex_name wf nm) 1 | SPSCQueue => ret tt end) i =
            Done (tt, set_sems mx i)) as H1.
    { unfold mx. destruct kind; [by apply sem_new_fresh; [apply E3|unfold SEM_VALUE_MAX]|]. unfold on_sems. simpl. by destruct i. }
    assert (mx !! _sem_elems_name wf nm = None /\ mx !! _sem_empty_name wf nm = None) as [H2 H3].
    { unfold mx. destruct kind; rewrite ?lookup_insert_ne by done; done. }
    exists mx. split; [|intros Hk; unfold mx; rewrite Hk; apply lookup_insert_eq]. clearbody mx. unfold Queue_open_sems.
    eapply bind_done; [exact H1|]. eapply bind_done; [by apply sem_new_fresh; [|unfold SEM_VALUE_MAX]|].
    eapply bind_done. { apply sem_new_fresh; [|done]. simpl. by rewrite lookup_insert_ne. }
    eapply bind_done; [by apply create_long_fresh|].
    eapply bind_done. { apply create_long_fresh. simpl. by rewrite lookup_insert_ne. }
    unfold gets. simpl. rewrite !lookup_insert_ne, S1 by done. done. }
  assert (forall r, create_block (_shm_name wf nm) (max * es)
      {| sems := <[_sem_empty_name wf nm := max]> (<[_sem_elems_name wf nm := 0]> mx);
         shms := <[_last_elem_name wf nm := Long 0]> (<[_first_elem_name wf nm := Long 0]>
           (<[_last_elem_name wf nm := Long 0]> (<[_first_elem_name wf nm := Long 0]> (shms i)))) |} = r ->
    Queue_open wf nm kind max es i = r) as Hr.
  { intros r <-. unfold Queue_open, bind. by rewrite E. }
  rewrite create_block_fresh in Hr by (simpl; by rewrite !lookup_insert_ne).
  destruct (0 <? max * es); [|eexists; by apply Hr].
  eexists. split; [by apply Hr|].
  - unfold queue_at. simpl. simplify_map_eq.
    destruct kind; [rewrite Hmx by done|]; by rewrite Z.eqb_refl.
Qed.

(** On a machine with its objects, it joins the queue that is there. *)
Lemma Queue_open_joins max es i q :
  queue_at wf nm kind max es i = Some q -> Queue_open wf nm kind max es i = Done (tt, i).
Proof.
  unfold queue_at, Queue_open, Queue_open_sems, Queue_open_shm. intros Hq.
  destruct (shms i !! _shm_name wf nm) as [[|size m]|] eqn:E1; try done.
  destruct (shms i !! _first_elem_name wf nm) as [[f|]|] eqn:E2; try done.
  destruct (shms i !! _last_elem_name wf nm) as [[l|]|] eqn:E3; try done.
  destruct (sems i !! _sem_elems_name wf nm) as [v1|] eqn:E4; try done.
  destruct (sems i !! _sem_empty_name wf nm) as [v2|] eqn:E5; try done.
  assert (forall n v w, sems i !! n = Some w -> on_sems (NamedSemaphore_new n v) i = Done (tt, i)) as Hs.
  { intros n v w E. unfold on_sems, NamedSemaphore_new, sem_open. rewrite E. by destruct i. }
  apply (bind_done _ _ _ true i); [|done].
  apply (bind_done _ _ _ tt i). { destruct kind; [|by destruct i]. destruct (sems i !! _mutex_name wf nm) eqn:E; [by eapply Hs|done]. }
  eapply bind_done; [by eapply Hs|]. eapply bind_done; [by eapply Hs|].
  eapply bind_done. { unfold create_long. by rewrite E2. }
  eapply bind_done. { unfold create_long. by rewrite E3. }
  unfold gets. by rewrite E1.
Qed.

(** The destructor leaves no object of the channel. *)
Lemma Queue_destroy_absent i : exists i', Queue_destroy wf nm kind i = Done (tt, i') /\ absent i'.
Proof.
  assert (forall n k, on_sems (NamedSemaphore_delete n) k = Done (tt, set_sems (delete n (sems k)) k)) as Hd.
  { intros n k. unfold on_sems, NamedSemaphore_delete, sem_unlink.
    destruct (sems k !! n) eqn:E; simpl; [done|]. by rewrite delete_id. }
  set (mx := fun k => match kind with CircularBuffer => delete (_mutex_name wf nm) (sems k) | SPSCQueue => sems k end).
  assert (forall k, on_sems (match kind with CircularBuffer => NamedSemaphore_delete (_mutex_name wf nm)
    | SPSCQueue => ret tt end) k = Done (tt, set_sems (mx k) k)) as Hm.
  { intros k. unfold mx. destruct kind; [apply Hd|]. by destruct k. }
  unfold Queue_destroy. eexists. split.
  - do 3 (eapply bind_done; [done|]). do 2 (eapply bind_done; [apply Hd|]). apply Hm.
  - split; simpl; [repeat constructor; simpl; rewrite !lookup_delete_None; tauto|]. unfold mx. simpl.
    destruct kind; rewrite !lookup_delete_None; naive_solver.
Qed.
End Channel.

Lemma same_elsewhere_refl wf c i : same_elsewhere wf c i i.
Proof. by split. Qed.

(** The queue of another channel is made of other objects. *)
Lemma queue_at_elsewhere wf c d k max es i i' :
  channel_ok c -> channel_ok d -> c <> d -> same_elsewhere wf c i i' ->
  queue_at wf (channel_name d) k max es i' = queue_at wf (channel_name d) k max es i.
Proof.
  intros Hc Hd Hne [H1 H2].
  assert (forall n, n ∈ shm_names wf d -> shms i' !! n = shms i !! n) as E1.
  { intros n Hn. apply H1. intros Hn'. by apply (shm_names_disjoint wf c d n). }
  assert (forall n, n ∈ sem_names wf d -> sems i' !! n = sems i !! n) as E2.
  { intros n Hn. apply H2. intros Hn'. by apply (sem_names_disjoint wf c d n). }
  destruct (in_shm_names wf d) as (? & ? & ?), (in_sem_names wf d) as (? & ? & ?).
  unfold queue_at. by rewrite !E1, !E2.
Qed.

(** C27. A client and its server share exactly the queues they mean to. For every
    channel of CAPIO, a number of slots that a semaphore can count, a size in
    the range of its type and every state of the machine, where the calls of the
    operating system succeed on sizes of at least a byte: where nothing of the channel exists, the constructor
    makes an empty queue, or ends the process when the slots take no bytes;
    where the queue exists, a second constructor joins it and changes nothing;
    the destructor leaves no object of it; and neither touches the queue of
    another channel, of any thread. Each constructor runs here without another
    in its midst: two that overlap can reset the ring
    ([racing_constructors_reset_the_ring]). *)
Theorem channel_objects_correct wf c max es i :
  channel_ok c -> 0 <= max <= SEM_VALUE_MAX -> max * es < 2 ^ 63 ->
  let make := Queue_open wf (channel_name c) (channel_kind c) max es in
  let drop := Queue_destroy wf (channel_name c) (channel_kind c) in
  (absent wf c i ->
   if 0 <? max * es then
     exists i', make i = Done (tt, i') /\
       queue_at wf (channel_name c) (channel_kind c) max es i' = Some (Queue_new max es, 1)
   else exists w, make i = Exit w) /\
  (forall q, queue_at wf (channel_name c) (channel_kind c) max es i = Some q -> make i = Done (tt, i)) /\
  (exists i', drop i = Done (tt, i') /\ absent wf c i') /\
  (forall d k n e i', channel_ok d -> d <> c -> make i = Done (tt, i') \/ drop i = Done (tt, i') ->
     queue_at wf (channel_name d) k n e i' = queue_at wf (channel_name d) k n e i).
Proof.
  intros Hc Hm _ make drop. split; [by apply Queue_open_fresh|]. split; [by apply Queue_open_joins|].
  split; [apply Queue_destroy_absent|]. intros d k n e i' Hd Hne Hop. apply (queue_at_elsewhere wf c); try done.
  destruct Hop as [Hop|Hop]; [eapply Queue_open_elsewhere|eapply Queue_destroy_elsewhere];
    eauto using same_elsewhere_refl.
Qed.

Lemma channel_objects_correct_witness :
  exists i', Queue_open "wf" "request_buffer" CircularBuffer 512 256 no_ipc = Done (tt, i') /\
    queue_at "wf" "request_buffer" CircularBuffer 512 256 i' = Some (Queue_new 512 256, 1).
Proof.
  apply (channel_objects_correct "wf" Requests 512 256 no_ipc I); [by unfold SEM_VALUE_MAX|lia|].
  split; [repeat constructor; reflexivity|]. split; [reflexivity|]. split; [reflexivity|]. reflexivity.
Defined.

(** The test of [_shm] and the stores it guards are not one step: a process that
    found no ring resets the indices of one that was made, and used, since.
    Here the queue holds one slot and says that its end is at its start. *)
Definition race : M Ipc unit :=
  let* found := Queue_open_sems "wf" "request_buffer" CircularBuffer 2 in
  Queue_open "wf" "request_buffer" CircularBuffer 2 4 ;;
  on_sems (NamedSemaphore_lock (_sem_empty_name "wf" "request_buffer") false) ;;
  store_long (_last_elem_name "wf" "request_buffer") 4 ;;
  on_sems (NamedSemaphore_unlock (_sem_elems_name "wf" "request_buffer")) ;;
  Queue_open_shm "wf" "request_buffer" found 2 4.
Lemma racing_constructors_reset_the_ring :
  exists i', race no_ipc = Done (tt, i') /\
    (fun q => (_first_elem q.1, _last_elem q.1, _sem_num_elems q.1)) <$>
      queue_at "wf" "request_buffer" CircularBuffer 2 4 i' = Some (0, 0, 1).
Proof. eexists. split; [reflexivity|vm_compute; reflexivity]. Qed.
