(* ===== verification/CapioFile.v ===== *)
(** * A file of the server

    [storage/capio_file.hpp] and [src/capio_file.cpp].  A [CapioFile] holds the
    data of a file in a buffer, the sectors of it that have been written, the
    counters that decide its commit, and the descriptors open on it.  The two
    condition variables are modelled by the predicates they wait for
    ([data_ready] and [_committed]): a waiting thread may go on exactly when
    its predicate holds. *)
From S2P Require Import Prelude Sectors Memory FileBuffer Queue.

(** ** The state *)

Record CapioFile : Type := {
  _buffer : Buffer;
  _requested_size : Z;
  _n_close : Z;
  _n_opens : Z;
  _n_files : Z;
  _n_files_expected : Z;
  _n_close_expected : Z;
  _home_node : bool;
  _committed : bool;
  _directory : bool;
  _permanent : bool;
  _first_write : bool;
  _sectors : sectors;
  _real_file_size : Z;
  _threads_fd : list (Z * Z)
}.

(** Updates of the mutable fields. *)
Definition set_buffer (v : Buffer) (f : CapioFile) : CapioFile := {|
  _buffer := v; _requested_size := _requested_size f; _n_close := _n_close f;
  _n_opens := _n_opens f; _n_files := _n_files f; _n_files_expected := _n_files_expected f;
  _n_close_expected := _n_close_expected f; _home_node := _home_node f; _committed := _committed f;
  _directory := _directory f; _permanent := _permanent f; _first_write := _first_write f;
  _sectors := _sectors f; _real_file_size := _real_file_size f; _threads_fd := _threads_fd f |}.
Definition set_n_close (v : Z) (f : CapioFile) : CapioFile := {|
  _buffer := _buffer f; _requested_size := _requested_size f; _n_close := v;
  _n_opens := _n_opens f; _n_files := _n_files f; _n_files_expected := _n_files_expected f;
  _n_close_expected := _n_close_expected f; _home_node := _home_node f; _committed := _committed f;
  _directory := _directory f; _permanent := _permanent f; _first_write := _first_write f;
  _sectors := _sectors f; _real_file_size := _real_file_size f; _threads_fd := _threads_fd f |}.
Definition set_n_opens (v : Z) (f : CapioFile) : CapioFile := {|
  _buffer := _buffer f; _requested_size := _requested_size f; _n_close := _n_close f;
  _n_opens := v; _n_files := _n_files f; _n_files_expected := _n_files_expected f;
  _n_close_expected := _n_close_expected f; _home_node := _home_node f; _committed := _committed f;
  _directory := _directory f; _permanent := _permanent f; _first_write := _first_write f;
  _sectors := _sectors f; _real_file_size := _real_file_size f; _threads_fd := _threads_fd f |}.
Definition set_n_files (v : Z) (f : CapioFile) : CapioFile := {|
  _buffer := _buffer f; _requested_size := _requested_size f; _n_close := _n_close f;
  _n_opens := _n_opens f; _n_files := v; _n_files_expected := _n_files_expected f;
  _n_close_expected := _n_close_expected f; _home_node := _home_node f; _committed := _committed f;
  _directory := _directory f; _permanent := _permanent f; _first_write := _first_write f;
  _sectors := _sectors f; _real_file_size := _real_file_size f; _threads_fd := _threads_fd f |}.
Definition set_home_node (v : bool) (f : CapioFile) : CapioFile := {|
  _buffer := _buffer f; _requested_size := _requested_size f; _n_close := _n_close f;
  _n_opens := _n_opens f; _n_files := _n_files f; _n_files_expected := _n_files_expected f;
  _n_close_expected := _n_close_expected f; _home_node := v; _committed := _committed f;
  _directory := _directory f; _permanent := _permanent f; _first_write := _first_write f;
  _sectors := _sectors f; _real_file_size := _real_file_size f; _threads_fd := _threads_fd f |}.
Definition set_committed (v : bool) (f : CapioFile) : CapioFile := {|
  _buffer := _buffer f; _requested_size := _requested_size f; _n_close := _n_close f;
  _n_opens := _n_opens f; _n_files := _n_files f; _n_files_expected := _n_files_expected f;
  _n_close_expected := _n_close_expected f; _home_node := _home_node f; _committed := v;
  _directory := _directory f; _permanent := _permanent f; _first_write := _first_write f;
  _sectors := _sectors f; _real_file_size := _real_file_size f; _threads_fd := _threads_fd f |}.
Definition set_first_write (v : bool) (f : CapioFile) : CapioFile := {|
  _buffer := _buffer f; _requested_size := _requested_size f; _n_close := _n_close f;
  _n_opens := _n_opens f; _n_files := _n_files f; _n_files_expected := _n_files_expected f;
  _n_close_expected := _n_close_expected f; _home_node := _home_node f; _committed := _committed f;
  _directory := _directory f; _permanent := _permanent f; _first_write := v;
  _sectors := _sectors f; _real_file_size := _real_file_size f; _threads_fd := _threads_fd f |}.
Definition set_sectors (v : sectors) (f : CapioFile) : CapioFile := {|
  _buffer := _buffer f; _requested_size := _requested_size f; _n_close := _n_close f;
  _n_opens := _n_opens f; _n_files := _n_files f; _n_files_expected := _n_files_expected f;
  _n_close_expected := _n_close_expected f; _home_node := _home_node f; _committed := _committed f;
  _directory := _directory f; _permanent := _permanent f; _first_write := _first_write f;
  _sectors := v; _real_file_size := _real_file_size f; _threads_fd := _threads_fd f |}.
Definition set_real_file_size (v : Z) (f : CapioFile) : CapioFile := {|
  _buffer := _buffer f; _requested_size := _requested_size f; _n_close := _n_close f;
  _n_opens := _n_opens f; _n_files := _n_files f; _n_files_expected := _n_files_expected f;
  _n_close_expected := _n_close_expected f; _home_node := _home_node f; _committed := _committed f;
  _directory := _directory f; _permanent := _permanent f; _first_write := _first_write f;
  _sectors := _sectors f; _real_file_size := v; _threads_fd := _threads_fd f |}.
Definition set_threads_fd (v : list (Z * Z)) (f : CapioFile) : CapioFile := {|
  _buffer := _buffer f; _requested_size := _requested_size f; _n_close := _n_close f;
  _n_opens := _n_opens f; _n_files := _n_files f; _n_files_expected := _n_files_expected f;
  _n_close_expected := _n_close_expected f; _home_node := _home_node f; _committed := _committed f;
  _directory := _directory f; _permanent := _permanent f; _first_write := _first_write f;
  _sectors := _sectors f; _real_file_size := _real_file_size f; _threads_fd := v |}.

(** ** Construction *)

(** The default constructor. *)
Definition CapioFile_default : CapioFile := {|
  _buffer := BHeap heap_buffer0; _requested_size := 0; _n_close := 0; _n_opens := 0;
  _n_files := 0; _n_files_expected := 0; _n_close_expected := 0; _home_node := false;
  _committed := false; _directory := false; _permanent := false; _first_write := true;
  _sectors := []; _real_file_size := 0; _threads_fd := [] |}.

(** The constructor used by [StorageManager::add]: a directory also counts its
    entries "." and "..". *)
Definition CapioFile_directory (directory : bool) (n_files_expected : Z) (permanent : bool)
    (init_size n_close_expected : Z) : CapioFile := {|
  _buffer := BHeap heap_buffer0; _requested_size := init_size; _n_close := 0; _n_opens := 0;
  _n_files := 0; _n_files_expected := u32 (n_files_expected + 2);
  _n_close_expected := u32 n_close_expected; _home_node := false;
  _committed := false; _directory := directory; _permanent := permanent; _first_write := true;
  _sectors := []; _real_file_size := 0; _threads_fd := [] |}.

(** The constructor without a number of entries. *)
Definition CapioFile_new (directory permanent : bool) (init_size n_close_expected : Z) : CapioFile := {|
  _buffer := BHeap heap_buffer0; _requested_size := init_size; _n_close := 0; _n_opens := 0;
  _n_files := 0; _n_files_expected := 0;
  _n_close_expected := u32 n_close_expected; _home_node := false;
  _committed := false; _directory := directory; _permanent := permanent; _first_write := true;
  _sectors := []; _real_file_size := 0; _threads_fd := [] |}.

(** ** Operations *)

Definition isCommitted (f : CapioFile) : bool := _committed f.
Definition isDirectory (f : CapioFile) : bool := _directory f.
Definition isFirstWrite (f : CapioFile) : bool := _first_write f.

(** [_getStoredSize], which [getStoredSize] locks and calls. *)
Definition getStoredSize (f : CapioFile) : Z :=
  match last (_sectors f) with None => 0 | Some s => s.2 end.

(** The predicate [waitForData] waits for; [waitForCommit] waits for [_committed]. *)
Definition data_ready (offset : Z) (f : CapioFile) : bool :=
  (offset <=? getStoredSize f) || _committed f.

Definition setCommitted (commit : bool) (f : CapioFile) : CapioFile :=
  if negb (Bool.eqb (_committed f) commit) then set_committed commit f else f.

Definition addFd (tid fd : Z) (f : CapioFile) : CapioFile :=
  set_threads_fd (_threads_fd f ++ [(tid, fd)]) f.

(** [removeFd]: the first such pair. *)
Fixpoint erase_first (p : Z * Z) (l : list (Z * Z)) : list (Z * Z) :=
  match l with
  | [] => []
  | x :: l' => if decide (x = p) then l' else x :: erase_first p l'
  end.
Definition removeFd (tid fd : Z) (f : CapioFile) : CapioFile :=
  set_threads_fd (erase_first (tid, fd) (_threads_fd f)) f.

Definition file_open (f : CapioFile) : CapioFile := set_n_opens (s32 (_n_opens f + 1)) f.
Definition file_close (f : CapioFile) : CapioFile :=
  set_n_opens (s32 (_n_opens f - 1)) (set_n_close (s32 (_n_close f + 1)) f).
Definition closed (f : CapioFile) : bool :=
  (_n_close_expected f =? 0) || (_n_close f =? s32 (_n_close_expected f)).
Definition deletable (f : CapioFile) : bool := _n_opens f <=? 0.

(** [dump]: a mapped file is cut to its size and its descriptor closed. *)
Definition dump (k : kernel) : M CapioFile unit := fun f =>
  if _permanent f && negb (_directory f) && _home_node f then
    let size := getFileSize (_sectors f) in
    match _buffer f with
    | BMapped m =>
        let '(ok, m') := buffer_commit k m size in
        if ok then Done (tt, set_buffer (BMapped m') f)
        else Exit "ftruncate/close commit capio_file"
    | BHeap _ => Done (tt, f)
    end
  else Done (tt, f).

Definition bufferToAllocate (f : CapioFile) : bool := buffer_empty (_buffer f).
Definition getBuffer (f : CapioFile) : option mem := buffer_data (_buffer f).
Definition getBufSize (f : CapioFile) : Z := buffer_size (_buffer f).

(** [createBuffer]; [fd] is the descriptor the mapping opens.  A permanent
    directory is also made in the file system, where that may fail. *)
Definition createBuffer `{MemQuota} (k : kernel) (fd : Z) (home_node : bool) : M CapioFile unit := fun f =>
  if buffer_empty (_buffer f) then
    let f1 := set_home_node home_node f in
    if _permanent f && home_node && negb (_directory f) then
      let '(ok, m) := buffer_allocate_mapped k fd mapped_buffer0 (_requested_size f) in
      if ok then Done (tt, set_buffer (BMapped m) f1) else Exit "mmap CapioFile constructor"
    else if _permanent f && home_node && negb (sys_mkdir k) then Throw "std::filesystem::filesystem_error"
    else
      outcome_bind (buffer_allocate_heap k heap_buffer0 (_requested_size f)) (fun '(_, h) =>
      Done (tt, set_buffer (BHeap h) f1))
  else Done (tt, f).

Definition expandBuffer `{MemQuota} (k : kernel) (data_size : Z) : M CapioFile unit := fun f =>
  outcome_bind (buffer_grow k (_buffer f) data_size (_sectors f)) (fun '(ok, b) =>
  if ok then Done (tt, set_buffer b f) else Exit "grow buffer of CapioFile").

(** [CapioFile::insertSector]: record the range; the waiting threads are woken,
    that is, they test [data_ready] again. *)
Definition file_insertSector (new_start new_end : Z) (f : CapioFile) : CapioFile :=
  set_sectors (insertSector (_sectors f) new_start new_end) f.

(** Replace the data of the buffer in use. *)
Definition set_data (d : mem) (b : Buffer) : Buffer :=
  match b with
  | BHeap h => BHeap {| _data := Some d; _size := _size h; storage_ := storage_ h |}
  | BMapped m => BMapped {| _data := Some d; _size := _size m; storage_ := storage_ m |}
  end.

(** A store of [data] at [offset] of the buffer.  Outside the buffer, or when
    there is none, it is undefined; an empty store is not. *)
Definition store (offset : Z) (data : list cell) : M CapioFile unit := fun f =>
  if in_range (getBufSize f) offset (Z.of_nat (length data)) then
    match getBuffer f with
    | Some d => Done (tt, set_buffer (set_data (mem_write d offset data) (_buffer f)) f)
    | None => match data with [] => Done (tt, f) | _ => UB "store through a null buffer" end
    end
  else UB "store out of the buffer".

(** The bytes [[offset, offset + n)] of the buffer. *)
Definition load (offset n : Z) (f : CapioFile) : outcome (list cell) :=
  if n <=? 0 then Done [] else
  match getBuffer f with
  | Some d => if in_range (getBufSize f) offset n then Done (mem_read d offset n)
              else UB "load out of the buffer"
  | None => UB "load through a null buffer"
  end.

(** [readFromQueue]: the next [num_bytes] bytes of the client's data queue. *)
Definition readFromQueue (es : Z) (queue : Fifo) (offset num_bytes : Z)
    (f : CapioFile) : outcome (Fifo * CapioFile) :=
  outcome_bind (fifo_read es num_bytes queue) (fun '(data, queue') =>
  outcome_bind (store offset data f) (fun '(_, f') => Done (queue', f'))).

(** [readFromNode]: [recv_file] stores the [data] the other node sent. *)
Definition readFromNode (offset : Z) (data : list cell) : M CapioFile unit := store offset data.

(** [copyFromFile] between two files, and in one file ([memmove]). *)
Definition copyFromFile (src : CapioFile) (src_offset dst_offset num_bytes : Z) : M CapioFile unit :=
  let* data := lift (load src_offset num_bytes src) in store dst_offset data.
Definition copyFromFile_self (src_offset dst_offset num_bytes : Z) : M CapioFile unit := fun f =>
  copyFromFile f src_offset dst_offset num_bytes f.

Definition getRealFileSize (f : CapioFile) : Z := _real_file_size f.
Definition setRealFileSize (size : Z) (f : CapioFile) : CapioFile := set_real_file_size size f.
Definition registerFirstWrite (f : CapioFile) : CapioFile := set_first_write false f.
Definition incrementDirectoryFileCount (count : Z) (f : CapioFile) : CapioFile :=
  set_n_files (s32 (_n_files f + count)) f.
Definition getCurrentDirectoryFileCount (f : CapioFile) : Z := u32 (_n_files f).
Definition getDirectoryExpectedFileCount (f : CapioFile) : Z := _n_files_expected f.

(** [createBuffer] followed by [expandBuffer] when the data to store ends past
    the buffer, as every handler that stores data does. *)
Definition ensureRoom `{MemQuota} (k : kernel) (fd : Z) (home_node : bool) (end_of_write : Z)
  : M CapioFile unit :=
  createBuffer k fd home_node ;;
  let* size := gets getBufSize in
  when (size <? end_of_write) (expandBuffer k end_of_write).

(** ** The invariant and the contents *)

Record file_inv (f : CapioFile) : Prop := {
  fi_wf : sectors_wf (_sectors f);
  fi_buffer : buffer_ok (_buffer f) (_sectors f);
  fi_requested : 0 <= _requested_size f < 2 ^ 63
}.

(** The byte at offset [x]: what the buffer holds where a sector says there is
    data. *)
Definition file_data (f : CapioFile) (x : Z) : cell :=
  if decide (holds (_sectors f) x) then byte_at (_buffer f) x else None.

(** The buffer can still grow: a mapped one has not been committed. *)
Definition live (b : Buffer) : Prop :=
  match b with BHeap _ => True | BMapped m => 0 <= _fd (storage_ m) end.
Definition all_succeed (k : kernel) : Prop := k = kernel_ok.
(** A buffer that was there is kept; one that is new, or could grow, can grow. *)
Definition kept (b b' : Buffer) : Prop :=
  (live b \/ buffer_data b = None -> live b') /\ (buffer_data b <> None -> b' = b).
(** The buffer has room for [e] bytes, or can be made to have it. *)
Definition fits (b : Buffer) (e : Z) : Prop := live b \/ buffer_data b = None \/ e <= buffer_size b.

Lemma kept_live b b' : kept b b' -> live b -> live b'.
Proof. intros [H _] Hl. apply H. by left. Qed.
Lemma kept_fits b b' e : kept b b' -> buffer_data b' <> None -> fits b e -> live b' \/ e <= buffer_size b'.
Proof.
  intros [H1 H2] Hs [Hl|[Hn|He]]; [left; auto|left; auto|]. destruct (buffer_data b) eqn:E; [|left; auto].
  right. rewrite H2; done.
Qed.

Lemma getStoredSize_eq f : getStoredSize f = getFileSize (_sectors f).
Proof. done. Qed.

Lemma fi_nonneg f : file_inv f -> Forall (fun s => 0 <= s.1) (_sectors f).
Proof. intros [_ (_ & Hin & _) _]. unfold sectors_in in Hin. weaken Hin. Qed.

Lemma file_data_out f x : ~ holds (_sectors f) x -> file_data f x = None.
Proof. intros H. unfold file_data. by rewrite decide_False. Qed.

(** Every file starts with the invariant, empty. *)
Lemma file_inv_directory dir n perm sz nc :
  0 <= sz < 2 ^ 63 -> file_inv (CapioFile_directory dir n perm sz nc).
Proof.
  intros Hsz. split; simpl; [apply wf_nil| |done].
  split; [done|]. split; [constructor|done].
Qed.
Lemma file_inv_default : file_inv CapioFile_default.
Proof. split; simpl; [apply wf_nil| |done]. split; [done|]. split; [constructor|done]. Qed.

(** An update that leaves the buffer, the sectors and the requested size alone. *)
Definition same_data (f f' : CapioFile) : Prop :=
  _buffer f' = _buffer f /\ _sectors f' = _sectors f /\ _requested_size f' = _requested_size f.
Lemma same_data_inv f f' : same_data f f' -> file_inv f -> file_inv f'.
Proof. intros (E1 & E2 & E3) [H1 H2 H3]. split; congruence. Qed.
Lemma same_data_data f f' x : same_data f f' -> file_data f' x = file_data f x.
Proof. intros (E1 & E2 & _). unfold file_data. by rewrite E1, E2. Qed.
Lemma same_data_setCommitted c f : same_data f (setCommitted c f).
Proof. unfold setCommitted. case_match; done. Qed.
Lemma same_data_addFd t d f : same_data f (addFd t d f).
Proof. done. Qed.
Lemma same_data_removeFd t d f : same_data f (removeFd t d f).
Proof. done. Qed.
Lemma same_data_open f : same_data f (file_open f).
Proof. done. Qed.
Lemma same_data_close f : same_data f (file_close f).
Proof. done. Qed.
Lemma same_data_registerFirstWrite f : same_data f (registerFirstWrite f).
Proof. done. Qed.
Lemma same_data_increment n f : same_data f (incrementDirectoryFileCount n f).
Proof. done. Qed.
Lemma same_data_setRealFileSize n f : same_data f (setRealFileSize n f).
Proof. done. Qed.
#[export] Hint Resolve same_data_setCommitted same_data_addFd same_data_removeFd same_data_open
  same_data_close same_data_registerFirstWrite same_data_increment same_data_setRealFileSize : capio.

(** ** Buffers of files *)

Lemma createBuffer_spec `{MemQuota} k fd home f :
  file_inv f -> all_succeed k -> 0 <= fd ->
  exists b h, createBuffer k fd home f = Done (tt, set_buffer b (set_home_node h f)) /\
    buffer_ok b (_sectors f) /\ kept (_buffer f) b /\ buffer_data b <> None /\
    (forall x, holds (_sectors f) x -> byte_at b x = byte_at (_buffer f) x).
Proof.
  intros [Hwf Hok Hreq] -> Hfd. unfold createBuffer, buffer_empty.
  destruct (buffer_data (_buffer f)) as [d|] eqn:E.
  { exists (_buffer f), (_home_node f). split; [by destruct f|]. rewrite E. split_and!; try done.
    split; [|done]. intros [?|?]; [done|congruence]. }
  destruct Hok as (_ & _ & Hnil). rewrite (Hnil E).
  pose proof (quota_nonneg _ Hreq) as Hq.
  destruct (_permanent f && home && negb (_directory f)); simpl.
  - eexists _, _. split; [done|]. simpl. split_and!; try done.
    + split; simpl; [done|]. split; [constructor|done].
    + intros x Hx. by apply holds_nil in Hx.
  - rewrite andb_false_r. unfold buffer_allocate_heap, heap_allocate, new_char. simpl.
    rewrite (proj2 (Z.ltb_ge _ 0)) by done. simpl.
    eexists _, _. split; [done|]. simpl. split_and!; try done.
    + split; simpl; [done|]. split; [constructor|done].
    + intros x Hx. by apply holds_nil in Hx.
Qed.

Lemma buffer_grow_spec `{MemQuota} k b data_size ss :
  buffer_ok b ss -> buffer_size b <= data_size -> live b -> all_succeed k -> buffer_data b <> None ->
  exists b', buffer_grow k b data_size ss = Done (true, b') /\ buffer_ok b' ss /\ live b' /\
    data_size <= buffer_size b' /\ buffer_data b' <> None /\
    (forall x, holds ss x -> byte_at b' x = byte_at b x).
Proof.
  intros Hok Hd Hlive -> Hsome. destruct b as [h|m].
  - destruct (heap_buffer_grow_spec kernel_ok h data_size ss eq_refl Hok Hd)
      as (b' & E & Hs & Hok' & Hsome' & Hx).
    exists b'. split_and!; try done.
    unfold buffer_grow, heap_grow in E. destruct (new_char _ _); simpl in E; try done.
    destruct (heap_copy_sectors _ _ _ _ _); simpl in E; try done. by simplify_eq.
  - destruct (mapped_buffer_grow_spec kernel_ok m data_size ss Hok Hd)
      as (ok & b' & E & Heq & Hdat & Hok' & Hs).
    simpl in Hlive. rewrite (proj2 (Z.leb_le _ _) Hlive) in Heq. simpl in Heq. subst ok.
    exists b'. split_and!; try done.
    + unfold buffer_grow, mapped_grow in E. simpl in E.
      rewrite (proj2 (Z.ltb_ge _ _) Hlive) in E. simpl in E. by simplify_eq.
    + by rewrite Hdat.
    + intros x _. unfold byte_at. by rewrite Hdat.
Qed.

(** Making room keeps the data of the file. *)
Lemma ensureRoom_spec `{MemQuota} k fd home e f :
  file_inv f -> live (_buffer f) -> all_succeed k -> 0 <= fd ->
  exists b h, ensureRoom k fd home e f = Done (tt, set_buffer b (set_home_node h f)) /\
    buffer_ok b (_sectors f) /\ live b /\ buffer_data b <> None /\ e <= buffer_size b /\
    (forall x, holds (_sectors f) x -> byte_at b x = byte_at (_buffer f) x).
Proof.
  intros Hinv Hlive Hk Hfd.
  destruct (createBuffer_spec k fd home f Hinv Hk Hfd) as (b & h & Hc & Hok & Hl%kept_live & Hs & Hx); [|done].
  unfold ensureRoom, bind, gets. rewrite Hc. simpl.
  change (getBufSize (set_buffer b (set_home_node h f))) with (buffer_size b).
  destruct (Z.ltb_spec (buffer_size b) e) as [Hlt|Hge]; unfold when.
  - destruct (buffer_grow_spec k b e (_sectors f) Hok ltac:(lia) Hl Hk Hs)
      as (b' & Hg & Hok' & Hl' & Hsz & Hs' & Hx').
    unfold expandBuffer. simpl. rewrite Hg. simpl.
    exists b', h. split; [done|]. split_and!; try done. intros x Hh. rewrite Hx' by done. by apply Hx.
  - exists b, h. by split_and!.
Qed.

(** ** Stores and loads *)

Lemma set_data_byte_at d b x : byte_at (set_data d b) x = d !! x.
Proof. by destruct b. Qed.
Lemma set_data_size d b : buffer_size (set_data d b) = buffer_size b.
Proof. by destruct b. Qed.
Lemma set_data_live d b : live (set_data d b) = live b.
Proof. by destruct b. Qed.
Lemma set_data_data d b : buffer_data (set_data d b) = Some d.
Proof. by destruct b. Qed.

Lemma store_spec offset data f :
  buffer_data (_buffer f) <> None -> 0 <= offset ->
  offset + Z.of_nat (length data) <= buffer_size (_buffer f) ->
  exists b, store offset data f = Done (tt, set_buffer b f) /\
    buffer_size b = buffer_size (_buffer f) /\ live b = live (_buffer f) /\ buffer_data b <> None /\
    forall x, byte_at b x =
      if decide (offset <= x < offset + Z.of_nat (length data))
      then default None (data !! Z.to_nat (x - offset)) else byte_at (_buffer f) x.
Proof.
  intros Hs H0 Hle. unfold store, getBufSize, getBuffer.
  rewrite (proj2 (in_range_spec _ _ _)) by lia.
  destruct (buffer_data (_buffer f)) as [d|] eqn:E; [|done].
  eexists. split; [done|]. rewrite set_data_size, set_data_live, set_data_data. split_and!; try done.
  intros x. rewrite set_data_byte_at, lookup_mem_write. unfold byte_at. by rewrite E.
Qed.

(** Loading a range that is all data gives the data. *)
Lemma load_spec offset n f :
  file_inv f -> (forall y, offset <= y < offset + n -> holds (_sectors f) y) ->
  load offset n f = Done (file_data f <$> seqZ offset n).
Proof.
  intros [Hwf (Hsz & Hin & Hnil) _] Hall. unfold load.
  destruct (Z.leb_spec n 0) as [Hn|Hn]; [by rewrite seqZ_nil|].
  pose proof (sectors_in_holds _ _ _ Hin (Hall offset ltac:(lia))).
  pose proof (sectors_in_holds _ _ _ Hin (Hall (offset + n - 1) ltac:(lia))).
  unfold getBuffer, getBufSize. destruct (buffer_data (_buffer f)) as [d|] eqn:E.
  - rewrite (proj2 (in_range_spec _ _ _)) by lia. f_equal. unfold mem_read.
    apply list_fmap_ext. intros i y Hi. apply lookup_seqZ in Hi as [-> Hi].
    unfold file_data. rewrite decide_True by (apply Hall; lia). unfold byte_at. by rewrite E.
  - exfalso. pose proof (Hall offset ltac:(lia)) as Hh. rewrite (Hnil eq_refl) in Hh.
    by apply holds_nil in Hh.
Qed.

(** ** Writing a range *)

(** What a handler does to a file for [data] at [offset]: make room, store,
    record the sector. *)
Definition put_data `{MemQuota} (k : kernel) (fd : Z) (home_node : bool) (offset : Z) (data : list cell)
  : M CapioFile unit :=
  let end_of_write := offset + Z.of_nat (length data) in
  ensureRoom k fd home_node end_of_write ;;
  store offset data ;;
  modify (file_insertSector offset end_of_write).

Lemma file_inv_insert b f ns ne :
  sectors_wf (_sectors f) -> buffer_ok b (_sectors f) -> 0 <= _requested_size f < 2 ^ 63 ->
  0 <= ns <= ne -> ne <= buffer_size b -> buffer_data b <> None ->
  file_inv (file_insertSector ns ne (set_buffer b f)).
Proof.
  intros Hwf (Hsz & Hin & _) Hreq Hle Hne Hs.
  assert (Hnn : Forall (fun s => 0 <= s.1) (_sectors f)) by (unfold sectors_in in Hin; weaken Hin).
  pose proof (insertSector_wf_aux _ ns ne Hwf ltac:(lia)) as Hwf'.
  split; [done| |done]. split; [done|]. split; [|done]. simpl.
  pose proof (insertSector_nonneg _ ns ne Hwf Hnn Hle) as Hnn'.
  pose proof (getFileSize_max _ Hwf') as Hmax.
  rewrite (getFileSize_insertSector _ ns ne Hwf Hnn Hle) in Hmax.
  assert (getFileSize (_sectors f) <= buffer_size b).
  { destruct (decide (_sectors f = [])) as [->|Hne']; [done|].
    pose proof (getFileSize_covers _ Hwf Hne') as Hc. apply Exists_exists in Hc as (s & Hs' & ?).
    unfold sectors_in in Hin. rewrite Forall_forall in Hin. specialize (Hin s Hs'). simpl in Hin. lia. }
  destruct Hwf' as [_ Hord]. unfold sectors_in. rewrite Forall_forall in *. intros s Hin'.
  specialize (Hnn' s Hin'). specialize (Hmax s Hin'). specialize (Hord s Hin'). simpl in *. lia.
Qed.

Lemma put_data_spec `{MemQuota} k fd home offset data f :
  file_inv f -> live (_buffer f) -> all_succeed k -> 0 <= fd -> 0 <= offset ->
  let e := offset + Z.of_nat (length data) in
  exists b h, let f' := file_insertSector offset e (set_buffer b (set_home_node h f)) in
    put_data k fd home offset data f = Done (tt, f') /\ file_inv f' /\ live b /\
    (forall x, offset <= x < e -> file_data f' x = default None (data !! Z.to_nat (x - offset))) /\
    (forall x, holds (_sectors f) x -> ~ offset <= x < e -> file_data f' x = file_data f x).
Proof.
  intros Hinv Hlive Hk Hfd H0 e.
  destruct (ensureRoom_spec k fd home e f Hinv Hlive Hk Hfd)
    as (b & h & Hr & Hok & Hl & Hs & Hsz & Hx).
  destruct (store_spec offset data (set_buffer b (set_home_node h f)) Hs H0 Hsz)
    as (b' & Hst & Hsz' & Hl' & Hs' & Hb).
  exists b', h. simpl in *. pose proof (fi_wf f Hinv) as Hwf.
  split; [|split; [|split; [congruence|split]]].
  - unfold put_data, bind. fold e. rewrite Hr. simpl. rewrite Hst. done.
  - apply (file_inv_insert b' (set_home_node h f)); simpl.
    + exact Hwf.
    + destruct Hok as (Hp & Hin & _). split; [lia|]. rewrite Hsz'. by split.
    + apply Hinv.
    + lia.
    + lia.
    + done.
  - intros x Hr'. unfold file_data. simpl.
    rewrite decide_True by (apply insertSector_holds_sub; [done|lia|tauto]).
    by rewrite Hb, decide_True.
  - intros x Hh Hr'. unfold file_data. simpl.
    rewrite decide_True by (apply insertSector_holds_sub; [done|lia|tauto]).
    rewrite Hb, decide_False by done. rewrite Hx by done. by rewrite decide_True.
Qed.

(** A write to a file always completes and is right: with the storage of the
    file still open and no failing system call, storing [data] at [offset]
    keeps the invariant of the file, makes the bytes of the range those of
    [data], keeps every other byte that was data, whether or not the buffer
    had to be created or grown, and the size becomes the larger of the old one
    and the end of the write. *)
Theorem write_data_correct `{MemQuota} k fd home offset data f :
  file_inv f -> live (_buffer f) -> all_succeed k -> 0 <= fd -> 0 <= offset ->
  exists f', put_data k fd home offset data f = Done (tt, f') /\ file_inv f' /\
    (forall x, offset <= x < offset + Z.of_nat (length data) ->
       file_data f' x = default None (data !! Z.to_nat (x - offset))) /\
    (forall x, holds (_sectors f) x -> ~ offset <= x < offset + Z.of_nat (length data) ->
       file_data f' x = file_data f x) /\
    getStoredSize f' = Z.max (getStoredSize f) (offset + Z.of_nat (length data)).
Proof.
  intros Hinv Hlive Hk Hfd H0.
  destruct (put_data_spec k fd home offset data f Hinv Hlive Hk Hfd H0) as (b & h & E & Hi & _ & H1 & H2).
  eexists. split_and!; try done. simpl.
  apply getFileSize_insertSector; [apply Hinv|exact (fi_nonneg f Hinv)|lia].
Qed.

Lemma write_data_correct_witness :
  exists f', @put_data quota_unlimited kernel_ok 3 true 2 [Some x61; Some x62] 
               (CapioFile_new false false 1 0) = Done (tt, f') /\
    file_data f' 3 = Some x62 /\ getStoredSize f' = 4.
Proof.
  destruct (@write_data_correct quota_unlimited kernel_ok 3 true 2 [Some x61; Some x62]
              (CapioFile_new false false 1 0)) as (f' & E & _ & H1 & _ & H2).
  - split; simpl; [apply wf_nil| |lia]. split; [done|]. split; [constructor|done].
  - done.
  - done.
  - lia.
  - lia.
  - exists f'. split; [exact E|]. split; [|exact H2].
    rewrite H1 by (simpl; lia). reflexivity.
Defined.

(** A copy between files, or between overlapping ranges of one file: when the
    source range is all data, storing it elsewhere makes the bytes of the
    destination those the source held before the copy. *)
Theorem copy_correct offset_in offset_out n src f :
  file_inv src -> (forall y, offset_in <= y < offset_in + n -> holds (_sectors src) y) ->
  0 <= n -> 0 <= offset_out -> buffer_data (_buffer f) <> None ->
  offset_out + n <= buffer_size (_buffer f) ->
  exists b, copyFromFile src offset_in offset_out n f = Done (tt, set_buffer b f) /\
    forall i, 0 <= i < n -> byte_at b (offset_out + i) = file_data src (offset_in + i).
Proof.
  intros Hinv Hall Hn H0 Hs Hsz. unfold copyFromFile, bind, lift.
  rewrite load_spec by done. simpl.
  assert (HL : Z.of_nat (length (file_data src <$> seqZ offset_in n)) = n)
    by (rewrite length_fmap, length_seqZ; lia).
  destruct (store_spec offset_out (file_data src <$> seqZ offset_in n) f Hs H0)
    as (b & E & _ & _ & _ & Hb); [by rewrite HL|].
  exists b. split; [done|]. intros i Hi. rewrite Hb, HL, decide_True by lia.
  rewrite list_lookup_fmap, lookup_seqZ_lt by lia. simpl. f_equal. lia.
Qed.

(** A file of three bytes, for the examples. *)
Definition file_abc : CapioFile :=
  set_sectors [(0, 3)] (set_buffer (BHeap {| _data := Some {[0 := x61; 1 := x62; 2 := x63]};
    _size := 8; storage_ := heap_storage |}) (CapioFile_new false false 8 0)).
Lemma file_abc_inv : file_inv file_abc.
Proof.
  split; simpl; [|split; [done|split; [|done]]|lia].
  - split; repeat constructor; simpl; lia.
  - by repeat constructor.
Qed.

Lemma copy_correct_witness :
  exists b, copyFromFile_self 0 1 3 file_abc = Done (tt, set_buffer b file_abc) /\
    byte_at b 1 = Some x61 /\ byte_at b 2 = Some x62 /\ byte_at b 3 = Some x63.
Proof.
  destruct (copy_correct 0 1 3 file_abc file_abc) as (b & E & Hb).
  - exact file_abc_inv.
  - intros y Hy. apply holds_cons. left. simpl. lia.
  - lia.
  - lia.
  - discriminate.
  - vm_compute. discriminate.
  - exists b. split; [exact E|]. split_and!.
    + etransitivity; [apply (Hb 0); lia | vm_compute; reflexivity].
    + etransitivity; [apply (Hb 1); lia | vm_compute; reflexivity].
    + etransitivity; [apply (Hb 2); lia | vm_compute; reflexivity].
Defined.

(** Committing a mapped file twice ends the server: once [dump] has committed
    the backing file of a permanent file on its home node, another [dump] of
    it calls [ERR_EXIT]. *)
Theorem dump_twice_exits k k2 f f' m :
  _permanent f = true -> _directory f = false -> _home_node f = true -> _buffer f = BMapped m ->
  dump k f = Done (tt, f') -> exists w, dump k2 f' = Exit w.
Proof.
  intros Hp Hd Hh Hb. unfold dump at 1. rewrite Hp, Hd, Hh, Hb. simpl.
  unfold buffer_commit, mapped_commit.
  destruct (_fd (storage_ m) <? 0); simpl; [done|].
  destruct (sys_ftruncate k); simpl; [|done]. destruct (sys_close k); simpl; [|done].
  intros [= <-]. unfold dump. simpl. rewrite Hp, Hd, Hh. simpl. by eexists.
Qed.

Lemma dump_twice_exits_witness :
  let f := set_home_node true (set_buffer (BMapped {| _data := Some ∅; _size := 8;
             storage_ := {| _fd := 5; _map_len := 8; file_size := 8 |} |}) (CapioFile_new false true 8 0)) in
  exists f' w, dump kernel_ok f = Done (tt, f') /\ dump kernel_ok f' = Exit w.
Proof.
  set (f := set_home_node _ _). eexists.
  destruct (dump_twice_exits kernel_ok kernel_ok f
              (set_buffer (BMapped {| _data := Some ∅; _size := 0;
                storage_ := {| _fd := -1; _map_len := 8; file_size := 0 |} |}) f)
              {| _data := Some ∅; _size := 8; storage_ := {| _fd := 5; _map_len := 8; file_size := 8 |} |})
    as (w & E); [reflexivity..|].
  exists w. split; [|exact E]. reflexivity.
Defined.
