(* ===== verification/Monitors.v ===== *)
(** * The waits of a CapioFile, under any interleaving

    [CapioFile] runs each of its methods in one step, and a handler that has to
    wait leaves a task that runs once [data_ready] or [_committed] holds.  Here
    the methods that share [_committed] and [_sectors] are run by threads of
    the server one lock, access or notification at a time: [_mutex] with the
    condition variables [_committed_cv] and [_data_avail_cv], and
    [_mutex_sectors], which the readers of the sectors share.  [insertSector]
    changes the sectors without [_mutex] and takes it only to notify.  A method
    is the list of its instructions, in the order of [capio_file.cpp]. *)
From S2P Require Import Prelude Interleaving Memory Sectors FileBuffer CapioFile.

(** ** Instructions *)

(** The condition variables, and what is waited for on them. *)
Inductive cv : Type := _committed_cv | _data_avail_cv.
#[export] Instance cv_eq_dec : EqDecision cv.
Proof. solve_decision. Defined.

Inductive pred : Type := Committed | DataUpTo (offset : Z).
Definition cv_of (p : pred) : cv :=
  match p with Committed => _committed_cv | DataUpTo _ => _data_avail_cv end.

(** The value of the predicate, given the size that was read. *)
Definition pred_value (p : pred) (size : Z) (f : CapioFile) : bool :=
  match p with
  | Committed => _committed f
  | DataUpTo offset => (offset <=? size) || _committed f
  end.

Inductive instr : Type :=
| Lock | Unlock                          (* [_mutex] *)
| LockSectors | UnlockSectors            (* [_mutex_sectors], alone *)
| LockShared | UnlockShared              (* [_mutex_sectors], shared *)
| LoadSize                               (* [_getStoredSize] of a predicate *)
| ReturnSize (stored : bool)             (* the value of [getStoredSize], or of [getFileSize] *)
| ReturnCommitted                        (* the value of [isCommitted] *)
| Change (commit : bool)                 (* the body of [setCommitted] *)
| Erase (new_start new_end : Z)          (* [insertSector] up to its [erase] *)
| Emplace (new_start new_end : Z) (r : sector)
| NotifyAll (c : cv)
| Wait (p : pred)                        (* [wait(lock, pred)]: the head of its loop *)
| Test (p : pred).                       (* the predicate has its value: return, or sleep *)

(** The range that [insertSector] emplaces and the iterators of its [erase]. *)
Definition insertSector_plan (l : sectors) (new_start new_end : Z) : sector * nat * nat :=
  let it_start := lower_bound (new_start, LLONG_MIN) l in
  let '(new_start, new_end, it_start) :=
    match it_start with
    | O => (new_start, new_end, it_start)
    | S p =>
        match l !! p with
        | Some it_prev =>
            if new_start <=? it_prev.2
            then (it_prev.1, Z.max new_end it_prev.2, p)
            else (new_start, new_end, it_start)
        | None => (new_start, new_end, it_start)
        end
    end in
  let it_end := upper_bound (new_end + 1, LLONG_MIN) l in
  let new_end :=
    match it_end with
    | O => new_end
    | S p =>
        match l !! p with
        | Some it_last => if new_end <? it_last.2 then it_last.2 else new_end
        | None => new_end
        end
    end in
  ((new_start, new_end), it_start, it_end).

(** ** The methods *)

Definition waitForData_code (offset : Z) : list instr := [Lock; Wait (DataUpTo offset); Unlock].
Definition waitForCommit_code : list instr := [Lock; Wait Committed; Unlock].
Definition setCommitted_code (commit : bool) : list instr := [Lock; Change commit; Unlock].
Definition insertSector_code (new_start new_end : Z) : list instr :=
  [LockSectors; Erase new_start new_end; UnlockSectors; Lock; NotifyAll _data_avail_cv; Unlock].
Definition isCommitted_code : list instr := [Lock; ReturnCommitted; Unlock].
Definition getFileSize_code : list instr := [LockShared; ReturnSize false; UnlockShared].
Definition getStoredSize_code : list instr := [Lock; LockShared; ReturnSize true; UnlockShared; Unlock].

(** The evaluation of a predicate: [_getStoredSize] takes its lock. *)
Definition pred_code (p : pred) : list instr :=
  match p with
  | Committed => []
  | DataUpTo _ => [LockShared; LoadSize; UnlockShared]
  end.

(** What [setCommitted] goes on with after its assignment. *)
Definition change_code (commit : bool) : list instr :=
  if commit then [NotifyAll _committed_cv; NotifyAll _data_avail_cv] else [].

Inductive call : Type :=
| WaitFor (p : pred)
| SetCommitted (commit : bool)
| InsertSector (new_start new_end : Z)
| IsCommitted
| Size (stored : bool).
Definition code_of (c : call) : list instr :=
  match c with
  | WaitFor Committed => waitForCommit_code
  | WaitFor (DataUpTo offset) => waitForData_code offset
  | SetCommitted commit => setCommitted_code commit
  | InsertSector ns ne => insertSector_code ns ne
  | IsCommitted => isCommitted_code
  | Size false => getFileSize_code
  | Size true => getStoredSize_code
  end.

(** ** Locks *)

(** Who has [_mutex], and who has [_mutex_sectors], alone or shared. *)
Record locks : Type := { _mutex : option nat; writer : option nat; readers : list nat }.
Definition free_locks : locks := {| _mutex := None; writer := None; readers := [] |}.

Definition lock (i : nat) (l : locks) : outcome locks :=
  match _mutex l with
  | None => Done {| _mutex := Some i; writer := writer l; readers := readers l |}
  | Some j => if decide (i = j) then UB "locked twice by a thread" else Blocks "_mutex"
  end.
Definition unlock (i : nat) (l : locks) : outcome locks :=
  if decide (_mutex l = Some i)
  then Done {| _mutex := None; writer := writer l; readers := readers l |}
  else UB "unlock by a thread that does not own the mutex".
Definition lock_sectors (i : nat) (l : locks) : outcome locks :=
  match writer l, readers l with
  | None, [] => Done {| _mutex := _mutex l; writer := Some i; readers := [] |}
  | Some j, rs => if decide (i = j) then UB "locked twice by a thread" else Blocks "_mutex_sectors"
  | None, rs => if decide (i ∈ rs) then UB "locked twice by a thread" else Blocks "_mutex_sectors"
  end.
Definition unlock_sectors (i : nat) (l : locks) : outcome locks :=
  if decide (writer l = Some i)
  then Done {| _mutex := _mutex l; writer := None; readers := readers l |}
  else UB "unlock by a thread that does not own the mutex".

(** [shared_lock_guard], its constructor and its destructor. *)
Definition lock_shared (i : nat) (l : locks) : outcome locks :=
  if decide (i ∈ readers l) then UB "locked twice by a thread" else
  match writer l with
  | None => Done {| _mutex := _mutex l; writer := None; readers := i :: readers l |}
  | Some j => if decide (i = j) then UB "locked twice by a thread" else Blocks "_mutex_sectors"
  end.
Definition unlock_shared (i : nat) (l : locks) : outcome locks :=
  if decide (i ∈ readers l)
  then Done {| _mutex := _mutex l; writer := writer l; readers := filter (fun j => i <> j) (readers l) |}
  else UB "unlock by a thread that does not own the mutex".

(** ** Threads *)

(** What a thread has left to run, the size its predicate read, and the
    condition variable it sleeps on. *)
Record thread : Type := { code : list instr; size : Z; asleep : option cv }.
Record sys : Type := { file : CapioFile; lks : locks; pool : list thread }.

Definition goto (k : list instr) (t : thread) : thread := {| code := k; size := size t; asleep := asleep t |}.
Definition waken (t : thread) : thread := {| code := code t; size := size t; asleep := None |}.
Definition wake (c : cv) (t : thread) : thread := if decide (asleep t = Some c) then waken t else t.

(** The calls that have their effect. *)
Inductive event : Type :=
| Waited (p : pred)
| Changed (commit : bool)
| Inserted (new_start new_end : Z)
| ReadCommitted (v : bool)
| ReadSize (stored : bool) (v : Z).
Definition call_of (e : event) : call :=
  match e with
  | Waited p => WaitFor p
  | Changed b => SetCommitted b
  | Inserted ns ne => InsertSector ns ne
  | ReadCommitted _ => IsCommitted
  | ReadSize st _ => Size st
  end.

(** One instruction of thread [i]: its event, the file, the locks, the thread,
    and the condition variable that is notified. *)
Definition stepped : Type := list event * CapioFile * locks * thread * option cv.
Definition locking (m : outcome locks) (f : CapioFile) (t : thread) (k : list instr) : outcome stepped :=
  outcome_bind m (fun l => Done ([], f, l, goto k t, None)).

Definition thread_step (i : nat) (f : CapioFile) (l : locks) (t : thread) : outcome stepped :=
  match asleep t with
  | Some _ => Blocks "asleep"
  | None =>
  match code t with
  | [] => Blocks "no call left"
  | Lock :: k => locking (lock i l) f t k
  | Unlock :: k => locking (unlock i l) f t k
  | LockSectors :: k => locking (lock_sectors i l) f t k
  | UnlockSectors :: k => locking (unlock_sectors i l) f t k
  | LockShared :: k => locking (lock_shared i l) f t k
  | UnlockShared :: k => locking (unlock_shared i l) f t k
  | LoadSize :: k =>
      Done ([], f, l, {| code := k; size := CapioFile.getStoredSize f; asleep := None |}, None)
  | ReturnSize st :: k => Done ([ReadSize st (CapioFile.getStoredSize f)], f, l, goto k t, None)
  | ReturnCommitted :: k => Done ([ReadCommitted (_committed f)], f, l, goto k t, None)
  | Change b :: k =>
      if negb (Bool.eqb (_committed f) b)
      then Done ([Changed b], set_committed b f, l, goto (change_code b ++ k) t, None)
      else Done ([Changed b], f, l, goto k t, None)
  | Erase ns ne :: k =>
      let '(r, it_start, it_end) := insertSector_plan (_sectors f) ns ne in
      Done ([], set_sectors (set_erase it_start it_end (_sectors f)) f, l, goto (Emplace ns ne r :: k) t, None)
  | Emplace ns ne r :: k =>
      Done ([Inserted ns ne], set_sectors (set_emplace r (_sectors f)) f, l, goto k t, None)
  | NotifyAll c :: k => Done ([], f, l, goto k t, Some c)
  | Wait p :: k => Done ([], f, l, goto (pred_code p ++ Test p :: k) t, None)
  | Test p :: k =>
      if pred_value p (size t) f then Done ([Waited p], f, l, goto k t, None)
      else outcome_bind (unlock i l) (fun l' =>
        Done ([], f, l', {| code := Lock :: Wait p :: k; size := size t; asleep := Some (cv_of p) |}, None))
  end
  end.

Definition sys_step (i : nat) (s : sys) : outcome (list event * sys) :=
  match pool s !! i with
  | None => Blocks "no such thread"
  | Some t =>
      outcome_bind (thread_step i (file s) (lks s) t) (fun '(es, f, l, t', n) =>
        Done (es, {| file := f; lks := l;
                     pool := match n with
                             | None => <[i := t']> (pool s)
                             | Some c => wake c <$> <[i := t']> (pool s)
                             end |}))
  end.

(** The runs, with the events of every thread in order; a thread that sleeps
    may also wake without having been notified. *)
Inductive steps (s0 : sys) : list (nat * event) -> sys -> Prop :=
| steps_nil : steps s0 [] s0
| steps_snoc tr s i es s' :
    steps s0 tr s -> sys_step i s = Done (es, s') -> steps s0 (tr ++ ((fun e => (i, e)) <$> es)) s'
| steps_spurious tr s i t :
    steps s0 tr s -> pool s !! i = Some t ->
    steps s0 tr {| file := file s; lks := lks s; pool := <[i := waken t]> (pool s) |}.

Fixpoint run (sched : list nat) (s : sys) : list (nat * event) * sys :=
  match sched with
  | [] => ([], s)
  | i :: sched' =>
      match sys_step i s with
      | Done (es, s') => let '(tr, s2) := run sched' s' in (((fun e => (i, e)) <$> es) ++ tr, s2)
      | _ => run sched' s
      end
  end.

(** A file, with threads that have methods of it to call. *)
Definition program (cs : list call) : list instr := cs ≫= code_of.
Definition start (f : CapioFile) (calls : list (list call)) : sys := {|
  file := f; lks := free_locks;
  pool := (fun cs => {| code := program cs; size := 0; asleep := None |}) <$> calls |}.

(** ** The methods as atomic operations of [CapioFile] *)

Definition condition (p : pred) (f : CapioFile) : bool :=
  match p with Committed => _committed f | DataUpTo offset => data_ready offset f end.

Inductive atomic (f : CapioFile) : event -> CapioFile -> Prop :=
| at_wait p : condition p f = true -> atomic f (Waited p) f
| at_change b : atomic f (Changed b) (setCommitted b f)
| at_insert ns ne : atomic f (Inserted ns ne) (file_insertSector ns ne f)
| at_committed : atomic f (ReadCommitted (isCommitted f)) f
| at_size st : atomic f (ReadSize st (CapioFile.getStoredSize f)) f.

Inductive atomic_trace (f0 : CapioFile) : list event -> CapioFile -> Prop :=
| atr_nil : atomic_trace f0 [] f0
| atr_snoc tr f e f' : atomic_trace f0 tr f -> atomic f e f' -> atomic_trace f0 (tr ++ [e]) f'.

(** ** The discipline of the methods *)

Lemma insertSector_in_two l ns ne :
  insertSector l ns ne =
  let '(r, it_start, it_end) := insertSector_plan l ns ne in set_emplace r (set_erase it_start it_end l).
Proof. unfold insertSector, insertSector_plan. repeat case_match; simplify_eq; done. Qed.

Inductive share : Type := Free | Reading | Writing.
#[export] Instance share_eq_dec : EqDecision share.
Proof. solve_decision. Defined.

(** What thread [i] holds. *)
Definition owns_mutex (i : nat) (l : locks) : bool := bool_decide (_mutex l = Some i).
Definition share_of (i : nat) (l : locks) : share :=
  if decide (writer l = Some i) then Writing else if decide (i ∈ readers l) then Reading else Free.

(** The code notifies [c] before it waits. *)
Fixpoint wakes (c : cv) (k : list instr) : bool :=
  match k with
  | [] | Wait _ :: _ | Test _ :: _ => false
  | NotifyAll c' :: k' => bool_decide (c = c') || wakes c k'
  | _ :: k' => wakes c k'
  end.

(** A thread that owns the mutex iff [m], and the sectors as [w] says, runs the
    rest of its code with the locks its accesses need, takes [_mutex] only
    before [_mutex_sectors], and notifies after it changes the sectors. *)
Fixpoint well_locked (m : bool) (w : share) (c : list instr) : bool :=
  match c with
  | [] => negb m && bool_decide (w = Free)
  | Lock :: k => negb m && bool_decide (w = Free) && well_locked true w k
  | Unlock :: k => m && bool_decide (w = Free) && well_locked false w k
  | LockSectors :: k => negb m && bool_decide (w = Free) && well_locked m Writing k
  | UnlockSectors :: k => bool_decide (w = Writing) && well_locked m Free k
  | LockShared :: k => bool_decide (w = Free) && well_locked m Reading k
  | UnlockShared :: k => bool_decide (w = Reading) && well_locked m Free k
  | LoadSize :: k => m && bool_decide (w = Reading) && well_locked m w k
  | ReturnSize _ :: k => bool_decide (w = Reading) && well_locked m w k
  | ReturnCommitted :: k => m && well_locked m w k
  | Change _ :: k => m && bool_decide (w = Free) && well_locked m w k
  | Erase ns ne :: k | Emplace ns ne _ :: k =>
      bool_decide (w = Writing) && (0 <=? ns) && (ns <=? ne) && wakes _data_avail_cv k && well_locked m w k
  | NotifyAll _ :: k => m && well_locked m w k
  | Wait _ :: k | Test _ :: k => m && bool_decide (w = Free) && well_locked m w k
  end.
(** The thread has read the size for its predicate; it is between the [erase]
    and the [emplace].  Both happen only inside a wait and an [insertSector]. *)
Definition tests (c : list instr) : bool := match c with Test (DataUpTo _) :: _ => true | _ => false end.
Definition loaded (c : list instr) : bool := match c with UnlockShared :: k => tests k | _ => tests c end.
Definition mid (c : list instr) : bool := match c with Emplace _ _ _ :: _ => true | _ => false end.
Fixpoint tidy (c : list instr) : bool :=
  match c with
  | [] => true
  | LoadSize :: k => negb (mid k) && tidy k
  | UnlockShared :: k => negb (mid k) && implb (loaded k) (tests k) && tidy k
  | _ :: k => negb (mid k) && negb (loaded k) && tidy k
  end.

Definition wl (i : nat) (l : locks) (c : list instr) : Prop :=
  well_locked (owns_mutex i l) (share_of i l) c = true.

(** The sectors are written by one thread or read by others, without
    repetition, and the owners are threads. *)
Record locks_ok (n : nat) (l : locks) : Prop := {
  lo_excl : writer l <> None -> readers l = [];
  lo_mutex : forall j, _mutex l = Some j -> (j < n)%nat;
  lo_writer : forall j, writer l = Some j -> (j < n)%nat;
  lo_readers : forall j, j ∈ readers l -> (j < n)%nat
}.

Definition call_ok (c : call) : Prop :=
  match c with InsertSector ns ne => 0 <= ns <= ne | _ => True end.

Lemma code_of_well_locked c k :
  call_ok c -> well_locked false Free k = true -> well_locked false Free (code_of c ++ k) = true.
Proof.
  intros Hok Hk. destruct c as [[|off]| |ns ne| |[]]; simpl in *; rewrite ?Hk; try done.
  by rewrite (proj2 (Z.leb_le 0 ns)), (proj2 (Z.leb_le ns ne)) by lia.
Qed.

Lemma program_well_locked cs : Forall call_ok cs -> well_locked false Free (program cs) = true.
Proof. induction 1; [done|]. simpl. by apply code_of_well_locked. Qed.

Lemma program_tidy cs : tidy (program cs) = true /\ mid (program cs) = false /\
  tests (program cs) = false /\ loaded (program cs) = false.
Proof.
  induction cs as [|c cs (IH1 & IH2 & IH3 & IH4)]; [done|].
  destruct c as [[|off]| |ns ne| |[]]; simpl; by rewrite ?IH1, ?IH2, ?IH3, ?IH4.
Qed.

Ltac wl_tac := repeat (
  match goal with
  | H : _ && _ = true |- _ => apply andb_prop in H as [? ?]
  | H : negb _ = true |- _ => apply negb_true_iff in H
  | H : bool_decide _ = true |- _ => apply bool_decide_eq_true in H
  | H : bool_decide _ = false |- _ => apply bool_decide_eq_false in H
  end).

Lemma share_writing i l : share_of i l = Writing <-> writer l = Some i.
Proof. unfold share_of. repeat case_decide; naive_solver. Qed.
Lemma share_reading n i l : locks_ok n l -> share_of i l = Reading <-> i ∈ readers l.
Proof.
  intros [H _ _ _]. unfold share_of. repeat case_decide; try naive_solver.
  split; [done|]. intros Hr. rewrite H in Hr by congruence. by apply elem_of_nil in Hr.
Qed.
Lemma owns_true i l : owns_mutex i l = true <-> _mutex l = Some i.
Proof. apply bool_decide_eq_true. Qed.

(** What a thread holds after an operation on a lock, and that the others hold
    what they did. *)
Definition others (i : nat) (l l' : locks) : Prop :=
  forall j, j <> i -> owns_mutex j l' = owns_mutex j l /\ share_of j l' = share_of j l.
Definition took (n i : nat) (l l' : locks) (m : bool) (w : share) : Prop :=
  owns_mutex i l' = m /\ share_of i l' = w /\ others i l l' /\ locks_ok n l'.

Section Locks.
Context (n i : nat) (l : locks) (Hi : (i < n)%nat) (Hl : locks_ok n l).

Lemma took_refl : took n i l l (owns_mutex i l) (share_of i l).
Proof. by split_and!. Qed.

Lemma lock_spec l' : lock i l = Done l' -> took n i l l' true (share_of i l).
Proof.
  unfold lock. intros H. destruct (_mutex l) eqn:E; [by case_decide|]. simplify_eq. destruct Hl.
  split_and!; [by apply owns_true|done| |split; simpl; auto; by intros ? [= <-]].
  intros j Hj. split; [|done]. unfold owns_mutex. simpl. rewrite E. apply bool_decide_ext. naive_solver.
Qed.

Lemma unlock_spec l' : unlock i l = Done l' -> took n i l l' false (share_of i l).
Proof.
  unfold unlock. intros H. case_decide as E; [|done]. simplify_eq. destruct Hl.
  split_and!; [done|done| |by split].
  intros j Hj. split; [|done]. unfold owns_mutex. simpl. rewrite E. symmetry. apply bool_decide_eq_false. naive_solver.
Qed.

Lemma lock_sectors_spec l' : lock_sectors i l = Done l' -> took n i l l' (owns_mutex i l) Writing.
Proof.
  unfold lock_sectors. intros H. destruct (writer l) eqn:E; [by case_decide|].
  destruct (readers l) eqn:E2; [|by case_decide]. simplify_eq. destruct Hl.
  split_and!; [done|by apply share_writing| |split; simpl; auto].
  - intros j Hj. split; [done|]. unfold share_of. simpl. rewrite E, E2. repeat case_decide; congruence || set_solver.
  - by intros ? [= <-].
  - set_solver.
Qed.

Lemma unlock_sectors_spec l' : unlock_sectors i l = Done l' -> took n i l l' (owns_mutex i l) Free.
Proof.
  unfold unlock_sectors. intros H. case_decide as E; [|done]. simplify_eq. destruct Hl as [H1 H2 H3 H4].
  assert (readers l = []) as E2 by (apply H1; congruence).
  split_and!; [done| | |by split].
  - unfold share_of. simpl. rewrite E2. repeat case_decide; congruence || set_solver.
  - intros j Hj. split; [done|]. unfold share_of. simpl. rewrite E. repeat case_decide; congruence || set_solver.
Qed.

Lemma lock_shared_spec l' : lock_shared i l = Done l' -> took n i l l' (owns_mutex i l) Reading.
Proof.
  unfold lock_shared. intros H. case_decide as Ei; [done|]. destruct (writer l) eqn:E; [by case_decide|]. simplify_eq.
  destruct Hl as [H1 H2 H3 H4]. split_and!; [done| | |split; simpl; auto].
  - unfold share_of. simpl. repeat case_decide; congruence || set_solver.
  - intros j Hj. split; [done|]. unfold share_of. simpl. rewrite E. repeat case_decide; try done; set_solver.
  - done.
  - done.
  - intros j [->|?]%elem_of_cons; auto.
Qed.

Lemma unlock_shared_spec l' : unlock_shared i l = Done l' -> took n i l l' (owns_mutex i l) Free.
Proof.
  unfold unlock_shared. intros H. case_decide as E; [|done]. simplify_eq. destruct Hl as [H1 H2 H3 H4].
  split_and!; [done| | |split; simpl; auto].
  - unfold share_of. simpl. rewrite !decide_False; [done|rewrite list_elem_of_filter; naive_solver|].
    intros Hw. rewrite H1 in E by congruence. set_solver.
  - intros j Hj. split; [done|]. unfold share_of. simpl.
    assert (j ∈ filter (fun j' => i <> j') (readers l) <-> j ∈ readers l) as Hf
      by (rewrite list_elem_of_filter; naive_solver).
    repeat case_decide; tauto.
  - intros Hw. by rewrite H1.
  - intros j [_ ?]%list_elem_of_filter. auto.
Qed.
End Locks.

(** ** A step keeps the discipline *)

Lemma change_well_locked b k : well_locked true Free (change_code b ++ k) = well_locked true Free k.
Proof. by destruct b. Qed.
Lemma pred_well_locked p k : well_locked true Free (pred_code p ++ Test p :: k) = well_locked true Free k.
Proof. by destruct p. Qed.

Lemma took_wl n i l l' m w k :
  took n i l l' m w -> well_locked m w k = true -> wl i l' k /\ others i l l' /\ locks_ok n l'.
Proof. unfold wl. by intros (-> & -> & ? & ?). Qed.

Lemma locking_wl n i m w f l t k es f' l' t' c op :
  (forall l', op = Done l' -> took n i l l' m w) -> well_locked m w k = true ->
  locking op f t k = Done (es, f', l', t', c) -> wl i l' (code t') /\ others i l l' /\ locks_ok n l'.
Proof.
  unfold locking. intros Hop Hk H. destruct op; simplify_eq/=. eapply took_wl; [by apply Hop|done].
Qed.

Lemma thread_step_locks n i f l t es f' l' t' c :
  (i < n)%nat -> locks_ok n l -> wl i l (code t) -> thread_step i f l t = Done (es, f', l', t', c) ->
  wl i l' (code t') /\ others i l l' /\ locks_ok n l'.
Proof.
  intros Hi Hl Hw H. unfold thread_step in H. destruct (asleep t) eqn:Ha; [done|].
  destruct (code t) as [|x k] eqn:Hc; [done|]. unfold wl in Hw.
  pose proof (took_refl n i l Hl) as Hr.
  remember (owns_mutex i l) as m eqn:Em. remember (share_of i l) as w eqn:Ew. symmetry in Em, Ew.
  destruct x; simpl in Hw; wl_tac; subst;
    try (simplify_eq/=; by eapply took_wl);
    try (eapply locking_wl; [|done|exact H]; intros; rewrite <- ?Em, <- ?Ew;
         eauto using lock_spec, unlock_spec, lock_sectors_spec, unlock_sectors_spec, lock_shared_spec, unlock_shared_spec).
  - rewrite H0, H2 in *. case_match; simplify_eq/=; (eapply took_wl; [done|]); by rewrite ?change_well_locked.
  - destruct (insertSector_plan _ _ _) as [[? ?] ?]. simplify_eq/=. eapply took_wl; [done|]. simpl.
    rewrite !andb_true_iff, !bool_decide_eq_true. by split_and!.
  - rewrite H0, H2 in *. simplify_eq/=. eapply took_wl; [done|]. by rewrite pred_well_locked.
  - rewrite H0, H2 in *. case_match; simplify_eq/=; [by eapply took_wl|].
    destruct (unlock i l) as [l2| | | |] eqn:E; simplify_eq/=. apply (unlock_spec n) in E; [|done..].
    eapply took_wl; [done|]. simpl. by rewrite H2.
Qed.

(** ** The discipline excludes what the standard leaves undefined *)

Lemma share_free i l : share_of i l = Free -> writer l <> Some i /\ i ∉ readers l.
Proof. unfold share_of. repeat case_decide; done. Qed.

Lemma lock_cases i l :
  owns_mutex i l = false ->
  (_mutex l = None /\ exists l', lock i l = Done l') \/ (_mutex l <> None /\ exists w, lock i l = Blocks w).
Proof.
  intros Ho%bool_decide_eq_false. unfold lock. destruct (_mutex l); [right|left; eauto].
  split; [done|]. rewrite decide_False by congruence. by eexists.
Qed.
Lemma unlock_cases i l : owns_mutex i l = true -> exists l', unlock i l = Done l'.
Proof. intros Ho%owns_true. unfold unlock. rewrite decide_True by done. by eexists. Qed.
Lemma lock_sectors_cases i l :
  share_of i l = Free ->
  (writer l = None /\ readers l = [] /\ exists l', lock_sectors i l = Done l') \/
  ((writer l <> None \/ readers l <> []) /\ exists w, lock_sectors i l = Blocks w).
Proof.
  intros [H1 H2]%share_free. unfold lock_sectors. destruct (writer l).
  - right. split; [by left|]. rewrite decide_False by congruence. by eexists.
  - destruct (readers l); [left; eauto|right]. split; [by right|]. rewrite decide_False by done. by eexists.
Qed.
Lemma unlock_sectors_cases i l : share_of i l = Writing -> exists l', unlock_sectors i l = Done l'.
Proof. intros Ho%share_writing. unfold unlock_sectors. rewrite decide_True by done. by eexists. Qed.
Lemma lock_shared_cases i l :
  share_of i l = Free ->
  (writer l = None /\ exists l', lock_shared i l = Done l') \/ (writer l <> None /\ exists w, lock_shared i l = Blocks w).
Proof.
  intros [H1 H2]%share_free. unfold lock_shared. rewrite decide_False by done. destruct (writer l).
  - right. split; [done|]. rewrite decide_False by congruence. by eexists.
  - left. eauto.
Qed.
Lemma unlock_shared_cases n i l : locks_ok n l -> share_of i l = Reading -> exists l', unlock_shared i l = Done l'.
Proof.
  intros Hl Hr. apply (share_reading n) in Hr; [|done]. unfold unlock_shared. rewrite decide_True by done. by eexists.
Qed.

(** A thread goes on, or waits for a lock that is taken, or sleeps, or is done. *)
Lemma thread_step_cases n i f l t :
  locks_ok n l -> wl i l (code t) ->
  (exists r, thread_step i f l t = Done r) \/
  (exists w, thread_step i f l t = Blocks w) /\
    (asleep t <> None \/ code t = [] \/
     share_of i l = Free /\
       (owns_mutex i l = false /\ _mutex l <> None \/ writer l <> None \/ readers l <> [])).
Proof.
  intros Hl Hw. unfold thread_step. destruct (asleep t); [right; split; [by eexists|by left]|].
  destruct (code t) as [|x k]; [right; split; [by eexists|by right; left]|]. unfold wl in Hw.
  destruct x; simpl in Hw; wl_tac; unfold locking; try (left; by eexists); try (case_match; left; by eexists).
  - edestruct lock_cases as [[? [? ->]]|[? [? ->]]]; [done|left; by eexists|right; split; [by eexists|]]. tauto.
  - edestruct unlock_cases as [? ->]; [done|]. left. by eexists.
  - edestruct lock_sectors_cases as [(? & ? & ? & ->)|[? [? ->]]]; [done|left; by eexists|right; split; [by eexists|]]. tauto.
  - edestruct unlock_sectors_cases as [? ->]; [done|]. left. by eexists.
  - edestruct lock_shared_cases as [[? [? ->]]|[? [? ->]]]; [done|left; by eexists|right; split; [by eexists|]]. tauto.
  - edestruct unlock_shared_cases as [? ->]; [done..|]. left. by eexists.
  - destruct (insertSector_plan _ _ _) as [[? ?] ?]. left. by eexists.
  - case_match; [left; by eexists|]. edestruct unlock_cases as [? ->]; [done|]. left. by eexists.
Qed.

(** ** The invariant *)

Definition waker (c : cv) (ts : list thread) : Prop :=
  exists j u, ts !! j = Some u /\ wakes c (code u) = true.

(** A thread that sleeps while its condition holds is about to be woken. *)
Definition sleep_ok (s : sys) (t : thread) : Prop :=
  forall c, asleep t = Some c ->
    exists p k, code t = Lock :: Wait p :: k /\ c = cv_of p /\
      (condition p (file s) = true -> waker c (pool s)).

(** A thread that has read the size has the one of the file, or will be woken
    if it sleeps; [f] is the file as the atomic methods have it. *)
Definition loaded_ok (f : CapioFile) (s : sys) (t : thread) : Prop :=
  loaded (code t) = true ->
  size t <= CapioFile.getStoredSize f /\
  (CapioFile.getStoredSize (file s) = size t \/ waker _data_avail_cv (pool s)).

(** The file differs from [f] only while its sectors are being changed. *)
Definition file_ok (f : CapioFile) (s : sys) : Prop :=
  exists l, file s = set_sectors l f /\
    ((l = _sectors f /\ forall j u, pool s !! j = Some u -> mid (code u) = false) \/
     exists j u ns ne r k, pool s !! j = Some u /\ code u = Emplace ns ne r :: k /\
       set_emplace r l = insertSector (_sectors f) ns ne).

Record sys_inv (f : CapioFile) (s : sys) : Prop := {
  si_wf : sectors_wf (_sectors f);
  si_nonneg : Forall (fun r => 0 <= r.1) (_sectors f);
  si_locks : locks_ok (length (pool s)) (lks s);
  si_wl : forall i t, pool s !! i = Some t -> wl i (lks s) (code t);
  si_tidy : forall i t, pool s !! i = Some t -> tidy (code t) = true;
  si_sleep : forall i t, pool s !! i = Some t -> sleep_ok s t;
  si_loaded : forall i t, pool s !! i = Some t -> loaded_ok f s t;
  si_file : file_ok f s
}.

Lemma set_sectors_id f : set_sectors (_sectors f) f = f.
Proof. by destruct f. Qed.

Lemma monitor_start_inv f calls :
  sectors_wf (_sectors f) -> Forall (fun r => 0 <= r.1) (_sectors f) -> Forall (Forall call_ok) calls ->
  sys_inv f (start f calls).
Proof.
  intros Hwf Hnn Hok.
  assert (forall i t, pool (start f calls) !! i = Some t ->
    exists cs, Forall call_ok cs /\ t = {| code := program cs; size := 0; asleep := None |}) as Hp.
  { intros i t. simpl. rewrite list_lookup_fmap. destruct (calls !! i) as [cs|] eqn:E; [|done].
    intros [= <-]. exists cs. split; [|done]. by rewrite Forall_lookup in Hok; eapply Hok. }
  split; try done.
  - split; simpl; try done. set_solver.
  - intros i t (cs & Hcs & ->)%Hp. unfold wl. simpl. by apply program_well_locked.
  - intros i t (cs & Hcs & ->)%Hp. apply program_tidy.
  - by intros i t (cs & Hcs & ->)%Hp.
  - intros i t (cs & Hcs & ->)%Hp. unfold loaded_ok. simpl. by rewrite (proj2 (proj2 (proj2 (program_tidy cs)))).
  - exists (_sectors f). split; [simpl; by rewrite set_sectors_id|]. left. split; [done|].
    intros j u (cs & Hcs & ->)%Hp. apply program_tidy.
Qed.

(** ** What a step does to its thread *)

Lemma thread_step_awake i f l t r : thread_step i f l t = Done r -> asleep t = None.
Proof. unfold thread_step. by destruct (asleep t). Qed.

(** The cases of a step: [step_cases H] names the instruction and the result. *)
Ltac step_cases H :=
  unfold thread_step in H;
  match type of H with (match asleep ?t with _ => _ end) = _ => destruct (asleep t) eqn:?; [done|] end;
  match type of H with (match code ?t with _ => _ end) = _ =>
    let x := fresh "x" in let k := fresh "k" in destruct (code t) as [|x k] eqn:?; [done|]; destruct x end;
  unfold locking in H;
  repeat match type of H with
  | outcome_bind ?m _ = _ => destruct m eqn:?; simpl in H; [|done..]
  | (if ?b then _ else _) = _ => destruct b eqn:?
  | context [insertSector_plan ?a ?b ?c] => destruct (insertSector_plan a b c) as [[? ?] ?] eqn:?
  end; simplify_eq/=.

Lemma thread_step_tidy i f l t es f' l' t' n :
  thread_step i f l t = Done (es, f', l', t', n) -> tidy (code t) = true -> tidy (code t') = true.
Proof.
  intros H Ht. step_cases H; rewrite ?andb_true_iff, ?negb_true_iff in *; try tauto.
  - destruct commit; simpl; rewrite ?andb_true_iff, ?negb_true_iff; tauto.
  - destruct p; simpl; rewrite ?andb_true_iff, ?negb_true_iff; tauto.
Qed.

(** It goes on to wake those it was going to wake, unless it just has. *)
Lemma thread_step_wakes i f l t es f' l' t' n c :
  thread_step i f l t = Done (es, f', l', t', n) -> wakes c (code t) = true ->
  wakes c (code t') = true \/ n = Some c.
Proof.
  intros H Ht. step_cases H; try (by left); try done.
  - left. destruct commit; simpl; [|done]. by rewrite Ht, !orb_true_r.
  - apply orb_prop in Ht as [->%bool_decide_eq_true|?]; auto.
Qed.

(** The size a thread has read is the one of the file at that time. *)
Lemma thread_step_loaded i f l t es f' l' t' n :
  thread_step i f l t = Done (es, f', l', t', n) -> tidy (code t) = true -> loaded (code t') = true ->
  f' = f /\ n = None /\
  (size t' = CapioFile.getStoredSize f /\ share_of i l = share_of i l' /\ (exists k, code t = LoadSize :: k) \/
   size t' = size t /\ loaded (code t) = true).
Proof.
  intros H Ht Hl. step_cases H; rewrite ?andb_true_iff, ?negb_true_iff in *;
    try (destruct Ht as [[? ?] ?]; congruence); try done.
  - destruct Ht as [[_ Ht] _]. rewrite Hl in Ht. simpl in Ht. auto.
  - split_and!; eauto.
  - destruct commit; [done|]. destruct Ht as [[? ?] ?]. simpl in *. congruence.
  - by destruct p.
Qed.

(** Only [erase] leaves a thread with an [emplace] to do. *)
Lemma thread_step_mid i f l t es f' l' t' n :
  thread_step i f l t = Done (es, f', l', t', n) -> tidy (code t) = true -> mid (code t') = true ->
  exists ns ne k, code t = Erase ns ne :: k.
Proof.
  intros H Ht Hl. step_cases H; rewrite ?andb_true_iff, ?negb_true_iff in *;
    try (destruct Ht as [[? ?] ?]; congruence); try (destruct Ht; congruence); try done; eauto.
  - destruct commit; [done|]. destruct Ht as [[? ?] ?]. simpl in *. congruence.
  - by destruct p.
Qed.

(** ** What a step does to the file *)

(** Whoever makes a condition true, or changes the size, goes on to notify. *)
Lemma thread_step_condition i f l t es f' l' t' n p :
  wl i l (code t) -> thread_step i f l t = Done (es, f', l', t', n) -> condition p f' = true ->
  condition p f = true \/ wakes (cv_of p) (code t') = true.
Proof.
  unfold wl. intros Hw H. step_cases H; auto; wl_tac; intros Hc.
  - destruct commit; [right; by destruct p|left]. destruct p as [|off]; [done|].
    unfold condition, data_ready in *. simpl in Hc. rewrite orb_false_r in Hc. apply orb_true_iff. by left.
  - destruct p; auto.
  - destruct p; auto.
Qed.

Lemma thread_step_size i f l t es f' l' t' n :
  wl i l (code t) -> thread_step i f l t = Done (es, f', l', t', n) ->
  CapioFile.getStoredSize f' = CapioFile.getStoredSize f \/ wakes _data_avail_cv (code t') = true.
Proof. unfold wl. intros Hw H. step_cases H; auto; wl_tac; auto. Qed.

(** What [insertSector] does to the size of a file. *)
Definition grown (f f' : CapioFile) : Prop :=
  sectors_wf (_sectors f') /\ Forall (fun r => 0 <= r.1) (_sectors f') /\
  CapioFile.getStoredSize f <= CapioFile.getStoredSize f'.

Lemma grown_insert f ns ne :
  sectors_wf (_sectors f) -> Forall (fun r => 0 <= r.1) (_sectors f) -> 0 <= ns <= ne ->
  grown f (file_insertSector ns ne f).
Proof.
  intros Hwf Hnn Hle. split_and!; simpl; [apply insertSector_wf_aux; [done|lia]|by apply insertSector_nonneg|].
  rewrite !getStoredSize_eq. simpl. rewrite getFileSize_insertSector by done. lia.
Qed.

(** The effect of a step on the file [fa] of the atomic methods. *)
Definition effect (fa : CapioFile) (es : list event) (fa' : CapioFile) : Prop :=
  es = [] /\ fa' = fa \/ exists e, es = [e] /\ atomic fa e fa'.

Lemma effect_wait fa f t p k i l es f' l' t' n :
  (loaded (code t) = true -> size t <= CapioFile.getStoredSize fa) -> _committed f = _committed fa ->
  code t = Test p :: k -> thread_step i f l t = Done (es, f', l', t', n) -> f' = f /\ effect fa es fa.
Proof.
  intros Hs Hcm Hc H. step_cases H; (split; [done|]); [right|by left]. eexists. split; [done|]. constructor.
  destruct p as [|off]; simpl in *; [congruence|]. unfold data_ready. specialize (Hs eq_refl).
  rewrite Hcm in *. destruct (_committed fa); rewrite ?orb_true_r; [done|]. rewrite orb_false_r in *. lia.
Qed.

(** The file a thread with code [c] leaves, when nobody else changes the sectors. *)
Definition leaves (fa f : CapioFile) (c : list instr) : Prop :=
  exists l0, f = set_sectors l0 fa /\
    (l0 = _sectors fa /\ mid c = false \/
     exists ns ne r k, c = Emplace ns ne r :: k /\ set_emplace r l0 = insertSector (_sectors fa) ns ne).

Lemma leaves_whole fa c : mid c = false -> leaves fa fa c.
Proof. intros Hm. exists (_sectors fa). rewrite set_sectors_id. auto. Qed.

Section Effect.
Context (fa : CapioFile) (i : nat) (l : locks) (t : thread).
Hypothesis Hw : wl i l (code t).
Hypothesis Hwf : sectors_wf (_sectors fa).
Hypothesis Hnn : Forall (fun r => 0 <= r.1) (_sectors fa).
Hypothesis Hs : loaded (code t) = true -> size t <= CapioFile.getStoredSize fa.
Hypothesis Ht : tidy (code t) = true.

Lemma grown_same f : _sectors f = _sectors fa -> grown fa f.
Proof. unfold grown. rewrite !getStoredSize_eq. by intros ->. Qed.

(** With its sectors whole. *)
Lemma step_whole es f' l' t' n :
  mid (code t) = false -> thread_step i fa l t = Done (es, f', l', t', n) ->
  exists fa', grown fa fa' /\ effect fa es fa' /\ leaves fa' f' (code t').
Proof.
  intros Hm H. destruct (decide (mid (code t') = true)) as [Hm'|Hm'%not_true_is_false].
  { destruct (thread_step_mid _ _ _ _ _ _ _ _ _ H Ht Hm') as (ns & ne & k & Hc). step_cases H.
    exists fa. split_and!; [by apply grown_same|by left|]. eexists. split; [done|right].
    repeat eexists. rewrite insertSector_in_two. by case_match; simplify_eq. }
  cut (exists fa', grown fa fa' /\ effect fa es fa' /\ f' = fa').
  { intros (fa' & ? & ? & ->). exists fa'. split_and!; [done|done|]. by apply leaves_whole. }
  assert (forall e f1, _sectors f1 = _sectors fa -> atomic fa e f1 -> es = [e] -> f' = f1 ->
    exists fa', grown fa fa' /\ effect fa es fa' /\ f' = fa') as Hev.
  { intros e f1 Hsec Hat -> ->. exists f1. split_and!; [by apply grown_same|right; eauto|done]. }
  assert (es = [] -> f' = fa -> exists fa', grown fa fa' /\ effect fa es fa' /\ f' = fa') as Hno.
  { intros -> ->. exists fa. split_and!; [by apply grown_same|by left|done]. }
  destruct (code t) as [|x k] eqn:Hc; [step_cases H|].
  destruct x; try (step_cases H; by apply Hno); try (step_cases H; by (eapply Hev; [| |done|done]; [done|constructor])).
  - apply (Hev (Changed commit) (setCommitted commit fa)); [by unfold setCommitted; case_match|constructor|..];
      unfold setCommitted; by step_cases H; destruct (Bool.eqb _ _).
  - destruct (effect_wait fa fa t p k i l es f' l' t' n) as [-> ?]; [by rewrite Hc|done..|].
    exists fa. split_and!; [by apply grown_same|done|done].
Qed.

(** While another thread changes the sectors. *)
Lemma step_beside l0 es f' l' t' n :
  share_of i l = Free -> writer l <> None -> thread_step i (set_sectors l0 fa) l t = Done (es, f', l', t', n) ->
  exists fa', effect fa es fa' /\ f' = set_sectors l0 fa' /\ _sectors fa' = _sectors fa /\ mid (code t') = false.
Proof.
  intros Hfree Hwr H. unfold wl in Hw. rewrite Hfree in Hw.
  assert (mid (code t') = false) as Hm'.
  { apply not_true_is_false. intros Hm'.
    destruct (thread_step_mid _ _ _ _ _ _ _ _ _ H Ht Hm') as (ns & ne & k & Hc). by rewrite Hc in Hw. }
  cut (exists fa', effect fa es fa' /\ f' = set_sectors l0 fa' /\ _sectors fa' = _sectors fa).
  { intros (fa' & ? & ? & ?). eauto. }
  assert (es = [] -> f' = set_sectors l0 fa ->
    exists fa', effect fa es fa' /\ f' = set_sectors l0 fa' /\ _sectors fa' = _sectors fa) as Hno.
  { intros -> ->. exists fa. split_and!; [by left|done|done]. }
  destruct (code t) as [|x k] eqn:Hc; [step_cases H|].
  destruct x; simpl in Hw; wl_tac; try done; try (step_cases H; by apply Hno).
  - step_cases H. exists fa. split_and!; [right; eexists; split; [done|]; apply at_committed|done|done].
  - exists (setCommitted commit fa). unfold setCommitted.
    split_and!; [right; exists (Changed commit); split; [|constructor]|..];
      step_cases H; by destruct (Bool.eqb (_committed fa) commit).
  - destruct (effect_wait fa (set_sectors l0 fa) t p k i l es f' l' t' n) as [-> ?]; [by rewrite Hc|done..|].
    by exists fa.
Qed.

(** The end of the change. *)
Lemma step_emplace l0 ns ne r k es f' l' t' n :
  code t = Emplace ns ne r :: k -> set_emplace r l0 = insertSector (_sectors fa) ns ne ->
  thread_step i (set_sectors l0 fa) l t = Done (es, f', l', t', n) ->
  exists fa', grown fa fa' /\ effect fa es fa' /\ leaves fa' f' (code t').
Proof.
  intros Hc Hr H. unfold wl in Hw. rewrite Hc in Hw, Ht. simpl in Hw, Ht. wl_tac.
  exists (file_insertSector ns ne fa). step_cases H. split_and!.
  - apply grown_insert; [done|done|lia].
  - right. eexists. split; [done|constructor].
  - eexists. split; [unfold file_insertSector; by destruct fa|]. left. simpl. by rewrite Hr.
Qed.
End Effect.

(** ** The invariant holds in every run *)

Definition after (n : option cv) (u : thread) : thread := match n with None => u | Some c => wake c u end.

Lemma after_code n u : code (after n u) = code u.
Proof. destruct n; simpl; [|done]. unfold wake. by case_decide. Qed.
Lemma after_size n u : size (after n u) = size u.
Proof. destruct n; simpl; [|done]. unfold wake. by case_decide. Qed.
Lemma after_asleep n u c : asleep (after n u) = Some c -> asleep u = Some c /\ n <> Some c.
Proof. destruct n; simpl; [|done]. unfold wake. case_decide; simpl; naive_solver. Qed.

Lemma sys_step_inv i s es s' :
  sys_step i s = Done (es, s') ->
  exists t t' n, pool s !! i = Some t /\ thread_step i (file s) (lks s) t = Done (es, file s', lks s', t', n) /\
    pool s' = after n <$> <[i := t']> (pool s).
Proof.
  unfold sys_step. intros H. destruct (pool s !! i) as [t|] eqn:Et; [|done].
  destruct (thread_step _ _ _ t) as [[[[[es' f] l] t'] n]| | | |] eqn:E; simplify_eq/=.
  exists t, t', n. split_and!; [done..|]. destruct n; simpl; [done|]. by rewrite list_fmap_id.
Qed.

Section Next.
Context (i : nat) (ts : list thread) (t t' : thread) (n : option cv).
Hypothesis Hi : ts !! i = Some t.
Abbreviation ts' := (after n <$> <[i := t']> ts).

Lemma monitor_next_mine : ts' !! i = Some (after n t').
Proof. rewrite list_lookup_fmap, list_lookup_insert_eq; [done|]. by eapply lookup_lt_Some. Qed.
Lemma monitor_next_other j u : j <> i -> ts !! j = Some u -> ts' !! j = Some (after n u).
Proof. intros Hj Hu. by rewrite list_lookup_fmap, list_lookup_insert_ne, Hu by done. Qed.
Lemma monitor_next_cases j u : ts' !! j = Some u ->
  j = i /\ u = after n t' \/ j <> i /\ exists u0, ts !! j = Some u0 /\ u = after n u0.
Proof.
  intros H. destruct (decide (j = i)) as [->|Hj]; [left; rewrite monitor_next_mine in H; naive_solver|right].
  rewrite list_lookup_fmap, list_lookup_insert_ne in H by done. destruct (ts !! j); naive_solver.
Qed.
Lemma next_length : length ts' = length ts.
Proof. by rewrite length_fmap, length_insert. Qed.

Lemma waker_mine c : wakes c (code t') = true -> waker c ts'.
Proof. exists i, (after n t'). split; [apply monitor_next_mine|by rewrite after_code]. Qed.

(** Who was going to notify still is, unless it just has. *)
Lemma waker_next f l es f' l' c :
  thread_step i f l t = Done (es, f', l', t', n) -> waker c ts -> waker c ts' \/ n = Some c.
Proof.
  intros H (j & u & Hu & Hk). destruct (decide (j = i)) as [->|Hj].
  - simplify_eq. destruct (thread_step_wakes _ _ _ _ _ _ _ _ _ _ H Hk); [left; by apply waker_mine|by right].
  - left. exists j, (after n u). split; [by apply monitor_next_other|by rewrite after_code].
Qed.
End Next.

(** A notification is sent with the mutex, which a thread that has read the
    size for its predicate holds. *)
Lemma notify_owns i f l t es f' l' t' c :
  wl i l (code t) -> thread_step i f l t = Done (es, f', l', t', Some c) -> owns_mutex i l = true.
Proof. unfold wl. intros Hw H. step_cases H. by wl_tac. Qed.
Lemma loaded_owns i l c : wl i l c -> loaded c = true -> owns_mutex i l = true.
Proof.
  unfold wl, loaded, tests. intros Hw Hl. repeat case_match; simplify_eq/=; wl_tac; done.
Qed.

Lemma thread_step_sleeps i f l t es f' l' t' n c :
  thread_step i f l t = Done (es, f', l', t', n) -> asleep t' = Some c ->
  exists p k, code t = Test p :: k /\ code t' = Lock :: Wait p :: k /\ c = cv_of p /\ f' = f /\ n = None /\
    pred_value p (size t) f = false.
Proof. intros H Hc. step_cases H; try congruence. by repeat eexists. Qed.

Section Step.
Context (f : CapioFile) (s s' : sys) (i : nat) (t t' : thread) (es : list event) (n : option cv).
Hypothesis HI : sys_inv f s.
Hypothesis Hi : pool s !! i = Some t.
Hypothesis H : thread_step i (file s) (lks s) t = Done (es, file s', lks s', t', n).
Hypothesis Hp : pool s' = after n <$> <[i := t']> (pool s).

Lemma step_locks : wl i (lks s') (code t') /\ others i (lks s) (lks s') /\ locks_ok (length (pool s)) (lks s').
Proof. eapply thread_step_locks; [by eapply lookup_lt_Some|apply HI|by eapply si_wl|exact H]. Qed.

(** A sleeping thread whose condition holds still has somebody to wake it. *)
Lemma step_sleep j u : pool s' !! j = Some u -> sleep_ok s' u.
Proof.
  rewrite Hp. intros Hu c Hc. pose proof (si_wl _ _ HI _ _ Hi) as Hw.
  destruct (monitor_next_cases _ _ _ _ _ Hi _ _ Hu) as [[-> ->]|(Hj & u0 & Hu0 & ->)].
  - apply after_asleep in Hc as [Hc _].
    destruct (thread_step_sleeps _ _ _ _ _ _ _ _ _ _ H Hc) as (p & k & Ht & Ht' & -> & Hf & -> & Hv).
    exists p, k. split_and!; [done|done|]. rewrite Hf. intros Hcond.
    destruct p as [|off]; simpl in Hcond, Hv; [congruence|]. unfold data_ready in Hcond.
    destruct (si_loaded _ _ HI _ _ Hi) as [_ [Heq|Hwk]]; [by rewrite Ht|by rewrite <- Heq in Hv; congruence|].
    rewrite Hp. by destruct (waker_next _ _ _ _ _ Hi _ _ _ _ _ _ H Hwk).
  - apply after_asleep in Hc as [Hc Hn]. destruct (si_sleep _ _ HI _ _ Hu0 _ Hc) as (p & k & Hk & -> & Hwake).
    exists p, k. split_and!; [by rewrite after_code|done|]. intros Hcond. rewrite Hp.
    destruct (thread_step_condition _ _ _ _ _ _ _ _ _ _ Hw H Hcond) as [Hold|?]; [|by eapply waker_mine].
    destruct (waker_next _ _ _ _ _ Hi _ _ _ _ _ _ H (Hwake Hold)); [done|congruence].
Qed.

(** A thread that has read the size: nobody can notify meanwhile. *)
Lemma step_loaded f' j u : CapioFile.getStoredSize f <= CapioFile.getStoredSize f' ->
  (forall k, code t = LoadSize :: k -> CapioFile.getStoredSize (file s) <= CapioFile.getStoredSize f') ->
  pool s' !! j = Some u -> loaded_ok f' s' u.
Proof.
  rewrite Hp. intros Hle Hload Hu Hl. pose proof (si_wl _ _ HI _ _ Hi) as Hw. rewrite Hp.
  destruct (monitor_next_cases _ _ _ _ _ Hi _ _ Hu) as [[-> ->]|(Hj & u0 & Hu0 & ->)]; rewrite after_code in Hl; rewrite after_size.
  - destruct (thread_step_loaded _ _ _ _ _ _ _ _ _ H (si_tidy _ _ HI _ _ Hi) Hl)
      as (-> & -> & [(-> & _ & k & Hk)|(-> & Hl0)]).
    + split; [by eapply Hload|by left].
    + destruct (si_loaded _ _ HI _ _ Hi Hl0) as [? [?|Hwk]]; (split; [lia|]); [by left|right].
      by destruct (waker_next _ _ _ _ _ Hi _ _ _ _ _ _ H Hwk).
  - destruct (si_loaded _ _ HI _ _ Hu0 Hl) as [? Hcase]. split; [lia|].
    assert (n = None) as ->.
    { destruct n as [c|]; [exfalso|done]. apply notify_owns, owns_true in H; [|done].
      apply (loaded_owns j (lks s)), owns_true in Hl; [congruence|]. by eapply si_wl. }
    destruct (thread_step_size _ _ _ _ _ _ _ _ _ Hw H) as [->|?]; [|right; by eapply waker_mine].
    destruct Hcase as [?|Hwk]; [by left|right]. by destruct (waker_next _ _ _ _ _ Hi _ _ _ _ _ _ H Hwk).
Qed.

Lemma mid_writer j u : pool s !! j = Some u -> mid (code u) = true -> writer (lks s) = Some j.
Proof.
  intros Hu Hm. pose proof (si_wl _ _ HI _ _ Hu) as Hw. unfold wl, mid in *.
  destruct (code u) as [|[] k]; try done. simpl in Hw. wl_tac. by apply share_writing.
Qed.

Lemma leaves_file_ok f' :
  (forall j u, j <> i -> pool s !! j = Some u -> mid (code u) = false) ->
  leaves f' (file s') (code t') -> file_ok f' s'.
Proof.
  intros Hothers (l0 & Hf & Hcase). exists l0. split; [done|]. rewrite Hp.
  destruct Hcase as [[-> Hm]|(ns & ne & r & k & Hk & Hr)]; [left|right].
  - split; [done|]. intros j u Hu.
    destruct (monitor_next_cases _ _ _ _ _ Hi _ _ Hu) as [[-> ->]|(Hj & u0 & Hu0 & ->)]; rewrite after_code; eauto.
  - exists i, (after n t'), ns, ne, r, k. split_and!; [by eapply monitor_next_mine|by rewrite after_code|done].
Qed.

(** The step as one of the atomic methods, or none. *)
Lemma step_file : exists f', grown f f' /\ effect f es f' /\ file_ok f' s' /\
  (forall k, code t = LoadSize :: k -> CapioFile.getStoredSize (file s) <= CapioFile.getStoredSize f').
Proof.
  pose proof (si_wl _ _ HI _ _ Hi) as Hw. pose proof (si_tidy _ _ HI _ _ Hi) as Ht.
  assert (loaded (code t) = true -> size t <= CapioFile.getStoredSize f) as Hs by (intros; by eapply si_loaded).
  destruct (si_file _ _ HI) as (l0 & Hf & [[-> Hnone]|(j & u & ns & ne & r & k & Hu & Hk & Hr)]).
  - rewrite set_sectors_id in Hf. rewrite Hf in H |- *.
    destruct (step_whole f i _ t Hw (si_wf _ _ HI) (si_nonneg _ _ HI) Hs Ht _ _ _ _ _ (Hnone _ _ Hi) H)
      as (f' & Hg & He & Hl). exists f'. split_and!; [done|done|by apply leaves_file_ok; eauto|intros; apply Hg].
  - assert (writer (lks s) = Some j) as Hwr by (eapply mid_writer; [done|by rewrite Hk]). rewrite Hf in H.
    destruct (decide (j = i)) as [->|Hj]; simplify_eq.
    + destruct (step_emplace f i _ t Hw (si_wf _ _ HI) (si_nonneg _ _ HI) Hs Ht _ _ _ _ _ _ _ _ _ _ Hk Hr H)
        as (f' & Hg & He & Hl). exists f'. split_and!; [done|done| |congruence].
      apply leaves_file_ok; [|done]. intros j v Hj Hv. apply not_true_is_false. intros Hm.
      pose proof (mid_writer _ _ Hv Hm). congruence.
    + assert (share_of i (lks s) = Free) as Hfree.
      { unfold share_of. rewrite Hwr, decide_False by congruence.
        rewrite (lo_excl _ _ (si_locks _ _ HI)) by congruence. case_decide; [set_solver|done]. }
      destruct (step_beside f i _ t Hw Hs Ht _ _ _ _ _ _ Hfree ltac:(congruence) H) as (f' & He & Hf' & Hsec & Hm).
      exists f'. split_and!; [apply grown_same; [apply HI..|done]|done| |].
      * exists l0. split; [done|right]. exists j, (after n u), ns, ne, r, k. rewrite Hp, Hsec.
        split_and!; [by eapply monitor_next_other|by rewrite after_code|done].
      * intros k' Hk'. unfold wl in Hw. rewrite Hk', Hfree in Hw. simpl in Hw. by wl_tac.
Qed.

Lemma monitor_step_inv : exists f', effect f es f' /\ sys_inv f' s'.
Proof.
  destruct step_file as (f' & (Hwf & Hnn & Hle) & He & Hf & Hload). exists f'. split; [done|].
  destruct step_locks as (Hw & Ho & Hl). split; try done.
  - by rewrite Hp, next_length.
  - intros j u. rewrite Hp. intros Hu.
    destruct (monitor_next_cases _ _ _ _ _ Hi _ _ Hu) as [[-> ->]|(Hj & u0 & Hu0 & ->)]; rewrite after_code; [done|].
    unfold wl. destruct (Ho j Hj) as [-> ->]. by eapply si_wl.
  - intros j u. rewrite Hp. intros Hu.
    destruct (monitor_next_cases _ _ _ _ _ Hi _ _ Hu) as [[-> ->]|(Hj & u0 & Hu0 & ->)]; rewrite after_code;
      [|by eapply si_tidy]. eapply thread_step_tidy; [exact H|]. by eapply si_tidy.
  - intros j u. apply step_sleep.
  - intros j u. by apply step_loaded.
Qed.
End Step.

(** A thread that wakes without a notification tests its condition again. *)
Lemma spurious_inv f s i t :
  sys_inv f s -> pool s !! i = Some t ->
  sys_inv f {| file := file s; lks := lks s; pool := <[i := waken t]> (pool s) |}.
Proof.
  intros HI Hi.
  assert (forall j u, <[i := waken t]> (pool s) !! j = Some u ->
    exists u0, pool s !! j = Some u0 /\ code u = code u0 /\ size u = size u0 /\ (asleep u = None \/ asleep u = asleep u0)) as Hold.
  { intros j u. destruct (decide (j = i)) as [->|Hj].
    - rewrite list_lookup_insert_eq by (by eapply lookup_lt_Some). intros [= <-]. exists t. auto.
    - rewrite list_lookup_insert_ne by done. intros Hu. exists u. auto. }
  assert (forall j u0, pool s !! j = Some u0 -> exists u, <[i := waken t]> (pool s) !! j = Some u /\ code u = code u0) as Hnew.
  { intros j u0 Hu. destruct (decide (j = i)) as [->|Hj].
    - simplify_eq. exists (waken t). split; [|done]. apply list_lookup_insert_eq. by eapply lookup_lt_Some.
    - exists u0. by rewrite list_lookup_insert_ne. }
  assert (forall c, waker c (pool s) -> waker c (<[i := waken t]> (pool s))) as Hwk.
  { intros c (j & u & Hu & Hk). destruct (Hnew _ _ Hu) as (v & ? & Hc). exists j, v. by rewrite Hc. }
  destruct HI as [? ? Hl Hw Ht Hs Hld Hf]. split; simpl; try done.
  - by rewrite length_insert.
  - intros j u (u0 & ? & -> & _)%Hold. eauto.
  - intros j u (u0 & ? & -> & _)%Hold. eauto.
  - intros j u (u0 & Hu & Hc & Hz & [Ha|Ha])%Hold c Hcv; [congruence|]. rewrite Ha in Hcv. rewrite Hc.
    destruct (Hs _ _ Hu _ Hcv) as (p & k & ? & ? & ?). exists p, k. naive_solver.
  - intros j u (u0 & Hu & Hc & Hz & _)%Hold Hlo. rewrite Hc in Hlo. rewrite Hz.
    destruct (Hld _ _ Hu Hlo) as [? [?|?]]; auto.
  - destruct Hf as (l0 & Hf & [[-> Hm]|(j & u & ns & ne & r & k & Hu & Hk & Hr)]); eexists; (split; [exact Hf|]).
    + left. split; [done|]. intros j u (u0 & Hu & -> & _)%Hold. eauto.
    + right. destruct (Hnew _ _ Hu) as (v & ? & Hc). exists j, v, ns, ne, r, k. by rewrite Hc.
Qed.

Lemma monitor_steps_inv f0 s0 tr s :
  sys_inv f0 s0 -> steps s0 tr s -> exists f, atomic_trace f0 tr.*2 f /\ sys_inv f s.
Proof.
  intros H0. induction 1 as [|tr s i es s' _ (f & HT & HI) Hstep|tr s i t _ (f & HT & HI) Hi].
  - exists f0. split; [constructor|done].
  - apply sys_step_inv in Hstep as (t & t' & n & Hi & H & Hp).
    destruct (monitor_step_inv _ _ _ _ _ _ _ _ HI Hi H Hp) as (f' & [[-> ->]|(e & -> & Hat)] & HI'); eexists;
      (split; [|exact HI']); simpl.
    + by rewrite app_nil_r.
    + rewrite fmap_app. simpl. by eapply atr_snoc.
  - exists f. split; [done|]. by apply spurious_inv.
Qed.

(** ** The order of a thread's calls *)

(** The calls whose effect is still to come. *)
Definition call_at (x : instr) : list call :=
  match x with
  | ReturnSize st => [Size st]
  | ReturnCommitted => [IsCommitted]
  | Change b => [SetCommitted b]
  | Erase ns ne | Emplace ns ne _ => [InsertSector ns ne]
  | Wait p | Test p => [WaitFor p]
  | _ => []
  end.
Definition calls_left (c : list instr) : list call := c ≫= call_at.

Lemma calls_left_program cs : calls_left (program cs) = cs.
Proof.
  unfold calls_left, program. induction cs as [|c cs IH]; [done|]. cbn [mbind list_bind] in *.
  rewrite bind_app, IH. by destruct c as [[]| | | |[]].
Qed.

Lemma monitor_thread_step_order i f l t es f' l' t' n :
  thread_step i f l t = Done (es, f', l', t', n) ->
  (call_of <$> es) ++ calls_left (code t') = calls_left (code t).
Proof. unfold calls_left. intros H. step_cases H; try done; [by destruct commit|by destruct p]. Qed.

Lemma monitor_steps_order f calls tr s i cs :
  steps (start f calls) tr s -> calls !! i = Some cs ->
  exists t, pool s !! i = Some t /\ (call_of <$> events_of i tr) ++ calls_left (code t) = cs.
Proof.
  intros HS Hi. induction HS as [|tr s j es s' _ (t & Ht & IH) Hstep|tr s j u _ (t & Ht & IH) Hj].
  - eexists. split; [simpl; by rewrite list_lookup_fmap, Hi|]. apply calls_left_program.
  - apply sys_step_inv in Hstep as (u & u' & n & Hu & H & ->). rewrite events_of_app.
    destruct (decide (j = i)) as [->|Hne].
    + simplify_eq. exists (after n u'). split; [by eapply monitor_next_mine|]. rewrite after_code, fmap_app, <- app_assoc.
      by rewrite (monitor_thread_step_order _ _ _ _ _ _ _ _ _ H).
    + exists (after n t). split; [by eapply monitor_next_other|]. by rewrite after_code, app_nil_r.
  - simpl. destruct (decide (j = i)) as [->|Hne].
    + simplify_eq. exists (waken u). split; [|done]. apply list_lookup_insert_eq. by eapply lookup_lt_Some.
    + exists t. by rewrite list_lookup_insert_ne.
Qed.

(** ** Progress *)

Definition stuck (s : sys) : Prop := forall i es s', sys_step i s <> Done (es, s').

Lemma monitor_stuck_thread s i t r : stuck s -> pool s !! i = Some t -> thread_step i (file s) (lks s) t <> Done r.
Proof.
  intros Hst Ht E. destruct r as [[[[es f] l] t'] n]. eapply (Hst i). unfold sys_step. by rewrite Ht, E.
Qed.

Section Stuck.
Context (f : CapioFile) (s : sys).
Hypothesis HI : sys_inv f s.
Hypothesis Hst : stuck s.

Lemma stuck_cases i t : pool s !! i = Some t ->
  share_of i (lks s) = Free /\ (owns_mutex i (lks s) = true -> writer (lks s) <> None \/ readers (lks s) <> []) /\
  (asleep t <> None \/ code t = [] \/ _mutex (lks s) <> None \/ writer (lks s) <> None \/ readers (lks s) <> []).
Proof.
  intros Ht. pose proof (si_wl _ _ HI _ _ Ht) as Hw.
  destruct (thread_step_cases _ _ (file s) _ _ (si_locks _ _ HI) Hw) as [[r Hr]|[_ Hc]];
    [by destruct (monitor_stuck_thread _ _ _ _ Hst Ht Hr)|]. unfold wl in Hw.
  destruct Hc as [Ha|[Hn|[Hf Hc]]]; [|rewrite Hn in Hw; simpl in Hw; wl_tac; split_and!; [done|congruence|auto]|].
  - destruct (asleep t) as [c|] eqn:E; [|done]. destruct (si_sleep _ _ HI _ _ Ht _ E) as (p & k & Hk & _).
    rewrite Hk in Hw. simpl in Hw. wl_tac. split_and!; [done|congruence|auto].
  - split_and!; [done| |naive_solver]. intros Ho. rewrite Ho in Hc. naive_solver.
Qed.

(** When nobody can move nobody holds a lock, *)
Lemma stuck_unlocked : lks s = free_locks.
Proof.
  pose proof (si_locks _ _ HI) as [_ Hm Hw Hr].
  assert (forall j, (j < length (pool s))%nat -> exists t, pool s !! j = Some t) as Hin by (intros; by apply lookup_lt_is_Some).
  assert (writer (lks s) = None) as E1.
  { destruct (writer (lks s)) as [j|] eqn:E; [exfalso|done]. destruct (Hin _ (Hw _ eq_refl)) as [t Ht].
    destruct (stuck_cases _ _ Ht) as [Hf%share_free _]. tauto. }
  assert (readers (lks s) = []) as E2.
  { destruct (readers (lks s)) as [|j rs] eqn:E; [done|exfalso].
    destruct (Hin j) as [t Ht]; [apply Hr; set_solver|].
    destruct (stuck_cases _ _ Ht) as [Hf%share_free _]. rewrite E in Hf. set_solver. }
  assert (_mutex (lks s) = None) as E3.
  { destruct (_mutex (lks s)) as [j|] eqn:E; [exfalso|done]. destruct (Hin _ (Hm _ eq_refl)) as [t Ht].
    destruct (stuck_cases _ _ Ht) as (_ & Ho & _). apply owns_true in E. destruct (Ho E); congruence. }
  destruct (lks s). simpl in *. by subst.
Qed.

(** and whoever has not done its calls sleeps, its condition being false. *)
Lemma stuck_sleeps i t : pool s !! i = Some t ->
  code t = [] \/ exists p k, code t = Lock :: Wait p :: k /\ asleep t = Some (cv_of p) /\ condition p (file s) = false.
Proof.
  assert (forall j u, pool s !! j = Some u -> code u = [] \/ exists p k, code u = Lock :: Wait p :: k /\
    asleep u = Some (cv_of p) /\ (condition p (file s) = true -> waker (cv_of p) (pool s))) as Hall.
  { intros j u Hu. destruct (stuck_cases _ _ Hu) as (_ & _ & Hc). rewrite stuck_unlocked in Hc.
    destruct Hc as [Ha|[?|[?|[?|?]]]]; [|by left|done..]. right. destruct (asleep u) as [c|] eqn:E; [|done].
    destruct (si_sleep _ _ HI _ _ Hu _ E) as (p & k & ? & -> & ?). eauto. }
  intros Ht. destruct (Hall _ _ Ht) as [?|(p & k & ? & ? & Hc)]; [by left|right]. exists p, k. split_and!; [done..|].
  apply not_true_is_false. intros (j & u & Hu & Hk)%Hc. by destruct (Hall _ _ Hu) as [E|(? & ? & E & _)]; rewrite E in Hk.
Qed.
End Stuck.

(** ** Termination *)

(** The steps an instruction can still cause, with [n] threads: a notification
    lets each of them take its lock and its predicate again. *)
Definition cost (n : Z) (x : instr) : Z :=
  match x with
  | NotifyAll _ => 1 + 6 * n
  | Change _ => 3 + 12 * n
  | Erase _ _ => 2
  | Wait _ => 5
  | _ => 1
  end.
Definition code_cost (n : Z) (c : list instr) : Z := foldr (fun x z => cost n x + z) 0 c.
Definition thread_cost (n : Z) (t : thread) : Z :=
  code_cost n (code t) - match asleep t with Some _ => 6 | None => 0 end.
Definition sys_cost (s : sys) : Z := total (thread_cost (Z.of_nat (length (pool s)))) (pool s).

Lemma thread_step_cost m i f l t es f' l' t' n :
  0 <= m -> thread_step i f l t = Done (es, f', l', t', n) ->
  thread_cost m t' + match n with Some _ => 6 * m | None => 0 end < thread_cost m t.
Proof.
  intros Hm H. unfold thread_cost. pose proof (thread_step_awake _ _ _ _ _ H) as ->.
  step_cases H; repeat case_match; try congruence; try lia.
  - destruct commit; simpl; lia.
  - destruct p; simpl; lia.
Qed.

Lemma after_cost m n u : 0 <= m -> thread_cost m (after n u) <= thread_cost m u + match n with Some _ => 6 | None => 0 end.
Proof.
  intros Hm. destruct n; simpl; [|lia]. unfold wake. case_decide as E; [|lia].
  unfold thread_cost. simpl. rewrite E. lia.
Qed.

Lemma sys_step_cost i s es s' : sys_step i s = Done (es, s') -> sys_cost s' < sys_cost s.
Proof.
  intros (t & t' & n & Hi & H & Hp)%sys_step_inv. unfold sys_cost. rewrite Hp, next_length.
  set (m := Z.of_nat (length (pool s))). assert (0 <= m) as Hm by lia.
  pose proof (thread_step_cost m _ _ _ _ _ _ _ _ _ Hm H) as Hlt.
  pose proof (total_map_le (thread_cost m) (after n) _ (<[i := t']> (pool s)) (fun u => after_cost m n u Hm)) as Hle.
  rewrite (total_insert _ _ _ _ _ Hi), length_insert in Hle. fold m in Hle. destruct n; lia.
Qed.

(** ** The theorems *)

(** C7. The methods of a [CapioFile] that share its sectors and its commit are
    atomic, whatever the interleaving of the threads that call them and
    wherever a wait wakes without being notified: the calls, in the order of
    their effects, are a run of the methods taken whole, in which
    [waitForCommit] and [waitForData] return only in a file for which their
    condition holds and a size is never the one of half-changed sectors; each
    thread does its calls in the order of its program; and no thread takes a
    mutex it has or leaves one it has not. *)
Theorem methods_atomic f calls tr s :
  file_inv f -> Forall (Forall call_ok) calls -> steps (start f calls) tr s ->
  (exists f', atomic_trace f tr.*2 f' /\ _committed (file s) = _committed f' /\
     (writer (lks s) = None -> file s = f')) /\
  (forall i cs, calls !! i = Some cs ->
     exists t, pool s !! i = Some t /\ (call_of <$> events_of i tr) ++ calls_left (code t) = cs) /\
  (forall i, (exists r, sys_step i s = Done r) \/ (exists w, sys_step i s = Blocks w)).
Proof.
  intros Hf Hok HS. pose proof (monitor_start_inv f calls (fi_wf _ Hf) (fi_nonneg _ Hf) Hok) as H0.
  destruct (monitor_steps_inv _ _ _ _ H0 HS) as (f' & HT & HI). split; [exists f'; split; [done|]|split].
  - destruct (si_file _ _ HI) as (l0 & -> & Hcase). split; [done|]. intros Hw.
    destruct Hcase as [[-> _]|(j & u & ns & ne & r & k & Hu & Hk & _)]; [apply set_sectors_id|].
    rewrite (mid_writer _ _ HI _ _ Hu) in Hw; [done|by rewrite Hk].
  - intros i cs. by apply (monitor_steps_order f).
  - intros i. unfold sys_step. destruct (pool s !! i) as [t|] eqn:Ht; [|right; by eexists].
    destruct (thread_step_cases _ i (file s) _ t (si_locks _ _ HI) (si_wl _ _ HI _ _ Ht))
      as [[[[[[? ?] ?] ?] ?] ->]|[[? ->] _]]; [left|right]; by eexists.
Qed.

(** C8. No wakeup of a [CapioFile] is lost. Every step leaves less to do, so the
    threads come to a state where none of them moves, unless some wake without
    end for no reason; there the locks are free, and a thread that has not made
    all its calls sleeps in [waitForCommit] or [waitForData] and its condition
    does not hold. If the file is committed by then, all the calls have been made. *)
Theorem no_wakeup_is_lost f calls tr s :
  file_inv f -> Forall (Forall call_ok) calls -> steps (start f calls) tr s ->
  (forall i es s', sys_step i s = Done (es, s') -> sys_cost s' < sys_cost s) /\
  (stuck s ->
     lks s = free_locks /\
     (forall i t, pool s !! i = Some t ->
        code t = [] \/
        exists p k, code t = Lock :: Wait p :: k /\ asleep t = Some (cv_of p) /\ condition p (file s) = false) /\
     (_committed (file s) = true -> Forall (fun t => code t = []) (pool s))).
Proof.
  intros Hf Hok HS. pose proof (monitor_start_inv f calls (fi_wf _ Hf) (fi_nonneg _ Hf) Hok) as H0.
  destruct (monitor_steps_inv _ _ _ _ H0 HS) as (f' & _ & HI). split; [intros i es s'; apply sys_step_cost|].
  intros Hst. split_and!; [by eapply stuck_unlocked|intros i t; by eapply stuck_sleeps|].
  intros Hcm. apply Forall_lookup_2. intros i t Ht.
  destruct (stuck_sleeps _ _ HI Hst _ _ Ht) as [?|([|off] & k & _ & _ & Hc)]; [done|simpl in Hc; congruence|].
  simpl in Hc. unfold data_ready in Hc. by rewrite Hcm, orb_true_r in Hc.
Qed.

(** ** Runs of concrete schedules *)

Lemma monitor_run_steps s0 sched : forall tr s, steps s0 tr s -> steps s0 (tr ++ (run sched s).1) (run sched s).2.
Proof.
  induction sched as [|i sched IH]; intros tr s HS; simpl; [by rewrite app_nil_r|].
  destruct (sys_step i s) as [[es s']| | | |] eqn:E; try by apply IH.
  specialize (IH _ _ (steps_snoc _ _ _ _ _ _ HS E)).
  destruct (run sched s') as [tr' s2]. simpl in *. by rewrite app_assoc.
Qed.

(** A reader of eight bytes and one of the whole file, beside the writer, who
    stores four bytes twice and commits. *)
Definition reader_and_writer : list (list call) :=
  [[WaitFor (DataUpTo 8)]; [WaitFor Committed; Size true];
   [InsertSector 0 4; InsertSector 4 8; SetCommitted true]].
Definition in_turn (n : nat) : list nat := concat (replicate n [0%nat; 1%nat; 2%nat]).

Lemma methods_atomic_witness :
  let r := run (in_turn 40) (start CapioFile_default reader_and_writer) in
  r.1 = [(2%nat, Inserted 0 4); (2%nat, Inserted 4 8); (0%nat, Waited (DataUpTo 8)); (2%nat, Changed true);
         (1%nat, Waited Committed); (1%nat, ReadSize true 8)] /\
  exists f', atomic_trace CapioFile_default r.1.*2 f' /\ _committed (file r.2) = _committed f' /\
    (writer (lks r.2) = None -> file r.2 = f').
Proof.
  intros r. split; [vm_compute; reflexivity|].
  refine (proj1 (methods_atomic CapioFile_default reader_and_writer r.1 r.2 file_inv_default _ _)).
  - repeat constructor; simpl; lia.
  - exact (monitor_run_steps _ (in_turn 40) [] _ (steps_nil _)).
Defined.

Lemma no_wakeup_is_lost_witness :
  let r := run (in_turn 40) (start CapioFile_default reader_and_writer) in
  Forall (fun t => code t = []) (pool r.2).
Proof.
  intros r.
  refine (proj2 (proj2 (proj2 (no_wakeup_is_lost CapioFile_default reader_and_writer r.1 r.2 file_inv_default _ _) _)) _).
  - repeat constructor; simpl; lia.
  - exact (monitor_run_steps _ (in_turn 40) [] _ (steps_nil _)).
  - intros [|[|[|i]]] es s'; vm_compute; done.
  - vm_compute. reflexivity.
Defined.
