(* ===== verification/ClientManager.v ===== *)
(** * The clients of a server

    [client-manager/client_manager.hpp] and [src/client_manager.cpp]: the
    queues to and from each client thread, the application it belongs to, and
    the files each thread and each application produced.  A reply queue is the
    list of the replies written to it, oldest first; the data queues are
    [Fifo]s. *)
From S2P Require Import Prelude Memory Queue.

Definition CAPIO_DEFAULT_APP_NAME : string := "default_app".

Record ClientDataBuffers : Type := { ClientToServer : Fifo; ServerToClient : Fifo }.

Record ClientManager : Type := {
  responses : gmap Z (list Z);
  data_buffers : gmap Z ClientDataBuffers;
  app_names : gmap Z string;
  files_created_by_producer : gmap Z (gset string);
  files_created_by_app_name : gmap string (gset string);
  thread_allowed_to_continue : list Z
}.

Definition ClientManager_new : ClientManager := {|
  responses := ∅; data_buffers := ∅; app_names := ∅; files_created_by_producer := ∅;
  files_created_by_app_name := ∅; thread_allowed_to_continue := [] |}.

Definition set_responses v (c : ClientManager) := {|
  responses := v; data_buffers := data_buffers c; app_names := app_names c;
  files_created_by_producer := files_created_by_producer c;
  files_created_by_app_name := files_created_by_app_name c;
  thread_allowed_to_continue := thread_allowed_to_continue c |}.
Definition set_data_buffers v (c : ClientManager) := {|
  responses := responses c; data_buffers := v; app_names := app_names c;
  files_created_by_producer := files_created_by_producer c;
  files_created_by_app_name := files_created_by_app_name c;
  thread_allowed_to_continue := thread_allowed_to_continue c |}.
Definition set_produced v w (c : ClientManager) := {|
  responses := responses c; data_buffers := data_buffers c; app_names := app_names c;
  files_created_by_producer := v; files_created_by_app_name := w;
  thread_allowed_to_continue := thread_allowed_to_continue c |}.
Definition set_allowed v (c : ClientManager) := {|
  responses := responses c; data_buffers := data_buffers c; app_names := app_names c;
  files_created_by_producer := files_created_by_producer c;
  files_created_by_app_name := files_created_by_app_name c;
  thread_allowed_to_continue := v |}.

(** [emplace] and [try_emplace]: an entry that exists is kept. *)
Definition emplace `{Countable K} {A} (k : K) (v : A) (m : gmap K A) : gmap K A :=
  match m !! k with Some _ => m | None => <[k := v]> m end.

(** [registerClient]; with [wait] the reply is sent by a thread of its own
    once [unlockClonedChild] allowed it ([reply_cloned_child]). *)
Definition registerClient (tid : Z) (app_name : string) (c : ClientManager) : ClientManager := {|
  responses := emplace tid [] (responses c);
  data_buffers := emplace tid {| ClientToServer := fifo_new; ServerToClient := fifo_new |} (data_buffers c);
  app_names := emplace tid app_name (app_names c);
  files_created_by_producer := emplace tid ∅ (files_created_by_producer c);
  files_created_by_app_name := emplace app_name ∅ (files_created_by_app_name c);
  thread_allowed_to_continue := thread_allowed_to_continue c |}.

Definition getAppName (c : ClientManager) (tid : Z) : string :=
  default CAPIO_DEFAULT_APP_NAME (app_names c !! tid).

(** [removeClient]: the name of the application is kept. *)
Definition removeClient (tid : Z) (c : ClientManager) : ClientManager := {|
  responses := delete tid (responses c);
  data_buffers := delete tid (data_buffers c);
  app_names := app_names c;
  files_created_by_producer := delete tid (files_created_by_producer c);
  files_created_by_app_name := delete (getAppName c tid) (files_created_by_app_name c);
  thread_allowed_to_continue := thread_allowed_to_continue c |}.

Definition unlockClonedChild (tid : Z) (c : ClientManager) : ClientManager :=
  set_allowed (thread_allowed_to_continue c ++ [tid]) c.

(** [replyToClient(tid, offset)] *)
Definition replyToClient (tid offset : Z) : M ClientManager unit := fun c =>
  match responses c !! tid with
  | Some r => Done (tt, set_responses (<[tid := r ++ [offset]]> (responses c)) c)
  | None => Throw "std::out_of_range"
  end.

(** [replyToClient(tid, offset, buf, count)]: [data] are the [count] bytes at
    [buf + offset], [es] the size of a cache line. *)
Definition replyToClient_data (es tid offset : Z) (data : list cell) : M ClientManager unit := fun c =>
  match data_buffers c !! tid with
  | Some b =>
      (replyToClient tid (offset + Z.of_nat (length data)) ;;
       modify (fun c => set_data_buffers
         (<[tid := {| ClientToServer := ClientToServer b;
                      ServerToClient := fifo_write es data (ServerToClient b) |}]> (data_buffers c)) c)) c
  | None => Throw "Err: no such buffer for provided tid"
  end.

(** The thread [registerClient] starts for a cloned child: it waits for the tid
    to be allowed, replies 1 and consumes the permission. *)
Fixpoint erase_tid (tid : Z) (l : list Z) : list Z :=
  match l with [] => [] | x :: l' => if x =? tid then l' else x :: erase_tid tid l' end.
Definition child_allowed (tid : Z) (c : ClientManager) : bool :=
  bool_decide (tid ∈ thread_allowed_to_continue c).
Definition reply_cloned_child (tid : Z) : M ClientManager unit :=
  replyToClient tid 1 ;;
  modify (fun c => set_allowed (erase_tid tid (thread_allowed_to_continue c)) c).

Definition insert_produced `{Countable K} (k : K) (path : string) (m : gmap K (gset string)) :=
  alter (fun s => {[path]} ∪ s) k m.
Definition erase_produced `{Countable K} (k : K) (path : string) (m : gmap K (gset string)) :=
  alter (fun s => s ∖ {[path]}) k m.

Definition registerProducedFile (tid : Z) (path : string) (c : ClientManager) : ClientManager :=
  match files_created_by_producer c !! tid with
  | Some _ => set_produced (insert_produced tid path (files_created_by_producer c))
                           (insert_produced (getAppName c tid) path (files_created_by_app_name c)) c
  | None => c
  end.

Definition removeProducedFile (tid : Z) (path : string) (c : ClientManager) : ClientManager :=
  set_produced (erase_produced tid path (files_created_by_producer c))
               (erase_produced (getAppName c tid) path (files_created_by_app_name c)) c.

Definition produced_by `{Countable K} (k : K) (path : string) (m : gmap K (gset string)) : bool :=
  match m !! k with Some s => bool_decide (path ∈ s) | None => false end.
Definition isProducer (c : ClientManager) (tid : Z) (path : string) : bool :=
  produced_by tid path (files_created_by_producer c)
  || produced_by (getAppName c tid) path (files_created_by_app_name c).

(** [getProducedFiles] is [files_created_by_producer[tid]], which creates the
    entry when there is none. *)
Definition getProducedFiles (tid : Z) : M ClientManager (list string) := fun c =>
  let m := emplace tid ∅ (files_created_by_producer c) in
  Done (elements (default ∅ (m !! tid)), set_produced m (files_created_by_app_name c) c).

Definition getConnectedPosixClients (c : ClientManager) : nat := size (data_buffers c).

(** ** Properties *)

Lemma emplace_lookup `{Countable K} {A} (k : K) (v : A) m :
  emplace k v m !! k = Some (default v (m !! k)).
Proof. unfold emplace. destruct (m !! k) eqn:E; simpl; [done|by rewrite lookup_insert_eq]. Qed.
Lemma emplace_lookup_ne `{Countable K} {A} (k k' : K) (v : A) m :
  k <> k' -> emplace k v m !! k' = m !! k'.
Proof. intros. unfold emplace. case_match; [done|by rewrite lookup_insert_ne]. Qed.

Lemma produced_by_insert `{Countable K} (k : K) p q m :
  produced_by k q (insert_produced k p m) =
  (bool_decide (is_Some (m !! k)) && bool_decide (q = p)) || produced_by k q m.
Proof.
  unfold produced_by, insert_produced. rewrite lookup_alter_eq.
  destruct (m !! k) as [s|] eqn:E; [|done].
  rewrite (bool_decide_eq_true_2 (is_Some (Some s))) by eauto. simpl.
  apply eq_bool_prop_intro. rewrite orb_True, !bool_decide_spec. set_solver.
Qed.

Lemma produced_by_erase `{Countable K} (k : K) p q m :
  produced_by k q (erase_produced k p m) = negb (bool_decide (q = p)) && produced_by k q m.
Proof.
  unfold produced_by, erase_produced. rewrite lookup_alter_eq.
  destruct (m !! k) as [s|] eqn:E; simpl; [|by rewrite andb_false_r].
  apply eq_bool_prop_intro. rewrite andb_True, negb_True, !bool_decide_spec. set_solver.
Qed.

Lemma responses_registerProducedFile tid path c : responses (registerProducedFile tid path c) = responses c.
Proof. unfold registerProducedFile. by case_match. Qed.
Lemma data_buffers_registerProducedFile tid path c :
  data_buffers (registerProducedFile tid path c) = data_buffers c.
Proof. unfold registerProducedFile. by case_match. Qed.

(** Registration of producers: for a registered thread, registering a file
    makes the thread a producer of exactly one more file, and removing it
    makes it a producer of that file no more and changes nothing for the
    others. *)
Theorem producers_correct tid path q c :
  is_Some (files_created_by_producer c !! tid) ->
  isProducer (registerProducedFile tid path c) tid q = bool_decide (q = path) || isProducer c tid q /\
  isProducer (removeProducedFile tid path c) tid q = negb (bool_decide (q = path)) && isProducer c tid q.
Proof.
  intros [s Hs]. unfold isProducer, registerProducedFile, removeProducedFile. rewrite Hs.
  unfold getAppName. simpl. rewrite !produced_by_insert, !produced_by_erase.
  rewrite (bool_decide_eq_true_2 (is_Some (files_created_by_producer c !! tid))) by eauto.
  destruct (bool_decide (q = path)), (produced_by tid q _), (produced_by _ q (files_created_by_app_name c)),
    (bool_decide (is_Some _)); done.
Qed.

Lemma producers_correct_witness :
  isProducer (registerProducedFile 7 "/d/f" (registerClient 7 "app" ClientManager_new)) 7 "/d/f" = true /\
  isProducer (removeProducedFile 7 "/d/f"
    (registerProducedFile 7 "/d/f" (registerClient 7 "app" ClientManager_new))) 7 "/d/f" = false.
Proof.
  split.
  - refine (eq_trans (proj1 (producers_correct 7 "/d/f" "/d/f" (registerClient 7 "app" ClientManager_new) _)) _);
      [vm_compute; eauto | vm_compute; reflexivity].
  - refine (eq_trans (proj2 (producers_correct 7 "/d/f" "/d/f"
      (registerProducedFile 7 "/d/f" (registerClient 7 "app" ClientManager_new)) _)) _);
      [vm_compute; eauto | vm_compute; reflexivity].
Defined.

(** When one thread of an application leaves, the application loses its files:
    a thread that was a producer only because another thread of the same
    application created the file is one no more. *)
Theorem removeClient_forgets_app :
  let c := registerProducedFile 1 "/d/f"
             (registerClient 2 "app" (registerClient 1 "app" ClientManager_new)) in
  isProducer c 2 "/d/f" = true /\ isProducer (removeClient 1 c) 2 "/d/f" = false.
Proof. split; vm_compute; reflexivity. Qed.
