(* ===== verification/PosixPath.v ===== *)
(** * Paths on the client side

    The path functions of [posix/utils/filesystem.hpp] and what they use of
    [std::filesystem::path] on a POSIX system: iteration over the elements of a
    path, [operator/], [lexically_normal] and [lexically_relative]. *)
From S2P Require Import Prelude Text.

#[local] Arguments String.append !_ _ /.

(** ** Elements of a path *)

(** The pieces between the separators, empty ones included. *)
Notation split_slash := (split_on "/"%char).
Definition nonempty (w : string) : bool := negb (String.eqb w "").
Definition names (p : string) : list string := List.filter nonempty (split_slash p).
Definition is_absolute (p : string) : bool :=
  match p with String c _ => Ascii.eqb c "/" | EmptyString => false end.
Definition ends_with_slash (p : string) : bool :=
  match last (split_slash p) with Some w => negb (nonempty w) && nonempty p | None => false end.

(** What [begin()] to [end()] gives: the root directory, the names, and an
    empty element for a separator at the end. *)
Definition path_elems (p : string) : list string :=
  (if is_absolute p then ["/"%string] else []) ++ names p ++
  (if ends_with_slash p && negb (bool_decide (names p = [])) then [""%string] else []).

(** The names with a separator between them. *)
Fixpoint join_names (ws : list string) : string :=
  match ws with
  | [] => ""
  | [w] => w
  | w :: ws' => w ++ String "/" (join_names ws')
  end.

(** [operator/] *)
Definition path_append (dir p : string) : string :=
  if is_absolute p then p
  else if ends_with_slash dir || String.eqb dir "" then (dir ++ p)%string
  else (dir ++ String "/" p)%string.

(** ** [lexically_normal] and [capio_normal_path] *)

(** The names kept so far, last first.  [".."] removes a name, is dropped at the
    root, and stays at the start of a relative path. *)
Definition normal_step (absolute : bool) (kept : list string) (w : string) : list string :=
  if String.eqb w "." then kept
  else if String.eqb w ".." then
    match kept with
    | k :: kept' => if String.eqb k ".." then w :: kept else kept'
    | [] => if absolute then [] else [w]
    end
  else w :: kept.
Definition normal_names (absolute : bool) (ws : list string) : list string :=
  rev (fold_left (normal_step absolute) ws []).

(** A path that ends in a separator, ["."] or a [".."] that removed a name keeps
    a separator at its end. *)
Definition normal_trailing (p : string) (ws : list string) : bool :=
  (ends_with_slash p ||
   match last (names p) with Some w => String.eqb w "." || String.eqb w ".." | None => false end) &&
  match last ws with Some w => negb (String.eqb w "..") | None => false end.
Definition lexically_normal (p : string) : string :=
  if String.eqb p "" then ""
  else
    let ws := normal_names (is_absolute p) (names p) in
    let normal := (join_names ws ++ (if normal_trailing p ws then "/" else ""))%string in
    if is_absolute p then String "/" normal
    else if bool_decide (ws = []) then "."%string else normal.

(** The loop that takes separators off the end, but never the first character. *)
Fixpoint strip_back (s : string) : string :=
  match s with
  | EmptyString => EmptyString
  | String c s' =>
      let r := strip_back s' in
      if Ascii.eqb c "/" && String.eqb r "" then ""%string else String c r
  end.
Definition strip_slashes (s : string) : string :=
  match s with String c s' => String c (strip_back s') | EmptyString => EmptyString end.
Definition capio_normal_path (p : string) : string := strip_slashes (lexically_normal p).

(** ** [lexically_relative] and the tests on paths *)

Fixpoint mismatch (a b : list string) : list string * list string :=
  match a, b with
  | x :: a', y :: b' => if String.eqb x y then mismatch a' b' else (a, b)
  | _, _ => (a, b)
  end.
(** How many levels the elements [b] of the base go down. *)
Definition levels (b : list string) : Z :=
  foldr (fun w n => if String.eqb w ".." then n - 1
                    else if negb (String.eqb w "") && negb (String.eqb w ".") then n + 1 else n) 0 b.
Definition join_elems (ws : list string) : string := foldl path_append ""%string ws.

(** [p.lexically_relative(base)] *)
Definition lexically_relative (p base : string) : string :=
  if negb (Bool.eqb (is_absolute p) (is_absolute base)) then ""
  else
    let '(a, b) := mismatch (path_elems p) (path_elems base) in
    match a, b with
    | [], [] => "."%string
    | _, _ =>
        let n := levels b in
        if n <? 0 then ""
        else if (n =? 0) && (match a with [] => true | w :: _ => String.eqb w "" end) then "."%string
        else join_elems (repeat ".."%string (Z.to_nat n) ++ a)
    end.

Definition is_prefix (path_1 path_2 : string) : bool :=
  let relpath := lexically_relative path_2 path_1 in
  nonempty relpath && negb (String.prefix ".." relpath).

Definition CAPIO_DIR_FORBIDDEN_PATHS : list string := ["/proc/"; "/sys/"]%string.
Definition is_forbidden_path (path : string) : bool :=
  existsb (fun forbidden_path => String.prefix forbidden_path path) CAPIO_DIR_FORBIDDEN_PATHS.
Definition is_capio_dir (capio_dir path_to_check : string) : bool :=
  bool_decide (path_elems capio_dir = path_elems path_to_check).
Definition is_capio_path (capio_dir path_to_check : string) : bool := is_prefix capio_dir path_to_check.

Example relative_inside : lexically_relative "/c/d/f" "/c" = "d/f"%string. Proof. reflexivity. Qed.
Example relative_outside : lexically_relative "/tmp/f" "/c" = "../tmp/f"%string. Proof. reflexivity. Qed.
Example prefix_self : is_prefix "/c" "/c/" = true. Proof. reflexivity. Qed.
Example prefix_sibling : is_prefix "/c" "/cc/f" = false. Proof. reflexivity. Qed.
Example normal_dots : capio_normal_path "/c//d/./x/../" = "/c/d"%string. Proof. reflexivity. Qed.
Example normal_trailing_slash : lexically_normal "/c/d/x/.." = "/c/d/"%string. Proof. reflexivity. Qed.
Example normal_root : capio_normal_path "/.." = "/"%string. Proof. reflexivity. Qed.

(** ** Splitting and joining *)

Fixpoint no_slash (w : string) : Prop :=
  match w with String c w' => c <> "/"%char /\ no_slash w' | EmptyString => True end.
Definition name_wf (w : string) : Prop := no_slash w /\ w <> ""%string.
(** The names of a normal path. *)
Definition plain_name (w : string) : Prop := name_wf w /\ w <> "."%string /\ w <> ".."%string.

Lemma nonempty_spec w : nonempty w = true <-> w <> ""%string.
Proof. unfold nonempty. destruct (String.eqb_spec w ""); naive_solver. Qed.

Lemma split_slash_cons s : exists w ws, split_slash s = w :: ws.
Proof.
  destruct s as [|c s]; [by exists ""%string, []|]. simpl. case_match; [by eexists _, _|].
  case_match; by eexists _, _.
Qed.

Lemma split_no_slash s : Forall no_slash (split_slash s).
Proof.
  induction s as [|c s IH]; [by repeat constructor|]. simpl. destruct (Ascii.eqb_spec c "/"); [by constructor|].
  destruct (split_slash s) as [|w ws]; [by repeat constructor|].
  apply Forall_cons in IH as [Hw Hws]. by constructor.
Qed.

Lemma names_wf p : Forall name_wf (names p).
Proof.
  apply Forall_forall. intros w Hw. unfold names in Hw. apply list_elem_of_In, filter_In in Hw as [Hin Hne].
  split; [|by apply nonempty_spec].
  pose proof (split_no_slash p) as H. rewrite Forall_forall in H. by apply H, list_elem_of_In.
Qed.

(** A separator in the middle splits. *)
Lemma split_app a b : split_slash (a ++ String "/" b) = split_slash a ++ split_slash b.
Proof.
  induction a as [|c a IH]; [done|]. simpl. case_match; [by rewrite IH|].
  rewrite IH. destruct (split_slash_cons a) as (w & ws & ->). done.
Qed.
Lemma names_app a b : names (a ++ String "/" b) = names a ++ names b.
Proof. unfold names. by rewrite split_app, List.filter_app. Qed.
Lemma names_root b : names (String "/" b) = names b.
Proof. done. Qed.

Lemma split_name w : no_slash w -> split_slash w = [w].
Proof.
  induction w as [|c w IH]; [done|]. intros [Hc Hw]. simpl. rewrite (IH Hw).
  by destruct (Ascii.eqb_spec c "/").
Qed.
Lemma names_name w : name_wf w -> names w = [w].
Proof. intros [Hs Hne]. unfold names. rewrite split_name by done. simpl. by rewrite (proj2 (nonempty_spec w)). Qed.

Lemma names_join ws : Forall name_wf ws -> names (join_names ws) = ws.
Proof.
  induction 1 as [|w ws Hw Hws IH]; [done|]. destruct ws as [|w' ws]; [by apply names_name|].
  change (join_names (w :: w' :: ws)) with (w ++ String "/" (join_names (w' :: ws)))%string.
  by rewrite names_app, names_name, IH.
Qed.

(** [operator/] puts the names of the second path after those of the first. *)
Lemma split_ends_with_slash a b :
  last (split_slash a) = Some ""%string -> split_slash (a ++ b) = removelast (split_slash a) ++ split_slash b.
Proof.
  induction a as [|c a IH]; [done|]. simpl. destruct (split_slash_cons a) as (w & ws & E).
  destruct (Ascii.eqb_spec c "/").
  - rewrite E in *. intros Hl. rewrite IH by done. done.
  - rewrite E in *. destruct ws as [|w' ws]; [done|]. intros Hl. rewrite IH by done. done.
Qed.
Lemma names_snoc_empty ws : List.filter nonempty ws = List.filter nonempty (removelast ws) \/ last ws <> Some ""%string.
Proof.
  induction ws as [|w ws IH]; [by left|]. destruct ws as [|w' ws].
  - destruct w; [by left|by right].
  - destruct IH as [IH|IH]; [left|by right].
    change (removelast (w :: w' :: ws)) with (w :: removelast (w' :: ws)).
    revert IH. generalize (removelast (w' :: ws)) as l', (w' :: ws) as l. intros l' l IH. simpl. by rewrite IH.
Qed.
Lemma names_append dir p : is_absolute p = false -> names (path_append dir p) = names dir ++ names p.
Proof.
  intros Hp. unfold path_append. rewrite Hp. case_match eqn:He; [|by rewrite names_app].
  apply orb_prop in He as [He|He]; [|by apply String.eqb_eq in He as ->].
  unfold ends_with_slash in He. case_match eqn:Hl; [|done].
  apply andb_prop in He as [Hs _]. apply negb_true_iff in Hs. unfold nonempty in Hs.
  apply negb_false_iff, String.eqb_eq in Hs. subst.
  unfold names. rewrite split_ends_with_slash, List.filter_app by done. f_equal.
  by destruct (names_snoc_empty (split_slash dir)) as [->|].
Qed.

(** ** Normal paths *)

Lemma fold_normal_plain absolute ws kept :
  Forall plain_name ws -> fold_left (normal_step absolute) ws kept = rev ws ++ kept.
Proof.
  intros H. revert kept. induction H as [|w ws Hw Hws IH]; intros kept; [done|]. simpl.
  destruct Hw as (_ & H1 & H2).
  rewrite IH. unfold normal_step. rewrite (proj2 (String.eqb_neq _ _) H1), (proj2 (String.eqb_neq _ _) H2).
  by rewrite <- app_assoc.
Qed.

Lemma normal_step_plain kept w :
  name_wf w -> Forall plain_name kept -> Forall plain_name (normal_step true kept w).
Proof.
  intros Hw Hk. unfold normal_step. destruct (String.eqb_spec w "."); [done|].
  destruct (String.eqb_spec w ".."); [|by constructor].
  destruct kept as [|k kept]; [done|]. apply Forall_cons in Hk as [(_ & _ & Hk) Hks].
  by rewrite (proj2 (String.eqb_neq _ _) Hk).
Qed.
Lemma fold_normal_keeps_plain ws kept :
  Forall name_wf ws -> Forall plain_name kept -> Forall plain_name (fold_left (normal_step true) ws kept).
Proof. intros H. revert kept. induction H; intros kept Hk; [done|]. simpl. apply IHForall, normal_step_plain; done. Qed.

Lemma normal_names_plain ws : Forall name_wf ws -> Forall plain_name (normal_names true ws).
Proof. intros H. unfold normal_names. apply Forall_rev. by apply fold_normal_keeps_plain. Qed.

(** Normalising the names in front first does not change the result. *)
Lemma normal_names_app ws ws' :
  Forall name_wf ws -> normal_names true (normal_names true ws ++ ws') = normal_names true (ws ++ ws').
Proof.
  intros H. unfold normal_names at 1 3. rewrite !fold_left_app.
  rewrite (fold_normal_plain true (normal_names true ws)) by by apply normal_names_plain.
  unfold normal_names. by rewrite rev_involutive, app_nil_r.
Qed.

Lemma normal_names_idem ws : Forall name_wf ws -> normal_names true (normal_names true ws) = normal_names true ws.
Proof. intros H. pose proof (normal_names_app ws [] H) as E. by rewrite !app_nil_r in E. Qed.

(** Taking separators off the end of joined names leaves the names. *)
Lemma strip_back_name w t :
  name_wf w -> strip_back (w ++ t) = (w ++ strip_back t)%string.
Proof.
  intros [Hs _]. induction w as [|c w IH]; [done|]. destruct Hs as [Hc Hs]. simpl. rewrite IH by done.
  by destruct (Ascii.eqb_spec c "/").
Qed.
Lemma strip_back_join ws t :
  Forall name_wf ws -> strip_back t = ""%string -> strip_back (join_names ws ++ t) = join_names ws.
Proof.
  intros Hws Ht. induction Hws as [|w ws Hw Hws IH]; [done|]. destruct ws as [|w' ws].
  - simpl. rewrite strip_back_name, Ht by done. clear. induction w; simpl; congruence.
  - change (join_names (w :: w' :: ws)) with (w ++ String "/" (join_names (w' :: ws)))%string.
    rewrite string_app_assoc, strip_back_name by done. f_equal. cbn [String.append strip_back].
    rewrite IH. apply Forall_cons in Hws as [[_ Hne] _]. destruct w'; [done|]. by destruct ws.
Qed.

Lemma capio_normal_path_absolute p :
  is_absolute p = true -> capio_normal_path p = String "/" (join_names (normal_names true (names p))).
Proof.
  intros Hp. unfold capio_normal_path, lexically_normal. rewrite Hp. destruct p as [|c p]; [done|].
  cbn [String.eqb strip_slashes]. f_equal. apply strip_back_join; [|by case_match].
  eapply Forall_impl; [apply normal_names_plain, names_wf|]. by intros w [].
Qed.

Lemma names_normal_path p :
  is_absolute p = true -> names (capio_normal_path p) = normal_names true (names p).
Proof.
  intros Hp. rewrite capio_normal_path_absolute, names_root by done. apply names_join.
  eapply Forall_impl; [apply normal_names_plain, names_wf|]. by intros w [].
Qed.

Lemma path_append_absolute p q : is_absolute p = true -> is_absolute (path_append p q) = true.
Proof. intros Hp. destruct p as [|c p]; [done|]. unfold path_append. repeat case_match; simpl in *; done. Qed.

(** The normal form of an absolute path is absolute, has no ["."], [".."] or
    empty name and is its own normal form; resolving a relative path against
    it gives the same file as resolving it against the path it came from. *)
Theorem normal_path_correct p q :
  is_absolute p = true -> is_absolute q = false ->
  let r := capio_normal_path p in
  is_absolute r = true /\ Forall plain_name (names r) /\ capio_normal_path r = r /\
  capio_normal_path (path_append r q) = capio_normal_path (path_append p q).
Proof.
  intros Hp Hq r. assert (Hr : is_absolute r = true) by (subst r; by rewrite capio_normal_path_absolute).
  assert (Hn : names r = normal_names true (names p)) by by apply names_normal_path.
  pose proof (names_wf p) as Hwf. split_and!.
  - done.
  - rewrite Hn. by apply normal_names_plain.
  - rewrite (capio_normal_path_absolute r), Hn, normal_names_idem by done. subst r.
    by rewrite capio_normal_path_absolute.
  - rewrite !capio_normal_path_absolute, !names_append, Hn, normal_names_app
      by (done || by apply path_append_absolute). done.
Qed.

Lemma normal_path_correct_witness :
  capio_normal_path "/c/a/../d/." = "/c/d"%string /\
  capio_normal_path (path_append "/c/d" "../e/") = capio_normal_path (path_append "/c/a/../d/." "../e/").
Proof.
  destruct (normal_path_correct "/c/a/../d/." "../e/") as (_ & _ & _ & H); [reflexivity..|].
  split; [reflexivity|]. exact H.
Defined.

(** A name that starts with two dots is taken for a way out of the directory. *)
Example prefix_dotdot_name : is_capio_path "/c" "/c/..cache" = false. Proof. reflexivity. Qed.
