(* ===== verification/Locations.v ===== *)
(** * Where the files are

    [utils/location.hpp]: the map of the known locations, and the text files
    [files_location_<node>.txt], one per node, that the nodes share.  A line is
    the path, a space and the name of the node; a line that starts with [#]
    has been deleted.  A node opens its own file for writing and reading
    (["w+"]), so that a store goes to the position of the descriptor, and the
    files of the others in append mode (["a+"]), so that a store goes to the
    end.  A search reads the text as it is; the locks, and what a stream may still
    hold of an earlier search, are in [LocationLocks].  The failures of the file
    system are not modelled. *)
From S2P Require Import Prelude ClientManager PosixPath.

(** What the server asks of the backend and of the C library: the name of this
    node, the names of all nodes, and how far [getline] has read the file of
    the given length when it has returned the line that ends at an offset. *)
Class Nodes : Type := {
  get_node_name : string;
  get_nodes : list string;
  fetched (size line_end : Z) : Z
}.

(** The [const char *] of a location: the backend's own string, or a copy made
    by [load_file_location].  Two pointers are equal only for the backend's
    own string. *)
Inductive node_ptr : Type :=
| BackendName
| NodeCopy (node : string).

Record Locations : Type := {
  files_location : gmap string (node_ptr * Z);
  location_files : gmap string string
}.
Definition set_files_location v (l : Locations) : Locations :=
  {| files_location := v; location_files := location_files l |}.
Definition set_location_files v (l : Locations) : Locations :=
  {| files_location := files_location l; location_files := v |}.

Definition SPACE : ascii := " ".
Definition NEWLINE : ascii := "010".
Definition CAPIO_SERVER_INVALIDATE_FILE_PATH_CHAR : ascii := "#".

(** ** Text *)

(** The lines [getline] returns, each with its newline if it has one. *)
Fixpoint text_lines (s : string) : list string :=
  match s with
  | EmptyString => []
  | String c s' =>
      if Ascii.eqb c NEWLINE then String c EmptyString :: text_lines s'
      else match text_lines s' with
           | [] => [String c EmptyString]
           | l :: ls => String c l :: ls
           end
  end.

(** [line_str.substr(0, line_str.find_first_of(' '))] *)
Fixpoint line_path (s : string) : string :=
  match s with
  | EmptyString => EmptyString
  | String c s' => if Ascii.eqb c SPACE then EmptyString else String c (line_path s')
  end.

Definition line_valid (line : string) : bool :=
  match line with
  | EmptyString => true
  | String c _ => negb (Ascii.eqb c CAPIO_SERVER_INVALIDATE_FILE_PATH_CHAR)
  end.

(** [path.compare(q) == 0]: the paths have the same elements. *)
Definition same_path (p q : string) : bool := bool_decide (path_elems p = path_elems q).

Definition strlen (s : string) : Z := Z.of_nat (String.length s).

(** The start and the end of the first valid line of the path, from [pos]. *)
Fixpoint find_line (path : string) (pos : Z) (lines : list string) : option (Z * Z) :=
  match lines with
  | [] => None
  | line :: ls =>
      if line_valid line && same_path (line_path line) path
      then Some (pos, pos + strlen line)
      else find_line path (pos + strlen line) ls
  end.

(** [pwrite] of one character; past the end the gap is filled with NULs. *)
Fixpoint put_char (n : nat) (c : ascii) (s : string) : string :=
  match n, s with
  | O, EmptyString => String c EmptyString
  | O, String _ s' => String c s'
  | S n', EmptyString => String "000" (put_char n' c EmptyString)
  | S n', String d s' => String d (put_char n' c s')
  end.

(** ** Operations *)

Section Operations.
Context `{Nodes}.

(** The characters a [node_ptr] points to. *)
Definition node_text (p : node_ptr) : string :=
  match p with BackendName => get_node_name | NodeCopy s => s end.
(** [ptr == backend->get_node_name().c_str()], the addresses. *)
Definition node_is_backend_pointer (p : node_ptr) : bool :=
  match p with BackendName => true | NodeCopy _ => false end.
(** [ptr == backend->get_node_name()], the characters. *)
Definition node_is_backend (p : node_ptr) : bool := String.eqb (node_text p) get_node_name.

Definition location_file (l : Locations) (node : string) : string :=
  default "" (location_files l !! node).

Definition get_file_location_opt (l : Locations) (path : string) : option (node_ptr * Z) :=
  files_location l !! path.
Definition get_file_location (path : string) : M Locations (node_ptr * Z) :=
  let* o := gets (fun l => get_file_location_opt l path) in
  or_exit o "error file location not present in CAPIO".

Definition add_file_location (path : string) (p : node_ptr) (offset : Z) (l : Locations) : Locations :=
  set_files_location (emplace path (p, offset) (files_location l)) l.
Definition erase_from_files_location (path : string) (l : Locations) : Locations :=
  set_files_location (delete path (files_location l)) l.

(** [rename_file_location]: the location of a new path that exists is kept,
    and the one of the old path is dropped. *)
Definition rename_file_location (oldpath newpath : string) (l : Locations) : Locations :=
  match files_location l !! oldpath with
  | Some v => set_files_location (emplace newpath v (delete oldpath (files_location l))) l
  | None => l
  end.

(** The search of [load_file_location] over the nodes. *)
Fixpoint search_nodes (l : Locations) (path : string) (nodes : list string) : option (string * Z) :=
  match nodes with
  | [] => None
  | node :: ns =>
      let text := location_file l node in
      match find_line path 0 (text_lines text) with
      | Some (_, line_end) => Some (node, fetched (strlen text) line_end)
      | None => search_nodes l path ns
      end
  end.

(** [load_file_location] *)
Definition load_file_location (path : string) (l : Locations) : bool * Locations :=
  match search_nodes l path get_nodes with
  | Some (node, offset) => (true, add_file_location path (NodeCopy node) offset l)
  | None => (false, l)
  end.

(** A store of the invalidation mark through the descriptor of the file of
    [node], at [offset]: the own file is written there, another one at its end. *)
Definition invalidate (node : string) (offset : Z) (l : Locations) : Locations :=
  let text := location_file l node in
  let text' := if String.eqb node get_node_name
               then put_char (Z.to_nat offset) CAPIO_SERVER_INVALIDATE_FILE_PATH_CHAR text
               else (text ++ String CAPIO_SERVER_INVALIDATE_FILE_PATH_CHAR "")%string in
  set_location_files (<[node := text']> (location_files l)) l.

(** [delete_from_files_location].  An offset of -1 is looked up in the file;
    the mark is then stored through [files_location_fd], which is the
    descriptor that was positioned only when the node is this one. *)
Definition delete_from_files_location (path : string) : M Locations Z :=
  let* (p, offset) := get_file_location path in
  let node := node_text p in
  let* result :=
    (if offset =? -1 then
       let* text := gets (fun l => location_file l node) in
       match find_line path 0 (text_lines text) with
       | Some (start, _) =>
           if String.eqb node get_node_name
           then modify (invalidate node start) ;; ret 1
           else undefined "position of files_location_fd"
       | None => ret 2
       end
     else modify (invalidate node offset) ;; ret 1) in
  modify (erase_from_files_location path) ;;
  ret result.

(** [open_files_location] truncates the file of this node. *)
Definition open_files_location (l : Locations) : Locations :=
  set_location_files (<[get_node_name := ""]> (location_files l)) l.

(** The line [write_file_location] appends. *)
Definition location_line (path node : string) : string :=
  (path ++ String SPACE (node ++ String NEWLINE ""))%string.
Definition write_file_location (path : string) (l : Locations) : Locations :=
  let text := location_file l get_node_name in
  let l' := set_location_files
              (<[get_node_name := (text ++ location_line path get_node_name)%string]> (location_files l)) l in
  add_file_location path BackendName (strlen text) l'.
End Operations.

(** ** Lines of text *)

#[local] Arguments String.append !_ _ /.

Fixpoint str_all (P : ascii -> bool) (s : string) : bool :=
  match s with EmptyString => true | String c s' => P c && str_all P s' end.
(** Every line of the text has its newline. *)
Fixpoint complete (s : string) : bool :=
  match s with
  | EmptyString => true
  | String c EmptyString => Ascii.eqb c NEWLINE
  | String _ s' => complete s'
  end.
(** A path that can be listed: not empty, no space, no newline, no [#] first. *)
Definition path_ok (p : string) : bool :=
  str_all (fun c => negb (Ascii.eqb c SPACE) && negb (Ascii.eqb c NEWLINE)) p
  && line_valid p && negb (String.eqb p "").
Definition node_ok (n : string) : bool := str_all (fun c => negb (Ascii.eqb c NEWLINE)) n.

Lemma str_app_assoc (a b c : string) : ((a ++ b) ++ c)%string = (a ++ (b ++ c))%string.
Proof. induction a; simpl; congruence. Qed.
Lemma str_app_nil (a : string) : (a ++ "")%string = a.
Proof. induction a; simpl; congruence. Qed.

Lemma text_lines_nonempty s : s <> ""%string -> text_lines s <> [].
Proof. destruct s as [|c s]; [done|]. intros _. simpl. repeat case_match; done. Qed.

Lemma text_lines_app t s :
  complete t = true -> text_lines (t ++ s) = text_lines t ++ text_lines s.
Proof.
  induction t as [|c t IH]; [done|]. intros Hc. simpl.
  assert (Ht : complete t = true).
  { destruct t; [done|]. exact Hc. }
  rewrite IH by done. destruct (Ascii.eqb c NEWLINE) eqn:E; [done|].
  destruct t as [|c' t']; [simpl in Hc; congruence|].
  pose proof (text_lines_nonempty (String c' t') ltac:(done)) as Hne.
  destruct (text_lines (String c' t')); done.
Qed.

Lemma text_lines_line body :
  str_all (fun c => negb (Ascii.eqb c NEWLINE)) body = true ->
  text_lines (body ++ String NEWLINE "") = [(body ++ String NEWLINE "")%string].
Proof.
  induction body as [|c b IH]; [done|]. simpl. intros [H1 H2]%andb_prop.
  apply negb_true_iff in H1. by rewrite H1, IH.
Qed.

Lemma str_all_app P a b : str_all P (a ++ b) = str_all P a && str_all P b.
Proof. induction a; simpl; [done|]. by rewrite IHa, andb_assoc. Qed.
Lemma str_all_impl (P Q : ascii -> bool) s :
  (forall c, P c = true -> Q c = true) -> str_all P s = true -> str_all Q s = true.
Proof. intros HPQ. induction s; simpl; [done|]. intros [? ?]%andb_prop. rewrite HPQ; auto. Qed.

Lemma line_path_cut p s :
  str_all (fun c => negb (Ascii.eqb c SPACE)) p = true -> line_path (p ++ String SPACE s) = p.
Proof.
  induction p as [|c p IH]; [done|]. simpl. intros [H1 H2]%andb_prop.
  apply negb_true_iff in H1. by rewrite H1, IH.
Qed.

Lemma location_line_lines p n :
  path_ok p = true -> node_ok n = true -> text_lines (location_line p n) = [location_line p n].
Proof.
  intros Hp Hn. unfold location_line, path_ok, node_ok in *.
  apply andb_prop in Hp as [[Hp _]%andb_prop _].
  change (String SPACE (n ++ String NEWLINE "")) with (String SPACE n ++ String NEWLINE "")%string.
  rewrite <- str_app_assoc. apply text_lines_line. rewrite str_all_app. simpl. rewrite Hn, andb_true_r.
  eapply str_all_impl; [|exact Hp]. simpl. intros c. by destruct (Ascii.eqb c SPACE).
Qed.

Lemma location_line_path p n : path_ok p = true -> line_path (location_line p n) = p.
Proof.
  intros Hp. apply line_path_cut. apply andb_prop in Hp as [[Hp _]%andb_prop _].
  eapply str_all_impl; [|exact Hp]. simpl. intros c [? _]%andb_prop. done.
Qed.

Lemma location_line_valid p n : path_ok p = true -> line_valid (location_line p n) = true.
Proof. intros [[_ Hv]%andb_prop _]%andb_prop. by destruct p. Qed.

Lemma complete_app a b : complete a = true -> complete b = true -> complete (a ++ b) = true.
Proof.
  intros Ha Hb. induction a as [|c a IH]; [done|]. simpl.
  destruct a as [|c' a']; simpl in *.
  - destruct b; done.
  - by apply IH.
Qed.
Lemma complete_line body : complete (body ++ String NEWLINE "") = true.
Proof. induction body as [|c b IH]; [done|]. simpl. destruct b; done. Qed.
Lemma location_line_complete p n : complete (location_line p n) = true.
Proof.
  unfold location_line. change (String SPACE (n ++ String NEWLINE "")) with (String SPACE n ++ String NEWLINE "")%string.
  rewrite <- str_app_assoc. apply complete_line.
Qed.

(** Whether a list of lines lists the path. *)
Definition lists (path : string) (lines : list string) : bool :=
  existsb (fun line => line_valid line && same_path (line_path line) path) lines.
Lemma find_line_lists path pos lines : bool_decide (is_Some (find_line path pos lines)) = lists path lines.
Proof.
  revert pos. induction lines as [|l ls IH]; intros pos; simpl.
  - done.
  - destruct (line_valid l && _); simpl; [done|apply IH].
Qed.
Lemma find_line_Some path pos lines :
  lists path lines = true -> exists r, find_line path pos lines = Some r.
Proof. rewrite <- (find_line_lists path pos). intros H%bool_decide_eq_true. exact H. Qed.
Lemma find_line_None path pos lines :
  lists path lines = false -> find_line path pos lines = None.
Proof. rewrite <- (find_line_lists path pos). intros H%bool_decide_eq_false. by apply eq_None_not_Some. Qed.

Lemma lists_app path l1 l2 : lists path (l1 ++ l2) = lists path l1 || lists path l2.
Proof. apply existsb_app. Qed.

Section Facts.
Context `{Nodes}.

(** Whether the location file of a node lists the path. *)
Definition listed (l : Locations) (path node : string) : bool :=
  lists path (text_lines (location_file l node)).

Lemma load_file_location_found l path :
  fst (load_file_location path l) = existsb (listed l path) get_nodes.
Proof.
  unfold load_file_location. generalize get_nodes as ns. induction ns as [|n ns IH]; [done|].
  simpl. unfold listed at 1. destruct (lists path (text_lines (location_file l n))) eqn:E.
  - destruct (find_line_Some path 0 _ E) as [[a b] ->]. done.
  - rewrite (find_line_None path 0 _ E). simpl. exact IH.
Qed.

Lemma search_nodes_only l path node ns :
  node ∈ ns -> (forall n, n ∈ ns -> listed l path n = true -> n = node) -> listed l path node = true ->
  exists o, search_nodes l path ns = Some (node, o).
Proof.
  intros Hin Hu Hl. induction ns as [|n ns IH]; [by apply not_elem_of_nil in Hin|].
  simpl. destruct (listed l path n) eqn:E.
  - assert (n = node) as -> by (apply Hu; [left|done]).
    destruct (find_line_Some path 0 _ E) as [[a b] ->]. by eexists.
  - rewrite (find_line_None path 0 _ E). apply IH.
    + apply elem_of_cons in Hin as [->|?]; [congruence|done].
    + intros n' Hn'. apply Hu. by right.
Qed.

Lemma listed_write l path p n :
  complete (location_file l get_node_name) = true -> path_ok path = true ->
  node_ok get_node_name = true ->
  listed (write_file_location path l) p n =
  listed l p n || bool_decide (n = get_node_name) && same_path path p.
Proof.
  intros Hc Hp Hn. unfold listed, location_file, write_file_location. simpl.
  destruct (decide (n = get_node_name)) as [->|Hne].
  - rewrite lookup_insert_eq. simpl. rewrite text_lines_app by done.
    rewrite location_line_lines, lists_app by done. f_equal. simpl.
    rewrite location_line_valid, location_line_path by done. simpl. rewrite orb_false_r.
    by rewrite bool_decide_eq_true_2.
  - rewrite lookup_insert_ne by done. rewrite bool_decide_eq_false_2 by done.
    by rewrite orb_false_r.
Qed.
End Facts.

(** A location that one node publishes is found by every other: when a node
    writes the location of a file, any server whose list of nodes has that
    node, and which shares the location files, loads it; when no other node
    lists the path, the node it learns is the one that wrote it. *)
Theorem publish_then_load (writer reader : Nodes) l l2 path :
  path_ok path = true -> node_ok (@get_node_name writer) = true ->
  complete (location_file l (@get_node_name writer)) = true ->
  @get_node_name writer ∈ @get_nodes reader ->
  location_files l2 = location_files (@write_file_location writer path l) ->
  files_location l2 !! path = None ->
  (forall n, n ∈ @get_nodes reader -> listed l path n = true -> n = @get_node_name writer) ->
  exists l3 o, @load_file_location reader path l2 = (true, l3) /\
    get_file_location_opt l3 path = Some (NodeCopy (@get_node_name writer), o) /\
    location_files l3 = location_files l2.
Proof.
  intros Hp Hn Hc Hin Hsh Hnew Hu.
  assert (Hl : forall n, listed l2 path n = listed (@write_file_location writer path l) path n).
  { intros n. unfold listed, location_file. by rewrite Hsh. }
  destruct (@search_nodes_only reader l2 path (@get_node_name writer) (@get_nodes reader)) as [o Ho].
  - done.
  - intros n Hn'. rewrite Hl, listed_write by done. rewrite orb_true_iff, andb_true_iff, bool_decide_eq_true.
    intros [?|[? _]]; [by apply Hu|done].
  - rewrite Hl, listed_write by done. unfold same_path. rewrite !bool_decide_eq_true_2 by done. by rewrite orb_true_r.
  - unfold load_file_location. rewrite Ho. do 2 eexists. split; [done|]. split; [|done].
    unfold get_file_location_opt, add_file_location. simpl. by rewrite emplace_lookup, Hnew.
Qed.

Definition nodes_ab (name : string) : Nodes :=
  {| get_node_name := name; get_nodes := ["a"; "b"]%string; fetched := fun size _ => size |}.
Definition no_locations : Locations := {| files_location := ∅; location_files := ∅ |}.

Lemma publish_then_load_witness :
  let l2 := {| files_location := ∅;
               location_files := location_files (@write_file_location (nodes_ab "a") "/d/f" no_locations) |} in
  exists l3 o, @load_file_location (nodes_ab "b") "/d/f" l2 = (true, l3) /\
    get_file_location_opt l3 "/d/f" = Some (NodeCopy "a", o).
Proof.
  intros l2.
  destruct (publish_then_load (nodes_ab "a") (nodes_ab "b") no_locations l2 "/d/f")
    as (l3 & o & E1 & E2 & _); [reflexivity..| | | | |].
  - left.
  - reflexivity.
  - reflexivity.
  - intros n _ E. vm_compute in E. discriminate.
  - exists l3, o. split; [exact E1|exact E2].
Defined.

Lemma put_char_at t c r d : put_char (String.length t) d (t ++ String c r) = (t ++ String d r)%string.
Proof. induction t; simpl; [done|]. by f_equal. Qed.

Lemma lists_marked path body rest :
  str_all (fun c => negb (Ascii.eqb c NEWLINE)) body = true ->
  lists path (text_lines (String CAPIO_SERVER_INVALIDATE_FILE_PATH_CHAR body ++ String NEWLINE "" ++ rest))
  = lists path (text_lines rest).
Proof.
  intros Hb. rewrite <- str_app_assoc, text_lines_app by apply complete_line.
  rewrite lists_app, text_lines_line by done. done.
Qed.

Lemma location_line_split p n : path_ok p = true -> node_ok n = true ->
  exists c body, location_line p n = (String c body ++ String NEWLINE "")%string /\
    str_all (fun c => negb (Ascii.eqb c NEWLINE)) body = true.
Proof.
  intros Hp Hn. unfold path_ok in Hp. apply andb_prop in Hp as [[Hp _]%andb_prop Hne].
  destruct p as [|c p]; [done|]. exists c, (p ++ String SPACE n)%string.
  split; [unfold location_line; simpl; by rewrite str_app_assoc|].
  simpl in Hp. apply andb_prop in Hp as [_ Hp]. rewrite str_all_app. simpl.
  unfold node_ok in Hn. rewrite Hn, andb_true_r.
  eapply str_all_impl; [|exact Hp]. simpl. intros c'. by destruct (Ascii.eqb c' SPACE).
Qed.

(** Deleting a location this node published: whatever was published before and
    since, [delete_from_files_location] finds it at the offset remembered when
    it was written, removes it from the map, and marks exactly its line: every
    other path is listed as before by every node, and the path itself only if
    another line lists it. *)
Theorem delete_published `{Nodes} l path t1 t2 :
  path_ok path = true -> node_ok get_node_name = true ->
  complete t1 = true -> complete t2 = true ->
  location_file l get_node_name = (t1 ++ location_line path get_node_name ++ t2)%string ->
  get_file_location_opt l path = Some (BackendName, strlen t1) ->
  exists l', delete_from_files_location path l = Done (1, l') /\
    get_file_location_opt l' path = None /\
    (forall q n, same_path path q = false -> listed l' q n = listed l q n) /\
    listed l' path get_node_name = lists path (text_lines t1) || lists path (text_lines t2).
Proof.
  intros Hp Hn H1 H2 Htext Hloc.
  destruct (location_line_split path get_node_name Hp Hn) as (c & body & Hline & Hbody).
  eexists. split.
  { unfold delete_from_files_location, get_file_location, bind, gets, or_exit. simpl. rewrite Hloc. simpl.
    unfold strlen. rewrite (proj2 (Z.eqb_neq _ _)) by lia. simpl. done. }
  assert (Hmine : forall q, lists q (text_lines (location_file
      (erase_from_files_location path (invalidate get_node_name (strlen t1) l)) get_node_name))
      = lists q (text_lines t1) || lists q (text_lines t2)).
  { intros q. unfold location_file at 1, erase_from_files_location, invalidate. simpl.
    rewrite lookup_insert_eq, String.eqb_refl. simpl. rewrite Htext, Hline, str_app_assoc.
    unfold strlen. rewrite Nat2Z.id. simpl. rewrite put_char_at.
    rewrite text_lines_app, lists_app by done. f_equal. by apply lists_marked. }
  split_and!.
  - unfold get_file_location_opt. simpl. by rewrite lookup_delete_eq.
  - intros q n Hq. destruct (decide (n = get_node_name)) as [->|Hne].
    + unfold listed. change (node_text BackendName) with get_node_name. rewrite Hmine.
      rewrite Htext, !text_lines_app, !lists_app, location_line_lines
        by (done || apply location_line_complete).
      simpl. rewrite location_line_path, Hq by done. by rewrite andb_false_r.
    + unfold listed, location_file. simpl. change (node_text BackendName) with get_node_name.
      by rewrite lookup_insert_ne.
  - exact (Hmine path).
Qed.

Lemma delete_published_witness :
  let H := nodes_ab "a" in
  let l := write_file_location "/d/g" (write_file_location "/d/f" no_locations) in
  exists l', delete_from_files_location "/d/f" l = Done (1, l') /\
    fst (load_file_location "/d/f" l') = false /\ fst (load_file_location "/d/g" l') = true.
Proof.
  intros H l.
  destruct (delete_published l "/d/f" "" (location_line "/d/g" "a")) as (l' & E & _); [reflexivity..|].
  exists l'. split; [exact E|]. vm_compute in E. injection E as <-. vm_compute. split; reflexivity.
Defined.

(** Deleting a location loaded from another node does not delete it: the mark is
    appended to the other node's file, the path stays listed there, and the
    next file that node publishes is hidden by the mark. *)
Theorem delete_loaded_hides_next :
  let b := nodes_ab "b" in
  let l0 := @write_file_location (nodes_ab "a") "/d/f" no_locations in
  let l1 := snd (@load_file_location b "/d/f" {| files_location := ∅; location_files := location_files l0 |}) in
  exists l2, @delete_from_files_location b "/d/f" l1 = Done (1, l2) /\
    listed l2 "/d/f" "a" = true /\
    listed (@write_file_location (nodes_ab "a") "/d/g" l2) "/d/g" "a" = false.
Proof. eexists. split; [vm_compute; reflexivity|]. split; vm_compute; reflexivity. Qed.
