(* ===== verification/LocationLocks.v ===== *)
(** * The location files under any interleaving of the servers

    [Locations] reads and changes the text of a location file in one step.
    Here the calls of [utils/location.hpp] that use the file of one node are
    run by threads of several servers, a lock, a seek, a character read or a
    character written at a time.  [Flock] takes a record lock of the whole
    file, which belongs to the process: it conflicts with the locks of the
    other processes, never with those of the same one, and any thread of the
    process gives it back.  The threads of a process share the position of its
    descriptor and its stream; the owner of the file writes at that position
    (["w+"]), the others at the end (["a+"]).  Searches read the file through
    the buffer of the stream, stores go round it: after [fseek] the stream may
    still hold characters of an earlier search, and how many it holds is an
    argument, [kept].  Left out are the map of the known locations, which no
    other server sees, and the system calls that fail, which end the server,
    or that store less than they are given. *)
From S2P Require Import Prelude Interleaving ClientManager Locations.

(** ** Record locks *)

(** The locks of the file: a process, and whether it is the only one ([F_WRLCK]). *)
Notation record_locks := (list (nat * bool)).

Definition conflicts (p : nat) (exclusive : bool) (l : nat * bool) : bool :=
  negb (bool_decide (l.1 = p)) && (exclusive || l.2).

(** [Flock::lock]: [F_SETLKW] waits for the other processes, and replaces the
    lock the process has. *)
Definition Flock_lock (p : nat) (exclusive : bool) (ls : record_locks) : outcome record_locks :=
  if existsb (conflicts p exclusive) ls then Blocks "F_SETLKW"
  else Done ((p, exclusive) :: filter (fun l => l.1 <> p) ls).

(** [Flock::unlock]: [F_UNLCK] *)
Definition Flock_unlock (p : nat) (ls : record_locks) : record_locks := filter (fun l => l.1 <> p) ls.

(** ** Threads *)

(** [write_file_location], which is for the owner of the file, the search of
    [load_file_location] in this file, and [delete_from_files_location] of a
    location whose offset is known and of one whose offset is -1. *)
Inductive call : Type :=
| WriteLocation (path : string)
| LoadLocation (path : string)
| DeleteLocation (offset : Z)
| DeleteListed (path : string).
Definition exclusive (c : call) : bool := match c with LoadLocation _ => false | _ => true end.

(** Where a thread is in its first call. *)
Inductive place : Type :=
| Outside                  (* before the lock *)
| Locked                   (* before the seek *)
| Writing (rest : string)  (* in the [write], with these characters left *)
| Scanning (n : nat) (line : string) (* in the loop, at this character, with this much of a line read *)
| Releasing.               (* before the unlock *)
#[export] Instance place_eq_dec : EqDecision place.
Proof. solve_decision. Defined.
Record thread : Type := { proc : nat; at_ : place; todo : list call }.

(** The text and the locks of the file; for each process the position of its
    descriptor, and the file as its stream has it in its last search. *)
Record sys : Type := { text : string; lks : record_locks; pos : nat -> Z; views : nat -> string; pool : list thread }.

Definition moved (p : place) (t : thread) : thread := {| proc := proc t; at_ := p; todo := todo t |}.
Definition set_at {A} (p : nat) (x : A) (f : nat -> A) : nat -> A := fun q => if decide (q = p) then x else f q.

(** The text [x] read by a stream that holds the first [k] characters of [old]. *)
Fixpoint buffered (k : nat) (old x : string) : string :=
  match k, old, x with
  | S k', String c old', String _ x' => String c (buffered k' old' x')
  | _, _, _ => x
  end.

Inductive event : Type :=
| Wrote (path : string)
| Looked (path : string) (found : bool)
| Deleted (p : nat) (offset : Z)
| Erased (p : nat) (path : string) (found : bool).
Definition call_of (e : event) : call :=
  match e with
  | Wrote path => WriteLocation path
  | Looked path _ => LoadLocation path
  | Deleted _ off => DeleteLocation off
  | Erased _ path _ => DeleteListed path
  end.

Section Step.
Context (owner : nat) (node : string) (kept : sys -> nat -> nat).

(** Where a character goes that process [p] writes. *)
Definition write_at (p : nat) (s : sys) : Z := if decide (p = owner) then pos s p else strlen (text s).

Definition stepped : Type := list event * string * record_locks * (nat -> Z) * (nat -> string) * thread.

(** [fseek(descriptor, 0, SEEK_SET)]: the descriptor is after what the stream holds. *)
Definition start_search (s : sys) (t : thread) : stepped :=
  let p := proc t in
  let k := Nat.min (kept s p) (String.length (views s p)) in
  ([], text s, lks s, set_at p (Z.of_nat k) (pos s), set_at p (buffered k (views s p) (text s)) (views s), moved (Scanning 0 "") t).

(** The seek after the lock. *)
Definition mark : string := String CAPIO_SERVER_INVALIDATE_FILE_PATH_CHAR "".
Definition seek_step (c : call) (s : sys) (t : thread) : stepped :=
  match c with
  | WriteLocation path =>
      ([], text s, lks s, set_at (proc t) (strlen (text s)) (pos s), views s, moved (Writing (location_line path node)) t)
  | LoadLocation _ | DeleteListed _ => start_search s t
  | DeleteLocation offset => ([], text s, lks s, set_at (proc t) offset (pos s), views s, moved (Writing mark) t)
  end.

(** One character of the [write]; the call has its effect with the last one. *)
Definition write_step (call : call) (c : ascii) (rest : string) (s : sys) (t : thread) : stepped :=
  let at_pos := write_at (proc t) s in
  let es := match rest, call with
            | ""%string, WriteLocation path => [Wrote path]
            | ""%string, DeleteLocation off => [Deleted (proc t) off]
            | ""%string, DeleteListed path => [Erased (proc t) path true]
            | _, _ => []
            end in
  (es, put_char (Z.to_nat at_pos) c (text s), lks s, set_at (proc t) (at_pos + 1) (pos s), views s, moved (Writing rest) t).

(** One character of [getline], and the test of a line that is over.  A deletion
    marks the line it found, [from] being where it starts: the mark goes to
    [files_location_fd], which is this file for its owner only. *)
Definition is_line_of (path line : string) : bool := line_valid line && same_path (line_path line) path.
Definition found_step (c : call) (from : Z) (ps : nat -> Z) (s : sys) (t : thread) : stepped :=
  match c with
  | DeleteListed path =>
      let ps' := set_at (proc t) from ps in
      if decide (proc t = owner) then ([], text s, lks s, ps', views s, moved (Writing mark) t)
      else ([Erased (proc t) path true], text s, lks s, ps', views s, moved Releasing t)
  | LoadLocation path => ([Looked path true], text s, lks s, ps, views s, moved Releasing t)
  | _ => ([], text s, lks s, ps, views s, moved Releasing t)
  end.
Definition missed (c : call) (t : thread) : list event :=
  match c with
  | DeleteListed path => [Erased (proc t) path false]
  | LoadLocation path => [Looked path false]
  | _ => []
  end.
Definition scan_step (c : call) (path : string) (n : nat) (line : string) (s : sys) (t : thread) : stepped :=
  let p := proc t in
  let test n' line' ps :=
    if is_line_of path line' then found_step c (Z.of_nat n' - strlen line') ps s t
    else ([], text s, lks s, ps, views s, moved (Scanning n' "") t) in
  match String.get n (views s p) with
  | Some d =>
      let line' := (line ++ String d "")%string in
      let ps := set_at p (Z.max (pos s p) (Z.of_nat (S n))) (pos s) in
      if Ascii.eqb d NEWLINE then test (S n) line' ps
      else ([], text s, lks s, ps, views s, moved (Scanning (S n) line') t)
  | None =>
      match line with
      | EmptyString => (missed c t, text s, lks s, pos s, views s, moved Releasing t)
      | _ => test n line (pos s)
      end
  end.

(** The path a call searches the file for. *)
Definition searched (c : call) : option string :=
  match c with LoadLocation path | DeleteListed path => Some path | _ => None end.

Definition thread_step (s : sys) (t : thread) : outcome stepped :=
  match todo t with
  | [] => Blocks "no call left"
  | c :: rest =>
      match at_ t with
      | Outside => outcome_bind (Flock_lock (proc t) (exclusive c) (lks s)) (fun ls => Done ([], text s, ls, pos s, views s, moved Locked t))
      | Locked => Done (seek_step c s t)
      | Writing (String d r) => Done (write_step c d r s t)
      | Writing EmptyString => Done ([], text s, lks s, pos s, views s, moved Releasing t)
      | Scanning n line =>
          match searched c with
          | Some path => Done (scan_step c path n line s t)
          | None => UB "no search"
          end
      | Releasing =>
          Done ([], text s, Flock_unlock (proc t) (lks s), pos s, views s, {| proc := proc t; at_ := Outside; todo := rest |})
      end
  end.

Definition sys_step (i : nat) (s : sys) : outcome (list event * sys) :=
  match pool s !! i with
  | None => Blocks "no such thread"
  | Some t =>
      outcome_bind (thread_step s t) (fun '(es, x, ls, ps, vs, t') =>
        Done (es, {| text := x; lks := ls; pos := ps; views := vs; pool := <[i := t']> (pool s) |}))
  end.

Inductive steps (s0 : sys) : list (nat * event) -> sys -> Prop :=
| steps_nil : steps s0 [] s0
| steps_snoc tr s i es s' :
    steps s0 tr s -> sys_step i s = Done (es, s') -> steps s0 (tr ++ ((fun e => (i, e)) <$> es)) s'.

Fixpoint run (sched : list nat) (s : sys) : list (nat * event) * sys :=
  match sched with
  | [] => ([], s)
  | i :: sched' =>
      match sys_step i s with
      | Done (es, s') => let '(tr, s2) := run sched' s' in (((fun e => (i, e)) <$> es) ++ tr, s2)
      | _ => run sched' s
      end
  end.

(** Servers with calls to make: a thread is its process and its calls. *)
Definition start (x : string) (ts : list (nat * list call)) : sys := {|
  text := x; lks := []; pos := fun _ => 0; views := fun _ => ""%string;
  pool := (fun t => {| proc := t.1; at_ := Outside; todo := t.2 |}) <$> ts |}.

End Step.

(** ** The calls as atomic operations on the text *)

(** What a search may read for the text [x]: the same characters, except where a
    deletion has put its mark, at the places [ds]. *)
Definition sees (ds : list nat) (x v : string) : Prop :=
  String.length v = String.length x /\ forall n, n ∉ ds -> String.get n v = String.get n x.

(** The text and the places marked, before and after a call. *)
Inductive atomic (owner : nat) (node : string) (x : string) (ds : list nat) : event -> string -> list nat -> Prop :=
| at_write path : atomic owner node x ds (Wrote path) (x ++ location_line path node)%string ds
| at_look path v : sees ds x v -> atomic owner node x ds (Looked path (lists path (text_lines v))) x ds
| at_delete p off :
    let n := Z.to_nat (if decide (p = owner) then off else strlen x) in
    atomic owner node x ds (Deleted p off) (put_char n CAPIO_SERVER_INVALIDATE_FILE_PATH_CHAR x) (n :: ds)
| at_erase path v from till :
    sees ds x v -> find_line path 0 (text_lines v) = Some (from, till) ->
    let n := Z.to_nat from in
    atomic owner node x ds (Erased owner path true) (put_char n CAPIO_SERVER_INVALIDATE_FILE_PATH_CHAR x) (n :: ds)
| at_erase_elsewhere p path v :
    sees ds x v -> p <> owner -> lists path (text_lines v) = true -> atomic owner node x ds (Erased p path true) x ds
| at_erase_none p path v :
    sees ds x v -> lists path (text_lines v) = false -> atomic owner node x ds (Erased p path false) x ds.
Inductive atomic_trace (owner : nat) (node : string) (x0 : string) : list event -> string -> list nat -> Prop :=
| atr_nil : atomic_trace owner node x0 [] x0 []
| atr_snoc tr x ds e x' ds' :
    atomic_trace owner node x0 tr x ds -> atomic owner node x ds e x' ds' -> atomic_trace owner node x0 (tr ++ [e]) x' ds'.

(** ** Characters of a text *)

#[local] Arguments String.append !_ _ /.

Lemma put_char_end t c : put_char (String.length t) c t = (t ++ String c "")%string.
Proof. induction t; simpl; [done|]. by f_equal. Qed.
Lemma get_at t c r : String.get (String.length t) (t ++ String c r) = Some c.
Proof. induction t; simpl; done. Qed.
Lemma get_end t : String.get (String.length t) t = None.
Proof. induction t; simpl; done. Qed.
Lemma strlen_app a b : strlen (a ++ b) = strlen a + strlen b.
Proof. unfold strlen. induction a; simpl; [done|]. lia. Qed.
Lemma strlen_nat s : Z.to_nat (strlen s) = String.length s.
Proof. unfold strlen. lia. Qed.

Definition no_newline (s : string) : Prop := str_all (fun c => negb (Ascii.eqb c NEWLINE)) s = true.
Lemma no_newline_snoc s c : no_newline s -> Ascii.eqb c NEWLINE = false -> no_newline (s ++ String c "").
Proof. unfold no_newline. intros Hs Hc. rewrite str_all_app, Hs. simpl. by rewrite Hc. Qed.

Lemma text_lines_first line rest :
  no_newline line ->
  text_lines (line ++ String NEWLINE rest) = (line ++ String NEWLINE "")%string :: text_lines rest.
Proof.
  intros Hl. replace (line ++ String NEWLINE rest)%string with ((line ++ String NEWLINE "") ++ rest)%string
    by (by rewrite str_app_assoc).
  rewrite text_lines_app by apply complete_line. by rewrite text_lines_line.
Qed.
Lemma text_lines_last line : no_newline line -> line <> ""%string -> text_lines line = [line].
Proof.
  unfold no_newline. induction line as [|c l IH]; [done|]. simpl. intros [Hc Hl]%andb_prop _.
  apply negb_true_iff in Hc. rewrite Hc. destruct l as [|d l]; [done|]. by rewrite IH.
Qed.

(** ** What a search reads *)

Lemma get_app_l a b n c : String.get n a = Some c -> String.get n (a ++ b) = Some c.
Proof. revert n. induction a as [|d a IH]; intros [|n]; simpl; (done || auto). Qed.
Lemma get_put n m d x : n <> m -> (n < String.length x)%nat -> String.get n (put_char m d x) = String.get n x.
Proof. revert n m. induction x as [|e x IH]; intros [|n] [|m]; simpl; try (done || lia). intros. apply IH; lia. Qed.
Lemma get_length n x c : String.get n x = Some c -> (n < String.length x)%nat.
Proof. revert n. induction x as [|e x IH]; intros [|n]; simpl; try (done || lia). intros H%IH. lia. Qed.
Lemma get_is_Some n x : (n < String.length x)%nat -> exists c, String.get n x = Some c.
Proof. revert n. induction x as [|e x IH]; intros [|n]; simpl; try lia; [by eexists|]. intros. apply IH. lia. Qed.
Lemma get_ext x y : String.length x = String.length y -> (forall n, String.get n x = String.get n y) -> x = y.
Proof.
  revert y. induction x as [|c x IH]; intros [|d y]; simpl; try done. intros [= Hl] H.
  pose proof (H 0%nat) as [= ->]. f_equal. apply IH; [done|]. intros n. exact (H (S n)).
Qed.

(** Where nothing has been marked a search reads the text. *)
Lemma sees_unmarked x v : sees [] x v -> v = x.
Proof. intros [Hl H]. apply get_ext; [done|]. intros n. apply H, not_elem_of_nil. Qed.

(** The characters a stream may still hold. *)
Definition was_read (ds : list nat) (x old : string) : Prop :=
  forall n c, String.get n old = Some c -> n ∉ ds -> String.get n x = Some c.

Lemma was_read_app ds x old y : was_read ds x old -> was_read ds (x ++ y) old.
Proof. intros H n c Hn Hd. by apply get_app_l, H. Qed.
Lemma was_read_put ds x old m d : was_read ds x old -> was_read (m :: ds) (put_char m d x) old.
Proof.
  intros H n c Hn [Hne Hd]%not_elem_of_cons. specialize (H n c Hn Hd).
  by rewrite get_put by (done || by eapply get_length).
Qed.
Lemma sees_was_read ds x v : sees ds x v -> was_read ds x v.
Proof. intros [_ H] n c Hn Hd. by rewrite <- H. Qed.
Lemma buffered_sees ds k old x : was_read ds x old -> sees ds x (buffered k old x).
Proof.
  revert ds old x. induction k as [|k IH]; intros ds old x H; [by split|].
  destruct old as [|c old], x as [|d x]; try by split.
  assert (was_read ((fun n => (n - 1)%nat) <$> filter (fun n => n <> 0%nat) ds) x old) as Ht.
  { intros n e Hn Hd. apply (H (S n) e Hn). intros Hin. apply Hd, list_elem_of_fmap. exists (S n). split; [lia|].
    apply list_elem_of_filter. by split. }
  destruct (IH _ _ _ Ht) as [Hl Hg]. split; simpl; [by rewrite Hl|]. intros [|n] Hn; simpl.
  - pose proof (H 0%nat c eq_refl Hn) as E. simpl in E. congruence.
  - apply Hg. intros (m & -> & [Hm0 Hm]%list_elem_of_filter)%list_elem_of_fmap. apply Hn. by replace (S (m - 1)) with m by lia.
Qed.

(** ** The invariant *)

Section Invariant.
Context (owner : nat) (node : string) (kept : sys -> nat -> nat).
#[local] Notation atomic := (atomic owner node).
#[local] Notation atomic_trace := (atomic_trace owner node).
#[local] Notation thread_step := (thread_step owner node kept).
#[local] Notation sys_step := (sys_step owner node kept).
#[local] Notation steps := (steps owner node kept).

(** The thread is in the middle of a line it publishes. *)
Definition mid (t : thread) : bool :=
  match at_ t, todo t with Writing (String _ _), WriteLocation _ :: _ => true | _, _ => false end.

(** What a thread knows of the text [y] of the file, of the position of its
    descriptor and of its stream, [x] being the text as the atomic operations have
    it and [ds] the places they have marked. *)
Definition content (x : string) (ds : list nat) (y : string) (ps : nat -> Z) (vs : nat -> string) (t : thread) : Prop :=
  match at_ t, todo t with
  | Writing (String c r), WriteLocation path :: _ =>
      exists w, location_line path node = (w ++ String c r)%string /\ y = (x ++ w)%string /\
        (proc t = owner -> ps (proc t) = strlen y)
  | Writing (String c r), DeleteLocation off :: _ =>
      c = CAPIO_SERVER_INVALIDATE_FILE_PATH_CHAR /\ r = ""%string /\ ps (proc t) = off
  | Writing (String c r), DeleteListed path :: _ =>
      c = CAPIO_SERVER_INVALIDATE_FILE_PATH_CHAR /\ r = ""%string /\ proc t = owner /\ sees ds y (vs (proc t)) /\
        exists till, find_line path 0 (text_lines (vs (proc t))) = Some (ps (proc t), till)
  | Writing (String _ _), LoadLocation _ :: _ => False
  | Scanning n line, c :: _ =>
      exists path past rest, searched c = Some path /\ sees ds y (vs (proc t)) /\
        vs (proc t) = (past ++ line ++ rest)%string /\ n = String.length (past ++ line) /\ no_newline line /\
        find_line path 0 (text_lines (vs (proc t))) = find_line path (strlen past) (text_lines (line ++ rest))
  | _, _ => True
  end.

Record loc_inv (x : string) (ds : list nat) (s : sys) : Prop := {
  li_procs : NoDup (proc <$> pool s);
  li_holds i t : pool s !! i = Some t -> at_ t <> Outside ->
    exists c rest, todo t = c :: rest /\ (proc t, exclusive c) ∈ lks s;
  li_owner p e : (p, e) ∈ lks s -> exists i t, pool s !! i = Some t /\ proc t = p /\ at_ t <> Outside;
  li_alone p q e : (p, true) ∈ lks s -> (q, e) ∈ lks s -> q = p;
  li_content i t : pool s !! i = Some t -> content x ds (text s) (pos s) (views s) t;
  li_views p : was_read ds (text s) (views s p);
  li_whole : (forall i t, pool s !! i = Some t -> mid t = false) -> text s = x
}.

Lemma flock_start_inv x ts : NoDup ts.*1 -> loc_inv x [] (start x ts).
Proof using.
  intros Hn. assert (forall i t, pool (start x ts) !! i = Some t -> at_ t = Outside) as Hp.
  { intros i t. simpl. rewrite list_lookup_fmap. destruct (ts !! i); simpl; [by intros [= <-]|done]. }
  split; simpl.
  - rewrite <- list_fmap_compose. exact Hn.
  - intros i t Ht. by rewrite (Hp i t Ht).
  - intros p e H. by apply elem_of_nil in H.
  - intros p q e H. by apply elem_of_nil in H.
  - intros i t Ht. unfold content. by rewrite (Hp i t Ht).
  - intros p n c. by destruct n.
  - done.
Qed.

(** A step that changes the text, or the one of the atomic operations, is made
    with the exclusive lock. *)
Definition effect (x : string) (ds : list nat) (es : list event) (x' : string) (ds' : list nat) : Prop :=
  es = [] /\ x' = x /\ ds' = ds \/ exists e, es = [e] /\ atomic x ds e x' ds'.
Definition changes (s : sys) (t : thread) (x : string) (ds : list nat) (y x' : string) (ds' : list nat) : Prop :=
  y = text s /\ x' = x /\ ds' = ds \/ at_ t <> Outside /\ exists c rest, todo t = c :: rest /\ exclusive c = true.

Record own_step (x : string) (ds : list nat) (s : sys) (t : thread) (es : list event) (y : string) (ps : nat -> Z)
    (vs : nat -> string) (t' : thread) (x' : string) (ds' : list nat) : Prop := {
  os_effect : effect x ds es x' ds';
  os_content : content x' ds' y ps vs t';
  os_whole : at_ t <> Outside -> mid t' = false -> y = x';
  os_changes : changes s t x ds y x' ds';
  os_mid : at_ t = Outside -> mid t' = false;
  os_pos q : q <> proc t -> ps q = pos s q /\ vs q = views s q;
  os_views q : was_read ds' y (vs q);
  os_proc : proc t' = proc t
}.

Lemma set_at_eq {A} p (z : A) f : set_at p z f p = z.
Proof using. unfold set_at. by rewrite decide_True. Qed.
Lemma set_at_ne {A} p q (z : A) f : q <> p -> set_at p z f q = f q.
Proof using. intros H. unfold set_at. by rewrite decide_False. Qed.
Lemma Done_inj {A} (a b : A) : Done a = Done b -> a = b.
Proof using. congruence. Qed.

Section Own.
Context (x : string) (ds : list nat) (s : sys) (t : thread) (c : call) (rest : list call).
Hypothesis Ht : todo t = c :: rest.
Hypothesis Hv : forall q, was_read ds (text s) (views s q).
Hypothesis Hin : at_ t <> Outside.

Definition owns (st : stepped) : Prop :=
  let '(es, y, _, ps, vs, t') := st in exists x' ds', own_step x ds s t es y ps vs t' x' ds'.

(** A step that leaves the text alone. *)
Lemma still_own es ls ps vs p :
  text s = x -> effect x ds es x ds -> content x ds (text s) ps vs (moved p t) ->
  (forall q, q <> proc t -> ps q = pos s q /\ vs q = views s q) -> was_read ds (text s) (vs (proc t)) ->
  owns (es, text s, ls, ps, vs, moved p t).
Proof using Hv Hin.
  intros Hx He Hc Hq Hr. exists x, ds. split; try done; [by left|]. intros q.
  destruct (decide (q = proc t)) as [->|Hne]; [done|]. by rewrite (proj2 (Hq q Hne)).
Qed.
Lemma no_effect : effect x ds [] x ds.
Proof using. by left. Qed.
Lemma one_effect e : atomic x ds e x ds -> effect x ds [e] x ds.
Proof using. right. by exists e. Qed.
Lemma only_pos z q : q <> proc t -> set_at (proc t) z (pos s) q = pos s q /\ views s q = views s q.
Proof using. intros Hq. by rewrite set_at_ne. Qed.

Lemma search_own path : searched c = Some path -> text s = x -> owns (start_search kept s t).
Proof using Ht Hv Hin.
  intros Hs Hx. unfold start_search. set (k := Nat.min _ _). pose proof (buffered_sees ds k _ _ (Hv (proc t))) as Hsee.
  apply still_own; [done|apply no_effect| |intros q Hq; by rewrite !set_at_ne|rewrite set_at_eq; by apply sees_was_read].
  unfold content. simpl. rewrite Ht, set_at_eq. by eexists path, ""%string, _.
Qed.

Lemma seek_own : text s = x -> owns (seek_step node kept c s t).
Proof using Ht Hv Hin.
  intros Hx. destruct (searched c) as [path|] eqn:Hs.
  { assert (seek_step node kept c s t = start_search kept s t) as -> by (clear Ht; by destruct c). by apply (search_own path). }
  pose proof Ht as Ht'. destruct c as [path|path|off|path]; try done.
  - apply still_own; [done|apply no_effect| |apply only_pos|apply Hv]. unfold content. simpl. rewrite Ht'. unfold location_line.
    destruct path as [|a p]; simpl; eexists ""%string; rewrite str_app_nil; (split; [done|]); (split; [done|]); intros _; by rewrite set_at_eq.
  - apply still_own; [done|apply no_effect| |apply only_pos|apply Hv]. unfold content. simpl. by rewrite Ht', set_at_eq.
Qed.

Lemma write_line_own d r path :
  c = WriteLocation path -> at_ t = Writing (String d r) -> content x ds (text s) (pos s) (views s) t ->
  owns (write_step owner c d r s t).
Proof using Ht Hv Hin.
  intros Hc Ha Hk. unfold content in Hk. rewrite Ha, Ht, Hc in Hk. destruct Hk as (w & Hline & Hy & Hpos). unfold write_step.
  assert (write_at owner (proc t) s = strlen (text s)) as -> by (unfold write_at; case_decide; auto).
  rewrite strlen_nat, put_char_end.
  assert (forall x' ds', changes s t x ds (text s ++ String d "") x' ds') as Hch.
  { intros x' ds'. right. split; [done|]. exists c, rest. split; [done|by rewrite Hc]. }
  assert (text s ++ String d "" = x ++ (w ++ String d ""))%string as Hy' by (rewrite Hy; apply str_app_assoc).
  assert (forall q, was_read ds (text s ++ String d "") (views s q)) as Hr by (intros q; by apply was_read_app).
  rewrite Hc in *. destruct r as [|d2 r].
  - exists (x ++ location_line path node)%string, ds. rewrite Hline. split; try done; [|apply only_pos].
    right. eexists. split; [done|]. rewrite <- Hline. constructor.
  - exists x, ds. split; try done; [by left| | |apply only_pos].
    + unfold content. simpl. rewrite Ht. exists (w ++ String d "")%string. split_and!; [|done|].
      * by rewrite Hline, str_app_assoc.
      * intros _. rewrite set_at_eq, strlen_app. done.
    + intros _. unfold mid. simpl. by rewrite Ht.
Qed.

Lemma mark_own n es z :
  exclusive c = true -> text s = x ->
  atomic x ds (match es with e :: _ => e | [] => Wrote "" end) (put_char n CAPIO_SERVER_INVALIDATE_FILE_PATH_CHAR x) (n :: ds) ->
  length es = 1%nat ->
  owns (es, put_char n CAPIO_SERVER_INVALIDATE_FILE_PATH_CHAR (text s), lks s, set_at (proc t) z (pos s), views s, moved (Writing "") t).
Proof using Ht Hv Hin.
  intros Hex Hx Hat Hlen. destruct es as [|e [|]]; try done. simpl in Hat.
  exists (put_char n CAPIO_SERVER_INVALIDATE_FILE_PATH_CHAR x), (n :: ds). rewrite <- Hx in *. split; try done.
  - right. by exists e.
  - right. split; [done|]. by exists c, rest.
  - apply only_pos.
  - intros q. by apply was_read_put.
Qed.

Lemma write_own d r :
  at_ t = Writing (String d r) -> content x ds (text s) (pos s) (views s) t -> (mid t = false -> text s = x) ->
  owns (write_step owner c d r s t).
Proof using Ht Hv Hin.
  intros Ha Hk Hwhole. assert (exists c0, c = c0) as [[path|path|off|path] Hc] by by exists c.
  - by eapply write_line_own.
  - unfold content in Hk. by rewrite Ha, Ht, Hc in Hk.
  - unfold content in Hk. unfold mid in Hwhole. rewrite Ha, Ht, Hc in Hk, Hwhole. destruct Hk as (-> & -> & Hpos).
    specialize (Hwhole eq_refl). unfold write_step. rewrite Hc. apply mark_own; try done; [by rewrite Hc|].
    unfold write_at. rewrite Hwhole, Hpos. constructor.
  - unfold content in Hk. unfold mid in Hwhole. rewrite Ha, Ht, Hc in Hk, Hwhole.
    destruct Hk as (-> & -> & Hp & Hsee & till & Hf). specialize (Hwhole eq_refl). unfold write_step. rewrite Hc.
    apply mark_own; try done; [by rewrite Hc|]. unfold write_at. rewrite Hp, decide_True by done. rewrite Hp in Hf, Hsee.
    eapply at_erase; [rewrite <- Hwhole; exact Hsee|exact Hf].
Qed.

Section Scan.
Context (path : string).
Hypothesis Hs : searched c = Some path.
Hypothesis Hx : text s = x.
Hypothesis Hsee : sees ds (text s) (views s (proc t)).
Notation v := (views s (proc t)).

Lemma missed_own : find_line path 0 (text_lines v) = None -> owns (missed c t, text s, lks s, pos s, views s, moved Releasing t).
Proof using Ht Hv Hin Hs Hx Hsee.
  intros Hf. assert (lists path (text_lines v) = false) as Hl by (rewrite <- (find_line_lists path 0), Hf; done).
  apply still_own; try done. rewrite Hx in Hsee. destruct c; try done; injection Hs as ->; apply one_effect.
  - rewrite <- Hl. by constructor.
  - by eapply at_erase_none.
Qed.

Lemma found_own from till ps :
  find_line path 0 (text_lines v) = Some (from, till) -> (forall q, q <> proc t -> ps q = pos s q) ->
  owns (found_step owner c from ps s t).
Proof using Ht Hv Hin Hs Hx Hsee.
  intros Hf Hps. assert (lists path (text_lines v) = true) as Hl by (rewrite <- (find_line_lists path 0), Hf; done).
  pose proof Hsee as Hsee'. rewrite Hx in Hsee'. unfold found_step.
  pose proof Ht as Ht'. destruct c as [path'|path'|off|path']; try done; injection Hs as ->.
  - apply still_own; try done; [|by auto]. apply one_effect. rewrite <- Hl. by constructor.
  - assert (forall q, q <> proc t -> set_at (proc t) from ps q = pos s q /\ views s q = views s q) as Hq.
    { intros q Hne. rewrite set_at_ne by done. auto. }
    destruct (decide (proc t = owner)) as [Hp|Hp].
    + apply still_own; try done; [apply no_effect|]. unfold content. simpl. rewrite Ht', set_at_eq. split_and!; try done. by exists till.
    + apply still_own; try done. apply one_effect. by eapply at_erase_elsewhere.
Qed.

(** The test of a line, [past] being before it and [r] after it. *)
Lemma test_own past line r ps :
  v = (past ++ line ++ r)%string -> (forall q, q <> proc t -> ps q = pos s q) ->
  find_line path 0 (text_lines v) = find_line path (strlen past) (line :: text_lines r) ->
  owns (if is_line_of path line then found_step owner c (Z.of_nat (String.length (past ++ line)) - strlen line) ps s t
        else ([], text s, lks s, ps, views s, moved (Scanning (String.length (past ++ line)) "") t)).
Proof using Ht Hv Hin Hs Hx Hsee.
  intros Hw Hps Hf. simpl in Hf. fold (is_line_of path line) in Hf. destruct (is_line_of path line).
  - eapply found_own; [|done]. rewrite Hf. do 2 f_equal. change (Z.of_nat (String.length (past ++ line))) with (strlen (past ++ line)).
    rewrite strlen_app. lia.
  - apply still_own; try done; [apply no_effect| |by auto]. unfold content. simpl. rewrite Ht.
    exists path, (past ++ line)%string, r. simpl. rewrite str_app_nil, str_app_assoc, strlen_app. by split_and!.
Qed.
End Scan.

Lemma scan_own path n line :
  searched c = Some path -> at_ t = Scanning n line -> content x ds (text s) (pos s) (views s) t -> text s = x ->
  owns (scan_step owner c path n line s t).
Proof using Ht Hv Hin.
  intros Hs Ha Hk Hx. unfold content in Hk. rewrite Ha, Ht in Hk. destruct Hk as (path' & past & r & Hs' & Hsee & Hw & -> & Hl & Hf).
  rewrite Hs in Hs'. injection Hs' as <-. unfold scan_step.
  assert (String.get (String.length (past ++ line)) (views s (proc t)) = String.get (String.length (past ++ line)) ((past ++ line) ++ r)) as ->
    by (by rewrite Hw, str_app_assoc).
  destruct r as [|d r].
  - rewrite str_app_nil, get_end. rewrite str_app_nil in Hf. destruct line as [|e l]; [by apply (missed_own path)|].
    set (line := String e l) in *. assert (line <> ""%string) as Hne by done.
    apply (test_own path Hs Hx Hsee past line "" (pos s)); [done|done|]. by rewrite (text_lines_last line) in Hf.
  - rewrite get_at. set (ps := set_at _ _ (pos s)). assert (forall q, q <> proc t -> ps q = pos s q) as Hps by (intros; by apply set_at_ne).
    assert (S (String.length (past ++ line)) = String.length (past ++ (line ++ String d ""))) as ->.
    { assert (strlen (past ++ (line ++ String d "")) = strlen (past ++ line) + 1) as He by (rewrite !strlen_app; unfold strlen; simpl; lia).
      unfold strlen in He. lia. }
    assert (views s (proc t) = past ++ (line ++ String d "") ++ r)%string as Hw' by (by rewrite Hw, (str_app_assoc line)).
    destruct (Ascii.eqb d NEWLINE) eqn:Ed.
    + apply Ascii.eqb_eq in Ed as ->. rewrite (text_lines_first line) in Hf by done. by apply (test_own path Hs Hx Hsee past _ r ps).
    + apply still_own; try done; [apply no_effect| |by auto]. unfold content. simpl. rewrite Ht.
      exists path, past, r. split_and!; try done; [by apply no_newline_snoc|]. by rewrite Hf, str_app_assoc.
Qed.
End Own.

Lemma thread_own x ds s t es y ls ps vs t' :
  (at_ t <> Outside -> mid t = false -> text s = x) -> content x ds (text s) (pos s) (views s) t ->
  (forall q, was_read ds (text s) (views s q)) ->
  thread_step s t = Done (es, y, ls, ps, vs, t') -> exists x' ds', own_step x ds s t es y ps vs t' x' ds'.
Proof using.
  intros Hwhole Hc Hv H. change (owns x ds s t (es, y, ls, ps, vs, t')). unfold LocationLocks.thread_step in H.
  destruct (todo t) as [|c rest] eqn:Ht; [done|].
  assert (at_ t <> Outside -> mid t = false -> owns x ds s t ([], text s, ls, pos s, views s, moved Releasing t)) as Hrel.
  { intros Ha Hm. apply still_own; try done; [by apply Hwhole|apply no_effect]. }
  destruct (at_ t) as [| |[|d r]|n line|] eqn:Ha.
  - destruct (Flock_lock _ _ _); simplify_eq/=. exists x, ds. split; try done; by left.
  - apply Done_inj in H as <-. eapply seek_own; [done|done|by rewrite Ha|]. apply Hwhole; [done|]. unfold mid. by rewrite Ha.
  - apply Done_inj in H. injection H as <- <- <- <- <- <-. apply Hrel; [done|]. unfold mid. by rewrite Ha.
  - apply Done_inj in H as <-. eapply write_own; [done|done|by rewrite Ha|done|done|]. intros Hm. by apply Hwhole.
  - destruct (searched c) as [path|] eqn:Hs; [|done]. apply Done_inj in H as <-.
    eapply scan_own; [done|done|by rewrite Ha|done|done|done|]. apply Hwhole; [done|]. unfold mid. by rewrite Ha.
  - simplify_eq/=. exists x, ds. assert (text s = x) as Hx by (apply Hwhole; [done|by unfold mid; rewrite Ha]).
    split; try done; by left.
Qed.

(** The lock of a thread: it takes it, keeps it or gives it back. *)
Inductive lock_step (s : sys) (t : thread) (ls : record_locks) (t' : thread) : Prop :=
| ls_take c rest : at_ t = Outside -> at_ t' = Locked -> todo t = c :: rest -> todo t' = todo t ->
    Flock_lock (proc t) (exclusive c) (lks s) = Done ls -> lock_step s t ls t'
| ls_keep : at_ t <> Outside -> at_ t' <> Outside -> todo t' = todo t -> ls = lks s -> lock_step s t ls t'
| ls_give : at_ t <> Outside -> at_ t' = Outside -> ls = Flock_unlock (proc t) (lks s) -> lock_step s t ls t'.

Lemma thread_lock s t es y ls ps vs t' :
  thread_step s t = Done (es, y, ls, ps, vs, t') -> lock_step s t ls t'.
Proof using.
  unfold LocationLocks.thread_step. intros H. destruct (todo t) as [|c rest] eqn:Ht; [done|].
  destruct (at_ t) as [| |[|d r]|n line|] eqn:Ha.
  - destruct (Flock_lock _ _ _) eqn:E; simplify_eq/=. by eapply ls_take.
  - destruct c; simplify_eq/=; by apply ls_keep; rewrite ?Ha.
  - simplify_eq/=. by apply ls_keep; rewrite ?Ha.
  - unfold write_step in H. simplify_eq/=. by apply ls_keep; rewrite ?Ha.
  - destruct (searched c) as [path|]; [|done]. apply Done_inj in H. unfold scan_step, found_step in H.
    repeat case_match; simplify_eq/=; by apply ls_keep; rewrite ?Ha.
  - simplify_eq/=. apply ls_give; by rewrite ?Ha.
Qed.

Lemma Flock_lock_alone p ex ls ls' q e :
  Flock_lock p ex ls = Done ls' -> (q, e) ∈ ls -> q <> p -> (q, e) ∈ ls' /\ ex = false /\ e = false.
Proof using.
  unfold Flock_lock. destruct (existsb _ ls) eqn:E; [done|]. intros [= <-] Hq Hne.
  assert (conflicts p ex (q, e) = false) as Hc.
  { apply not_true_is_false. intros Hc. assert (existsb (conflicts p ex) ls = true); [|congruence].
    apply existsb_exists. exists (q, e). split; [by apply list_elem_of_In|done]. }
  unfold conflicts in Hc. simpl in Hc. rewrite bool_decide_eq_false_2 in Hc by done. simpl in Hc. apply orb_false_iff in Hc as [-> ->].
  split; [|done]. apply elem_of_cons. right. apply list_elem_of_filter. by split.
Qed.
Lemma Flock_lock_elem p ex ls ls' q e :
  Flock_lock p ex ls = Done ls' -> (q, e) ∈ ls' -> (q = p /\ e = ex) \/ (q <> p /\ (q, e) ∈ ls).
Proof using.
  unfold Flock_lock. destruct (existsb _ ls) eqn:E; [done|]. intros [= <-] [H|[H1 H2]%list_elem_of_filter]%elem_of_cons; [left|right]; naive_solver.
Qed.

Section Held.
Context (x : string) (ds : list nat) (s : sys).
Hypothesis HI : loc_inv x ds s.

Lemma procs_differ i j t u : pool s !! i = Some t -> pool s !! j = Some u -> i <> j -> proc t <> proc u.
Proof using HI.
  intros Hi Hj Hne Hp. apply Hne. eapply (NoDup_lookup (proc <$> pool s) i j); [apply HI|..];
    rewrite list_lookup_fmap; [rewrite Hi|rewrite Hj]; simpl; [done|by rewrite Hp].
Qed.

(** Beside the holder of an exclusive lock nobody has one. *)
Lemma held_alone i j t u c rest :
  pool s !! i = Some t -> pool s !! j = Some u -> i <> j -> at_ t <> Outside -> todo t = c :: rest -> exclusive c = true ->
  at_ u = Outside.
Proof using HI.
  intros Hi Hj Hne Ha Ht Hex. destruct (decide (at_ u = Outside)) as [?|Hu]; [done|exfalso].
  destruct (li_holds _ _ _ HI _ _ Hi Ha) as (c1 & r1 & Ht1 & H1). destruct (li_holds _ _ _ HI _ _ Hj Hu) as (c2 & r2 & _ & H2).
  rewrite Ht in Ht1. injection Ht1 as <- <-. rewrite Hex in H1.
  apply (procs_differ _ _ _ _ Hi Hj Hne). symmetry. by eapply (li_alone _ _ _ HI).
Qed.

Lemma held_whole i t : pool s !! i = Some t -> at_ t <> Outside -> mid t = false -> text s = x.
Proof using HI.
  intros Hi Ha Hm. apply HI. intros j u Hj. destruct (decide (j = i)) as [->|Hne]; [by simplify_eq|].
  apply not_true_is_false. intros Hmu. unfold mid in Hmu. destruct (at_ u) as [| |[|d r]|n line|] eqn:Hau; try done.
  destruct (todo u) as [|[path|path|off|path] rest] eqn:Htu; try done.
  apply Ha, (held_alone j i u t (WriteLocation path) rest); try done. by rewrite Hau.
Qed.
End Held.

Lemma sys_step_done i s es s' :
  sys_step i s = Done (es, s') ->
  exists t t', pool s !! i = Some t /\
    thread_step s t = Done (es, text s', lks s', pos s', views s', t') /\ pool s' = <[i := t']> (pool s).
Proof using.
  unfold LocationLocks.sys_step. intros H. destruct (pool s !! i) as [t|]; [|done].
  destruct (thread_step s t) as [[[[[[? ?] ?] ?] ?] t']| | | |] eqn:E; simplify_eq/=. by exists t, t'.
Qed.

Section Preserved.
Context (x : string) (ds : list nat) (s s' : sys) (i : nat) (t t' : thread) (es : list event).
Hypothesis HI : loc_inv x ds s.
Hypothesis Hi : pool s !! i = Some t.
Hypothesis H : thread_step s t = Done (es, text s', lks s', pos s', views s', t').
Hypothesis Hp : pool s' = <[i := t']> (pool s).
Hypothesis Hproc : proc t' = proc t.

Lemma flock_next_cases j u : pool s' !! j = Some u -> j = i /\ u = t' \/ j <> i /\ pool s !! j = Some u.
Proof using Hi Hp.
  rewrite Hp. destruct (decide (j = i)) as [->|Hne].
  - rewrite list_lookup_insert_eq by (by eapply lookup_lt_Some). intros [= <-]. by left.
  - rewrite list_lookup_insert_ne by done. auto.
Qed.
Lemma flock_next_mine : pool s' !! i = Some t'.
Proof using Hi Hp. rewrite Hp. apply list_lookup_insert_eq. by eapply lookup_lt_Some. Qed.
Lemma flock_next_other j u : j <> i -> pool s !! j = Some u -> pool s' !! j = Some u.
Proof using Hp. intros Hne Hj. by rewrite Hp, list_lookup_insert_ne. Qed.

Lemma step_procs : NoDup (proc <$> pool s').
Proof using HI Hi Hp Hproc.
  rewrite Hp, list_fmap_insert, Hproc, list_insert_id; [apply HI|]. by rewrite list_lookup_fmap, Hi.
Qed.

Lemma step_holds j u : pool s' !! j = Some u -> at_ u <> Outside ->
  exists c rest, todo u = c :: rest /\ (proc u, exclusive c) ∈ lks s'.
Proof using HI Hi H Hp Hproc.
  intros Hu Ha. destruct (thread_lock _ _ _ _ _ _ _ _ H) as [c rest H1 H2 H3 H4 H5|H1 H2 H3 H4|H1 H2 H3];
    destruct (flock_next_cases _ _ Hu) as [[-> ->]|[Hne Hj]].
  - exists c, rest. rewrite Hproc, H4. split; [done|]. unfold Flock_lock in H5. destruct (existsb _ _); [done|].
    injection H5 as <-. apply elem_of_cons. by left.
  - destruct (li_holds _ _ _ HI _ _ Hj Ha) as (c1 & r1 & ? & Hin). exists c1, r1. split; [done|].
    eapply Flock_lock_alone; [exact H5|done|]. by eapply procs_differ.
  - rewrite H4, Hproc, H3. by eapply li_holds.
  - rewrite H4. by eapply li_holds.
  - done.
  - rewrite H3. destruct (li_holds _ _ _ HI _ _ Hj Ha) as (c1 & r1 & ? & Hin). exists c1, r1. split; [done|].
    apply list_elem_of_filter. split; [|done]. simpl. by eapply procs_differ.
Qed.

Lemma step_owner p e : (p, e) ∈ lks s' -> exists j u, pool s' !! j = Some u /\ proc u = p /\ at_ u <> Outside.
Proof using HI Hi H Hp Hproc.
  assert (forall q e', (q, e') ∈ lks s -> q <> proc t -> exists j u, pool s' !! j = Some u /\ proc u = q /\ at_ u <> Outside) as Hold.
  { intros q e' Hq Hne. destruct (li_owner _ _ _ HI _ _ Hq) as (j & u & Hj & <- & Ha). exists j, u. split; [|done].
    apply flock_next_other; [|done]. intros ->. congruence. }
  destruct (thread_lock _ _ _ _ _ _ _ _ H) as [c rest H1 H2 H3 H4 H5|H1 H2 H3 H4|H1 H2 H3]; intros Hin.
  - destruct (Flock_lock_elem _ _ _ _ _ _ H5 Hin) as [[-> _]|[Hne Hin']]; [|by eapply Hold].
    exists i, t'. split_and!; [apply flock_next_mine|done|by rewrite H2].
  - rewrite H4 in Hin. destruct (decide (p = proc t)) as [->|Hne]; [|by eapply Hold]. exists i, t'. split_and!; [apply flock_next_mine|done|done].
  - rewrite H3 in Hin. apply list_elem_of_filter in Hin as [Hne Hin]. by eapply Hold.
Qed.

Lemma step_alone p q e : (p, true) ∈ lks s' -> (q, e) ∈ lks s' -> q = p.
Proof using HI H.
  destruct (thread_lock _ _ _ _ _ _ _ _ H) as [c rest H1 H2 H3 H4 H5|H1 H2 H3 H4|H1 H2 H3]; intros Hin1 Hin2.
  - destruct (Flock_lock_elem _ _ _ _ _ _ H5 Hin1) as [[-> He]|[Hne1 H1']],
      (Flock_lock_elem _ _ _ _ _ _ H5 Hin2) as [[-> He2]|[Hne2 H2']]; try done.
    + by destruct (Flock_lock_alone _ _ _ _ _ _ H5 H2' Hne2) as (_ & ? & _); congruence.
    + by destruct (Flock_lock_alone _ _ _ _ _ _ H5 H1' Hne1) as (_ & _ & ?).
    + by eapply (li_alone _ _ _ HI).
  - rewrite H4 in *. by eapply (li_alone _ _ _ HI).
  - rewrite H3 in *. apply list_elem_of_filter in Hin1 as [_ ?], Hin2 as [_ ?]. by eapply (li_alone _ _ _ HI).
Qed.

(** The other threads: what they know of the text still holds, because it is the
    same or they are outside. *)
Lemma step_content x' ds' j u : own_step x ds s t es (text s') (pos s') (views s') t' x' ds' -> j <> i -> pool s !! j = Some u ->
  content x' ds' (text s') (pos s') (views s') u.
Proof using HI Hi.
  intros HO Hne Hj. destruct (os_changes _ _ _ _ _ _ _ _ _ _ _ HO) as [(Ey & Ex & Ed)|(Ha & c & rest & Ht & Hex)].
  - rewrite Ey, Ex, Ed. pose proof (li_content _ _ _ HI _ _ Hj) as Hc. unfold content in *.
    destruct (os_pos _ _ _ _ _ _ _ _ _ _ _ HO (proc u)) as [-> ->]; [by eapply procs_differ|done].
  - unfold content. by rewrite (held_alone _ _ _ HI i j t u c rest).
Qed.

End Preserved.

Lemma flock_step_inv x ds s s' i t t' es :
  loc_inv x ds s -> pool s !! i = Some t -> thread_step s t = Done (es, text s', lks s', pos s', views s', t') ->
  pool s' = <[i := t']> (pool s) -> exists x' ds', effect x ds es x' ds' /\ loc_inv x' ds' s'.
Proof using.
  intros HI Hi H Hp.
  destruct (thread_own x ds s t es _ _ _ _ _ (held_whole _ _ _ HI i t Hi) (li_content _ _ _ HI _ _ Hi) (li_views _ _ _ HI) H)
    as (x' & ds' & HO).
  exists x', ds'. split; [apply HO|]. pose proof (os_proc _ _ _ _ _ _ _ _ _ _ _ HO) as Hproc. split.
  - by eapply step_procs.
  - intros j u. by eapply step_holds.
  - intros p e. by eapply step_owner.
  - intros p q e. by eapply step_alone.
  - intros j u Hu. destruct (flock_next_cases _ _ _ _ _ Hi Hp _ _ Hu) as [[-> ->]|[Hne Hj]]; [apply HO|eapply step_content; [exact HI|exact Hi|exact HO|exact Hne|exact Hj]].
  - apply HO.
  - intros Hm. destruct (decide (at_ t = Outside)) as [Ho|Ho].
    + destruct (os_changes _ _ _ _ _ _ _ _ _ _ _ HO) as [(-> & -> & _)|[Hne _]]; [|done]. apply HI. intros j u Hj.
      destruct (decide (j = i)) as [->|Hne]; [|by eapply (Hm j), flock_next_other]. simplify_eq. unfold mid. by rewrite Ho.
    + apply HO; [done|]. by eapply (Hm i), flock_next_mine.
Qed.

Lemma flock_steps_inv x0 s0 tr s :
  loc_inv x0 [] s0 -> steps s0 tr s -> exists x ds, atomic_trace x0 tr.*2 x ds /\ loc_inv x ds s.
Proof using.
  intros H0. induction 1 as [|tr s i es s' _ (x & ds & HT & HI) Hstep].
  - exists x0, []. split; [constructor|done].
  - apply sys_step_done in Hstep as (t & t' & Hi & H & Hp).
    destruct (flock_step_inv _ _ _ _ _ _ _ _ HI Hi H Hp) as (x' & ds' & [(-> & -> & ->)|(e & -> & Hat)] & HI'); eexists _, _; (split; [|exact HI']); simpl.
    + by rewrite app_nil_r.
    + rewrite fmap_app. simpl. by eapply atr_snoc.
Qed.

(** ** Order and progress *)

(** The calls of a thread whose effect is still to come. *)
Definition calls_left (t : thread) : list call :=
  match at_ t with Releasing | Writing EmptyString => tail (todo t) | _ => todo t end.

Lemma flock_thread_step_order x ds y s t es y' ls ps vs t' :
  content x ds y (pos s) (views s) t -> thread_step s t = Done (es, y', ls, ps, vs, t') ->
  (call_of <$> es) ++ calls_left t' = calls_left t.
Proof using.
  unfold LocationLocks.thread_step, calls_left, content. intros Hc H. destruct (todo t) as [|c rest] eqn:Ht; [done|].
  destruct (at_ t) as [| |[|d r]|n line|] eqn:Ha.
  - destruct (Flock_lock _ _ _); simplify_eq/=. done.
  - destruct c as [path|path|off|path]; simplify_eq/=; rewrite ?Ht; try done. unfold location_line. by destruct path.
  - simplify_eq/=. by rewrite Ht.
  - unfold write_step in H. simplify_eq/=. rewrite Ht. destruct r; [|done]. by destruct c as [path|path|off|path].
  - destruct (searched c) as [path|] eqn:Hs; [|done]. apply Done_inj in H. unfold scan_step, found_step, missed in H.
    destruct c; try done; injection Hs as ->; repeat case_match; simplify_eq/=; rewrite Ht; done.
  - simplify_eq/=. done.
Qed.

Lemma flock_steps_order x0 ts tr s i p cs :
  NoDup ts.*1 -> steps (start x0 ts) tr s -> ts !! i = Some (p, cs) ->
  exists t, pool s !! i = Some t /\ (call_of <$> events_of i tr) ++ calls_left t = cs.
Proof using.
  intros Hn HS Hi. induction HS as [|tr s j es s' HS (t & Ht & IH) Hstep].
  - eexists. split; [simpl; by rewrite list_lookup_fmap, Hi|]. done.
  - destruct (flock_steps_inv x0 _ _ _ (flock_start_inv x0 ts Hn) HS) as (x & ds & _ & HI).
    apply sys_step_done in Hstep as (u & u' & Hu & H & ->). rewrite events_of_app. destruct (decide (j = i)) as [->|Hne].
    + simplify_eq. exists u'. rewrite list_lookup_insert_eq by (by eapply lookup_lt_Some). split; [done|].
      rewrite fmap_app, <- app_assoc. by rewrite (flock_thread_step_order _ _ _ _ _ _ _ _ _ _ _ (li_content _ _ _ HI _ _ Hu) H).
    + exists t. rewrite list_lookup_insert_ne by done. by rewrite app_nil_r.
Qed.

(** A thread inside a call goes on. *)
Lemma inside_moves x ds s i t : loc_inv x ds s -> pool s !! i = Some t -> at_ t <> Outside ->
  exists r, thread_step s t = Done r.
Proof using.
  intros HI Hi Ha. destruct (li_holds _ _ _ HI _ _ Hi Ha) as (c & rest & Ht & _).
  pose proof (li_content _ _ _ HI _ _ Hi) as Hc. unfold content, LocationLocks.thread_step in *. rewrite Ht in *.
  destruct (at_ t) as [| |[|d r]|n line|]; try done; try by eexists. destruct Hc as (path & _ & _ & -> & _). by eexists.
Qed.

Definition stuck (s : sys) : Prop := forall i es s', sys_step i s <> Done (es, s').
Lemma flock_stuck_thread s i t r : stuck s -> pool s !! i = Some t -> thread_step s t <> Done r.
Proof using.
  intros Hst Ht E. destruct r as [[[[[es x] l] ps] vs] t']. eapply (Hst i). unfold LocationLocks.sys_step. by rewrite Ht, E.
Qed.

Lemma stuck_done x ds s : loc_inv x ds s -> stuck s -> Forall (fun t => todo t = []) (pool s).
Proof using.
  intros HI Hst.
  assert (forall i t, pool s !! i = Some t -> at_ t = Outside) as Hout.
  { intros i t Hi. destruct (decide (at_ t = Outside)) as [?|Ha]; [done|exfalso].
    destruct (inside_moves _ _ _ _ _ HI Hi Ha) as [r Hr]. by eapply flock_stuck_thread. }
  assert (lks s = []) as Hl.
  { destruct (lks s) as [|[p e] l] eqn:E; [done|exfalso].
    destruct (li_owner _ _ _ HI p e) as (i & t & Hi & _ & Ha); [rewrite E; apply elem_of_cons; by left|]. apply Ha. by eapply Hout. }
  apply Forall_lookup_2. intros i t Hi. destruct (todo t) as [|c rest] eqn:Ht; [done|exfalso].
  eapply flock_stuck_thread; [done|exact Hi|]. unfold LocationLocks.thread_step. rewrite Ht, (Hout _ _ Hi), Hl. done.
Qed.

(** C24. The locks make the location files atomic between servers that use them with
    one thread each.  Whatever the interleaving of the servers, at the level of
    single characters, and however much of an earlier search the stream of a server
    still holds: when no system call fails or stores less than it is given, the
    calls, in the order of their effects, are a run of the calls taken whole.
    There [write_file_location] adds its line to the text; a search tells whether
    the text lists the path, never half a line, read as it is except that a mark
    an earlier deletion has put may be missed, so that without deletions the answer
    is exact; a deletion puts its mark at the offset it is given or, with the offset
    -1, at the line it finds, and a server that does not own the file at the end or,
    with -1, in another file.  The text is that of the run when nobody writes; each
    thread does its calls in order, and none is left waiting. *)
Theorem location_file_atomic x0 ts tr s :
  NoDup ts.*1 -> steps (start x0 ts) tr s ->
  (exists x ds, atomic_trace x0 tr.*2 x ds /\
     (Forall (fun t => mid t = false) (pool s) -> text s = x)) /\
  (forall i p cs, ts !! i = Some (p, cs) ->
     exists t, pool s !! i = Some t /\ (call_of <$> events_of i tr) ++ calls_left t = cs) /\
  (forall i, (exists r, sys_step i s = Done r) \/ (exists w, sys_step i s = Blocks w)) /\
  (stuck s -> Forall (fun t => todo t = []) (pool s)).
Proof using.
  intros Hn HS. destruct (flock_steps_inv x0 _ _ _ (flock_start_inv x0 ts Hn) HS) as (x & ds & HT & HI). split_and!.
  - exists x, ds. split; [done|]. rewrite Forall_lookup. apply HI.
  - intros i p cs. by apply (flock_steps_order x0).
  - intros i. unfold LocationLocks.sys_step. destruct (pool s !! i) as [t|] eqn:Hi; [|right; by eexists].
    destruct (decide (at_ t = Outside)) as [Ha|Ha].
    + unfold LocationLocks.thread_step. rewrite Ha. destruct (todo t) as [|c rest]; [right; by eexists|].
      unfold Flock_lock. destruct (existsb _ _); simpl; [right|left]; by eexists.
    + destruct (inside_moves _ _ _ _ _ HI Hi Ha) as [[[[[[? ?] ?] ?] ?] ?] ->]. left. by eexists.
  - by eapply stuck_done.
Qed.
End Invariant.

(** ** Runs of concrete schedules *)

Lemma flock_run_steps owner node kept s0 sched : forall tr s,
  steps owner node kept s0 tr s ->
  steps owner node kept s0 (tr ++ (run owner node kept sched s).1) (run owner node kept sched s).2.
Proof.
  induction sched as [|i sched IH]; intros tr s HS; simpl; [by rewrite app_nil_r|].
  destruct (sys_step owner node kept i s) as [[es s']| | | |] eqn:E; try by apply IH.
  specialize (IH _ _ (steps_snoc _ _ _ _ _ _ _ _ _ HS E)).
  destruct (run owner node kept sched s') as [tr' s2]. simpl in *. by rewrite app_assoc.
Qed.

(** Streams that hold nothing after a seek, and streams that hold what they had. *)
Definition holds_nothing (s : sys) (p : nat) : nat := 0.
Definition holds_all (s : sys) (p : nat) : nat := String.length (views s p).

(** Server 0 publishes a path, which server 1 looks for, and deletes it; then
    server 1 looks again. *)
Definition publisher_and_reader : list (nat * list call) :=
  [(0%nat, [WriteLocation "/c/f"; DeleteListed "/c/f"]); (1%nat, [LoadLocation "/c/f"; LoadLocation "/c/f"])].
Definition in_turn : list nat := replicate 11 0%nat ++ replicate 10 1%nat ++ replicate 40 0%nat ++ replicate 40 1%nat.

Lemma location_file_atomic_witness :
  let r := run 0 "a" holds_all in_turn (start "" publisher_and_reader) in
  r.1.*2 = [Wrote "/c/f"; Looked "/c/f" true; Erased 0 "/c/f" true; Looked "/c/f" true] /\
  exists x ds, atomic_trace 0 "a" "" r.1.*2 x ds /\ (Forall (fun t => mid t = false) (pool r.2) -> text r.2 = x).
Proof.
  intros r. split; [vm_compute; reflexivity|].
  refine (proj1 (location_file_atomic 0 "a" holds_all "" publisher_and_reader r.1 r.2 _ _)).
  - apply (bool_decide_unpack _). vm_compute. exact I.
  - exact (flock_run_steps 0 "a" holds_all _ in_turn [] _ (steps_nil _ _ _ _)).
Defined.

(** What the streams hold makes the difference: server 1, which found the path
    before it was deleted, finds it again only from its buffer. *)
Lemma deletion_missed_by_buffer :
  (run 0 "a" holds_nothing in_turn (start "" publisher_and_reader)).1.*2
  = [Wrote "/c/f"; Looked "/c/f" true; Erased 0 "/c/f" true; Looked "/c/f" false].
Proof. vm_compute. reflexivity. Qed.

(** Two threads of one server are not kept apart: the one that looks for a path
    moves the descriptor of the one that publishes another, whose line then
    replaces the one that was there. *)
Lemma threads_of_a_server_interfere :
  let s := start (location_line "/c/old" "a") [(0%nat, [WriteLocation "/c/new"]); (0%nat, [LoadLocation "/c/x"])] in
  text (run 0 "a" holds_nothing (replicate 2 0%nat ++ replicate 2 1%nat ++ replicate 40 0%nat) s).2 = location_line "/c/new" "a".
Proof. vm_compute. reflexivity. Qed.
