(* ===== verification/Server.v ===== *)
(** * The state of a server

    The globals of [capio_server.cpp] as one record: the storage manager
    ([storage/manager.hpp]), the client manager, the locations, the detached
    threads that wait for an event, and the messages exchanged with the other
    nodes.  [CapioFile] objects live in a heap and are named by their address,
    and so do the file offsets, which duplicated descriptors share. *)
From S2P Require Import Prelude Memory Sectors FileBuffer Queue CapioFile ClientManager Locations.

(** ** What the server is configured with *)

(** [capiocl::commitRules] of the CAPIO-CL library. *)
Inductive commitRule : Type := ON_CLOSE | ON_FILE | ON_N_FILES | ON_TERMINATION.
#[export] Instance commitRule_eq_dec : EqDecision commitRule.
Proof. solve_decision. Defined.

(** The CAPIO-CL engine, the runtime configuration, [std::hash] on strings, and
    the outcome of the system calls of the n-th buffer operation with the
    descriptor an [open] returns there. *)
Class Config : Type := {
  config_nodes :: Nodes;
  config_quota :: MemQuota;
  getDirectoryFileCount : string -> Z;
  isPermanent : string -> bool;
  getCommitCloseCount : string -> Z;
  getCommitRule : string -> commitRule;
  isFirable : string -> bool;
  isExcluded : string -> bool;
  cl_isProducer : string -> string -> bool;
  getCapioDir : string;
  getFileInitialSize : Z;
  getCacheLineSize : Z;
  getPrefetchDataSize : Z;
  path_hash : string -> Z;
  os : nat -> kernel * Z
}.

Definition CAPIO_DEFAULT_DIR_INITIAL_SIZE : Z := 1024 * 1024 * 1024.
Definition CAPIO_DEFAULT_FILE_INITIAL_SIZE : Z := 1024 * 1024 * 1024 * 4.
Definition CAPIO_POSIX_SYSCALL_REQUEST_SKIP : Z := -2.

(** ** The state *)

(** [ThreadFileDescriptor]; the entry [operator[]] creates has null pointers
    and an empty path. *)
Record ThreadFileDescriptor : Type := {
  _pointer : option Z;
  _offset : option Z;
  _path : string
}.
Definition no_descriptor : ThreadFileDescriptor :=
  {| _pointer := None; _offset := None; _path := "" |}.

(** [CSCopyFileRange_t] *)
Record CSCopyFileRange : Type := {
  cp_tid : Z; cp_fd_in : Z; cp_fd_out : Z;
  cp_offset_in : Z; cp_offset_out : Z; cp_count : Z;
  cp_path_in : string; cp_path_out : string
}.

(** The detached threads, by what they wait for and what they do then. *)
Inductive task : Type :=
| PendingReadCommit (file tid fd count process_offset : Z)
| PendingReadData (file tid fd count process_offset : Z)
| WaitForFile (path : string) (tid fd count : Z)
| WaitForFileCreation (path : string) (tid fd : Z)
| WaitForFileCompletion (tid : Z) (path : string)
| WaitForDirentData (wait_size tid fd count file current_size : Z)
| WaitForDirectory (tid fd count : Z) (path : string)
| WaitForRemoteData (path dest : string) (tid fd count offset : Z) (is_getdents : bool)
| WaitForCompletion (path : string) (source_tid : Z) (dest : string)
| PendingCopy (file : Z) (copy : CSCopyFileRange) (wait_for_commit : bool)
| WaitForCopyInput (copy : CSCopyFileRange)
| WaitForRemoteCopyData (file : Z) (path_in dest : string) (tid fd_in fd_out offset_in offset_out count : Z)
| WaitForCloneAllowed (tid : Z).

(** The messages between servers ([remote/requests.hpp]), with the file that
    [send_file] sends after one. *)
Inductive remote_message : Type :=
| RemoteRead (path : string) (tid fd count offset : Z) (is_getdents : bool)
| RemoteReadReply (tid fd count nbytes file_size : Z) (complete is_getdents : bool)
| RemoteStat (tid : Z) (dest path : string)
| RemoteStatReply (path : string) (tid size : Z) (dir : bool)
| RemoteCopy (path_in : string) (tid fd_in fd_out offset_in offset_out count : Z)
| RemoteCopyReply (tid fd_in fd_out offset_in offset_out count nbytes file_size : Z) (complete : bool).
Record sent : Type := { s_dest : string; s_message : remote_message; s_data : list cell }.

Record Server : Type := {
  heap : gmap Z CapioFile;
  next_file : Z;
  _storage : gmap string Z;
  _opened_fd_map : gmap Z (gmap Z ThreadFileDescriptor);
  offsets : gmap Z Z;
  next_offset : Z;
  client_manager : ClientManager;
  locations : Locations;
  threads : list task;
  outbox : list sent;
  inbox : gmap string (list (list cell));
  os_calls : nat
}.
Definition set_heap (v : gmap Z CapioFile) (s : Server) : Server := {|
  heap := v; next_file := next_file s; _storage := _storage s; _opened_fd_map := _opened_fd_map s;
  offsets := offsets s; next_offset := next_offset s; client_manager := client_manager s; locations := locations s;
  threads := threads s; outbox := outbox s; inbox := inbox s; os_calls := os_calls s |}.
Definition set_storage (v : gmap string Z) (s : Server) : Server := {|
  heap := heap s; next_file := next_file s; _storage := v; _opened_fd_map := _opened_fd_map s;
  offsets := offsets s; next_offset := next_offset s; client_manager := client_manager s; locations := locations s;
  threads := threads s; outbox := outbox s; inbox := inbox s; os_calls := os_calls s |}.
Definition set_opened_fd_map (v : gmap Z (gmap Z ThreadFileDescriptor)) (s : Server) : Server := {|
  heap := heap s; next_file := next_file s; _storage := _storage s; _opened_fd_map := v;
  offsets := offsets s; next_offset := next_offset s; client_manager := client_manager s; locations := locations s;
  threads := threads s; outbox := outbox s; inbox := inbox s; os_calls := os_calls s |}.
Definition set_offsets (v : gmap Z Z) (s : Server) : Server := {|
  heap := heap s; next_file := next_file s; _storage := _storage s; _opened_fd_map := _opened_fd_map s;
  offsets := v; next_offset := next_offset s; client_manager := client_manager s; locations := locations s;
  threads := threads s; outbox := outbox s; inbox := inbox s; os_calls := os_calls s |}.
Definition set_client_manager (v : ClientManager) (s : Server) : Server := {|
  heap := heap s; next_file := next_file s; _storage := _storage s; _opened_fd_map := _opened_fd_map s;
  offsets := offsets s; next_offset := next_offset s; client_manager := v; locations := locations s;
  threads := threads s; outbox := outbox s; inbox := inbox s; os_calls := os_calls s |}.
Definition set_locations (v : Locations) (s : Server) : Server := {|
  heap := heap s; next_file := next_file s; _storage := _storage s; _opened_fd_map := _opened_fd_map s;
  offsets := offsets s; next_offset := next_offset s; client_manager := client_manager s; locations := v;
  threads := threads s; outbox := outbox s; inbox := inbox s; os_calls := os_calls s |}.
Definition set_threads (v : list task) (s : Server) : Server := {|
  heap := heap s; next_file := next_file s; _storage := _storage s; _opened_fd_map := _opened_fd_map s;
  offsets := offsets s; next_offset := next_offset s; client_manager := client_manager s; locations := locations s;
  threads := v; outbox := outbox s; inbox := inbox s; os_calls := os_calls s |}.
Definition set_outbox (v : list sent) (s : Server) : Server := {|
  heap := heap s; next_file := next_file s; _storage := _storage s; _opened_fd_map := _opened_fd_map s;
  offsets := offsets s; next_offset := next_offset s; client_manager := client_manager s; locations := locations s;
  threads := threads s; outbox := v; inbox := inbox s; os_calls := os_calls s |}.
Definition set_inbox (v : gmap string (list (list cell))) (s : Server) : Server := {|
  heap := heap s; next_file := next_file s; _storage := _storage s; _opened_fd_map := _opened_fd_map s;
  offsets := offsets s; next_offset := next_offset s; client_manager := client_manager s; locations := locations s;
  threads := threads s; outbox := outbox s; inbox := v; os_calls := os_calls s |}.
Definition set_os_calls (v : nat) (s : Server) : Server := {|
  heap := heap s; next_file := next_file s; _storage := _storage s; _opened_fd_map := _opened_fd_map s;
  offsets := offsets s; next_offset := next_offset s; client_manager := client_manager s; locations := locations s;
  threads := threads s; outbox := outbox s; inbox := inbox s; os_calls := v |}.

(** Allocation of a file and of an offset. *)
Definition alloc_file (f : CapioFile) : M Server Z := fun s => Done (next_file s, {|
  heap := <[next_file s := f]> (heap s); next_file := next_file s + 1; _storage := _storage s; _opened_fd_map := _opened_fd_map s;
  offsets := offsets s; next_offset := next_offset s; client_manager := client_manager s; locations := locations s;
  threads := threads s; outbox := outbox s; inbox := inbox s; os_calls := os_calls s |}).
Definition alloc_offset (o : Z) : M Server Z := fun s => Done (next_offset s, {|
  heap := heap s; next_file := next_file s; _storage := _storage s; _opened_fd_map := _opened_fd_map s;
  offsets := <[next_offset s := o]> (offsets s); next_offset := next_offset s + 1; client_manager := client_manager s; locations := locations s;
  threads := threads s; outbox := outbox s; inbox := inbox s; os_calls := os_calls s |}).

Definition Server_new : Server := {|
  heap := ∅; next_file := 0; _storage := ∅; _opened_fd_map := ∅; offsets := ∅; next_offset := 0;
  client_manager := ClientManager_new;
  locations := {| files_location := ∅; location_files := ∅ |};
  threads := []; outbox := []; inbox := ∅; os_calls := 0 |}.

(** ** Access to the parts *)

(** A call on a part of the state. *)
Definition zoom {S T A} (part : S -> T) (update : T -> S -> S) (m : M T A) : M S A := fun s =>
  outcome_bind (m (part s)) (fun '(a, t) => Done (a, update t s)).

Definition on_clients {A} (m : M ClientManager A) : M Server A := zoom client_manager set_client_manager m.
Definition on_locations {A} (m : M Locations A) : M Server A := zoom locations set_locations m.

(** A call on the file at an address; the address of a destroyed file dangles. *)
Definition on_file {A} (id : Z) (m : M CapioFile A) : M Server A := fun s =>
  match heap s !! id with
  | Some f => outcome_bind (m f) (fun '(a, f') => Done (a, set_heap (<[id := f']> (heap s)) s))
  | None => UB "dangling CapioFile pointer"
  end.
Definition file_get {A} (id : Z) (g : CapioFile -> A) : M Server A := fun s =>
  match heap s !! id with
  | Some f => Done (g f, s)
  | None => UB "dangling CapioFile pointer"
  end.
Definition file_do (id : Z) (g : CapioFile -> CapioFile) : M Server unit := on_file id (modify g).

(** The result of the next operation that calls the operating system. *)
Definition next_os `{Config} : M Server (kernel * Z) := fun s =>
  Done (os (os_calls s), set_os_calls (S (os_calls s)) s).

Definition file_createBuffer `{Config} (id : Z) (home_node : bool) : M Server unit :=
  let* (k, fd) := next_os in on_file id (createBuffer k fd home_node).
Definition file_expandBuffer `{Config} (id data_size : Z) : M Server unit :=
  let* (k, _) := next_os in on_file id (expandBuffer k data_size).
(** Expand the buffer when the data ends past it. *)
Definition file_reserve `{Config} (id end_of_write : Z) : M Server unit :=
  let* size := file_get id getBufSize in
  when (size <? end_of_write) (file_expandBuffer id end_of_write).
Definition file_dump `{Config} (id : Z) : M Server unit :=
  let* (k, _) := next_os in on_file id (dump k).

Definition start_thread (t : task) : M Server unit :=
  modify (fun s => set_threads (threads s ++ [t]) s).
Definition send (dest : string) (m : remote_message) (data : list cell) : M Server unit :=
  modify (fun s => set_outbox (outbox s ++ [{| s_dest := dest; s_message := m; s_data := data |}]) s).
