(* ===== verification/StorageManager.v ===== *)
(** * The storage manager

    [storage/manager.hpp] and [src/storage_manager.cpp]: the files by path, the
    descriptors each thread has open, and the entries of the directories.  The
    order of iteration of an [unordered_map] is not specified; the model uses
    the order of [map_to_list]. *)
From S2P Require Import Prelude Memory Sectors FileBuffer Queue CapioFile ClientManager Locations Server.

Section Storage.
Context `{Config}.

(** ** Look-ups *)

Definition tryGet (path : string) : M Server (option Z) := gets (fun s => _storage s !! path).

(** [get(path)] *)
Definition storage_get (path : string) : M Server Z :=
  let* o := tryGet path in or_exit o "File was not found in local storage".

(** [_opened_fd_map[tid]] and [_opened_fd_map[tid][fd]], which create what
    does not exist. *)
Definition thread_fds (tid : Z) : M Server (gmap Z ThreadFileDescriptor) := fun s =>
  let m := emplace tid ∅ (_opened_fd_map s) in
  Done (default ∅ (m !! tid), set_opened_fd_map m s).
Definition set_descriptor (tid fd : Z) (d : ThreadFileDescriptor) (s : Server) : Server :=
  set_opened_fd_map (<[tid := <[fd := d]> (default ∅ (_opened_fd_map s !! tid))]> (_opened_fd_map s)) s.
Definition descriptor (tid fd : Z) : M Server ThreadFileDescriptor := fun s =>
  match default ∅ (_opened_fd_map s !! tid) !! fd with
  | Some d => Done (d, s)
  | None => Done (no_descriptor, set_descriptor tid fd no_descriptor s)
  end.

(** [get(pid, fd)] *)
Definition storage_get_fd (pid fd : Z) : M Server Z :=
  let* fds := thread_fds pid in
  let* d := or_exit (fds !! fd) "File descriptor is not opened" in
  or_ub (_pointer d) "null CapioFile pointer".

Definition getPath (tid fd : Z) : M Server string :=
  let* d := descriptor tid fd in ret (_path d).

(** [getFileDescriptors(tid)] *)
Definition getFileDescriptors (tid : Z) : M Server (list Z) :=
  let* fds := thread_fds tid in ret (map_to_list fds).*1.

(** [getFileDescriptors()]: every thread with its descriptors. *)
Definition getAllFileDescriptors : M Server (list (Z * list Z)) :=
  gets (fun s => (fun '(tid, fds) => (tid, (map_to_list fds).*1)) <$> map_to_list (_opened_fd_map s)).

Definition getPaths : M Server (list string) := gets (fun s => (map_to_list (_storage s)).*1).

(** ** Offsets *)

Definition setFileOffset (tid fd offset : Z) : M Server unit :=
  let* d := descriptor tid fd in
  let* o := or_ub (_offset d) "null offset" in
  modify (fun s => set_offsets (<[o := offset]> (offsets s)) s).
Definition getFileOffset (tid fd : Z) : M Server Z :=
  let* d := descriptor tid fd in
  let* o := or_ub (_offset d) "null offset" in
  let* v := gets (fun s => offsets s !! o) in
  or_ub v "dangling offset".

(** ** Files and paths *)

(** [rename]: the open descriptors follow the file.  When the new path
    exists the extracted node is not inserted, and its file is destroyed. *)
Definition rename_descriptor (oldpath newpath : string) (d : ThreadFileDescriptor) : ThreadFileDescriptor :=
  if String.eqb (_path d) oldpath
  then {| _pointer := _pointer d; _offset := _offset d; _path := newpath |} else d.
Definition storage_rename (oldpath newpath : string) : M Server unit :=
  modify (fun s => set_opened_fd_map ((fun fds : gmap Z ThreadFileDescriptor => rename_descriptor oldpath newpath <$> fds) <$> _opened_fd_map s) s) ;;
  let* o := gets (fun s => _storage s !! oldpath) in
  let* id := or_ub o "key of an empty node" in
  modify (fun s => set_storage (delete oldpath (_storage s)) s) ;;
  let* o' := gets (fun s => _storage s !! newpath) in
  match o' with
  | None => modify (fun s => set_storage (<[newpath := id]> (_storage s)) s)
  | Some _ => modify (fun s => set_heap (delete id (heap s)) s)
  end.

(** [_storage[path]]: an unknown path gets a default file. *)
Definition storage_at (path : string) : M Server Z :=
  let* o := tryGet path in
  match o with
  | Some id => ret id
  | None => let* id := alloc_file CapioFile_default in
            modify (fun s => set_storage (<[path := id]> (_storage s)) s) ;;
            ret id
  end.

Definition storage_add (path : string) (is_dir : bool) (init_size : Z) : M Server Z :=
  let n_file := getDirectoryFileCount path in
  let init_size := if 1 <? n_file then CAPIO_DEFAULT_DIR_INITIAL_SIZE else init_size in
  let* o := tryGet path in
  match o with
  | Some id => ret id
  | None =>
      let* id := alloc_file (CapioFile_directory is_dir n_file (isPermanent path) init_size
                                                 (getCommitCloseCount path)) in
      modify (fun s => set_storage (<[path := id]> (_storage s)) s) ;;
      ret id
  end.

(** ** Descriptors *)

Definition storage_dup (tid old_fd new_fd : Z) : M Server unit :=
  descriptor tid new_fd ;;
  let* d := descriptor tid old_fd in
  modify (set_descriptor tid new_fd d) ;;
  let* id := or_ub (_pointer d) "null CapioFile pointer" in
  file_do id file_open ;;
  file_do id (addFd tid new_fd).

Definition _addNewFdToStorage (tid fd : Z) (path : string) (register_open : bool) : M Server unit :=
  when register_open (let* id := storage_at path in file_do id file_open) ;;
  let* id := storage_at path in
  file_do id (addFd tid fd).

Definition _addNewFdToMap (tid fd : Z) (path : string) (offset : Z) : M Server unit :=
  let* id := storage_at path in
  let* o := alloc_offset offset in
  modify (set_descriptor tid fd {| _pointer := Some id; _offset := Some o; _path := path |}).

Definition addFileToTid (tid fd : Z) (path : string) (offset : Z) : M Server unit :=
  _addNewFdToStorage tid fd path true ;;
  _addNewFdToMap tid fd path offset.

(** [clone]: the child gets its own offsets, and no open is counted. *)
Definition storage_clone (parent_tid child_tid : Z) : M Server unit :=
  let* fds := getFileDescriptors parent_tid in
  for_each fds (fun fd =>
    let* d := descriptor parent_tid fd in
    let* o := or_ub (_offset d) "null offset" in
    let* v := gets (fun s => offsets s !! o) in
    let* offset := or_ub v "dangling offset" in
    _addNewFdToStorage child_tid fd (_path d) false ;;
    _addNewFdToMap child_tid fd (_path d) offset).

Definition _removeFromTid (tid fd : Z) : M Server unit :=
  let* d := descriptor tid fd in
  if String.eqb (_path d) "" then ret tt
  else
    let* id := or_ub (_pointer d) "null CapioFile pointer" in
    file_do id (removeFd tid fd) ;;
    modify (fun s => set_opened_fd_map
      (<[tid := delete fd (default ∅ (_opened_fd_map s !! tid))]> (_opened_fd_map s)) s).
Definition removeFromTid (tid fd : Z) : M Server unit := _removeFromTid tid fd.

(** [remove]: the loop over [getFds] runs on the vector that [removeFd]
    shortens, so that it goes on with an iterator that is not valid any more
    as soon as one of the pairs of the file is removed. *)
Definition storage_remove (path : string) : M Server unit :=
  let* id := storage_get path in
  let* fds := file_get id _threads_fd in
  for_each fds (fun p =>
    _removeFromTid p.1 p.2 ;;
    let* fds' := file_get id _threads_fd in
    if decide (fds' = fds) then ret tt else undefined "iterator invalidated by removeFd") ;;
  modify (fun s => set_heap (delete id (heap s)) (set_storage (delete path (_storage s)) s)).

(** The destructor: every descriptor of every thread is removed. *)
Definition storage_teardown : M Server unit :=
  let* all := getAllFileDescriptors in
  for_each all (fun p => for_each p.2 (fun fd => _removeFromTid p.1 fd)).

(** ** Directories *)

(** [get_parent_dir_path] *)
Fixpoint last_slash (s : string) : option nat :=
  match s with
  | EmptyString => None
  | String c s' =>
      match last_slash s' with
      | Some n => Some (S n)
      | None => if Ascii.eqb c "/" then Some O else None
      end
  end.
Definition get_parent_dir_path (file_path : string) : string :=
  if String.eqb file_path "/" || String.eqb file_path "" then file_path
  else match last_slash file_path with
       | Some n => String.substring 0 n file_path
       | None => file_path
       end.
(** [path::filename] *)
Definition path_filename (p : string) : string :=
  match last_slash p with
  | Some n => String.substring (S n) (String.length p - S n) p
  | None => p
  end.
Definition is_capio_dir (path_to_check : string) : bool := String.eqb getCapioDir path_to_check.

Inductive ManagerDirEntryType : Type := REGULAR_ENTRY | DOT_ENTRY | DOT_DOT_ENTRY.

(** [struct linux_dirent64]: 8 bytes of inode, 8 of offset, 2 of length, the
    type, 255 of name, and 6 of padding.  What [strcpy] does not set of the
    name, and the padding, are not initialised. *)
Definition NAME_MAX : nat := 255.
Definition sizeof_linux_dirent64 : Z := 280.
Definition DT_DIR : Z := 4.
Definition DT_REG : Z := 8.
Definition byte_of_Z (z : Z) : byte := default x00 (Byte.of_N (Z.to_N (z mod 256))).
Fixpoint le_bytes (n : nat) (z : Z) : list cell :=
  match n with O => [] | S n' => Some (byte_of_Z z) :: le_bytes n' (z / 256) end.
Definition name_bytes (s : string) : list cell :=
  (fun c => Some (Ascii.byte_of_ascii c)) <$> String.list_ascii_of_string s.
Definition dirent_bytes (d_ino d_off d_type : Z) (d_name : string) : list cell :=
  le_bytes 8 d_ino ++ le_bytes 8 d_off ++ le_bytes 2 sizeof_linux_dirent64 ++ le_bytes 1 d_type ++
  name_bytes d_name ++ [Some x00] ++
  replicate (NAME_MAX - S (String.length d_name)) None ++ replicate 6 None.

(** [addDirectoryEntry] *)
Definition addDirectoryEntry (tid : Z) (file_path dir : string) (type : ManagerDirEntryType)
  : M Server unit :=
  let file_name := match type with
                   | REGULAR_ENTRY => path_filename file_path
                   | DOT_ENTRY => "."%string
                   | DOT_DOT_ENTRY => ".."%string
                   end in
  (if (String.length file_name <? NAME_MAX)%nat then ret tt else undefined "strcpy past d_name") ;;
  let* id := storage_get dir in
  file_createBuffer id true ;;
  let* file_size := file_get id getStoredSize in
  let data_size := file_size + sizeof_linux_dirent64 in
  file_reserve id data_size ;;
  let* is_dir := file_get id isDirectory in
  let ld := dirent_bytes (path_hash file_path) data_size (if is_dir then DT_DIR else DT_REG) file_name in
  on_file id (store file_size ld) ;;
  file_do id (file_insertSector file_size data_size) ;;
  file_do id (incrementDirectoryFileCount 1) ;;
  on_clients (modify (registerProducedFile tid dir)) ;;
  let* n := file_get id getCurrentDirectoryFileCount in
  let* expected := file_get id getDirectoryExpectedFileCount in
  when ((n =? expected) && bool_decide (getCommitRule file_path = ON_N_FILES))
    (file_do id (setCommitted true)).

(** [updateDirectory] *)
Definition updateDirectory (tid : Z) (file_path : string) : M Server unit :=
  let dir := get_parent_dir_path file_path in
  let* id := storage_get dir in
  let* first := file_get id isFirstWrite in
  when first (file_do id registerFirstWrite ;; on_locations (modify (write_file_location dir))) ;;
  addDirectoryEntry tid file_path dir REGULAR_ENTRY.

(** [addDirectory]: 0 when the directory is new, 1 when its location is known. *)
Definition addDirectory (tid : Z) (path : string) : M Server Z :=
  let* known := gets (fun s => get_file_location_opt (locations s) path) in
  match known with
  | Some _ => ret 1
  | None =>
      let* id := storage_add path true CAPIO_DEFAULT_DIR_INITIAL_SIZE in
      let* first := file_get id isFirstWrite in
      when first
        (file_do id registerFirstWrite ;;
         (if is_capio_dir path
          then on_locations (modify (add_file_location path BackendName (-1)))
          else on_locations (modify (write_file_location path)) ;;
               updateDirectory tid path) ;;
         addDirectoryEntry tid path path DOT_ENTRY ;;
         addDirectoryEntry tid (get_parent_dir_path path) path DOT_DOT_ENTRY) ;;
      ret 0
  end.
End Storage.
