(* ===== verification/StorageLocks.v ===== *)
(** * The mutexes of the StorageManager, under any interleaving

    [StorageManager] runs each method of the class in one step.  Here the
    methods of [storage_manager.cpp] are run by threads of the server a lock, an
    access or an unlock at a time, to see which accesses the mutexes order and
    whether the methods wait for each other for ever.  A method is the list of
    the mutexes it takes and of its accesses to the two maps and to the
    descriptors of a file, in the order of the code; what the accesses store is
    the subject of [StorageManager], and accesses to one map that follow each
    other in a statement are one.  The two maps have shared mutexes.
    [operator[]] of a map inserts the key it does not find, so that it is a read
    when the key is there and a write when it is not. *)
From S2P Require Import Prelude Interleaving.

(** ** Instructions *)

Inductive mutex : Type :=
| _mutex_opened_fd_map
| _mutex_storage
| _mutex_threads_fd (file : Z).
#[export] Instance mutex_eq_dec : EqDecision mutex.
Proof. solve_decision. Defined.

(** What is shared: the two maps, and the descriptors of each file. *)
Inductive var : Type :=
| V_opened_fd_map
| V_storage
| V_threads_fd (file : Z).
#[export] Instance var_eq_dec : EqDecision var.
Proof. solve_decision. Defined.

Inductive instr : Type :=
| Acquire (m : mutex) (exclusive : bool)
| Release (m : mutex)
| Access (v : var) (write : bool).

(** [std::lock_guard] and [shared_lock_guard] around a block. *)
Definition lock_guard (m : mutex) (body : list instr) : list instr := Acquire m true :: body ++ [Release m].
Definition shared_lock_guard (m : mutex) (body : list instr) : list instr := Acquire m false :: body ++ [Release m].

(** [operator[]] *)
Definition at_key (v : var) (known : bool) : instr := Access v (negb known).

(** ** The methods *)

(** [addFd] and [removeFd] of a file. *)
Definition change_fds (file : Z) : list instr := lock_guard (_mutex_threads_fd file) [Access (V_threads_fd file) true].

Definition tryGet_code : list instr := shared_lock_guard _mutex_storage [Access V_storage false].
Definition get_code : list instr :=
  shared_lock_guard _mutex_storage [Access V_storage false; Access V_storage false].
Definition get_fd_code (known : bool) : list instr :=
  shared_lock_guard _mutex_opened_fd_map [at_key V_opened_fd_map known; Access V_opened_fd_map false].
Definition getPath_code (known : bool) : list instr :=
  shared_lock_guard _mutex_opened_fd_map [at_key V_opened_fd_map known].
Definition getFileDescriptors_of_code (known : bool) : list instr :=
  shared_lock_guard _mutex_opened_fd_map [at_key V_opened_fd_map known].
Definition getFileDescriptors_code : list instr :=
  shared_lock_guard _mutex_opened_fd_map [Access V_opened_fd_map false].
Definition setFileOffset_code : list instr := lock_guard _mutex_opened_fd_map [Access V_opened_fd_map true].
Definition getFileOffset_code (known : bool) : list instr :=
  shared_lock_guard _mutex_opened_fd_map [at_key V_opened_fd_map known].
Definition rename_code : list instr :=
  lock_guard _mutex_opened_fd_map [Access V_opened_fd_map true; Access V_storage true; Access V_storage true].

(** The reference that [add] returns is looked up once the mutex is free. *)
Definition add_code : list instr := lock_guard _mutex_storage [Access V_storage true] ++ [at_key V_storage true].
Definition dup_code (file : Z) : list instr :=
  lock_guard _mutex_opened_fd_map (Access V_opened_fd_map true :: change_fds file).
Definition getPaths_code : list instr := shared_lock_guard _mutex_storage [Access V_storage false].

(** The helpers that are called with the mutexes held; a descriptor without a
    path is left alone. *)
Definition _removeFromTid_code (file : option Z) : list instr :=
  Access V_opened_fd_map true ::
  match file with Some f => change_fds f ++ [Access V_opened_fd_map true] | None => [] end.
Definition _addNewFdToStorage_code (file : Z) : list instr := Access V_storage true :: change_fds file.
Definition _addNewFdToMap_code : list instr := [Access V_opened_fd_map true; at_key V_storage true].

Definition clone_code (known : bool) (files : list Z) : list instr :=
  getFileDescriptors_of_code known ++
  lock_guard _mutex_opened_fd_map
    (lock_guard _mutex_storage
       (files ≫= fun f => Access V_opened_fd_map true :: _addNewFdToStorage_code f ++ _addNewFdToMap_code)).
Definition remove_code (file : Z) (fds : nat) : list instr :=
  get_code ++
  lock_guard _mutex_opened_fd_map
    (Access (V_threads_fd file) false :: (replicate fds (Some file) ≫= _removeFromTid_code)) ++
  lock_guard _mutex_storage [Access V_storage true].
Definition removeFromTid_code (file : option Z) : list instr :=
  lock_guard _mutex_opened_fd_map (_removeFromTid_code file).
Definition addFileToTid_code (file : Z) : list instr :=
  lock_guard _mutex_storage (_addNewFdToStorage_code file) ++
  lock_guard _mutex_opened_fd_map _addNewFdToMap_code.
Definition destroy_code (files : list (option Z)) : list instr :=
  getFileDescriptors_code ++
  lock_guard _mutex_opened_fd_map (lock_guard _mutex_storage (files ≫= _removeFromTid_code)).

(** The calls, with what decides their accesses: whether the thread and the
    descriptor are in the map, and the files of the descriptors. *)
Inductive call : Type :=
| TryGet | Get | GetFd (known : bool) | GetPath (known : bool)
| GetFileDescriptorsOf (known : bool) | GetFileDescriptors
| SetFileOffset | GetFileOffset (known : bool)
| Rename | Add | Dup (file : Z) | GetPaths
| Clone (known : bool) (files : list Z)
| Remove (file : Z) (fds : nat)
| RemoveFromTid (file : option Z)
| AddFileToTid (file : Z)
| Destroy (files : list (option Z)).
Definition code_of (c : call) : list instr :=
  match c with
  | TryGet => tryGet_code
  | Get => get_code
  | GetFd known => get_fd_code known
  | GetPath known => getPath_code known
  | GetFileDescriptorsOf known => getFileDescriptors_of_code known
  | GetFileDescriptors => getFileDescriptors_code
  | SetFileOffset => setFileOffset_code
  | GetFileOffset known => getFileOffset_code known
  | Rename => rename_code
  | Add => add_code
  | Dup f => dup_code f
  | GetPaths => getPaths_code
  | Clone known fs => clone_code known fs
  | Remove f n => remove_code f n
  | RemoveFromTid f => removeFromTid_code f
  | AddFileToTid f => addFileToTid_code f
  | Destroy fs => destroy_code fs
  end.

(** ** Threads *)

(** What a thread has left to run, and the mutexes it has, alone or shared. *)
Record thread : Type := { code : list instr; held : list (mutex * bool) }.
Notation pool := (list thread).

Definition owns (m : mutex) (hs : list (mutex * bool)) : bool := existsb (fun h => bool_decide (h.1 = m)) hs.
Definition excludes (m : mutex) (exclusive : bool) (t : thread) : bool :=
  existsb (fun h => bool_decide (h.1 = m) && (exclusive || h.2)) (held t).

Definition thread_step (others : pool) (t : thread) : outcome thread :=
  match code t with
  | [] => Blocks "no call left"
  | Acquire m x :: k =>
      if owns m (held t) then UB "locked twice by a thread"
      else if existsb (excludes m x) others then Blocks "mutex"
      else Done {| code := k; held := (m, x) :: held t |}
  | Release m :: k =>
      if owns m (held t) then Done {| code := k; held := filter (fun h => h.1 <> m) (held t) |}
      else UB "unlock by a thread that does not own the mutex"
  | Access _ _ :: k => Done {| code := k; held := held t |}
  end.

Definition pool_step (i : nat) (ts : pool) : outcome pool :=
  match ts !! i with
  | None => Blocks "no such thread"
  | Some t => outcome_bind (thread_step (delete i ts) t) (fun t' => Done (<[i := t']> ts))
  end.

Inductive steps (ts0 : pool) : nat -> pool -> Prop :=
| steps_nil : steps ts0 0 ts0
| steps_snoc n ts i ts' : steps ts0 n ts -> pool_step i ts = Done ts' -> steps ts0 (S n) ts'.

Definition program (cs : list call) : list instr := cs ≫= code_of.
Definition start (calls : list (list call)) : pool :=
  (fun cs => {| code := program cs; held := [] |}) <$> calls.

(** Two threads are about to access [v], and one of them to change it: a data race. *)
Definition next_access (t : thread) : option (var * bool) :=
  match code t with Access v w :: _ => Some (v, w) | _ => None end.
Definition races (v : var) (ts : pool) : Prop :=
  exists i j t u w w', i <> j /\ ts !! i = Some t /\ ts !! j = Some u /\
    next_access t = Some (v, w) /\ next_access u = Some (v, w') /\ w || w' = true.

(** The calls that access [v] only with its mutex, and alone to change it. *)
Definition safe_on (v : var) (c : call) : bool :=
  match v, c with
  | V_opened_fd_map, (GetFd known | GetPath known | GetFileDescriptorsOf known | GetFileOffset known | Clone known _) => known
  | V_storage, (Rename | Add | AddFileToTid _) => false
  | V_threads_fd f, Remove f' _ => bool_decide (f <> f')
  | _, _ => true
  end.

(** ** The discipline of the methods *)

(** The order in which the mutexes are taken, and the one that guards [v]. *)
Definition rank (m : mutex) : Z :=
  match m with _mutex_opened_fd_map => 0 | _mutex_storage => 1 | _mutex_threads_fd _ => 2 end.
Definition guard_of (v : var) : mutex :=
  match v with
  | V_opened_fd_map => _mutex_opened_fd_map
  | V_storage => _mutex_storage
  | V_threads_fd f => _mutex_threads_fd f
  end.
Definition guarded (v : var) (write : bool) (hs : list (mutex * bool)) : bool :=
  existsb (fun h => bool_decide (h.1 = guard_of v) && implb write h.2) hs.

(** With the mutexes [hs], the code takes mutexes of a higher rank only, gives
    back what it has and nothing else, and has the guard of the variables in
    [checked] when it accesses them. *)
Fixpoint obeys (checked : var -> bool) (hs : list (mutex * bool)) (c : list instr) : bool :=
  match c with
  | [] => bool_decide (hs = [])
  | Acquire m x :: k => forallb (fun h => rank h.1 <? rank m) hs && obeys checked ((m, x) :: hs) k
  | Release m :: k => owns m hs && obeys checked (filter (fun h => h.1 <> m) hs) k
  | Access v w :: k => implb (checked v) (guarded v w hs) && obeys checked hs k
  end.

Section Discipline.
Context (checked : var -> bool).

(** Code after which [hs] is as before. *)
Definition neutral (hs : list (mutex * bool)) (c : list instr) : Prop :=
  forall k, obeys checked hs k = true -> obeys checked hs (c ++ k) = true.

Lemma neutral_nil hs : neutral hs [].
Proof using. by intros k Hk. Qed.
Lemma neutral_app hs a b : neutral hs a -> neutral hs b -> neutral hs (a ++ b).
Proof using. intros Ha Hb k Hk. rewrite <- app_assoc. by apply Ha, Hb. Qed.
Lemma neutral_bind {A} hs (l : list A) f : (forall a, a ∈ l -> neutral hs (f a)) -> neutral hs (l ≫= f).
Proof using.
  induction l as [|a l IH]; intros H; [apply neutral_nil|]. apply neutral_app; [apply H|apply IH]; set_solver.
Qed.
Lemma neutral_access hs v w c :
  implb (checked v) (guarded v w hs) = true -> neutral hs c -> neutral hs (Access v w :: c).
Proof using. intros Hv Hc k Hk. simpl. rewrite Hv. by apply Hc. Qed.

Lemma above_not_owned m hs : forallb (fun h => rank h.1 <? rank m) hs = true -> owns m hs = false.
Proof using.
  induction hs as [|h hs IH]; simpl; [done|]. intros [Hh Hs]%andb_prop. rewrite (IH Hs), orb_false_r.
  apply bool_decide_eq_false_2. intros <-. lia.
Qed.
Lemma filter_not_owned m hs : owns m hs = false -> filter (fun h => h.1 <> m) hs = hs.
Proof using.
  induction hs as [|h hs IH]; simpl; [done|]. intros [Hh Hs]%orb_false_iff. apply bool_decide_eq_false_1 in Hh.
  rewrite filter_cons_True by done. by rewrite IH.
Qed.

(** A block with its guard. *)
Lemma neutral_guard hs m x body :
  forallb (fun h => rank h.1 <? rank m) hs = true -> neutral ((m, x) :: hs) body ->
  neutral hs (Acquire m x :: body ++ [Release m]).
Proof using.
  intros Hr Hb k Hk. simpl. rewrite Hr. simpl. rewrite <- app_assoc. apply Hb. simpl.
  rewrite bool_decide_eq_true_2 by done. simpl. rewrite filter_cons_False by (simpl; tauto).
  by rewrite filter_not_owned by by apply above_not_owned.
Qed.
End Discipline.

(** Splits the code of a method into its accesses. *)
Ltac split_code :=
  repeat first
    [ apply neutral_nil
    | apply neutral_guard; [reflexivity|]
    | apply neutral_access
    | apply neutral_bind; intros ? ?
    | match goal with |- neutral _ _ (match ?o with Some _ => _ | None => _ end) => destruct o end
    | apply neutral_app ].

(** An access with its guard, or one that [safe_on] excludes. *)
Ltac solve_access H :=
  match goal with
  | |- implb (?checked ?v) _ = true =>
      destruct (checked v) eqn:?; [|done]; simpl;
      first [ done
            | unfold guarded; simpl; rewrite ?bool_decide_eq_true_2 by done; done
            | match goal with E : checked v = true |- _ => specialize (H _ E); simpl in H end;
              try apply bool_decide_eq_true_1 in H; by simplify_eq/= ]
  end.

Lemma code_obeys checked c :
  (forall v, checked v = true -> safe_on v c = true) -> neutral checked [] (code_of c).
Proof. intros H. destruct c; simpl; split_code; solve_access H. Qed.

Lemma program_obeys checked cs :
  (forall c v, c ∈ cs -> checked v = true -> safe_on v c = true) -> obeys checked [] (program cs) = true.
Proof.
  intros H. rewrite <- (app_nil_r (program cs)). apply neutral_bind; [|done].
  intros c Hc. apply code_obeys. intros v. by apply H.
Qed.

(** ** The invariant *)

Section Invariant.
Context (checked : var -> bool).

Record pool_inv (ts : pool) : Prop := {
  pi_obeys i t : ts !! i = Some t -> obeys checked (held t) (code t) = true;
  pi_alone i j t u m x y : i <> j -> ts !! i = Some t -> ts !! j = Some u ->
    (m, x) ∈ held t -> (m, y) ∈ held u -> x || y = false
}.

Lemma pool_start_inv calls :
  (forall cs c v, cs ∈ calls -> c ∈ cs -> checked v = true -> safe_on v c = true) -> pool_inv (start calls).
Proof using.
  intros H. split.
  - intros i t (cs & -> & Hcs)%list_lookup_fmap_Some_1. simpl. apply program_obeys. intros c v Hc.
    eapply H; [by eapply list_elem_of_lookup_2|done].
  - intros i j t u m x y _ (cs & -> & _)%list_lookup_fmap_Some_1. simpl. set_solver.
Qed.

Lemma owns_elem m hs : owns m hs = true <-> exists x, (m, x) ∈ hs.
Proof using.
  unfold owns. rewrite existsb_exists. split.
  - intros ([m' x] & Hin & E%bool_decide_eq_true_1). simpl in E. subst. exists x. by apply list_elem_of_In.
  - intros (x & Hin). exists (m, x). split; [by apply list_elem_of_In|]. by apply bool_decide_eq_true_2.
Qed.

Lemma excludes_elem m x t : excludes m x t = true <-> exists y, (m, y) ∈ held t /\ x || y = true.
Proof using.
  unfold excludes. rewrite existsb_exists. split.
  - intros ([m' y] & Hin & [E%bool_decide_eq_true_1 Hy]%andb_prop). simpl in *. subst. exists y.
    split; [by apply list_elem_of_In|done].
  - intros (y & Hin & Hy). exists (m, y). split; [by apply list_elem_of_In|]. simpl.
    by rewrite bool_decide_eq_true_2.
Qed.

(** The other threads, by their index. *)
Lemma others_elem (ts : pool) i u : u ∈ delete i ts <-> exists j, j <> i /\ ts !! j = Some u.
Proof using.
  rewrite list_elem_of_lookup. split.
  - intros (k & Hk). destruct (decide (k < i)%nat).
    + rewrite list_lookup_delete_lt in Hk by done. exists k. split; [lia|done].
    + rewrite list_lookup_delete_ge in Hk by lia. exists (S k). split; [lia|done].
  - intros (j & Hne & Hj). destruct (decide (j < i)%nat).
    + exists j. by rewrite list_lookup_delete_lt.
    + exists (pred j). rewrite list_lookup_delete_ge by lia. by replace (S (pred j)) with j by lia.
Qed.

(** A step of a thread: a mutex it has afterwards is one it had, or one that no
    other thread excludes. *)
Lemma thread_step_held others t t' :
  obeys checked (held t) (code t) = true -> thread_step others t = Done t' ->
  obeys checked (held t') (code t') = true /\ length (code t) = S (length (code t')) /\
  forall m x, (m, x) ∈ held t' ->
    (m, x) ∈ held t \/ forall u y, u ∈ others -> (m, y) ∈ held u -> x || y = false.
Proof using.
  unfold thread_step. destruct (code t) as [|[m x|m|v w] k] eqn:Ek; [done|..]; simpl; intros Ho E.
  - apply andb_prop in Ho as [Hr Ho]. destruct (owns m (held t)); [done|].
    destruct (existsb _ _) eqn:Ex; simplify_eq/=. split_and!; [done..|].
    intros m' x' [[= -> ->]|Hin]%elem_of_cons; [right|by left]. intros u y Hu Hy.
    apply not_true_is_false. intros Hxy. apply not_true_iff_false in Ex. apply Ex, existsb_exists.
    exists u. split; [by apply list_elem_of_In|]. apply excludes_elem. eauto.
  - apply andb_prop in Ho as [Hm Ho]. rewrite Hm in E. simplify_eq/=. split_and!; [done..|].
    intros m' x' [_ Hin]%list_elem_of_filter. by left.
  - apply andb_prop in Ho as [_ Ho]. simplify_eq/=. split_and!; [done..|]. by left.
Qed.

Lemma pool_step_inv ts i ts' : pool_inv ts -> pool_step i ts = Done ts' -> pool_inv ts'.
Proof using.
  intros [Ho Ha]. unfold pool_step. destruct (ts !! i) as [t|] eqn:Et; [|done].
  destruct (thread_step _ t) as [t'| | | |] eqn:E; intros [= <-].
  destruct (thread_step_held _ _ _ (Ho _ _ Et) E) as (Ho' & _ & Hh). clear E.
  assert (forall j u m x y, i <> j -> ts !! j = Some u -> (m, x) ∈ held t' -> (m, y) ∈ held u -> x || y = false) as Hi.
  { intros j u m x y Hne Hu Hx Hy. destruct (Hh _ _ Hx) as [Hx'|Hx']; [by eapply Ha|].
    eapply Hx'; [|done]. apply others_elem. eauto. }
  split.
  - intros j u. rewrite list_lookup_insert_Some. intros [(-> & <- & _)|[_ Hu]]; [done|by eapply Ho].
  - intros j k u v m x y Hne. rewrite !list_lookup_insert_Some.
    intros [(<- & <- & _)|[Hj Hu]] [(<- & <- & _)|[Hk Hv]] Hx Hy; [done|by eapply Hi| |by eapply (Ha j k)].
    rewrite orb_comm. by eapply Hi.
Qed.

Lemma pool_steps_inv ts0 n ts : pool_inv ts0 -> steps ts0 n ts -> pool_inv ts.
Proof using. induction 2; [done|]. by eapply pool_step_inv. Qed.

(** ** No undefined behaviour, no deadlock, no race *)

Lemma thread_step_defined others t :
  obeys checked (held t) (code t) = true -> forall why, thread_step others t <> UB why.
Proof using.
  unfold thread_step. destruct (code t) as [|[m x|m|v w] k]; simpl; intros Ho why; [done|..|done].
  - apply andb_prop in Ho as [Hr _]. rewrite (above_not_owned _ _ Hr). by case_match.
  - apply andb_prop in Ho as [Hm _]. by rewrite Hm.
Qed.

(** A thread that cannot go on waits for a mutex another thread has. *)
Lemma pool_waits ts i t :
  pool_inv ts -> ts !! i = Some t -> code t <> [] -> (forall ts', pool_step i ts <> Done ts') ->
  exists m x k j u y, code t = Acquire m x :: k /\ ts !! j = Some u /\ (m, y) ∈ held u.
Proof using.
  intros [Ho _] Et Hc Hs. pose proof (Ho _ _ Et) as Hot. unfold pool_step in Hs. rewrite Et in Hs. unfold thread_step in Hs.
  destruct (code t) as [|[m x|m|v w] k]; [done|..]; simpl in *.
  - apply andb_prop in Hot as [Hr _]. rewrite (above_not_owned _ _ Hr) in Hs.
    destruct (existsb _ _) eqn:Ex; [|by edestruct Hs]. apply existsb_exists in Ex as (u & Hu & Hy).
    apply excludes_elem in Hy as (y & Hy & _). apply list_elem_of_In, others_elem in Hu as (j & _ & Hj).
    by exists m, x, k, j, u, y.
  - apply andb_prop in Hot as [Hm _]. rewrite Hm in Hs. by edestruct Hs.
  - by edestruct Hs.
Qed.

(** The thread that has the mutex waits for one of a higher rank. *)
Lemma pool_no_deadlock ts :
  pool_inv ts -> (forall i ts', pool_step i ts <> Done ts') -> forall i t, ts !! i = Some t -> code t = [].
Proof using.
  intros Hi Hs. assert (forall (n : nat) i t m x k, Z.of_nat n = 2 - rank m -> ts !! i = Some t -> code t <> Acquire m x :: k) as Hw.
  { induction n as [n IH] using lt_wf_ind. intros i t m x k Hn Et Ec.
    destruct (pool_waits ts i t Hi Et) as (m' & x' & k' & j & u & y & Ec' & Eu & Hy); [by rewrite Ec|done|].
    rewrite Ec in Ec'. simplify_eq.
    assert (code u <> []) as Hu.
    { intros E. pose proof (pi_obeys _ Hi _ _ Eu) as Ho. rewrite E in Ho. apply bool_decide_eq_true_1 in Ho.
      rewrite Ho in Hy. set_solver. }
    destruct (pool_waits ts j u Hi Eu Hu) as (m2 & x2 & k2 & _ & _ & _ & Ec2 & _); [done|].
    pose proof (pi_obeys _ Hi _ _ Eu) as Ho. rewrite Ec2 in Ho. simpl in Ho. apply andb_prop in Ho as [Hr _].
    rewrite forallb_forall in Hr. specialize (Hr _ (proj1 (list_elem_of_In _ _) Hy)). simpl in Hr.
    assert (rank m2 <= 2) by (by destruct m2).
    apply (IH (Z.to_nat (2 - rank m2)) ltac:(lia) j u m2 x2 k2); [lia|done..]. }
  intros i t Et. destruct (code t) eqn:Ec; [done|].
  destruct (pool_waits ts i t Hi Et) as (m & x & k & _ & _ & _ & Ec' & _); [by rewrite Ec|done|].
  destruct (Hw (Z.to_nat (2 - rank m)) i t m x k); [|done..]. assert (rank m <= 2) by (by destruct m). lia.
Qed.

Lemma guarded_elem v w hs : guarded v w hs = true -> exists x, (guard_of v, x) ∈ hs /\ implb w x = true.
Proof using.
  unfold guarded. rewrite existsb_exists. intros ([m x] & Hin & [E%bool_decide_eq_true_1 Hx]%andb_prop).
  simpl in *. subst. exists x. split; [by apply list_elem_of_In|done].
Qed.

Lemma next_guarded ts i t v w :
  pool_inv ts -> checked v = true -> ts !! i = Some t -> next_access t = Some (v, w) ->
  exists x, (guard_of v, x) ∈ held t /\ implb w x = true.
Proof using.
  intros Hi Hv Et. pose proof (pi_obeys _ Hi _ _ Et) as Ho. unfold next_access.
  destruct (code t) as [|[| |v' w'] k]; try done. intros [= -> ->]. simpl in Ho. rewrite Hv in Ho.
  apply andb_prop in Ho as [Hg _]. by apply guarded_elem.
Qed.

Lemma pool_no_race ts v : pool_inv ts -> checked v = true -> ~ races v ts.
Proof using.
  intros Hi Hv (i & j & t & u & w & w' & Hne & Et & Eu & Ht & Hu & Hw).
  destruct (next_guarded ts i t v w Hi Hv Et Ht) as (x & Hx & Hxw).
  destruct (next_guarded ts j u v w' Hi Hv Eu Hu) as (y & Hy & Hyw).
  pose proof (pi_alone _ Hi _ _ _ _ _ _ _ Hne Et Eu Hx Hy) as Ha.
  destruct w, w', x, y; done.
Qed.
End Invariant.

(** Every step leaves one instruction less. *)
Definition code_left (ts : pool) : Z := total (fun t => Z.of_nat (length (code t))) ts.
Lemma pool_step_shorter ts i ts' : pool_step i ts = Done ts' -> code_left ts = code_left ts' + 1.
Proof.
  unfold pool_step. destruct (ts !! i) as [t|] eqn:Et; [|done].
  destruct (thread_step _ t) as [t'| | | |] eqn:E; intros [= <-]. unfold code_left.
  rewrite (total_insert _ _ _ _ _ Et).
  assert (length (code t) = S (length (code t'))) as ->; [|lia].
  revert E. unfold thread_step. repeat case_match; intros; simplify_eq/=; done.
Qed.

Fixpoint run (sched : list nat) (ts : pool) : nat * pool :=
  match sched with
  | [] => (0%nat, ts)
  | i :: sched' =>
      match pool_step i ts with
      | Done ts' => let '(n, ts2) := run sched' ts' in (S n, ts2)
      | _ => run sched' ts
      end
  end.
Lemma pool_steps_app ts0 n ts k ts' : steps ts0 n ts -> steps ts k ts' -> steps ts0 (n + k) ts'.
Proof.
  intros H. induction 1 as [|k u i u' Hu IH E]; [by rewrite Nat.add_0_r|].
  rewrite Nat.add_succ_r. by eapply steps_snoc.
Qed.
Lemma pool_run_steps sched ts : steps ts (run sched ts).1 (run sched ts).2.
Proof.
  revert ts. induction sched as [|i sched IH]; intros ts; simpl; [apply steps_nil|].
  destruct (pool_step i ts) as [ts'| | | |] eqn:E; [|apply IH..].
  specialize (IH ts'). destruct (run sched ts') as [n ts2]. simpl in *.
  eapply (pool_steps_app ts 1 ts' n ts2); [|done]. eapply steps_snoc; [apply steps_nil|done].
Qed.

(** ** The theorems *)

(** C22. The calls of the storage manager end: threads that call its methods in any
    order and interleave in any way never lock a mutex twice or unlock one they
    do not have, every step is one of finitely many, and when no thread can go
    on every thread has made all its calls and holds no mutex.  So no calls,
    [rename], [clone] and [remove] with their nested mutexes and the readers
    that share a mutex included, wait for each other for ever. *)
Theorem storage_calls_complete calls n ts :
  steps (start calls) n ts ->
  Z.of_nat n + code_left ts = code_left (start calls) /\
  (forall i why, pool_step i ts <> UB why) /\
  ((forall i ts', pool_step i ts <> Done ts') ->
     forall i t, ts !! i = Some t -> code t = [] /\ held t = []).
Proof.
  intros Hs. assert (pool_inv (fun _ => false) ts) as Hi.
  { eapply pool_steps_inv; [|done]. by apply pool_start_inv. }
  split_and!.
  - clear Hi. induction Hs as [|n ts i ts' Hs IH E]; [lia|]. apply pool_step_shorter in E. lia.
  - intros i why. unfold pool_step. destruct (ts !! i) as [t|] eqn:Et; [|done].
    pose proof (thread_step_defined _ (delete i ts) t (pi_obeys _ _ Hi _ _ Et)) as Hd.
    destruct (thread_step _ t); try done. simpl. intros [= ->]. by eapply Hd.
  - intros Hstuck i t Et. pose proof (pool_no_deadlock _ ts Hi Hstuck i t Et) as Hc. split; [done|].
    pose proof (pi_obeys _ _ Hi _ _ Et) as Ho. rewrite Hc in Ho. by apply bool_decide_eq_true_1 in Ho.
Qed.

(** C23. The mutexes of the storage manager order the accesses they are there for:
    two threads are never about to access the map of descriptors, one of them to
    change it, whichever methods they call, as long as the descriptors they look
    up are in it; the same holds of the map of files unless [rename], [add] or
    [addFileToTid] is called, and of the descriptors of a file unless that file
    is removed. *)
Theorem storage_accesses_ordered calls n ts v :
  (forall cs c, cs ∈ calls -> c ∈ cs -> safe_on v c = true) ->
  steps (start calls) n ts -> ~ races v ts.
Proof.
  intros Hsafe Hs. eapply (pool_no_race (fun v' => bool_decide (v' = v))); [|by apply bool_decide_eq_true_2].
  eapply pool_steps_inv; [|done]. apply pool_start_inv.
  intros cs c v' Hcs Hc ->%bool_decide_eq_true_1. by eapply Hsafe.
Qed.

(** A run: a clone and a rename wait for a read, and then for each other. *)
Definition clone_and_rename : list (list call) :=
  [[GetPath true; SetFileOffset]; [Clone true [4; 5]]; [Rename; RemoveFromTid (Some 4)]].
Definition all_turns : list nat := concat (replicate 60 [0%nat; 1%nat; 2%nat]).

Lemma storage_calls_complete_witness :
  (run all_turns (start clone_and_rename)).1 = 39%nat /\
  forall i t, (run all_turns (start clone_and_rename)).2 !! i = Some t -> code t = [] /\ held t = [].
Proof.
  destruct (storage_calls_complete clone_and_rename _ _ (pool_run_steps all_turns _)) as (_ & _ & H).
  split; [vm_compute; reflexivity|]. apply H. vm_compute. intros [|[|[|i]]] ts'; discriminate.
Defined.

Lemma storage_accesses_ordered_witness :
  ~ races V_opened_fd_map (run [0; 1; 2; 0; 1; 2]%nat (start clone_and_rename)).2.
Proof.
  apply (storage_accesses_ordered clone_and_rename (run [0; 1; 2; 0; 1; 2]%nat (start clone_and_rename)).1).
  - intros cs c Hcs Hc. unfold clone_and_rename in Hcs. set_unfold in Hcs.
    destruct Hcs as [->|[->|[->|[]]]]; set_unfold in Hc; naive_solver.
  - apply pool_run_steps.
Defined.

(** The calls that are left out do race: the lookup after the insertion in [add]
    with another [add], [rename] with a lookup, two lookups of a descriptor that
    is not there, and [remove], which reads the descriptors of the file without
    its mutex, with an [open] of the file. *)
Lemma unguarded_accesses_race :
  (exists n ts, steps (start [[Add]; [Add]]) n ts /\ races V_storage ts) /\
  (exists n ts, steps (start [[Rename]; [Get]]) n ts /\ races V_storage ts) /\
  (exists n ts, steps (start [[GetPath false]; [GetPath false]]) n ts /\ races V_opened_fd_map ts) /\
  (exists n ts, steps (start [[Remove 1 0]; [AddFileToTid 1]]) n ts /\ races (V_threads_fd 1) ts).
Proof.
  split_and!; eexists _, _; split.
  - apply (pool_run_steps [0; 0; 0; 1]%nat).
  - by eexists 0%nat, 1%nat, _, _, _, _.
  - apply (pool_run_steps [0; 0; 1]%nat).
  - by eexists 0%nat, 1%nat, _, _, _, _.
  - apply (pool_run_steps [0; 1]%nat).
  - by eexists 0%nat, 1%nat, _, _, _, _.
  - apply (pool_run_steps [0; 0; 0; 0; 0; 1; 1; 1]%nat).
  - by eexists 0%nat, 1%nat, _, _, _, _.
Qed.
