(* ===== verification/Handlers.v ===== *)
(** * The request handlers

    [server/include/handlers/], [server/include/remote/] and the helpers of
    [server/include/utils/common.hpp]: what the server does for each request of
    a client and for each message of another server.  A handler that detaches
    a thread adds a [task]; [task_ready] is the event the thread waits for and
    [run_task] what it does then. *)
From S2P Require Import Prelude Memory Sectors FileBuffer Queue CapioFile ClientManager Locations Server StorageManager.

Section Handlers.
Context `{Config}.

Definition reply (tid v : Z) : M Server unit := on_clients (replyToClient tid v).

(** [replyToClient] with [count] bytes of the buffer of a file at [offset]. *)
Definition reply_file (tid offset id count : Z) : M Server unit :=
  let* f := file_get id (fun f => f) in
  let* data := lift (load offset count f) in
  on_clients (replyToClient_data getCacheLineSize tid offset data).

Definition location_opt (path : string) : M Server (option (node_ptr * Z)) :=
  gets (fun s => get_file_location_opt (locations s) path).
Definition location_get (path : string) : M Server (node_ptr * Z) := on_locations (get_file_location path).
Definition location_load (path : string) : M Server bool :=
  on_locations (fun l => Done (load_file_location path l)).

(** ** Written data *)

(** [register_written_data] *)
Definition register_written_data (tid : Z) (path : string) (id offset end_of_write : Z) : M Server unit :=
  on_clients (modify (registerProducedFile tid path)) ;;
  file_do id (file_insertSector offset end_of_write) ;;
  let* first := file_get id isFirstWrite in
  when first
    (file_do id registerFirstWrite ;;
     on_locations (modify (write_file_location path)) ;;
     updateDirectory tid path).

(** [readFromQueue] on the data queue of the client. *)
Definition file_readFromQueue (id tid offset num_bytes : Z) : M Server unit := fun s =>
  match data_buffers (client_manager s) !! tid, heap s !! id with
  | None, _ => Throw "std::out_of_range"
  | _, None => UB "dangling CapioFile pointer"
  | Some b, Some f =>
      outcome_bind (readFromQueue getCacheLineSize (ClientToServer b) offset num_bytes f) (fun '(q, f') =>
      Done (tt, set_heap (<[id := f']> (heap s))
        (set_client_manager (set_data_buffers
           (<[tid := {| ClientToServer := q; ServerToClient := ServerToClient b |}]>
              (data_buffers (client_manager s))) (client_manager s)) s)))
  end.

(** [write_handler] *)
Definition write_handler (tid fd count : Z) : M Server unit :=
  let* offset := getFileOffset tid fd in
  let end_of_write := offset + count in
  let* path := getPath tid fd in
  let* id := storage_get path in
  file_createBuffer id true ;;
  file_reserve id end_of_write ;;
  file_readFromQueue id tid offset count ;;
  register_written_data tid path id offset end_of_write ;;
  setFileOffset tid fd end_of_write.

(** ** Messages to other servers: [remote/requests.hpp] *)

Definition serve_remote_stat_request (path : string) (source_tid file_size : Z) (is_dir : bool)
    (dest : string) : M Server unit :=
  send dest (RemoteStatReply path source_tid file_size is_dir) [].

Definition remote_reply_size (f : CapioFile) (offset : Z) : Z :=
  let nbytes := Z.max 0 (getStoredSize f - offset) in
  if negb (getPrefetchDataSize =? 0) && (getPrefetchDataSize <? nbytes)
  then getPrefetchDataSize else nbytes.

(** [serve_remote_read_request]: its [count] is an [int]. *)
Definition serve_remote_read_request (tid fd count nbytes file_size : Z) (complete is_getdents : bool)
    (dest : string) (data : list cell) : M Server unit :=
  send dest (RemoteReadReply tid fd (s32 count) nbytes file_size complete is_getdents) data.

Definition handle_remote_stat_request (tid : Z) (path : string) : M Server unit :=
  let* (p, _) := location_get path in
  send (node_text p) (RemoteStat tid get_node_name path) [].

Definition handle_remote_read_request (tid fd count : Z) (is_getdents : bool) : M Server unit :=
  let* path := getPath tid fd in
  let* offset := getFileOffset tid fd in
  let* (p, _) := location_get path in
  send (node_text p) (RemoteRead path tid fd count offset is_getdents) [].

Definition handle_remote_copy_file_range_request (tid fd_in fd_out : Z) (path_in : string)
    (offset_in offset_out count : Z) : M Server unit :=
  let* (p, _) := location_get path_in in
  send (node_text p) (RemoteCopy path_in tid fd_in fd_out offset_in offset_out count) [].

(** ** Directories: [send_dirent_to_client] *)

(** The name of an entry, up to its NUL. *)
Fixpoint strcpy_cells (n : nat) (cs : list cell) : list cell :=
  match n, cs with
  | S n', c :: cs' => if decide (c = Some x00) then [c] else c :: strcpy_cells n' cs'
  | _, _ => []
  end.
(** The entry sent for the [i]-th one of the buffer. *)
Definition resend_dirent (d : mem) (i : Z) : list cell :=
  let e := i * sizeof_linux_dirent64 in
  let name := strcpy_cells NAME_MAX (mem_read d (e + 19) (Z.of_nat NAME_MAX)) in
  mem_read d e 8 ++ le_bytes 8 ((i + 1) * sizeof_linux_dirent64) ++
  le_bytes 2 sizeof_linux_dirent64 ++ mem_read d (e + 18) 1 ++
  name ++ replicate (NAME_MAX - length name) None ++ replicate 6 None.

Definition send_dirent_to_client (tid fd id offset count : Z) : M Server unit :=
  let* f := file_get id (fun f => f) in
  let first_entry := offset / sizeof_linux_dirent64 in
  let end_of_read := Z.min (offset + count) (getStoredSize f) in
  let last_entry := end_of_read / sizeof_linux_dirent64 in
  let actual_size := (last_entry - first_entry) * sizeof_linux_dirent64 in
  if 0 <? actual_size then
    let* d := or_ub (getBuffer f) "null buffer" in
    let data := concat (resend_dirent d <$> seqZ first_entry (last_entry - first_entry)) in
    on_clients (replyToClient_data getCacheLineSize tid offset data) ;;
    setFileOffset tid fd (offset + actual_size)
  else
    let* path_to_check := getPath tid fd in
    if negb (isCommitted f) && isFirable path_to_check then
      let* current_size := getFileOffset tid fd in
      start_thread (WaitForDirentData ((last_entry + 1) * sizeof_linux_dirent64) tid fd (s32 count) id current_size)
    else reply tid offset.

(** ** Reads: [handlers/read.hpp] *)

Definition handle_pending_read (tid fd process_offset count : Z) : M Server unit :=
  let* path := getPath tid fd in
  let* id := storage_get path in
  let* end_of_sector := file_get id (fun f => getSectorEnd (_sectors f) process_offset) in
  let end_of_read := process_offset + count in
  let bytes_read := if end_of_read <? end_of_sector then count
                    else if end_of_sector =? CAPIO_SECTOR_NOT_FOUND then 0
                    else end_of_sector - process_offset in
  file_createBuffer id false ;;
  reply_file tid process_offset id bytes_read ;;
  setFileOffset tid fd (process_offset + bytes_read).

Definition handle_local_read (tid fd count : Z) (is_prod : bool) : M Server unit :=
  let* path := getPath tid fd in
  let* id := storage_get path in
  let* process_offset := getFileOffset tid fd in
  let* committed := file_get id isCommitted in
  let file_complete := committed || is_prod in
  if negb (file_complete || isFirable path) then
    start_thread (PendingReadCommit id tid fd count process_offset)
  else
    let* end_of_sector := file_get id (fun f => getSectorEnd (_sectors f) process_offset) in
    let sector_not_found := end_of_sector =? CAPIO_SECTOR_NOT_FOUND in
    if sector_not_found && file_complete then reply tid process_offset
    else if (sector_not_found || (end_of_sector <? process_offset + count)) && negb file_complete then
      start_thread (PendingReadData id tid fd count process_offset)
    else
      let read_size := Z.min count (end_of_sector - process_offset) in
      file_createBuffer id false ;;
      reply_file tid process_offset id read_size ;;
      setFileOffset tid fd (process_offset + read_size).

Definition request_remote_read (tid fd count : Z) : M Server unit :=
  let* path := getPath tid fd in
  let* id := storage_get path in
  let* offset := getFileOffset tid fd in
  let end_of_read := offset + count in
  let* end_of_sector := file_get id (fun f => getSectorEnd (_sectors f) offset) in
  let* committed := file_get id isCommitted in
  let* real := file_get id getRealFileSize in
  if committed && ((end_of_read <=? end_of_sector) ||
      ((if end_of_sector =? CAPIO_SECTOR_NOT_FOUND then 0 else end_of_sector) =? real))
  then handle_local_read tid fd count true
  else if end_of_read <=? end_of_sector then
    file_createBuffer id false ;;
    reply_file tid offset id count ;;
    setFileOffset tid fd (offset + count)
  else handle_remote_read_request tid fd count false.

Definition handle_read (tid fd count : Z) : M Server unit :=
  let* path := getPath tid fd in
  let* app_name := gets (fun s => getAppName (client_manager s) tid) in
  let* produced := gets (fun s => isProducer (client_manager s) tid path) in
  let is_prod := cl_isProducer path app_name || produced in
  let* location := location_opt path in
  match location with
  | None => if is_prod then handle_local_read tid fd count is_prod
            else start_thread (WaitForFile path tid fd count)
  | Some (p, _) =>
      if is_prod || node_is_backend p || String.eqb getCapioDir path
      then handle_local_read tid fd count is_prod
      else request_remote_read tid fd count
  end.

(** [wait_for_file], once the location is loaded: the node is compared by its
    address. *)
Definition wait_for_file (path : string) (tid fd count : Z) : M Server unit :=
  let* (p, _) := location_get path in
  if node_is_backend_pointer p then handle_local_read tid fd count false
  else request_remote_read tid fd count.

(** ** Opens: [handlers/open.hpp] *)

Definition update_file_metadata (path : string) (tid fd : Z) (is_creat : bool) (offset : Z) : M Server unit :=
  let* o := tryGet path in
  let* id := (match o with
              | Some id => ret id
              | None => storage_add path false getFileInitialSize
              end) in
  addFileToTid tid fd path offset ;;
  let* first := file_get id isFirstWrite in
  when (first && is_creat)
    (on_clients (modify (registerProducedFile tid path)) ;;
     file_do id registerFirstWrite ;;
     on_locations (modify (write_file_location path)) ;;
     updateDirectory tid path).

(** [get_file_location_opt(path) || load_file_location(path)] *)
Definition location_known (path : string) : M Server bool :=
  let* o := location_opt path in
  match o with Some _ => ret true | None => location_load path end.

Definition wait_for_file_creation (path : string) (tid fd : Z) : M Server unit :=
  update_file_metadata path tid fd false 0 ;; reply tid 0.

Definition handle_create (tid fd : Z) (path : string) : M Server unit :=
  let* known := location_known path in
  update_file_metadata path tid fd (negb known) 0 ;;
  reply tid 0.

Definition handle_create_exclusive (tid fd : Z) (path : string) : M Server unit :=
  let* o := tryGet path in
  match o with
  | Some _ => reply tid 1
  | None => reply tid 0 ;; update_file_metadata path tid fd true 0
  end.

Definition handle_open (tid fd : Z) (path : string) : M Server unit :=
  let* known := location_known path in
  if known : bool then update_file_metadata path tid fd false 0 ;; reply tid 0
  else start_thread (WaitForFileCreation path tid fd).

(** A request on an excluded path is refused. *)
Definition unless_excluded (tid : Z) (path : string) (m : M Server unit) : M Server unit :=
  if isExcluded path then reply tid CAPIO_POSIX_SYSCALL_REQUEST_SKIP else m.
Definition create_handler tid fd path := unless_excluded tid path (handle_create tid fd path).
Definition create_exclusive_handler tid fd path := unless_excluded tid path (handle_create_exclusive tid fd path).
Definition open_handler tid fd path := unless_excluded tid path (handle_open tid fd path).

(** ** Closes: [handlers/close.hpp] *)

Definition handle_close (tid fd : Z) : M Server unit :=
  let* path := getPath tid fd in
  if String.eqb path "" then ret tt
  else
    let* id := storage_get_fd tid fd in
    file_do id file_close ;;
    let* is_closed := file_get id closed in
    when (bool_decide (getCommitRule path = ON_CLOSE) && is_closed)
      (file_do id (setCommitted true) ;; file_dump id) ;;
    removeFromTid tid fd.

(** ** Seeks and stats: [handlers/seek.hpp], [handlers/stat.hpp] *)

Definition handle_lseek (tid fd offset : Z) : M Server unit :=
  setFileOffset tid fd offset ;; reply tid offset.
Definition handle_seek_data (tid fd offset : Z) : M Server unit :=
  let* id := storage_get_fd tid fd in
  let* offset := file_get id (fun f => seekData (_sectors f) offset) in
  setFileOffset tid fd offset ;; reply tid offset.
Definition handle_seek_hole (tid fd offset : Z) : M Server unit :=
  let* id := storage_get_fd tid fd in
  let* offset := file_get id (fun f => seekHole (_sectors f) offset) in
  setFileOffset tid fd offset ;; reply tid offset.

(** The two replies of a stat: the size, and whether it is a directory. *)
Definition reply_size (tid id : Z) : M Server unit :=
  let* size := file_get id (fun f => getFileSize (_sectors f)) in
  reply tid size ;;
  let* dir := file_get id isDirectory in
  reply tid (if dir : bool then 1 else 0).

Definition wait_for_file_completion (tid : Z) (path : string) : M Server unit :=
  let* id := storage_get path in
  let* committed := file_get id isCommitted in
  if committed || isFirable path then reply_size tid id
  else
    let* (p, _) := location_get path in
    if node_is_backend_pointer p then reply_size tid id
    else handle_remote_stat_request tid path.

Definition reply_stat (tid : Z) (path : string) : M Server unit :=
  let* known := location_known path in
  if negb known then
    let* app_name := gets (fun s => getAppName (client_manager s) tid) in
    if cl_isProducer path app_name then reply tid (-1) ;; reply tid (-1)
    else start_thread (WaitForFileCompletion tid path)
  else
    let* o := tryGet path in
    let* id := (match o with
                | Some id => ret id
                | None => storage_add path false getFileInitialSize
                end) in
    let* location := location_opt path in
    let* committed := file_get id isCommitted in
    if committed : bool then reply_size tid id
    else
      let* (p, _) := or_ub location "empty optional" in
      if node_is_backend p || isFirable path || String.eqb getCapioDir path
      then reply_size tid id
      else file_createBuffer id false ;; handle_remote_stat_request tid path.

Definition fstat_handler (tid fd : Z) : M Server unit :=
  let* path := getPath tid fd in reply_stat tid path.
Definition stat_handler (tid : Z) (path : string) : M Server unit :=
  unless_excluded tid path (reply_stat tid path).
Definition handle_seek_end (tid fd : Z) : M Server unit := fstat_handler tid fd.

(** ** Names: access, unlink, rmdir, rename, mkdir *)

Definition access_handler (tid : Z) (path : string) : M Server unit :=
  unless_excluded tid path
    (let* o := location_opt path in reply tid (match o with Some _ => 0 | None => -1 end)).

Definition unlink_handler (tid : Z) (path : string) : M Server unit :=
  unless_excluded tid path
    (let* o := tryGet path in
     match o with
     | Some id =>
         let* del := file_get id deletable in
         when del (storage_remove path ;; (let* _ := on_locations (delete_from_files_location path) in ret tt)) ;;
         reply tid 0
     | None => reply tid (-1)
     end).

Definition rmdir_handler (tid : Z) (path : string) : M Server unit :=
  unless_excluded tid path
    (storage_remove path ;;
     let* res := on_locations (delete_from_files_location path) in
     reply tid res).

Definition handle_rename (tid : Z) (oldpath newpath : string) : M Server unit :=
  let* o := tryGet oldpath in
  match o with
  | Some _ =>
      storage_rename oldpath newpath ;;
      (let* _ := on_locations (delete_from_files_location oldpath) in ret tt) ;;
      let* known := location_opt newpath in
      (match known with
       | None => on_locations (modify (write_file_location newpath))
       | Some _ => ret tt
       end) ;;
      on_locations (modify (rename_file_location oldpath newpath)) ;;
      reply tid 0
  | None => reply tid 1
  end.

Definition mkdir_handler (tid : Z) (path : string) : M Server unit :=
  let* r := addDirectory tid path in reply tid r.

(** ** Threads: dup, clone, exit, handshake *)

Definition dup_handler (tid old_fd new_fd : Z) : M Server unit :=
  when (negb (old_fd =? new_fd)) (storage_dup tid old_fd new_fd).

Definition clone_handler (parent_tid child_tid : Z) : M Server unit :=
  storage_clone parent_tid child_tid ;;
  on_clients (modify (unlockClonedChild child_tid)).

Definition handle_exit_group (tid : Z) : M Server unit :=
  let* files := on_clients (getProducedFiles tid) in
  for_each files (fun path =>
    when (bool_decide (getCommitRule path = ON_TERMINATION))
      (let* id := storage_get path in
       let* dir := file_get id isDirectory in
       (if dir : bool then
          let* n_committed := file_get id getDirectoryExpectedFileCount in
          let* n := file_get id getCurrentDirectoryFileCount in
          when (n_committed <=? n) (file_do id (setCommitted true))
        else file_do id (setCommitted true) ;; file_dump id) ;;
       file_do id file_close)) ;;
  let* fds := getFileDescriptors tid in
  for_each fds (fun fd => handle_close tid fd) ;;
  on_clients (modify (removeClient tid)).

Definition handshake_anonymous_handler (tid : Z) : M Server unit :=
  on_clients (modify (registerClient tid CAPIO_DEFAULT_APP_NAME)).
Definition handshake_named_handler (tid : Z) (app_name : string) (wait : bool) : M Server unit :=
  on_clients (modify (registerClient tid app_name)) ;;
  when wait (start_thread (WaitForCloneAllowed tid)).
End Handlers.
