(* ===== verification/RemoteHandlers.v ===== *)
(** * Copies, directory listings, messages of other servers, and the server loop

    [handlers/copy_file_range.hpp], [handlers/getdents.hpp],
    [remote/handlers/], and the dispatch of [capio_server.cpp] and
    [remote/listener.hpp]. *)
From S2P Require Import Prelude Memory Sectors FileBuffer Queue CapioFile ClientManager Locations Server StorageManager Handlers.

Section Remote.
Context `{Config}.

(** ** Copies between files *)

(** [copyFromFile] between the two files of the heap, or in one. *)
Definition file_copyFromFile (dst src src_offset dst_offset num_bytes : Z) : M Server unit :=
  if dst =? src then on_file dst (copyFromFile_self src_offset dst_offset num_bytes)
  else let* f := file_get src (fun f => f) in
       on_file dst (copyFromFile f src_offset dst_offset num_bytes).

(** [copy_file_range_data] *)
Definition copy_file_range_data (copy : CSCopyFileRange) : M Server unit :=
  let* id_in := storage_get (cp_path_in copy) in
  let* end_of_sector := file_get id_in (fun f => getSectorEnd (_sectors f) (cp_offset_in copy)) in
  let bytes_copied := if end_of_sector =? CAPIO_SECTOR_NOT_FOUND then 0
                      else Z.min (cp_count copy) (end_of_sector - cp_offset_in copy) in
  when (0 <? bytes_copied)
    (let* id_out := storage_get (cp_path_out copy) in
     let end_of_write := cp_offset_out copy + bytes_copied in
     file_createBuffer id_out true ;;
     file_reserve id_out end_of_write ;;
     file_copyFromFile id_out id_in (cp_offset_in copy) (cp_offset_out copy) bytes_copied ;;
     register_written_data (cp_tid copy) (cp_path_out copy) id_out (cp_offset_out copy) end_of_write) ;;
  reply (cp_tid copy) bytes_copied.

Definition handle_local_copy_file_range (copy : CSCopyFileRange) (is_prod : bool) : M Server unit :=
  let* id_in := storage_get (cp_path_in copy) in
  let* committed := file_get id_in isCommitted in
  let file_complete := committed || is_prod in
  let* end_of_sector := file_get id_in (fun f => getSectorEnd (_sectors f) (cp_offset_in copy)) in
  let wait_for_commit := negb file_complete && negb (isFirable (cp_path_in copy)) in
  let wait_for_data := negb file_complete &&
    ((end_of_sector =? CAPIO_SECTOR_NOT_FOUND) || (end_of_sector <? cp_offset_in copy + cp_count copy)) in
  if negb wait_for_commit && negb wait_for_data then copy_file_range_data copy
  else start_thread (PendingCopy id_in copy wait_for_commit).

Definition handle_remote_copy_file_range (copy : CSCopyFileRange) : M Server unit :=
  let* id_in := storage_get (cp_path_in copy) in
  let* end_of_sector := file_get id_in (fun f => getSectorEnd (_sectors f) (cp_offset_in copy)) in
  let* committed := file_get id_in isCommitted in
  let* real := file_get id_in getRealFileSize in
  let sector_found := negb (end_of_sector =? CAPIO_SECTOR_NOT_FOUND) in
  let range_here := sector_found && (cp_offset_in copy + cp_count copy <=? end_of_sector) in
  let all_data_here := committed && ((if sector_found then end_of_sector else 0) =? real) in
  if range_here || all_data_here then copy_file_range_data copy
  else handle_remote_copy_file_range_request (cp_tid copy) (cp_fd_in copy) (cp_fd_out copy)
         (cp_path_in copy) (cp_offset_in copy) (cp_offset_out copy) (cp_count copy).

Definition handle_copy_file_range (copy : CSCopyFileRange) (is_prod : bool) : M Server unit :=
  if is_prod then handle_local_copy_file_range copy is_prod
  else
    let* (p, _) := location_get (cp_path_in copy) in
    if node_is_backend p then handle_local_copy_file_range copy is_prod
    else handle_remote_copy_file_range copy.

Definition copy_file_range_handler (tid fd_in fd_out offset_in offset_out count : Z) : M Server unit :=
  let* path_in := getPath tid fd_in in
  let* path_out := getPath tid fd_out in
  let copy := {| cp_tid := tid; cp_fd_in := fd_in; cp_fd_out := fd_out; cp_offset_in := offset_in;
                 cp_offset_out := offset_out; cp_count := count;
                 cp_path_in := path_in; cp_path_out := path_out |} in
  let* app_name := gets (fun s => getAppName (client_manager s) tid) in
  let* produced := gets (fun s => isProducer (client_manager s) tid path_in) in
  let is_prod := cl_isProducer path_in app_name || produced in
  let* location := location_opt path_in in
  match location with
  | None => if negb is_prod then start_thread (WaitForCopyInput copy)
            else handle_copy_file_range copy is_prod
  | Some _ => handle_copy_file_range copy is_prod
  end.

(** ** Listings *)

Definition request_remote_getdents (tid fd count : Z) : M Server unit :=
  let* id := storage_get_fd tid fd in
  let* offset := getFileOffset tid fd in
  let end_of_read := offset + count in
  let* end_of_sector := file_get id (fun f => getSectorEnd (_sectors f) offset) in
  let* committed := file_get id isCommitted in
  let* real := file_get id getRealFileSize in
  if committed && ((end_of_read <=? end_of_sector) ||
      ((if end_of_sector =? CAPIO_SECTOR_NOT_FOUND then 0 else end_of_sector) =? real))
  then send_dirent_to_client tid fd id offset count
  else if end_of_read <=? end_of_sector then
    file_createBuffer id false ;;
    reply_file tid offset id count ;;
    setFileOffset tid fd (offset + count)
  else handle_remote_read_request tid fd count true.

Definition handle_getdents (tid fd count : Z) : M Server unit :=
  let* app_name := gets (fun s => getAppName (client_manager s) tid) in
  let* path := getPath tid fd in
  let is_prod := cl_isProducer path app_name in
  let* location := location_opt path in
  let local :=
    (let* id := storage_get path in
     let* offset := getFileOffset tid fd in
     send_dirent_to_client tid fd id offset count) in
  match location with
  | None => if is_prod then local else start_thread (WaitForDirectory tid fd count path)
  | Some (p, _) =>
      if is_prod || node_is_backend p || String.eqb getCapioDir path then local
      else request_remote_getdents tid fd count
  end.

(** ** Messages of other servers *)

(** The bytes [recv_file] stores: the next file the node sent. *)
Definition file_readFromNode (id : Z) (source : string) (offset buffer_size : Z) : M Server unit := fun s =>
  match inbox s !! source with
  | Some (data :: rest) =>
      on_file id (readFromNode offset (slot_bytes data buffer_size))
        (set_inbox (<[source := rest]> (inbox s)) s)
  | _ => Blocks "recv_file"
  end.

(** What [send_file] sends: nothing when there is nothing to send. *)
Definition file_bytes (id offset nbytes : Z) : M Server (list cell) :=
  if nbytes =? 0 then ret []
  else let* f := file_get id (fun f => f) in lift (load offset nbytes f).

Definition serve_remote_read (path dest : string) (tid fd count offset : Z) (complete is_getdents : bool)
  : M Server unit :=
  let* id := storage_get path in
  let* nbytes := file_get id (fun f => remote_reply_size f offset) in
  let* file_size := file_get id getStoredSize in
  let* data := file_bytes id offset nbytes in
  serve_remote_read_request tid fd count nbytes file_size complete is_getdents dest data.

Definition handle_read_reply (tid fd count file_size nbytes : Z) (complete is_getdents : bool) : M Server unit :=
  let* path := getPath tid fd in
  let* id := storage_get path in
  let* offset := getFileOffset tid fd in
  file_do id (setRealFileSize file_size) ;;
  file_do id (file_insertSector offset (offset + nbytes)) ;;
  file_do id (setCommitted complete) ;;
  let* end_of_sector := file_get id (fun f => getSectorEnd (_sectors f) offset) in
  file_createBuffer id false ;;
  let end_of_read := offset + count in
  let bytes_read := if end_of_read <? end_of_sector then count else end_of_sector - offset in
  if is_getdents then send_dirent_to_client tid fd id offset bytes_read
  else reply_file tid offset id bytes_read ;; setFileOffset tid fd (offset + bytes_read).

Definition wait_for_data (path dest : string) (tid fd count offset : Z) (is_getdents : bool) : M Server unit :=
  let* id := storage_get path in
  let* committed := file_get id isCommitted in
  serve_remote_read path dest tid fd count offset committed is_getdents.

Definition handle_remote_read (path source : string) (tid fd count offset : Z) (is_getdents : bool) : M Server unit :=
  let* id := storage_get path in
  let* stored := file_get id getStoredSize in
  let data_available := offset + count <=? stored in
  let* committed := file_get id isCommitted in
  if committed || (isFirable path && data_available)
  then serve_remote_read path source tid fd count offset committed is_getdents
  else start_thread (WaitForRemoteData path source tid fd count offset is_getdents).

Definition handle_remote_read_reply (source : string) (tid fd count nbytes file_size : Z)
    (complete is_getdents : bool) : M Server unit :=
  let* path := getPath tid fd in
  let* offset := getFileOffset tid fd in
  let* id := storage_get path in
  file_createBuffer id false ;;
  when (negb (nbytes =? 0))
    (file_reserve id (offset + nbytes) ;; file_readFromNode id source offset nbytes) ;;
  handle_read_reply tid fd count file_size nbytes complete is_getdents.

Definition serve_remote_stat (path dest : string) (source_tid : Z) : M Server unit :=
  let* id := storage_get path in
  let* file_size := file_get id (fun f => getFileSize (_sectors f)) in
  let* is_dir := file_get id isDirectory in
  serve_remote_stat_request path source_tid file_size is_dir dest.

Definition handle_remote_stat (source_tid : Z) (path dest : string) : M Server unit :=
  let* o := tryGet path in
  match o with
  | Some id =>
      let* committed := file_get id isCommitted in
      if committed || isFirable path then serve_remote_stat path dest source_tid
      else start_thread (WaitForCompletion path source_tid dest)
  | None =>
      (let* _ := storage_add path false CAPIO_DEFAULT_FILE_INITIAL_SIZE in ret tt) ;;
      start_thread (WaitForCompletion path source_tid dest)
  end.

Definition handle_remote_stat_reply (source_tid size : Z) (dir : bool) : M Server unit :=
  reply source_tid size ;; reply source_tid (if dir then 1 else 0).

(** The lambda [serve] of [handle_remote_copy_file_range_data]. *)
Definition serve_copy (path_in dest : string) (tid fd_in fd_out offset_in offset_out count : Z) : M Server unit :=
  let* id := storage_get path_in in
  let* nbytes := file_get id (fun f => remote_reply_size f offset_in) in
  let* file_size := file_get id getStoredSize in
  let* complete := file_get id isCommitted in
  let* data := file_bytes id offset_in nbytes in
  send dest (RemoteCopyReply tid fd_in fd_out offset_in offset_out count nbytes file_size complete) data.

Definition handle_remote_copy_file_range_data (path_in dest : string)
    (tid fd_in fd_out offset_in offset_out count : Z) : M Server unit :=
  let* id := storage_get path_in in
  let* stored := file_get id getStoredSize in
  let data_available := offset_in + count <=? stored in
  let* committed := file_get id isCommitted in
  if committed || (isFirable path_in && data_available)
  then serve_copy path_in dest tid fd_in fd_out offset_in offset_out count
  else start_thread (WaitForRemoteCopyData id path_in dest tid fd_in fd_out offset_in offset_out count).

Definition handle_remote_copy_file_range_reply (source : string)
    (tid fd_in fd_out offset_in offset_out count nbytes file_size : Z) (complete : bool) : M Server unit :=
  let* path_in := getPath tid fd_in in
  let* path_out := getPath tid fd_out in
  let copy := {| cp_tid := tid; cp_fd_in := fd_in; cp_fd_out := fd_out; cp_offset_in := offset_in;
                 cp_offset_out := offset_out; cp_count := count;
                 cp_path_in := path_in; cp_path_out := path_out |} in
  let* id := storage_get path_in in
  file_createBuffer id false ;;
  when (negb (nbytes =? 0))
    (file_reserve id (offset_in + nbytes) ;; file_readFromNode id source offset_in nbytes) ;;
  file_do id (setRealFileSize file_size) ;;
  file_do id (file_insertSector offset_in (offset_in + nbytes)) ;;
  file_do id (setCommitted complete) ;;
  copy_file_range_data copy.

(** ** The detached threads *)

(** Whether the event a thread waits for has happened.  A thread that polls
    for a location is ready when a node lists the path. *)
Definition task_ready (t : task) (s : Server) : bool :=
  let committed id := match heap s !! id with Some f => _committed f | None => true end in
  let data id n := match heap s !! id with Some f => data_ready n f | None => true end in
  let found path := fst (load_file_location path (locations s)) in
  let of_path path P := match _storage s !! path with Some id => P id | None => true end in
  match t with
  | PendingReadCommit id _ _ _ _ => committed id
  | PendingReadData id _ _ count offset => data id (offset + count)
  | WaitForFile path _ _ _ => found path
  | WaitForFileCreation path _ _ => found path
  | WaitForFileCompletion _ path => found path
  | WaitForDirentData wait_size _ _ _ id _ => data id wait_size
  | WaitForDirectory _ _ _ path => found path
  | WaitForRemoteData path _ _ _ count offset _ => of_path path (fun id => data id (offset + count))
  | WaitForCompletion path _ _ => of_path path committed
  | PendingCopy id copy wait_for_commit =>
      if wait_for_commit then committed id else data id (cp_offset_in copy + cp_count copy)
  | WaitForCopyInput copy => found (cp_path_in copy)
  | WaitForRemoteCopyData id _ _ _ _ _ offset_in _ count => data id (offset_in + count)
  | WaitForCloneAllowed tid => child_allowed tid (client_manager s)
  end.

Definition loop_load_file_location (path : string) : M Server unit :=
  let* _ := location_load path in ret tt.

Definition run_task (t : task) : M Server unit :=
  match t with
  | PendingReadCommit _ tid fd count process_offset => handle_pending_read tid fd process_offset count
  | PendingReadData _ tid fd count process_offset => handle_pending_read tid fd process_offset count
  | WaitForFile path tid fd count => loop_load_file_location path ;; wait_for_file path tid fd count
  | WaitForFileCreation path tid fd => loop_load_file_location path ;; wait_for_file_creation path tid fd
  | WaitForFileCompletion tid path => loop_load_file_location path ;; wait_for_file_completion tid path
  | WaitForDirentData _ tid fd count id current_size => send_dirent_to_client tid fd id current_size count
  | WaitForDirectory tid fd count path =>
      loop_load_file_location path ;;
      let* (p, _) := location_get path in
      if node_is_backend p then handle_getdents tid fd count else request_remote_getdents tid fd count
  | WaitForRemoteData path dest tid fd count offset is_getdents =>
      wait_for_data path dest tid fd count offset is_getdents
  | WaitForCompletion path source_tid dest => serve_remote_stat path dest source_tid
  | PendingCopy _ copy _ => copy_file_range_data copy
  | WaitForCopyInput copy => loop_load_file_location (cp_path_in copy) ;; handle_copy_file_range copy false
  | WaitForRemoteCopyData _ path_in dest tid fd_in fd_out offset_in offset_out count =>
      serve_copy path_in dest tid fd_in fd_out offset_in offset_out count
  | WaitForCloneAllowed tid => on_clients (reply_cloned_child tid)
  end.

(** ** The server *)

(** The requests of the clients, in the order of [common/requests.hpp]. *)
Inductive request : Type :=
| Access (tid : Z) (path : string)
| Clone (parent_tid child_tid : Z)
| Close (tid fd : Z)
| Create (tid fd : Z) (path : string)
| CreateExclusive (tid fd : Z) (path : string)
| Dup (tid old_fd new_fd : Z)
| ExitGroup (tid : Z)
| Fstat (tid fd : Z)
| Getdents (tid fd count : Z)
| HandshakeNamed (tid pid : Z) (app_name : string) (wait : bool)
| HandshakeAnonymous (tid pid : Z)
| Mkdir (tid : Z) (path : string)
| Open (tid fd : Z) (path : string)
| Read (tid fd count : Z)
| Rename (oldpath newpath : string) (tid : Z)
| Seek (tid fd offset : Z)
| SeekData (tid fd offset : Z)
| SeekEnd (tid fd : Z)
| SeekHole (tid fd offset : Z)
| Stat (tid : Z) (path : string)
| Unlink (tid : Z) (path : string)
| Write (tid fd count : Z)
| Rmdir (path : string) (tid : Z)
| CopyFileRange (tid fd_in fd_out offset_in offset_out count : Z).

Definition handle_request (r : request) : M Server unit :=
  match r with
  | Access tid path => access_handler tid path
  | Clone parent_tid child_tid => clone_handler parent_tid child_tid
  | Close tid fd => handle_close tid fd
  | Create tid fd path => create_handler tid fd path
  | CreateExclusive tid fd path => create_exclusive_handler tid fd path
  | Dup tid old_fd new_fd => dup_handler tid old_fd new_fd
  | ExitGroup tid => handle_exit_group tid
  | Fstat tid fd => fstat_handler tid fd
  | Getdents tid fd count => handle_getdents tid fd count
  | HandshakeNamed tid _ app_name wait => handshake_named_handler tid app_name wait
  | HandshakeAnonymous tid _ => handshake_anonymous_handler tid
  | Mkdir tid path => mkdir_handler tid path
  | Open tid fd path => open_handler tid fd path
  | Read tid fd count => handle_read tid fd count
  | Rename oldpath newpath tid => handle_rename tid oldpath newpath
  | Seek tid fd offset => handle_lseek tid fd offset
  | SeekData tid fd offset => handle_seek_data tid fd offset
  | SeekEnd tid fd => handle_seek_end tid fd
  | SeekHole tid fd offset => handle_seek_hole tid fd offset
  | Stat tid path => stat_handler tid path
  | Unlink tid path => unlink_handler tid path
  | Write tid fd count => write_handler tid fd count
  | Rmdir path tid => rmdir_handler tid path
  | CopyFileRange tid fd_in fd_out offset_in offset_out count =>
      copy_file_range_handler tid fd_in fd_out offset_in offset_out count
  end.

(** The messages of another server, from [source]. *)
Definition handle_message (source : string) (m : remote_message) : M Server unit :=
  match m with
  | RemoteRead path tid fd count offset is_getdents => handle_remote_read path source tid fd count offset is_getdents
  | RemoteReadReply tid fd count nbytes file_size complete is_getdents =>
      handle_remote_read_reply source tid fd count nbytes file_size complete is_getdents
  | RemoteStat tid dest path => handle_remote_stat tid path dest
  | RemoteStatReply _ tid size dir => handle_remote_stat_reply tid size dir
  | RemoteCopy path_in tid fd_in fd_out offset_in offset_out count =>
      handle_remote_copy_file_range_data path_in source tid fd_in fd_out offset_in offset_out count
  | RemoteCopyReply tid fd_in fd_out offset_in offset_out count nbytes file_size complete =>
      handle_remote_copy_file_range_reply source tid fd_in fd_out offset_in offset_out count nbytes file_size complete
  end.

(** The start of the server: [open_files_location] and the directory of CAPIO. *)
Definition start_server (pid : Z) : M Server unit :=
  on_locations (modify open_files_location) ;;
  let* _ := addDirectory pid getCapioDir in ret tt.

(** A step of the server: a request, a message, a thread whose event has
    happened, data a client puts in its queue, a file another node sends, a
    change that another node makes to a file of locations. *)
Inductive event : Type :=
| ERequest (r : request)
| EMessage (source : string) (m : remote_message)
| ETask (t : task)
| EClientData (tid : Z) (d : list cell)
| ENodeData (source : string) (d : list cell)
| ELocation (node text : string).

Inductive step : event -> Server -> Server -> Prop :=
| step_request r s s' : handle_request r s = Done (tt, s') -> step (ERequest r) s s'
| step_message source m s s' : handle_message source m s = Done (tt, s') -> step (EMessage source m) s s'
| step_task before t after s s' :
    threads s = before ++ t :: after -> task_ready t s = true ->
    run_task t (set_threads (before ++ after) s) = Done (tt, s') -> step (ETask t) s s'
| step_client_data tid d b s :
    data_buffers (client_manager s) !! tid = Some b ->
    step (EClientData tid d) s (set_client_manager (set_data_buffers
      (<[tid := {| ClientToServer := fifo_push d (ClientToServer b); ServerToClient := ServerToClient b |}]>
         (data_buffers (client_manager s))) (client_manager s)) s)
| step_node_data source d s :
    step (ENodeData source d) s (set_inbox (<[source := default [] (inbox s !! source) ++ [d]]> (inbox s)) s)
| step_location node text s :
    step (ELocation node text) s
      (set_locations (set_location_files (<[node := text]> (location_files (locations s))) (locations s)) s).
End Remote.
