(* ===== verification/ServerInv.v ===== *)
(** * The invariant of the server

    Every descriptor of every thread leads to the file of its path, which is
    alive and lists the descriptor, and to a live offset; every file is well
    formed.  A partial weakest precondition [wp] and the predicate [keeps]
    carry the invariant through the handlers. *)
From S2P Require Import Prelude Memory Sectors FileBuffer Queue CapioFile ClientManager Locations Server StorageManager Handlers RemoteHandlers.

(** ** The invariant *)

(** The descriptor [d] of [(tid, fd)]. *)
Definition descriptor_ok (s : Server) (tid fd : Z) (d : ThreadFileDescriptor) : Prop :=
  d = no_descriptor \/
  exists id o f, _pointer d = Some id /\ _storage s !! _path d = Some id /\ heap s !! id = Some f /\
    (tid, fd) ∈ _threads_fd f /\ _offset d = Some o /\ is_Some (offsets s !! o).

Definition descriptor_at (s : Server) (tid fd : Z) : option ThreadFileDescriptor :=
  _opened_fd_map s !! tid ≫= (fun fds => fds !! fd).

Record server_inv (s : Server) : Prop := {
  si_storage p id : _storage s !! p = Some id -> is_Some (heap s !! id);
  si_inj p q id : _storage s !! p = Some id -> _storage s !! q = Some id -> p = q;
  si_fresh id f : heap s !! id = Some f -> id < next_file s;
  si_fresh_offset o v : offsets s !! o = Some v -> o < next_offset s;
  si_descriptors tid fd d : descriptor_at s tid fd = Some d -> descriptor_ok s tid fd d;
  si_files id f : heap s !! id = Some f -> file_inv f
}.

(** ** Partial weakest preconditions *)

Definition wp {A} (m : M Server A) (Q : A -> Server -> Prop) (s : Server) : Prop :=
  match m s with Done (a, s') => Q a s' | _ => True end.
Definition keeps {A} (m : M Server A) : Prop := forall s, server_inv s -> wp m (fun _ => server_inv) s.

Lemma wp_bind {A B} (m : M Server A) (k : A -> M Server B) Q s :
  wp m (fun a s' => wp (k a) Q s') s -> wp (bind m k) Q s.
Proof. unfold wp, bind. destruct (m s) as [[a s']| | | |]; simpl; auto. Qed.
Lemma wp_mono {A} (m : M Server A) (P Q : A -> Server -> Prop) s :
  wp m P s -> (forall a s', P a s' -> Q a s') -> wp m Q s.
Proof. unfold wp. destruct (m s) as [[a s']| | | |]; auto. Qed.
Lemma wp_ret {A} (a : A) (Q : A -> Server -> Prop) s : Q a s -> wp (ret a) Q s.
Proof. done. Qed.
Lemma wp_gets {A} (g : Server -> A) (Q : A -> Server -> Prop) s : Q (g s) s -> wp (gets g) Q s.
Proof. done. Qed.
Lemma wp_modify (g : Server -> Server) (Q : unit -> Server -> Prop) s : Q tt (g s) -> wp (modify g) Q s.
Proof. done. Qed.
Lemma wp_or_exit {A} (o : option A) w (Q : A -> Server -> Prop) s :
  (forall a, o = Some a -> Q a s) -> wp (or_exit o w) Q s.
Proof. destruct o; simpl; unfold wp; simpl; auto. Qed.
Lemma wp_or_ub {A} (o : option A) w (Q : A -> Server -> Prop) s :
  (forall a, o = Some a -> Q a s) -> wp (or_ub o w) Q s.
Proof. destruct o; simpl; unfold wp; simpl; auto. Qed.
Lemma wp_undefined {A} w (Q : A -> Server -> Prop) s : wp (undefined w) Q s.
Proof. done. Qed.

Lemma keeps_bind {A B} (m : M Server A) (k : A -> M Server B) :
  keeps m -> (forall a, keeps (k a)) -> keeps (bind m k).
Proof. intros Hm Hk s Hs. apply wp_bind. eapply wp_mono; [by apply Hm|]. intros a s' Hs'. by apply Hk. Qed.
Lemma keeps_ret {A} (a : A) : keeps (ret a).
Proof. by intros s Hs. Qed.
Lemma keeps_gets {A} (g : Server -> A) : keeps (gets g).
Proof. by intros s Hs. Qed.
Lemma keeps_when b m : keeps m -> keeps (when b m).
Proof. intros Hm. destruct b; [done|apply keeps_ret]. Qed.
Lemma keeps_or_exit {A} (o : option A) w : keeps (or_exit o w).
Proof. intros s Hs. apply wp_or_exit. auto. Qed.
Lemma keeps_or_ub {A} (o : option A) w : keeps (or_ub o w).
Proof. intros s Hs. apply wp_or_ub. auto. Qed.
Lemma keeps_undefined {A} w : @keeps A (undefined w).
Proof. by intros s Hs. Qed.
Lemma keeps_lift {A} (m : outcome A) : keeps (lift m).
Proof. intros s Hs. unfold wp, lift. by destruct m. Qed.
Lemma keeps_for_each {A} (l : list A) (k : A -> M Server unit) :
  (forall a, keeps (k a)) -> keeps (for_each l k).
Proof.
  intros Hk. induction l as [|a l IH]; simpl; [apply keeps_ret|]. apply keeps_bind; auto.
Qed.
Lemma keeps_file_get {A} id (g : CapioFile -> A) : keeps (file_get id g).
Proof. intros s Hs. unfold wp, file_get. by destruct (heap s !! id). Qed.

(** What the invariant does not look at. *)
Definition same_storage (s s' : Server) : Prop :=
  heap s' = heap s /\ next_file s' = next_file s /\ _storage s' = _storage s /\
  _opened_fd_map s' = _opened_fd_map s /\ offsets s' = offsets s /\ next_offset s' = next_offset s.
Lemma same_storage_inv s s' : same_storage s s' -> server_inv s -> server_inv s'.
Proof.
  destruct s, s'. unfold same_storage. simpl. intros (-> & -> & -> & -> & -> & ->) [].
  constructor; assumption.
Qed.
Lemma wp_on_clients {A} (m : M ClientManager A) (Q : A -> Server -> Prop) s :
  (forall a c, Q a (set_client_manager c s)) -> wp (on_clients m) Q s.
Proof. intros HQ. unfold wp, on_clients, zoom. destruct (m (client_manager s)) as [[a c]| | | |]; simpl; auto. Qed.
Lemma wp_on_locations {A} (m : M Locations A) (Q : A -> Server -> Prop) s :
  (forall a l, Q a (set_locations l s)) -> wp (on_locations m) Q s.
Proof. intros HQ. unfold wp, on_locations, zoom. destruct (m (locations s)) as [[a c]| | | |]; simpl; auto. Qed.
Lemma keeps_on_clients {A} (m : M ClientManager A) : keeps (on_clients m).
Proof. intros s Hs. apply wp_on_clients. intros a c. by apply (same_storage_inv s). Qed.
Lemma keeps_on_locations {A} (m : M Locations A) : keeps (on_locations m).
Proof. intros s Hs. apply wp_on_locations. intros a c. by apply (same_storage_inv s). Qed.
Lemma keeps_start_thread t : keeps (start_thread t).
Proof. intros s Hs. by apply (same_storage_inv s). Qed.
Lemma keeps_send d m x : keeps (send d m x).
Proof. intros s Hs. by apply (same_storage_inv s). Qed.
Lemma keeps_next_os `{Config} : keeps next_os.
Proof. intros s Hs. by apply (same_storage_inv s). Qed.

Create HintDb keeps.
#[export] Hint Resolve keeps_ret keeps_gets keeps_or_exit keeps_or_ub keeps_undefined keeps_lift
  keeps_file_get keeps_on_clients keeps_on_locations keeps_start_thread keeps_send keeps_next_os : keeps.

(** [keep] follows the structure of a handler. *)
Ltac keep_step :=
  match goal with
  | |- keeps (bind _ _) => apply keeps_bind; [|intros]
  | |- keeps (when _ _) => apply keeps_when
  | |- keeps (for_each _ _) => apply keeps_for_each; intros
  | |- forall _, _ => intros
  | |- keeps (if ?b then _ else _) => destruct b
  | |- keeps (match ?x with _ => _ end) => destruct x
  | |- keeps (let '(_, _) := ?x in _) => destruct x
  | |- keeps _ => solve [eauto 3 with keeps nocore]
  end.
Ltac keep := repeat keep_step.

(** ** Updates of one file *)

Lemma inv_update_file s id f f' :
  server_inv s -> heap s !! id = Some f -> file_inv f' ->
  (forall p, p ∈ _threads_fd f -> p ∈ _threads_fd f') ->
  server_inv (set_heap (<[id := f']> (heap s)) s).
Proof.
  intros [H1 H2 H3 H4 H5 H6] Hf Hinv Hfd. constructor; simpl; try done.
  - intros p id' Hp. destruct (decide (id = id')) as [->|Hne].
    + rewrite lookup_insert_eq. eauto.
    + rewrite lookup_insert_ne by done. eauto.
  - intros id' g Hg. destruct (decide (id = id')) as [->|Hne]; [eauto|].
    rewrite lookup_insert_ne in Hg by done. eauto.
  - intros tid fd d Hd. destruct (H5 tid fd d Hd) as [->|(i & o & g & ? & ? & Hg & Hm & ? & ?)]; [by left|].
    right. destruct (decide (id = i)) as [->|Hne].
    + exists i, o, f'. simpl. rewrite lookup_insert_eq. rewrite Hf in Hg. simplify_eq. split_and!; auto.
    + exists i, o, g. simpl. rewrite lookup_insert_ne by done. by split_and!.
  - intros id' g Hg. destruct (decide (id = id')) as [->|Hne].
    + rewrite lookup_insert_eq in Hg. by simplify_eq.
    + rewrite lookup_insert_ne in Hg by done. eauto.
Qed.

(** A change of a file that keeps its data and its list of descriptors. *)
Definition quiet (g : CapioFile -> CapioFile) : Prop :=
  forall f, same_data f (g f) /\ forall p, p ∈ _threads_fd f -> p ∈ _threads_fd (g f).

Lemma keeps_file_do id g : quiet g -> keeps (file_do id g).
Proof.
  intros Hg s Hs. unfold wp, file_do, on_file, modify. destruct (heap s !! id) as [f|] eqn:E; [|done].
  simpl. destruct (Hg f) as [Hd Hp]. apply (inv_update_file s id f); [done|done| |done].
  eapply same_data_inv; [exact Hd|]. by apply (si_files s Hs id).
Qed.

Lemma quiet_setCommitted c : quiet (setCommitted c).
Proof. intros f. split; [apply same_data_setCommitted|]. unfold setCommitted. by case_match. Qed.
Lemma quiet_addFd t d : quiet (addFd t d).
Proof. intros f. split; [done|]. intros p Hp. simpl. apply elem_of_app. by left. Qed.
Lemma quiet_open : quiet file_open.
Proof. done. Qed.
Lemma quiet_close : quiet file_close.
Proof. done. Qed.
Lemma quiet_registerFirstWrite : quiet registerFirstWrite.
Proof. done. Qed.
Lemma quiet_increment n : quiet (incrementDirectoryFileCount n).
Proof. done. Qed.
Lemma quiet_setRealFileSize n : quiet (setRealFileSize n).
Proof. done. Qed.
#[export] Hint Resolve keeps_file_do quiet_setCommitted quiet_addFd quiet_open quiet_close
  quiet_registerFirstWrite quiet_increment quiet_setRealFileSize : keeps.

(** ** The buffers of the files *)

(** The file at [id] has a buffer, and the range fits in it. *)
Definition has_buffer (id : Z) (s : Server) : Prop :=
  exists f, heap s !! id = Some f /\ buffer_data (_buffer f) <> None.
Definition has_room (id lo hi : Z) (s : Server) : Prop :=
  exists f, heap s !! id = Some f /\ buffer_data (_buffer f) <> None /\
    0 <= lo <= hi /\ hi <= buffer_size (_buffer f).

Lemma createBuffer_inv `{MemQuota} k fd home f f' :
  file_inv f -> createBuffer k fd home f = Done (tt, f') ->
  file_inv f' /\ buffer_data (_buffer f') <> None /\ _threads_fd f' = _threads_fd f.
Proof.
  intros [Hwf Hok Hreq] E. unfold createBuffer, buffer_empty in E.
  destruct (buffer_data (_buffer f)) as [d|] eqn:Ed.
  { simplify_eq. split; [done|]. by rewrite Ed. }
  destruct Hok as (_ & _ & Hnil). specialize (Hnil Ed).
  pose proof (quota_nonneg _ Hreq) as Hq.
  destruct (_permanent f && home && negb (_directory f)).
  - unfold buffer_allocate_mapped, mapped_allocate in E. simpl in E.
    destruct (sys_open k), (sys_ftruncate k), (sys_mmap k); simpl in E; try done.
    simplify_eq. simpl. split; [|done]. split; simpl; [done| |done]. rewrite Hnil.
    split; simpl; [done|]. split; [constructor|done].
  - destruct (_permanent f && home && _); [done|]. unfold buffer_allocate_heap, heap_allocate, new_char in E. simpl in E.
    destruct (_ <? 0); [done|]. destruct (sys_new k); [|done]. simpl in E. simplify_eq. simpl. split; [|done].
    split; simpl; [done| |done]. rewrite Hnil. split; simpl; [done|]. split; [constructor|done].
Qed.

Lemma wp_file_createBuffer `{Config} id home s :
  server_inv s -> wp (file_createBuffer id home) (fun _ s' => server_inv s' /\ has_buffer id s') s.
Proof.
  intros Hs. unfold file_createBuffer. apply wp_bind. unfold next_os, wp at 1.
  destruct (os (os_calls s)) as [k fd].
  pose proof (same_storage_inv s (set_os_calls (S (os_calls s)) s) ltac:(done) Hs) as Hs'.
  unfold wp, on_file. destruct (heap _ !! id) as [f|] eqn:Hf; [|done].
  destruct (createBuffer k fd home f) as [[[] f']| | | |] eqn:E; simpl; try done.
  destruct (createBuffer_inv _ _ _ _ _ (si_files _ Hs' _ _ Hf) E) as (Hi & Hb & Ht).
  split.
  - apply (inv_update_file (set_os_calls (S (os_calls s)) s) id f); [done|done|done|]. by rewrite Ht.
  - exists f'. simpl. by rewrite lookup_insert_eq.
Qed.

Lemma expandBuffer_inv `{MemQuota} k n f f' :
  file_inv f -> buffer_size (_buffer f) <= n -> buffer_data (_buffer f) <> None ->
  expandBuffer k n f = Done (tt, f') ->
  file_inv f' /\ buffer_data (_buffer f') <> None /\ _threads_fd f' = _threads_fd f.
Proof.
  intros [Hwf Hok Hreq] Hle Hb E. unfold expandBuffer in E.
  destruct (_buffer f) as [h|m] eqn:Eb.
  - destruct (sys_new k) eqn:Hnew.
    2: { unfold buffer_grow, heap_grow, new_char in E. rewrite Hnew in E. by destruct (_ <? 0). }
    destruct (heap_buffer_grow_spec k h n (_sectors f) Hnew Hok Hle) as (b' & Eg & _ & Hok' & Hb' & _).
    rewrite Eg in E. simpl in E. simplify_eq. split; [by split|done].
  - destruct (mapped_buffer_grow_spec k m n (_sectors f) Hok Hle) as (ok & b' & Eg & _ & Hd & Hok' & _).
    rewrite Eg in E. simpl in E. destruct ok; [|done]. simplify_eq. split; [by split|].
    split; [|done]. simpl. by rewrite Hd.
Qed.

Lemma wp_file_reserve `{Config} id n s :
  server_inv s -> has_buffer id s ->
  wp (file_reserve id n) (fun _ s' => server_inv s' /\ has_buffer id s') s.
Proof.
  intros Hs Hb. pose proof Hb as (f & Hf & Hd). unfold file_reserve. apply wp_bind.
  unfold file_get, wp at 1. rewrite Hf. unfold when.
  destruct (Z.ltb_spec (getBufSize f) n) as [Hlt|]; [|by split].
  assert (buffer_size (_buffer f) <= n) as Hle by (unfold getBufSize in Hlt; lia).
  unfold file_expandBuffer. apply wp_bind. unfold next_os, wp at 1.
  destruct (os (os_calls s)) as [k fd].
  pose proof (same_storage_inv s (set_os_calls (S (os_calls s)) s) ltac:(done) Hs) as Hs'.
  unfold wp, on_file. change (heap (set_os_calls (S (os_calls s)) s)) with (heap s). rewrite Hf.
  destruct (expandBuffer k n f) as [[[] f']| | | |] eqn:E; simpl; try done.
  destruct (expandBuffer_inv _ _ _ _ (si_files _ Hs _ _ Hf) Hle Hd E) as (Hi & Hb' & Ht).
  split.
  - apply (inv_update_file (set_os_calls (S (os_calls s)) s) id f); [done|done|done|]. by rewrite Ht.
  - exists f'. simpl. by rewrite lookup_insert_eq.
Qed.

Lemma store_inv offset data f f' :
  file_inv f -> buffer_data (_buffer f) <> None -> store offset data f = Done (tt, f') ->
  file_inv f' /\ _threads_fd f' = _threads_fd f /\ buffer_data (_buffer f') <> None /\
  0 <= offset /\ offset + Z.of_nat (length data) <= buffer_size (_buffer f').
Proof.
  intros [Hwf (Hsz & Hin & Hn) Hreq] Hb E. unfold store, getBufSize, getBuffer in E.
  destruct (in_range _ _ _) eqn:Er; [|done]. apply in_range_spec in Er.
  destruct (buffer_data (_buffer f)) as [d|] eqn:Ed; [|done]. simplify_eq. simpl.
  rewrite set_data_data, set_data_size. split_and!; try done; try lia.
  split; simpl; [done| |done]. split; rewrite ?set_data_size; [done|]. split; [done|].
  by rewrite set_data_data.
Qed.

Lemma wp_on_file_store id offset data s :
  server_inv s -> has_buffer id s ->
  wp (on_file id (store offset data))
    (fun _ s' => server_inv s' /\ has_room id offset (offset + Z.of_nat (length data)) s') s.
Proof.
  intros Hs (f & Hf & Hb). unfold wp, on_file. rewrite Hf.
  destruct (store offset data f) as [[[] f']| | | |] eqn:E; simpl; try done.
  destruct (store_inv _ _ _ _ (si_files _ Hs _ _ Hf) Hb E) as (Hi & Ht & Hb' & H0 & Hle).
  split.
  - apply (inv_update_file _ _ f); [done|done|done|]. by rewrite Ht.
  - exists f'. simpl. rewrite lookup_insert_eq. split_and!; try done; lia.
Qed.

Lemma wp_insertSector id lo hi s :
  server_inv s -> has_room id lo hi s ->
  wp (file_do id (file_insertSector lo hi)) (fun _ => server_inv) s.
Proof.
  intros Hs (f & Hf & Hb & Hle & Hhi). unfold wp, file_do, on_file, modify. rewrite Hf. simpl.
  pose proof (si_files _ Hs _ _ Hf) as [Hwf Hok Hreq].
  apply (inv_update_file _ _ f); [done|done| |done].
  exact (file_inv_insert (_buffer f) f lo hi Hwf Hok Hreq Hle Hhi Hb).
Qed.

(** Steps that leave the files alone, or change one quietly, keep the room. *)
Lemma has_room_same id lo hi s s' : heap s' = heap s -> has_room id lo hi s -> has_room id lo hi s'.
Proof. intros E (f & Hf & ?). exists f. by rewrite E. Qed.
Lemma wp_quiet_room id lo hi g s :
  server_inv s -> has_room id lo hi s -> quiet g ->
  wp (file_do id g) (fun _ s' => server_inv s' /\ has_room id lo hi s') s.
Proof.
  intros Hs Hr Hg. pose proof (keeps_file_do id g Hg s Hs) as Hk. revert Hk.
  destruct Hr as (f & Hf & Hb & ? & ?). unfold wp, file_do, on_file, modify. rewrite Hf. simpl.
  intros Hk. split; [done|]. destruct (Hg f) as [(E1 & _ & _) _].
  exists (g f). simpl. rewrite lookup_insert_eq, E1. split_and!; done || lia.
Qed.

(** ** Descriptors, offsets and paths *)

Lemma descriptor_at_insert s tid fd d t f :
  descriptor_at (set_descriptor tid fd d s) t f =
  if decide (t = tid /\ f = fd) then Some d else descriptor_at s t f.
Proof.
  unfold descriptor_at, set_descriptor. simpl. destruct (decide (t = tid)) as [->|Ht].
  - rewrite lookup_insert_eq. simpl. destruct (decide (f = fd)) as [->|Hf].
    + by rewrite lookup_insert_eq, decide_True.
    + rewrite lookup_insert_ne, decide_False by (done || tauto).
      by destruct (_opened_fd_map s !! tid).
  - rewrite lookup_insert_ne, decide_False by (done || tauto). done.
Qed.

(** A new descriptor that is right keeps the invariant. *)
Lemma inv_set_descriptor s tid fd d :
  server_inv s -> descriptor_ok s tid fd d -> server_inv (set_descriptor tid fd d s).
Proof.
  intros [H1 H2 H3 H4 H5 H6] Hd. constructor; simpl; try done.
  intros t f d' Hd'. rewrite descriptor_at_insert in Hd'. destruct (decide (t = tid /\ f = fd)) as [[-> ->]|_].
  - by simplify_eq.
  - by apply H5.
Qed.

Lemma descriptor_at_default s tid fd :
  descriptor_at s tid fd = default ∅ (_opened_fd_map s !! tid) !! fd.
Proof. unfold descriptor_at. by destruct (_opened_fd_map s !! tid). Qed.

Lemma wp_descriptor tid fd s :
  server_inv s ->
  wp (descriptor tid fd) (fun d s' => server_inv s' /\ descriptor_at s' tid fd = Some d /\
    descriptor_ok s' tid fd d /\ heap s' = heap s /\ offsets s' = offsets s /\ _storage s' = _storage s) s.
Proof.
  intros Hs. unfold wp, descriptor. rewrite <- descriptor_at_default.
  destruct (descriptor_at s tid fd) as [d|] eqn:E.
  - split_and!; try done. by apply (si_descriptors s Hs).
  - split_and!; try done.
    + apply inv_set_descriptor; [done|by left].
    + by rewrite descriptor_at_insert, decide_True.
    + by left.
Qed.
Lemma keeps_descriptor tid fd : keeps (descriptor tid fd).
Proof. intros s Hs. eapply wp_mono; [by apply wp_descriptor|]. by intros d s' [? _]. Qed.
#[export] Hint Resolve keeps_descriptor : keeps.

Lemma keeps_thread_fds tid : keeps (thread_fds tid).
Proof.
  intros s Hs. unfold wp, thread_fds. destruct Hs as [H1 H2 H3 H4 H5 H6]. constructor; simpl; try done.
  intros t f d Hd. apply H5. unfold descriptor_at in *. simpl in Hd.
  destruct (decide (t = tid)) as [->|Hne].
  - rewrite emplace_lookup in Hd. destruct (_opened_fd_map s !! tid); simpl in *; [done|].
    by rewrite lookup_empty in Hd.
  - by rewrite emplace_lookup_ne in Hd by done.
Qed.
#[export] Hint Resolve keeps_thread_fds : keeps.

Lemma keeps_tryGet path : keeps (tryGet path).
Proof. apply keeps_gets. Qed.
Lemma keeps_storage_get path : keeps (storage_get path).
Proof. unfold storage_get, tryGet. keep. Qed.
Lemma keeps_storage_get_fd tid fd : keeps (storage_get_fd tid fd).
Proof. unfold storage_get_fd. keep. Qed.
Lemma keeps_getPath tid fd : keeps (getPath tid fd).
Proof. unfold getPath. keep. Qed.
Lemma keeps_getFileDescriptors tid : keeps (getFileDescriptors tid).
Proof. unfold getFileDescriptors. keep. Qed.
Lemma keeps_getFileOffset tid fd : keeps (getFileOffset tid fd).
Proof. unfold getFileOffset. keep. Qed.
Lemma keeps_setFileOffset tid fd offset : keeps (setFileOffset tid fd offset).
Proof.
  intros s Hs. unfold setFileOffset. apply wp_bind. eapply wp_mono; [by apply wp_descriptor|].
  intros d s' (Hs' & _ & Hd & _). apply wp_bind, wp_or_ub. intros o Ho. apply wp_modify.
  destruct Hd as [->|(id & o' & f & _ & _ & _ & _ & Ho' & [v Hv])]; [done|].
  rewrite Ho in Ho'. injection Ho' as <-.
  assert (Hoff : forall o2, is_Some (offsets s' !! o2) -> is_Some (<[o := offset]> (offsets s') !! o2)).
  { intros o2 ?. destruct (decide (o = o2)) as [->|]; [rewrite lookup_insert_eq|rewrite lookup_insert_ne by done]; eauto. }
  destruct Hs' as [H1 H2 H3 H4 H5 H6]. constructor; simpl; try done.
  - intros o2 v2 H2'. destruct (decide (o = o2)) as [->|]; [eauto|]. rewrite lookup_insert_ne in H2' by done. eauto.
  - intros t fd2 d2 Hd2. destruct (H5 t fd2 d2 Hd2) as [->|(i & o2 & g & ? & ? & ? & ? & ? & ?)]; [by left|].
    right. exists i, o2, g. simpl. split_and!; auto.
Qed.
#[export] Hint Resolve keeps_tryGet keeps_storage_get keeps_storage_get_fd keeps_getPath
  keeps_getFileDescriptors keeps_getFileOffset keeps_setFileOffset : keeps.

(** ** New files *)

Lemma inv_add_file s path f :
  server_inv s -> _storage s !! path = None -> file_inv f ->
  wp (let* id := alloc_file f in modify (fun s => set_storage (<[path := id]> (_storage s)) s) ;; ret id)
    (fun id s' => server_inv s' /\ _storage s' !! path = Some id /\
       offsets s' = offsets s /\ next_offset s' = next_offset s) s.
Proof.
  intros [H1 H2 H3 H4 H5 H6] Hp Hf. apply wp_bind. unfold alloc_file, wp at 1.
  apply wp_bind, wp_modify, wp_ret. simpl. split; [|split; [by rewrite lookup_insert_eq|done]].
  assert (Hnew : heap s !! next_file s = None).
  { apply eq_None_not_Some. intros [g Hg]. specialize (H3 _ _ Hg). lia. }
  constructor; simpl; try done.
  - intros q id Hq. destruct (decide (path = q)) as [->|Hne].
    + rewrite lookup_insert_eq in Hq. simplify_eq. rewrite lookup_insert_eq. eauto.
    + rewrite lookup_insert_ne in Hq by done. destruct (H1 _ _ Hq) as [g Hg].
      destruct (decide (next_file s = id)) as [<-|]; [congruence|]. rewrite lookup_insert_ne by done. eauto.
  - intros q r id Hq Hr.
    assert (Hno : forall z, _storage s !! z = Some (next_file s) -> False).
    { intros z Hz. destruct (H1 _ _ Hz). congruence. }
    destruct (decide (path = q)) as [<-|Hq']; destruct (decide (path = r)) as [<-|Hr']; [done|..].
    + rewrite lookup_insert_eq in Hq. rewrite lookup_insert_ne in Hr by done. simplify_eq. by apply Hno in Hr.
    + rewrite lookup_insert_eq in Hr. rewrite lookup_insert_ne in Hq by done. simplify_eq. by apply Hno in Hq.
    + rewrite lookup_insert_ne in Hq, Hr by done. eauto.
  - intros id g Hg. destruct (decide (next_file s = id)) as [<-|]; [lia|].
    rewrite lookup_insert_ne in Hg by done. specialize (H3 _ _ Hg). lia.
  - intros t fd d Hd. destruct (H5 t fd d Hd) as [->|(i & o & g & ? & Hst & Hg & ? & ? & ?)]; [by left|].
    right. exists i, o, g. simpl. rewrite !lookup_insert_ne by congruence. by split_and!.
  - intros id g Hg. destruct (decide (next_file s = id)) as [<-|].
    + rewrite lookup_insert_eq in Hg. by simplify_eq.
    + rewrite lookup_insert_ne in Hg by done. eauto.
Qed.

Lemma wp_storage_at path s :
  server_inv s -> wp (storage_at path) (fun id s' => server_inv s' /\ _storage s' !! path = Some id /\
    offsets s' = offsets s /\ next_offset s' = next_offset s) s.
Proof.
  intros Hs. unfold storage_at, tryGet. apply wp_bind, wp_gets.
  destruct (_storage s !! path) as [id|] eqn:E; [by apply wp_ret|].
  apply inv_add_file; [done|done|apply file_inv_default].
Qed.
Lemma keeps_storage_at path : keeps (storage_at path).
Proof. intros s Hs. eapply wp_mono; [by apply wp_storage_at|]. by intros ? ? [? _]. Qed.

Lemma keeps_storage_add `{Config} path is_dir init_size :
  0 <= init_size < 2 ^ 63 -> keeps (storage_add path is_dir init_size).
Proof.
  intros Hsz s Hs. unfold storage_add, tryGet. apply wp_bind, wp_gets.
  destruct (_storage s !! path) as [id|] eqn:E; [by apply wp_ret|].
  eapply wp_mono; [apply inv_add_file; [done|done|]|by intros ? ? [? _]].
  apply file_inv_directory. unfold CAPIO_DEFAULT_DIR_INITIAL_SIZE. case_match; lia.
Qed.
#[export] Hint Resolve keeps_storage_at : keeps.

(** ** Opening, duplicating and removing descriptors *)

(** The file of a path lists the descriptor. *)
Definition registered (path : string) (tid fd : Z) (s : Server) : Prop :=
  exists id f, _storage s !! path = Some id /\ heap s !! id = Some f /\ (tid, fd) ∈ _threads_fd f.

Lemma wp_addNewFdToStorage tid fd path b s :
  server_inv s -> wp (_addNewFdToStorage tid fd path b)
    (fun _ s' => server_inv s' /\ registered path tid fd s') s.
Proof.
  intros Hs. unfold _addNewFdToStorage. apply wp_bind.
  eapply wp_mono; [apply (keeps_when b); [keep; eauto with keeps|done]|]. intros [] s1 Hs1.
  apply wp_bind. eapply wp_mono; [by apply wp_storage_at|]. intros id s2 (Hs2 & Hp & _).
  pose proof (keeps_file_do id _ (quiet_addFd tid fd) s2 Hs2) as Hk. revert Hk.
  destruct (si_storage s2 Hs2 _ _ Hp) as [f Hf]. unfold wp, file_do, on_file, modify. rewrite Hf. simpl.
  intros Hk. split; [done|]. exists id, (addFd tid fd f). simpl. rewrite lookup_insert_eq.
  split_and!; try done. apply elem_of_app. right. by left.
Qed.

Lemma wp_addNewFdToMap tid fd path offset s :
  server_inv s -> registered path tid fd s -> wp (_addNewFdToMap tid fd path offset) (fun _ => server_inv) s.
Proof.
  intros Hs (id & f & Hp & Hf & Hin). unfold _addNewFdToMap, storage_at, tryGet.
  apply wp_bind, wp_bind, wp_gets. rewrite Hp. apply wp_ret.
  apply wp_bind. unfold alloc_offset, wp at 1. apply wp_modify.
  assert (Hs' : server_inv {| heap := heap s; next_file := next_file s; _storage := _storage s;
    _opened_fd_map := _opened_fd_map s; offsets := <[next_offset s := offset]> (offsets s);
    next_offset := next_offset s + 1; client_manager := client_manager s; locations := locations s;
    threads := threads s; outbox := outbox s; inbox := inbox s; os_calls := os_calls s |}).
  { destruct Hs as [H1 H2 H3 H4 H5 H6]. constructor; simpl; try done.
    - intros o v Ho. destruct (decide (next_offset s = o)) as [<-|]; [lia|].
      rewrite lookup_insert_ne in Ho by done. specialize (H4 _ _ Ho). lia.
    - intros t fd2 d Hd. destruct (H5 t fd2 d Hd) as [->|(i & o & g & ? & ? & ? & ? & ? & [v Hv])]; [by left|].
      right. exists i, o, g. simpl. split_and!; try done.
      rewrite lookup_insert_ne; [eauto|]. specialize (H4 _ _ Hv). lia. }
  apply inv_set_descriptor; [done|]. right. exists id, (next_offset s), f. simpl.
  rewrite lookup_insert_eq. split_and!; eauto.
Qed.

Lemma keeps_addFileToTid tid fd path offset : keeps (addFileToTid tid fd path offset).
Proof.
  intros s Hs. unfold addFileToTid. apply wp_bind.
  eapply wp_mono; [by apply wp_addNewFdToStorage|]. intros _ s' [Hs' Hr]. by apply wp_addNewFdToMap.
Qed.

Lemma keeps_storage_clone parent child : keeps (storage_clone parent child).
Proof.
  unfold storage_clone. apply keeps_bind; [apply keeps_getFileDescriptors|]. intros fds.
  apply keeps_for_each. intros fd.
  apply keeps_bind; [apply keeps_descriptor|]. intros d.
  apply keeps_bind; [apply keeps_or_ub|]. intros o.
  apply keeps_bind; [apply keeps_gets|]. intros v.
  apply keeps_bind; [apply keeps_or_ub|]. intros offset s Hs.
  apply wp_bind. eapply wp_mono; [by apply wp_addNewFdToStorage|]. intros _ s' [Hs' Hr].
  by apply wp_addNewFdToMap.
Qed.
#[export] Hint Resolve keeps_addFileToTid keeps_storage_clone : keeps.

Lemma keeps_storage_dup tid old_fd new_fd : keeps (storage_dup tid old_fd new_fd).
Proof.
  intros s Hs. unfold storage_dup. apply wp_bind. eapply wp_mono; [by apply keeps_descriptor|]. intros ? s1 Hs1.
  apply wp_bind. eapply wp_mono; [by apply wp_descriptor|]. intros d s2 (Hs2 & _ & Hd & _).
  apply wp_bind, wp_modify, wp_bind, wp_or_ub. intros id Hid.
  destruct Hd as [->|(id' & o & f & Hid' & Hst & Hf & Hin & Ho & [v Hv])]; [done|].
  rewrite Hid in Hid'. injection Hid' as <-.
  apply wp_bind. unfold wp at 1, file_do, on_file, modify. simpl. rewrite Hf. simpl.
  unfold wp. simpl. rewrite lookup_insert_eq. simpl. rewrite insert_insert_eq.
  set (f' := addFd tid new_fd (file_open f)).
  assert (Hs3 : server_inv (set_heap (<[id := f']> (heap s2)) s2)).
  { apply (inv_update_file s2 id f); [done|done| |].
    - apply (same_data_inv f); [done|]. by apply (si_files s2 Hs2 id).
    - intros p Hp. apply elem_of_app. by left. }
  apply (inv_set_descriptor _ tid new_fd d) in Hs3; [exact Hs3|].
  right. exists id, o, f'. simpl. rewrite lookup_insert_eq. split_and!; eauto.
  apply elem_of_app. right. by left.
Qed.

Lemma elem_of_erase_first p q l : p <> q -> p ∈ l -> p ∈ erase_first q l.
Proof.
  intros Hne. induction l as [|x l IH]; [done|]. simpl. intros Hp. destruct (decide (x = q)) as [->|].
  - by apply elem_of_cons in Hp as [->|?].
  - apply elem_of_cons in Hp as [->|?]; [left|right; auto].
Qed.
Lemma not_elem_of_erase_first p l : erase_first p l = l -> p ∉ l.
Proof.
  induction l as [|x l IH]; [intros _; apply not_elem_of_nil|]. simpl.
  destruct (decide (x = p)) as [->|Hne].
  - intros E. exfalso. assert (length l = length (p :: l)) as HL by (by rewrite <- E). simpl in HL. lia.
  - intros [= E] [->|?]%elem_of_cons; [done|]. by apply IH.
Qed.

(** Whether a thread has nothing at a descriptor. *)
Definition no_file_at (tid fd : Z) (s : Server) : Prop :=
  forall d, descriptor_at s tid fd = Some d -> _path d = ""%string.

Lemma wp_removeFromTid tid fd s :
  server_inv s ->
  wp (_removeFromTid tid fd) (fun _ s' => server_inv s' /\ no_file_at tid fd s' /\
    (forall t f, (t, f) <> (tid, fd) -> descriptor_at s' t f = descriptor_at s t f) /\
    _storage s' = _storage s) s.
Proof.
  intros Hs. unfold _removeFromTid. apply wp_bind. unfold wp at 1, descriptor. rewrite <- descriptor_at_default.
  destruct (descriptor_at s tid fd) as [d|] eqn:Ed; simpl.
  2: { split_and!; [apply inv_set_descriptor; [done|by left]| | |done].
       - intros d. rewrite descriptor_at_insert, decide_True by done. by intros [= <-].
       - intros t f Hne. rewrite descriptor_at_insert, decide_False; [done|].
         intros [-> ->]. done. }
  destruct (String.eqb_spec (_path d) "") as [Hp|Hp].
  { apply wp_ret. split_and!; try done. intros d' Hd'. rewrite Ed in Hd'. by simplify_eq. }
  apply wp_bind, wp_or_ub. intros id Hid.
  destruct (si_descriptors s Hs _ _ _ Ed) as [->|(id' & o & f & Hid' & Hst & Hf & Hin & Ho & Hv)]; [done|].
  rewrite Hid in Hid'. injection Hid' as <-.
  apply wp_bind. unfold wp at 1, file_do, on_file, modify. rewrite Hf. simpl.
  set (s1 := set_heap _ s). unfold wp. cbn [outcome_bind].
  set (s2 := set_opened_fd_map _ s1).
  assert (Hat : forall t k, descriptor_at s2 t k = if decide (t = tid /\ k = fd) then None else descriptor_at s t k).
  { intros t k. unfold descriptor_at, s2, s1. simpl. destruct (decide (t = tid)) as [->|Ht].
    - rewrite lookup_insert_eq. simpl. destruct (decide (k = fd)) as [->|Hk].
      + by rewrite lookup_delete_eq, decide_True.
      + rewrite lookup_delete_ne, decide_False by (done || tauto).
        by destruct (_opened_fd_map s !! tid).
    - rewrite lookup_insert_ne, decide_False by (done || tauto). done. }
  split_and!; [| |intros t k Hne|done].
  - destruct Hs as [H1 H2 H3 H4 H5 H6]. constructor; simpl; try done.
    + intros p i Hpi. destruct (decide (id = i)) as [->|]; [rewrite lookup_insert_eq|rewrite lookup_insert_ne by done]; eauto.
    + intros i g Hg. destruct (decide (id = i)) as [->|]; [eauto|]. rewrite lookup_insert_ne in Hg by done. eauto.
    + intros t k d' Hd'. rewrite Hat in Hd'. destruct (decide (t = tid /\ k = fd)) as [|Hne]; [done|].
      destruct (H5 t k d' Hd') as [->|(i & o2 & g & ? & ? & Hg & Hm & ? & ?)]; [by left|]. right.
      destruct (decide (id = i)) as [<-|].
      * exists id, o2, (removeFd tid fd f). rewrite Hf in Hg. injection Hg as <-. simpl. rewrite lookup_insert_eq.
        split_and!; try done. apply elem_of_erase_first; [|done]. intros [= -> ->]. tauto.
      * exists i, o2, g. simpl. rewrite lookup_insert_ne by done. by split_and!.
    + intros i g Hg. destruct (decide (id = i)) as [->|].
      * rewrite lookup_insert_eq in Hg. simplify_eq.
        apply (same_data_inv f); [done|]. exact (H6 _ _ Hf).
      * rewrite lookup_insert_ne in Hg by done. eauto.
  - intros d'. rewrite Hat, decide_True by done. done.
  - rewrite Hat, decide_False; [done|]. intros [-> ->]. done.
Qed.
Lemma keeps_removeFromTid tid fd : keeps (_removeFromTid tid fd).
Proof. intros s Hs. eapply wp_mono; [by apply wp_removeFromTid|]. by intros ? ? [? _]. Qed.
#[export] Hint Resolve keeps_storage_dup keeps_removeFromTid : keeps.

(** The loop of [remove]: when it ends, no descriptor of the file is left. *)
Lemma wp_remove_loop id fds l s :
  server_inv s -> (exists g, heap s !! id = Some g /\ _threads_fd g = fds) ->
  wp (for_each l (fun p => _removeFromTid p.1 p.2 ;;
        let* fds' := file_get id _threads_fd in
        if decide (fds' = fds) then ret tt else undefined "iterator invalidated by removeFd"))
    (fun _ s' => server_inv s' /\ _storage s' = _storage s /\
       (forall p, p ∈ l -> no_file_at p.1 p.2 s') /\
       (forall t f, no_file_at t f s -> no_file_at t f s') /\
       (exists g, heap s' !! id = Some g /\ _threads_fd g = fds)) s.
Proof.
  revert s. induction l as [|[t f] l IH]; intros s Hs Hex; simpl.
  - apply wp_ret. split_and!; try done. intros p Hp. by apply not_elem_of_nil in Hp.
  - apply wp_bind, wp_bind. eapply wp_mono; [by apply wp_removeFromTid|].
    intros [] s1 (Hs1 & Hno & Hother & Hst). apply wp_bind. unfold wp at 1, file_get.
    destruct (heap s1 !! id) as [g|] eqn:Hg; [|done].
    destruct (decide (_threads_fd g = fds)) as [E|]; [|done]. apply wp_ret.
    eapply wp_mono; [apply IH; eauto|]. intros [] s2 (Hs2 & Hst2 & Hl & Hk & Hfd).
    assert (Hkeep : forall t' f', no_file_at t' f' s -> no_file_at t' f' s1).
    { intros t' f' Hn. destruct (decide ((t', f') = (t, f))) as [[= -> ->]|Hne]; [done|].
      unfold no_file_at. by rewrite Hother. }
    split_and!; [done|congruence| |auto|done].
    intros p [->|Hp]%elem_of_cons; [by apply Hk|by apply Hl].
Qed.

Lemma keeps_storage_remove path : path <> ""%string -> keeps (storage_remove path).
Proof.
  intros Hpath s Hs. unfold storage_remove. apply wp_bind. unfold storage_get, tryGet.
  apply wp_bind, wp_gets, wp_or_exit. intros id Hid.
  destruct (si_storage s Hs _ _ Hid) as [g Hg].
  apply wp_bind. unfold wp at 1, file_get. rewrite Hg. apply wp_bind.
  eapply wp_mono; [apply wp_remove_loop; eauto|].
  intros [] s1 (Hs1 & Hst & Hnone & _ & (g1 & Hg1 & Hfds)). apply wp_modify.
  rewrite <- Hst in Hid. destruct Hs1 as [H1 H2 H3 H4 H5 H6]. constructor; simpl; try done.
  - intros q i Hq. apply lookup_delete_Some in Hq as [Hne Hq].
    rewrite lookup_delete_ne; [eauto|]. intros <-. apply Hne. by apply (H2 path q id).
  - intros q r i Hq Hr. apply lookup_delete_Some in Hq as [_ Hq], Hr as [_ Hr]. eauto.
  - intros i f Hi. apply lookup_delete_Some in Hi as [_ Hi]. eauto.
  - intros t k d Hd. destruct (H5 t k d Hd) as [->|(i & o & f & ? & Hs2 & Hf & Hin & ? & ?)]; [by left|].
    right. destruct (decide (i = id)) as [->|Hne].
    + exfalso. assert (_path d = path) as Hpd by (by apply (H2 _ _ id)).
      rewrite Hg1 in Hf. injection Hf as <-. rewrite Hfds in Hin.
      specialize (Hnone _ Hin d Hd). congruence.
    + exists i, o, f. simpl. rewrite !lookup_delete_ne by congruence. by split_and!.
  - intros i f Hi. apply lookup_delete_Some in Hi as [_ Hi]. eauto.
Qed.

(** A rename to a path that does not exist. *)
Lemma wp_storage_rename oldpath newpath s :
  server_inv s -> oldpath <> ""%string -> oldpath = newpath \/ _storage s !! newpath = None ->
  wp (storage_rename oldpath newpath) (fun _ => server_inv) s.
Proof.
  intros Hs Hold Hnew. unfold storage_rename. apply wp_bind, wp_modify, wp_bind, wp_gets, wp_bind, wp_or_ub.
  simpl. intros id Hid. apply wp_bind, wp_modify, wp_bind, wp_gets. simpl.
  assert (Hnone : delete oldpath (_storage s) !! newpath = None).
  { destruct Hnew as [<-|?]; [by apply lookup_delete_eq|]. apply lookup_delete_None. by right. }
  rewrite Hnone. apply wp_modify.
  destruct Hs as [H1 H2 H3 H4 H5 H6]. constructor; simpl; try done.
  - intros q i Hq. apply lookup_insert_Some in Hq as [[_ <-]|[_ Hq]]; [eauto|].
    apply lookup_delete_Some in Hq as [_ Hq]. eauto.
  - intros q r i Hq Hr.
    apply lookup_insert_Some in Hq as [[<- <-]|[? Hq]]; apply lookup_insert_Some in Hr as [[<- ?]|[? Hr]];
      [done|..]; simplify_eq.
    + apply lookup_delete_Some in Hr as [Hne Hr]. exfalso. apply Hne. by eapply H2.
    + apply lookup_delete_Some in Hq as [Hne Hq]. exfalso. apply Hne. by eapply H2.
    + apply lookup_delete_Some in Hq as [_ Hq], Hr as [_ Hr]. eauto.
  - intros t k d Hd. unfold descriptor_at in Hd. simpl in Hd. rewrite lookup_fmap in Hd.
    destruct (_opened_fd_map s !! t) as [fds|] eqn:Et; [|done]. simpl in Hd. rewrite lookup_fmap in Hd.
    destruct (fds !! k) as [d0|] eqn:Ek; [|done]. simpl in Hd. injection Hd as <-.
    assert (Hd0 : descriptor_at s t k = Some d0) by (unfold descriptor_at; by rewrite Et).
    unfold rename_descriptor. destruct (H5 _ _ _ Hd0) as [->|(i & o & f & ? & Hsi & ? & ? & ? & ?)].
    + destruct (String.eqb_spec (_path no_descriptor) oldpath) as [<-|]; [done|by left].
    + right. destruct (String.eqb_spec (_path d0) oldpath) as [E|E].
      * exists i, o, f. simpl. rewrite E in Hsi. simplify_eq. rewrite lookup_insert_eq. by split_and!.
      * exists i, o, f. simpl. split_and!; try done. rewrite lookup_insert_ne.
        { by rewrite lookup_delete_ne by congruence. }
        intros En. rewrite En, lookup_delete_ne in Hnone by congruence. congruence.
Qed.

(** ** The handlers *)

Lemma dump_inv k f f' : file_inv f -> dump k f = Done (tt, f') -> file_inv f' /\ _threads_fd f' = _threads_fd f.
Proof.
  intros Hinv E. pose proof Hinv as [Hwf Hok Hreq]. unfold dump in E.
  destruct (_permanent f && negb (_directory f) && _home_node f); [|by simplify_eq].
  destruct (_buffer f) as [h|m] eqn:Eb; [by simplify_eq|].
  unfold buffer_commit, mapped_commit in E.
  destruct (_ || _); simpl in E; [done|]. destruct (sys_close k); simpl in E; [|done]. simplify_eq.
  split; [|done]. split; simpl; [done| |done].
  pose proof (fi_nonneg f Hinv) as Hnn. destruct Hok as (Hsz & Hin & Hn).
  split; simpl; [by apply getFileSize_nonneg|]. split; [|done].
  pose proof (getFileSize_max _ Hwf) as Hmax. unfold sectors_in in *.
  rewrite Forall_forall in *. intros s Hs. specialize (Hin s Hs). specialize (Hmax s Hs). simpl in *. lia.
Qed.

Lemma length_le_bytes n z : length (le_bytes n z) = n.
Proof. revert z. induction n; intros; simpl; auto. Qed.
Lemma length_name_bytes s : length (name_bytes s) = String.length s.
Proof. unfold name_bytes. rewrite length_fmap. induction s; simpl; auto. Qed.
Lemma length_dirent_bytes ino off ty name :
  (String.length name < NAME_MAX)%nat -> Z.of_nat (length (dirent_bytes ino off ty name)) = sizeof_linux_dirent64.
Proof.
  intros Hn. unfold dirent_bytes, NAME_MAX, sizeof_linux_dirent64 in *.
  rewrite !length_app, !length_le_bytes, length_name_bytes, !length_replicate. simpl. lia.
Qed.

Section Keeps.
Context `{Config}.
Hypothesis initial_size_nonneg : 0 <= getFileInitialSize < 2 ^ 63.
Hypothesis cache_line_pos : 0 < getCacheLineSize.

Lemma keeps_file_createBuffer id home : keeps (file_createBuffer id home).
Proof using. intros s Hs. eapply wp_mono; [by apply wp_file_createBuffer|]. by intros ? ? [? _]. Qed.
Lemma keeps_file_dump id : keeps (file_dump id).
Proof using.
  unfold file_dump. apply keeps_bind; [apply keeps_next_os|]. intros [k fd] s Hs.
  unfold wp, on_file. destruct (heap s !! id) as [f|] eqn:Hf; [|done].
  destruct (dump k f) as [[[] f']| | | |] eqn:E; simpl; try done.
  destruct (dump_inv k f f' (si_files s Hs _ _ Hf) E) as [Hi Ht].
  apply (inv_update_file s id f); [done|done|done|]. by rewrite Ht.
Qed.
Lemma keeps_add_file path is_dir : keeps (storage_add path is_dir getFileInitialSize).
Proof using initial_size_nonneg. by apply keeps_storage_add. Qed.
Lemma keeps_add_dir path is_dir : keeps (storage_add path is_dir CAPIO_DEFAULT_DIR_INITIAL_SIZE).
Proof using. by apply keeps_storage_add. Qed.
Lemma keeps_add_default path is_dir : keeps (storage_add path is_dir CAPIO_DEFAULT_FILE_INITIAL_SIZE).
Proof using. by apply keeps_storage_add. Qed.
Hint Resolve keeps_file_createBuffer keeps_file_dump keeps_add_file keeps_add_dir keeps_add_default : keeps.

Lemma keeps_reply tid v : keeps (reply tid v).
Proof using. apply keeps_on_clients. Qed.
Lemma keeps_reply_file tid offset id count : keeps (reply_file tid offset id count).
Proof using. unfold reply_file. keep. Qed.
Lemma keeps_location_opt path : keeps (location_opt path).
Proof using. apply keeps_gets. Qed.
Lemma keeps_location_get path : keeps (location_get path).
Proof using. apply keeps_on_locations. Qed.
Lemma keeps_location_load path : keeps (location_load path).
Proof using. apply keeps_on_locations. Qed.
Hint Resolve keeps_reply keeps_reply_file keeps_location_opt keeps_location_get keeps_location_load : keeps.

(** After a store, the rest of an operation that records the sector. *)
Lemma keeps_addDirectoryEntry tid file_path dir type : keeps (addDirectoryEntry tid file_path dir type).
Proof using.
  unfold addDirectoryEntry. set (name := match type with REGULAR_ENTRY => _ | _ => _ end).
  destruct (Nat.ltb_spec (String.length name) NAME_MAX) as [Hn|Hn]; [|by intros s Hs].
  apply keeps_bind; [apply keeps_ret|]. intros _.
  apply keeps_bind; [apply keeps_storage_get|]. intros id s Hs.
  apply wp_bind. eapply wp_mono; [by apply wp_file_createBuffer|]. intros [] s1 [Hs1 Hb1].
  apply wp_bind. pose proof Hb1 as (f1 & Hf1 & _). unfold wp at 1, file_get. rewrite Hf1. cbn zeta.
  apply wp_bind. eapply wp_mono; [by apply wp_file_reserve|]. intros [] s2 [Hs2 Hb2].
  apply wp_bind. pose proof Hb2 as (f2 & Hf2 & _). unfold wp at 1, file_get. rewrite Hf2.
  apply wp_bind. eapply wp_mono; [by apply wp_on_file_store|]. intros [] s3 [Hs3 Hr3].
  rewrite length_dirent_bytes in Hr3 by done.
  apply wp_bind. eapply wp_mono; [by apply wp_insertSector|]. intros [] s4 Hs4.
  revert s4 Hs4. match goal with |- forall s4, _ -> wp ?m _ _ => change (keeps m) end. keep.
Qed.
Hint Resolve keeps_addDirectoryEntry : keeps.

Lemma keeps_updateDirectory tid path : keeps (updateDirectory tid path).
Proof using. unfold updateDirectory. keep. Qed.
Hint Resolve keeps_updateDirectory : keeps.
Lemma keeps_addDirectory tid path : keeps (addDirectory tid path).
Proof using. unfold addDirectory. keep. Qed.
Hint Resolve keeps_addDirectory : keeps.

(** [register_written_data] when the data fits in the buffer. *)
Lemma wp_register_written_data tid path id lo hi s :
  server_inv s -> has_room id lo hi s ->
  wp (register_written_data tid path id lo hi) (fun _ => server_inv) s.
Proof using.
  intros Hs Hr. unfold register_written_data. apply wp_bind, wp_on_clients. intros _ c.
  apply wp_bind. eapply wp_mono; [apply wp_insertSector|].
  - by apply (same_storage_inv s).
  - by apply (has_room_same id lo hi s).
  - intros [] s1 Hs1. revert s1 Hs1.
    match goal with |- forall s4, _ -> wp ?m _ _ => change (keeps m) end. keep.
Qed.

Lemma wp_file_readFromQueue id tid offset n s :
  server_inv s -> has_buffer id s -> 0 <= n ->
  wp (file_readFromQueue id tid offset n)
    (fun _ s' => server_inv s' /\ has_room id offset (offset + n) s') s.
Proof using cache_line_pos.
  intros Hs (f & Hf & Hb) Hn. unfold wp, file_readFromQueue. rewrite Hf.
  destruct (data_buffers (client_manager s) !! tid) as [b|]; [|done].
  unfold readFromQueue. destruct (fifo_read _ _ _) as [[data q]| | | |] eqn:Er; simpl; try done.
  apply fifo_read_length in Er; [|done|done].
  destruct (store offset data f) as [[[] f']| | | |] eqn:E; simpl; try done.
  destruct (store_inv _ _ _ _ (si_files _ Hs _ _ Hf) Hb E) as (Hi & Ht & Hb' & H0 & Hle).
  split.
  - set (c := set_data_buffers _ _).
    apply (inv_update_file (set_client_manager c s) id f); [by apply (same_storage_inv s)|done|done|].
    by rewrite Ht.
  - exists f'. simpl. rewrite lookup_insert_eq. split_and!; try done; lia.
Qed.

Lemma keeps_write_handler tid fd count : 0 <= count -> keeps (write_handler tid fd count).
Proof using cache_line_pos.
  intros Hc. unfold write_handler.
  apply keeps_bind; [apply keeps_getFileOffset|]. intros offset.
  apply keeps_bind; [apply keeps_getPath|]. intros path.
  apply keeps_bind; [apply keeps_storage_get|]. intros id s Hs.
  apply wp_bind. eapply wp_mono; [by apply wp_file_createBuffer|]. intros [] s1 [Hs1 Hb1].
  apply wp_bind. eapply wp_mono; [by apply wp_file_reserve|]. intros [] s2 [Hs2 Hb2].
  apply wp_bind. eapply wp_mono; [by apply wp_file_readFromQueue|]. intros [] s3 [Hs3 Hr3].
  apply wp_bind. eapply wp_mono; [by apply wp_register_written_data|]. intros [] s4 Hs4.
  by apply keeps_setFileOffset.
Qed.

Lemma keeps_send_dirent_to_client tid fd id offset count : keeps (send_dirent_to_client tid fd id offset count).
Proof using. unfold send_dirent_to_client. keep. Qed.
Hint Resolve keeps_send_dirent_to_client : keeps.
Lemma keeps_handle_remote_read_request tid fd count b : keeps (handle_remote_read_request tid fd count b).
Proof using. unfold handle_remote_read_request. keep. Qed.
Lemma keeps_handle_remote_stat_request tid path : keeps (handle_remote_stat_request tid path).
Proof using. unfold handle_remote_stat_request. keep. Qed.
Hint Resolve keeps_handle_remote_read_request keeps_handle_remote_stat_request : keeps.
Lemma keeps_handle_pending_read tid fd o count : keeps (handle_pending_read tid fd o count).
Proof using. unfold handle_pending_read. keep. Qed.
Lemma keeps_handle_local_read tid fd count b : keeps (handle_local_read tid fd count b).
Proof using. unfold handle_local_read. keep. Qed.
Hint Resolve keeps_handle_pending_read keeps_handle_local_read : keeps.
Lemma keeps_request_remote_read tid fd count : keeps (request_remote_read tid fd count).
Proof using. unfold request_remote_read. keep. Qed.
Hint Resolve keeps_request_remote_read : keeps.
Lemma keeps_handle_read tid fd count : keeps (handle_read tid fd count).
Proof using. unfold handle_read. keep. Qed.
Lemma keeps_wait_for_file path tid fd count : keeps (wait_for_file path tid fd count).
Proof using. unfold wait_for_file. keep. Qed.
Lemma keeps_update_file_metadata path tid fd b o : keeps (update_file_metadata path tid fd b o).
Proof using initial_size_nonneg. unfold update_file_metadata. keep. Qed.
Lemma keeps_location_known path : keeps (location_known path).
Proof using. unfold location_known. keep. Qed.
Hint Resolve keeps_update_file_metadata keeps_location_known : keeps.

Lemma keeps_unless_excluded tid path m : keeps m -> keeps (unless_excluded tid path m).
Proof using. intros Hm. unfold unless_excluded. case_match; [apply keeps_reply|done]. Qed.
Lemma keeps_handle_close tid fd : keeps (handle_close tid fd).
Proof using. unfold handle_close, removeFromTid. keep. Qed.
Lemma keeps_reply_size tid id : keeps (reply_size tid id).
Proof using. unfold reply_size. keep. Qed.
Hint Resolve keeps_handle_close keeps_reply_size : keeps.
Lemma keeps_reply_stat tid path : keeps (reply_stat tid path).
Proof using initial_size_nonneg. unfold reply_stat. keep. Qed.
Hint Resolve keeps_reply_stat : keeps.
Lemma keeps_wait_for_file_completion tid path : keeps (wait_for_file_completion tid path).
Proof using. unfold wait_for_file_completion. keep. Qed.
Lemma keeps_handle_exit_group tid : keeps (handle_exit_group tid).
Proof using. unfold handle_exit_group. keep. Qed.

(** ** Copies *)

Lemma wp_file_copyFromFile dst src so d n s :
  server_inv s -> has_buffer dst s -> 0 <= n ->
  wp (file_copyFromFile dst src so d n) (fun _ s' => server_inv s' /\ has_room dst d (d + n) s') s.
Proof using.
  intros Hs Hb Hn.
  assert (Hcopy : forall g, file_inv g -> wp (on_file dst (copyFromFile g so d n))
            (fun _ s' => server_inv s' /\ has_room dst d (d + n) s') s).
  { intros g Hg. destruct Hb as (f & Hf & Hb). unfold wp, on_file. rewrite Hf.
    unfold copyFromFile, bind, lift.
    destruct (load so n g) as [data| | | |] eqn:El; simpl; try done.
    assert (HL : Z.of_nat (length data) = n).
    { unfold load in El. destruct (Z.leb_spec n 0); [simplify_eq; simpl; lia|].
      repeat case_match; simplify_eq. rewrite length_mem_read. lia. }
    destruct (store d data f) as [[[] f']| | | |] eqn:E; simpl; try done.
    destruct (store_inv _ _ _ _ (si_files _ Hs _ _ Hf) Hb E) as (Hi & Ht & Hb' & H0 & Hle).
    split.
    - apply (inv_update_file s dst f); [done|done|done|]. by rewrite Ht.
    - exists f'. simpl. rewrite lookup_insert_eq. split_and!; try done; lia. }
  unfold file_copyFromFile. destruct (Z.eqb_spec dst src) as [->|Hne].
  - destruct Hb as (f & Hf & Hb). specialize (Hcopy f (si_files _ Hs _ _ Hf)).
    unfold wp, on_file in *. rewrite Hf in *. exact Hcopy.
  - apply wp_bind. unfold wp at 1, file_get. destruct (heap s !! src) as [g|] eqn:Hg; [|done].
    apply Hcopy. by apply (si_files s Hs src).
Qed.

Lemma keeps_copy_file_range_data copy : keeps (copy_file_range_data copy).
Proof using.
  unfold copy_file_range_data.
  apply keeps_bind; [apply keeps_storage_get|]. intros id_in.
  apply keeps_bind; [apply keeps_file_get|]. intros e. cbn zeta. set (n := if e =? _ then 0 else _).
  apply keeps_bind; [|intros; apply keeps_reply].
  unfold when. destruct (Z.ltb_spec 0 n) as [Hn|Hn]; [|apply keeps_ret].
  apply keeps_bind; [apply keeps_storage_get|]. intros id s Hs.
  apply wp_bind. eapply wp_mono; [by apply wp_file_createBuffer|]. intros [] s1 [Hs1 Hb1].
  apply wp_bind. eapply wp_mono; [by apply wp_file_reserve|]. intros [] s2 [Hs2 Hb2].
  apply wp_bind. eapply wp_mono; [apply wp_file_copyFromFile; [done|done|lia]|]. intros [] s3 [Hs3 Hr3].
  by apply wp_register_written_data.
Qed.
Hint Resolve keeps_copy_file_range_data : keeps.
Lemma keeps_handle_local_copy copy b : keeps (handle_local_copy_file_range copy b).
Proof using. unfold handle_local_copy_file_range. keep. Qed.
Lemma keeps_handle_remote_copy copy : keeps (handle_remote_copy_file_range copy).
Proof using. unfold handle_remote_copy_file_range, handle_remote_copy_file_range_request. keep. Qed.
Hint Resolve keeps_handle_local_copy keeps_handle_remote_copy : keeps.
Lemma keeps_handle_copy_file_range copy b : keeps (handle_copy_file_range copy b).
Proof using. unfold handle_copy_file_range. keep. Qed.
Hint Resolve keeps_handle_copy_file_range : keeps.

Lemma keeps_request_remote_getdents tid fd count : keeps (request_remote_getdents tid fd count).
Proof using. unfold request_remote_getdents. keep. Qed.
Hint Resolve keeps_request_remote_getdents : keeps.
Lemma keeps_handle_getdents tid fd count : keeps (handle_getdents tid fd count).
Proof using. unfold handle_getdents. keep. Qed.

(** ** Messages of other servers *)

Lemma keeps_file_bytes id o n : keeps (file_bytes id o n).
Proof using. unfold file_bytes. keep. Qed.
Hint Resolve keeps_file_bytes : keeps.
Lemma keeps_serve_remote_read path dest tid fd count o c b : keeps (serve_remote_read path dest tid fd count o c b).
Proof using. unfold serve_remote_read, serve_remote_read_request. keep. Qed.
Hint Resolve keeps_serve_remote_read : keeps.
Lemma keeps_serve_remote_stat path dest tid : keeps (serve_remote_stat path dest tid).
Proof using. unfold serve_remote_stat, serve_remote_stat_request. keep. Qed.
Hint Resolve keeps_serve_remote_stat : keeps.
Lemma keeps_serve_copy path dest tid a b c d e : keeps (serve_copy path dest tid a b c d e).
Proof using. unfold serve_copy. keep. Qed.
Hint Resolve keeps_serve_copy : keeps.

Lemma wp_file_readFromNode id source offset n s :
  server_inv s -> has_buffer id s -> 0 <= n ->
  wp (file_readFromNode id source offset n)
    (fun _ s' => server_inv s' /\ has_room id offset (offset + n) s') s.
Proof using.
  intros Hs Hb Hn. unfold wp at 1, file_readFromNode. destruct (inbox s !! source) as [[|data rest]|]; try done.
  set (s0 := set_inbox _ s).
  assert (Hs0 : server_inv s0) by by apply (same_storage_inv s).
  pose proof (wp_on_file_store id offset (slot_bytes data n) s0 Hs0 Hb) as Hw.
  rewrite length_slot_bytes in Hw. replace (Z.of_nat (Z.to_nat n)) with n in Hw by lia. exact Hw.
Qed.

(** The data of a reply, stored and recorded. *)
Lemma wp_receive {A} id source offset n file_size complete (k : M Server A) s :
  server_inv s -> 0 < n -> keeps k ->
  wp (file_createBuffer id false ;;
      when (negb (n =? 0)) (file_reserve id (offset + n) ;; file_readFromNode id source offset n) ;;
      file_do id (setRealFileSize file_size) ;;
      file_do id (file_insertSector offset (offset + n)) ;;
      file_do id (setCommitted complete) ;; k) (fun _ => server_inv) s.
Proof using.
  intros Hs Hn Hk. apply wp_bind. eapply wp_mono; [by apply wp_file_createBuffer|]. intros [] s1 [Hs1 Hb1].
  rewrite (proj2 (Z.eqb_neq n 0)) by lia. apply wp_bind, wp_bind.
  eapply wp_mono; [by apply wp_file_reserve|]. intros [] s2 [Hs2 Hb2].
  eapply wp_mono; [apply wp_file_readFromNode; [done|done|lia]|]. intros [] s3 [Hs3 Hr3].
  apply wp_bind. eapply wp_mono; [apply wp_quiet_room; [done|done|apply quiet_setRealFileSize]|].
  intros [] s4 [Hs4 Hr4]. apply wp_bind. eapply wp_mono; [by apply wp_insertSector|]. intros [] s5 Hs5.
  revert s5 Hs5. match goal with |- forall s5, _ -> wp ?m _ _ => change (keeps m) end. keep.
Qed.

(** ** What the files' operations leave alone *)

Definition same_names (s s' : Server) : Prop :=
  _opened_fd_map s' = _opened_fd_map s /\ _storage s' = _storage s /\ offsets s' = offsets s.
Lemma wp_and {A} (m : M Server A) (P Q : A -> Server -> Prop) s :
  wp m P s -> wp m Q s -> wp m (fun a s' => P a s' /\ Q a s') s.
Proof using. unfold wp. destruct (m s) as [[a s']| | | |]; auto. Qed.
Lemma names_on_file {A} id (m : M CapioFile A) s : wp (on_file id m) (fun _ s' => same_names s s') s.
Proof using.
  unfold wp, on_file. destruct (heap s !! id) as [f|]; [|done]. by destruct (m f) as [[a f']| | | |].
Qed.
Lemma names_bind {A B} (m : M Server A) (k : A -> M Server B) s :
  wp m (fun _ s' => same_names s s') s -> (forall a s1, wp (k a) (fun _ s' => same_names s1 s') s1) ->
  wp (bind m k) (fun _ s' => same_names s s') s.
Proof using.
  intros Hm Hk. apply wp_bind. eapply wp_mono; [exact Hm|]. intros a s1 (E1 & E2 & E3).
  eapply wp_mono; [apply Hk|]. intros b s2 (F1 & F2 & F3). unfold same_names. by rewrite F1, F2, F3.
Qed.
Lemma names_createBuffer id home s : wp (file_createBuffer id home) (fun _ s' => same_names s s') s.
Proof using. apply names_bind; [done|]. intros [k fd] s1. apply names_on_file. Qed.
Lemma names_reserve id n s : wp (file_reserve id n) (fun _ s' => same_names s s') s.
Proof using.
  apply names_bind; [unfold wp, file_get; by destruct (heap s !! id)|]. intros sz s1. unfold when. case_match; [|done].
  apply names_bind; [done|]. intros [k fd] s2. apply names_on_file.
Qed.
Lemma names_readFromNode id source o n s : wp (file_readFromNode id source o n) (fun _ s' => same_names s s') s.
Proof using.
  unfold file_readFromNode, wp. destruct (inbox s !! source) as [[|data rest]|]; try done.
  exact (names_on_file id _ (set_inbox _ s)).
Qed.
Lemma names_receive id source o n s :
  wp (file_createBuffer id false ;;
      when (negb (n =? 0)) (file_reserve id (o + n) ;; file_readFromNode id source o n))
    (fun _ s' => same_names s s') s.
Proof using.
  apply names_bind; [apply names_createBuffer|]. intros _ s1. unfold when. case_match; [|done].
  apply names_bind; [apply names_reserve|]. intros _ s2. apply names_readFromNode.
Qed.

Lemma same_names_descriptor s s' tid fd : same_names s s' -> descriptor_at s' tid fd = descriptor_at s tid fd.
Proof using. intros (E & _ & _). unfold descriptor_at. by rewrite E. Qed.
Lemma descriptor_known tid fd d s : descriptor_at s tid fd = Some d -> descriptor tid fd s = Done (d, s).
Proof using. intros E. unfold descriptor. by rewrite <- descriptor_at_default, E. Qed.

Lemma keeps_handle_remote_read_reply source tid fd count n file_size complete b :
  0 < n -> keeps (handle_remote_read_reply source tid fd count n file_size complete b).
Proof using.
  intros Hn s Hs. unfold handle_remote_read_reply.
  apply wp_bind, wp_bind. eapply wp_mono; [by apply wp_descriptor|]. intros d s1 (Hs1 & Hd & _).
  apply wp_ret, wp_bind. unfold getFileOffset. apply wp_bind. unfold wp at 1. rewrite (descriptor_known _ _ d) by done.
  apply wp_bind, wp_or_ub. intros o Ho. apply wp_bind, wp_gets, wp_or_ub. intros offset Hoff.
  apply wp_bind, wp_bind, wp_gets, wp_or_exit. intros id Hid.
  apply wp_bind. eapply wp_mono; [apply wp_and; [by apply wp_file_createBuffer|apply names_createBuffer]|].
  intros [] s2 [[Hs2 Hb2] Hn2].
  rewrite (proj2 (Z.eqb_neq n 0)) by lia. apply wp_bind, wp_bind.
  eapply wp_mono; [apply wp_and; [by apply wp_file_reserve|apply names_reserve]|].
  intros [] s3 [[Hs3 Hb3] Hn3].
  eapply wp_mono; [apply wp_and; [apply wp_file_readFromNode; [done|done|lia]|apply names_readFromNode]|].
  intros [] s4 [[Hs4 Hr4] Hn4].
  assert (Hd4 : descriptor_at s4 tid fd = Some d)
    by (by rewrite (same_names_descriptor s3 s4), (same_names_descriptor s2 s3), (same_names_descriptor s1 s2)).
  assert (Est : _storage s4 = _storage s1) by (destruct Hn2 as (_&E2&_), Hn3 as (_&E3&_), Hn4 as (_&E4&_); congruence).
  assert (Eof : offsets s4 = offsets s1) by (destruct Hn2 as (_&_&E2), Hn3 as (_&_&E3), Hn4 as (_&_&E4); congruence).
  unfold handle_read_reply, getPath, getFileOffset. apply wp_bind, wp_bind. unfold wp at 1.
  rewrite (descriptor_known _ _ d) by done. apply wp_ret.
  apply wp_bind, wp_bind, wp_gets. rewrite Est, Hid. apply wp_ret.
  apply wp_bind, wp_bind. unfold wp at 1. rewrite (descriptor_known _ _ d) by done.
  rewrite Ho. apply wp_bind, wp_ret, wp_bind, wp_gets. rewrite Eof, Hoff. apply wp_ret.
  apply wp_bind. eapply wp_mono; [apply wp_quiet_room; [done|done|apply quiet_setRealFileSize]|].
  intros [] s5 [Hs5 Hr5]. apply wp_bind. eapply wp_mono; [by apply wp_insertSector|]. intros [] s6 Hs6.
  revert s6 Hs6. match goal with |- forall s5, _ -> wp ?m _ _ => change (keeps m) end. keep.
Qed.

Lemma keeps_handle_remote_copy_reply source tid a b c d e n g h :
  0 < n -> keeps (handle_remote_copy_file_range_reply source tid a b c d e n g h).
Proof using.
  intros Hn. unfold handle_remote_copy_file_range_reply.
  apply keeps_bind; [apply keeps_getPath|]. intros pin.
  apply keeps_bind; [apply keeps_getPath|]. intros pout.
  apply keeps_bind; [apply keeps_storage_get|]. intros id s Hs.
  by apply wp_receive; [| |apply keeps_copy_file_range_data].
Qed.
End Keeps.
