(* ===== verification/ServerProps.v ===== *)
(** * Properties of the server

    The invariant holds in every state a server can reach, and what the
    handlers do to files, replies and threads. *)
From S2P Require Import Prelude Memory Sectors FileBuffer Queue CapioFile ClientManager Locations Server StorageManager Handlers RemoteHandlers ServerInv.

(** ** Reachable states *)

(** What the events must satisfy: a count is not negative, a path to remove is
    not empty, a rename goes to a path that is not in use, and a reply of
    another server with data has some. *)
Definition event_ok (e : event) (s : Server) : Prop :=
  match e with
  | ERequest (Write _ _ count) => 0 <= count
  | ERequest (Unlink _ path) => path <> ""%string
  | ERequest (Rmdir path _) => path <> ""%string
  | ERequest (Rename oldpath newpath _) =>
      oldpath <> ""%string /\ (oldpath = newpath \/ _storage s !! newpath = None)
  | EMessage _ (RemoteReadReply _ _ _ nbytes _ _ _) => 0 < nbytes
  | EMessage _ (RemoteCopyReply _ _ _ _ _ _ nbytes _ _) => 0 < nbytes
  | _ => True
  end.

Inductive reachable `{Config} : Server -> Prop :=
| reach_start pid s : start_server pid Server_new = Done (tt, s) -> reachable s
| reach_step e s s' : reachable s -> event_ok e s -> step e s s' -> reachable s'.

Section Reach.
Context `{Config}.
Hypothesis initial_size_nonneg : 0 <= getFileInitialSize < 2 ^ 63.
Hypothesis cache_line_pos : 0 < getCacheLineSize.

#[local] Hint Resolve keeps_file_createBuffer keeps_file_dump keeps_add_file keeps_add_dir keeps_add_default
  keeps_reply keeps_reply_file keeps_location_opt keeps_location_get keeps_location_load
  keeps_addDirectory keeps_write_handler keeps_send_dirent_to_client keeps_handle_pending_read
  keeps_handle_read keeps_wait_for_file keeps_update_file_metadata keeps_location_known
  keeps_handle_close keeps_reply_stat keeps_wait_for_file_completion keeps_handle_exit_group
  keeps_copy_file_range_data keeps_handle_copy_file_range keeps_handle_getdents
  keeps_request_remote_getdents keeps_serve_remote_read keeps_serve_remote_stat keeps_serve_copy
  keeps_handle_remote_read_reply keeps_handle_remote_copy_reply keeps_storage_remove
  keeps_unless_excluded keeps_handle_local_copy keeps_handle_remote_copy : keeps.

Lemma wp_handle_rename tid o n s :
  server_inv s -> o <> ""%string -> o = n \/ _storage s !! n = None ->
  wp (handle_rename tid o n) (fun _ => server_inv) s.
Proof using.
  intros Hs Ho Hn. unfold handle_rename. apply wp_bind, wp_gets.
  destruct (_storage s !! o); [|by apply keeps_reply].
  apply wp_bind. eapply wp_mono; [by apply wp_storage_rename|]. intros [] s1 Hs1.
  revert s1 Hs1. match goal with |- forall s5, _ -> wp ?m _ _ => change (keeps m) end. keep.
Qed.

Lemma wp_handle_request r s :
  server_inv s -> event_ok (ERequest r) s -> wp (handle_request r) (fun _ => server_inv) s.
Proof using initial_size_nonneg cache_line_pos.
  intros Hs Hok.
  assert (Hk : keeps (handle_request r) -> wp (handle_request r) (fun _ => server_inv) s) by auto.
  destruct r; simpl in *; try (apply Hk; clear Hk Hok; unfold access_handler, clone_handler, create_handler,
    create_exclusive_handler, dup_handler, fstat_handler, handshake_named_handler, handshake_anonymous_handler,
    mkdir_handler, open_handler, handle_lseek, handle_seek_data, handle_seek_end, handle_seek_hole, stat_handler,
    copy_file_range_handler, handle_create, handle_create_exclusive, handle_open, fstat_handler;
    try apply keeps_unless_excluded; keep; fail).
  - destruct Hok. by apply wp_handle_rename.
  - apply Hk. apply keeps_unless_excluded. keep.
  - by apply keeps_write_handler.
  - apply Hk. apply keeps_unless_excluded. keep.
Qed.

Lemma wp_handle_message source m s :
  server_inv s -> event_ok (EMessage source m) s -> wp (handle_message source m) (fun _ => server_inv) s.
Proof using initial_size_nonneg.
  intros Hs Hok. destruct m; simpl in *.
  - revert s Hs Hok. cut (forall s, server_inv s -> wp (handle_remote_read path source tid fd count offset is_getdents) (fun _ => server_inv) s); [auto|].
    match goal with |- forall s5, _ -> wp ?m _ _ => change (keeps m) end. unfold handle_remote_read. keep.
  - by apply keeps_handle_remote_read_reply.
  - assert (Hk : keeps (handle_remote_stat tid path dest)) by (unfold handle_remote_stat; keep). auto.
  - assert (Hk : keeps (handle_remote_stat_reply tid size dir)) by (unfold handle_remote_stat_reply; keep). auto.
  - assert (Hk : keeps (handle_remote_copy_file_range_data path_in source tid fd_in fd_out offset_in offset_out count))
      by (unfold handle_remote_copy_file_range_data; keep). auto.
  - by apply keeps_handle_remote_copy_reply.
Qed.

Lemma keeps_run_task t : keeps (run_task t).
Proof using initial_size_nonneg.
  destruct t; simpl; unfold loop_load_file_location, wait_for_file_creation, wait_for_data; keep.
Qed.

Lemma server_inv_new : server_inv Server_new.
Proof using.
  constructor; simpl; try done.
Qed.

Lemma wp_Done {A} (m : M Server A) (Q : A -> Server -> Prop) s a s' : wp m Q s -> m s = Done (a, s') -> Q a s'.
Proof using. unfold wp. intros Hw E. by rewrite E in Hw. Qed.

Lemma step_inv e s s' : server_inv s -> event_ok e s -> step e s s' -> server_inv s'.
Proof using initial_size_nonneg cache_line_pos.
  intros Hs Hok Hstep. destruct Hstep.
  - by apply (wp_Done (handle_request r) (fun _ => server_inv) s tt); [apply wp_handle_request|].
  - by apply (wp_Done (handle_message source m) (fun _ => server_inv) s tt); [apply wp_handle_message|].
  - apply (wp_Done (run_task t) (fun _ => server_inv) (set_threads (before ++ after) s) tt); [|done].
    apply keeps_run_task. by apply (same_storage_inv s).
  - by apply (same_storage_inv s).
  - by apply (same_storage_inv s).
  - by apply (same_storage_inv s).
Qed.

Lemma start_inv pid s : start_server pid Server_new = Done (tt, s) -> server_inv s.
Proof using.
  intros E. apply (wp_Done (start_server pid) (fun _ => server_inv) Server_new tt); [|done].
  assert (Hk : keeps (start_server pid)) by (unfold start_server; keep). apply Hk, server_inv_new.
Qed.

Lemma reachable_inv s : reachable s -> server_inv s.
Proof using initial_size_nonneg cache_line_pos.
  intros Hr. induction Hr as [pid s E|e s s' Hr IH Hok Hstep]; [by eapply start_inv|by eapply step_inv].
Qed.
End Reach.

(** C2. The invariant of the server.  In every state a server reaches from its
    start by any sequence of client requests, messages of other servers,
    threads that wake up and data that arrives, where no write has a negative
    count, no path to remove or rename is empty, a rename goes to a path that
    is not in use and a reply of another server carries data: every descriptor
    of every thread points to the live file of its path, which lists the
    descriptor, and to a live offset; no two paths share a file; and every file
    is well formed, its sectors sorted, disjoint, inside its buffer.  The
    condition on renames is needed: one onto a path in use leaves descriptors
    that dangle ([ServerBehaviour.rename_onto_existing_dangles]). *)
Theorem server_invariant `{Config} s :
  0 <= getFileInitialSize < 2 ^ 63 -> 0 < getCacheLineSize -> reachable s -> server_inv s.
Proof. intros H1 H2. by apply reachable_inv. Qed.

(** ** A configuration for the examples *)

Definition demo_config (firable : bool) : Config := {|
  config_nodes := nodes_ab "a"; config_quota := quota_unlimited;
  getDirectoryFileCount := fun _ => 0; isPermanent := fun _ => false; getCommitCloseCount := fun _ => 0;
  getCommitRule := fun _ => ON_TERMINATION; isFirable := fun _ => firable; isExcluded := fun _ => false;
  cl_isProducer := fun _ _ => false; getCapioDir := "/c"; getFileInitialSize := 64; getCacheLineSize := 4;
  getPrefetchDataSize := 0; path_hash := fun _ => 7; os := fun _ => (kernel_ok, 9) |}.

(** Run a list of calls. *)
Fixpoint run (l : list (M Server unit)) : M Server unit :=
  match l with [] => ret tt | m :: l' => m ;; run l' end.
(** A client puts data in its queue. *)
Definition client_data (tid : Z) (data : list cell) : M Server unit := fun s =>
  match data_buffers (client_manager s) !! tid with
  | Some b => Done (tt, set_client_manager (set_data_buffers
      (<[tid := {| ClientToServer := fifo_push data (ClientToServer b); ServerToClient := ServerToClient b |}]>
         (data_buffers (client_manager s))) (client_manager s)) s)
  | None => Throw "no such client"
  end.
Definition state_of (m : M Server unit) : Server :=
  match m Server_new with Done (_, s) => s | _ => Server_new end.

Lemma reach_request `{Config} r s s' :
  reachable s -> event_ok (ERequest r) s -> handle_request r s = Done (tt, s') -> reachable s'.
Proof. intros Hr Hok E. eapply reach_step; [exact Hr|exact Hok|by apply step_request]. Qed.

(** The server after its start and some requests. *)
Definition after (rs : list request) : Server :=
  let H := demo_config true in state_of (run (start_server 1 :: (handle_request <$> rs))).

(** A thread joins, makes a file, opens it twice, renames it and closes it once. *)
Lemma server_invariant_witness :
  let H := demo_config true in
  let s := after [HandshakeNamed 7 7 "app" false; Create 7 3 "/c/f"; Dup 7 3 4; Rename "/c/f" "/c/g" 7; Close 7 3] in
  server_inv s /\ is_Some (_storage s !! "/c/g"%string) /\ is_Some (descriptor_at s 7 4).
Proof.
  intros H s. split; [|vm_compute; split; by eexists].
  apply (@server_invariant H); [vm_compute; split; [discriminate|reflexivity]|vm_compute; reflexivity|].
  apply (reach_request (Close 7 3) (after [HandshakeNamed 7 7 "app" false; Create 7 3 "/c/f"; Dup 7 3 4; Rename "/c/f" "/c/g" 7]));
    [|exact I|vm_compute; reflexivity].
  apply (reach_request (Rename "/c/f" "/c/g" 7) (after [HandshakeNamed 7 7 "app" false; Create 7 3 "/c/f"; Dup 7 3 4]));
    [|split; [discriminate|right; vm_compute; reflexivity]|vm_compute; reflexivity].
  apply (reach_request (Dup 7 3 4) (after [HandshakeNamed 7 7 "app" false; Create 7 3 "/c/f"]));
    [|exact I|vm_compute; reflexivity].
  apply (reach_request (Create 7 3 "/c/f") (after [HandshakeNamed 7 7 "app" false]));
    [|exact I|vm_compute; reflexivity].
  apply (reach_request (HandshakeNamed 7 7 "app" false) (after [])); [|exact I|vm_compute; reflexivity].
  apply (reach_start 1). vm_compute. reflexivity.
Defined.

(** ** Total correctness *)

(** The call returns, with a result and a state in [Q]. *)
Definition twp {A} (m : M Server A) (Q : A -> Server -> Prop) (s : Server) : Prop :=
  exists a s', m s = Done (a, s') /\ Q a s'.
Lemma twp_bind {A B} (m : M Server A) (k : A -> M Server B) Q s :
  twp m (fun a s' => twp (k a) Q s') s -> twp (bind m k) Q s.
Proof. intros (a & s1 & E & b & s2 & E2 & HQ). exists b, s2. unfold bind. rewrite E. simpl. by split. Qed.
Lemma twp_mono {A} (m : M Server A) (P Q : A -> Server -> Prop) s :
  twp m P s -> (forall a s', P a s' -> Q a s') -> twp m Q s.
Proof. intros (a & s' & E & HP) HPQ. exists a, s'. auto. Qed.
Lemma twp_Done {A} (m : M Server A) (Q : A -> Server -> Prop) s a s' : m s = Done (a, s') -> Q a s' -> twp m Q s.
Proof. intros. by exists a, s'. Qed.
Lemma twp_gets {A} (g : Server -> A) (Q : A -> Server -> Prop) s : Q (g s) s -> twp (gets g) Q s.
Proof. intros. by exists (g s), s. Qed.
Lemma twp_ret {A} (a : A) (Q : A -> Server -> Prop) s : Q a s -> twp (ret a) Q s.
Proof. intros. by exists a, s. Qed.
Lemma twp_modify (g : Server -> Server) (Q : unit -> Server -> Prop) s : Q tt (g s) -> twp (modify g) Q s.
Proof. intros. by exists tt, (g s). Qed.

(** The call ends one way or another, with an outcome in [Q]. *)
Definition gwp {A} (m : M Server A) (Q : outcome (A * Server) -> Prop) (s : Server) : Prop := Q (m s).
Lemma gwp_bind {A B} (m : M Server A) (k : A -> M Server B) Q s :
  twp m (fun a s' => gwp (k a) Q s') s -> gwp (bind m k) Q s.
Proof. intros (a & s1 & E & HQ). unfold gwp, bind. by rewrite E. Qed.
Lemma gwp_returns {A} (m : M Server A) (Q : A -> Server -> Prop) s :
  twp m Q s <-> gwp m (fun r => exists a s', r = Done (a, s') /\ Q a s') s.
Proof. done. Qed.
Lemma gwp_assoc {A B C} (m : M Server A) (k : A -> M Server B) (h : B -> M Server C) Q s :
  gwp (bind (bind m k) h) Q s -> gwp (bind m (fun a => bind (k a) h)) Q s.
Proof. unfold gwp, bind. by destruct (m s) as [[]| | | |]. Qed.

(** The thread [tid] has the file [id] of [path] open as [fd], at the offset [v]
    kept at [o]. *)
Record opened (s : Server) (tid fd : Z) (path : string) (id o v : Z) (f : CapioFile) : Prop := {
  op_descriptor : descriptor_at s tid fd = Some {| _pointer := Some id; _offset := Some o; _path := path |};
  op_storage : _storage s !! path = Some id;
  op_file : heap s !! id = Some f;
  op_offset : offsets s !! o = Some v
}.

Section Total.
Context `{Config}.
Hypothesis os_succeeds : forall n, fst (os n) = kernel_ok /\ 0 <= snd (os n).

Lemma twp_getPath tid fd path id o v f s (Q : string -> Server -> Prop) :
  opened s tid fd path id o v f -> Q path s -> twp (getPath tid fd) Q s.
Proof using. intros [Hd _ _ _] HQ. unfold getPath. apply twp_bind. eapply twp_Done; [by apply descriptor_known|]. by apply twp_ret. Qed.
Lemma twp_getFileOffset tid fd path id o v f s (Q : Z -> Server -> Prop) :
  opened s tid fd path id o v f -> Q v s -> twp (getFileOffset tid fd) Q s.
Proof using.
  intros [Hd _ _ Ho] HQ. unfold getFileOffset. apply twp_bind. eapply twp_Done; [by apply descriptor_known|].
  apply twp_bind, twp_ret, twp_bind, twp_gets. rewrite Ho. by apply twp_ret.
Qed.
Lemma twp_setFileOffset tid fd path id o v f s n (Q : unit -> Server -> Prop) :
  opened s tid fd path id o v f -> Q tt (set_offsets (<[o := n]> (offsets s)) s) -> twp (setFileOffset tid fd n) Q s.
Proof using.
  intros [Hd _ _ Ho] HQ. unfold setFileOffset. apply twp_bind. eapply twp_Done; [by apply descriptor_known|].
  apply twp_bind, twp_ret, twp_modify. done.
Qed.
Lemma twp_storage_get path id s (Q : Z -> Server -> Prop) :
  _storage s !! path = Some id -> Q id s -> twp (storage_get path) Q s.
Proof using. intros E HQ. unfold storage_get, tryGet. apply twp_bind, twp_gets. rewrite E. by apply twp_ret. Qed.
Lemma twp_file_get {A} id f (g : CapioFile -> A) s (Q : A -> Server -> Prop) :
  heap s !! id = Some f -> Q (g f) s -> twp (file_get id g) Q s.
Proof using. intros E HQ. eapply twp_Done; [|exact HQ]. unfold file_get. by rewrite E. Qed.
Lemma twp_on_file {A} id f (m : M CapioFile A) a f' s (Q : A -> Server -> Prop) :
  heap s !! id = Some f -> m f = Done (a, f') -> Q a (set_heap (<[id := f']> (heap s)) s) -> twp (on_file id m) Q s.
Proof using. intros E Em HQ. eapply twp_Done; [|exact HQ]. unfold on_file. by rewrite E, Em. Qed.
Lemma twp_file_do id f g s (Q : unit -> Server -> Prop) :
  heap s !! id = Some f -> Q tt (set_heap (<[id := g f]> (heap s)) s) -> twp (file_do id g) Q s.
Proof using. intros E HQ. by eapply twp_on_file. Qed.

Lemma twp_createBuffer id f home s (Q : unit -> Server -> Prop) :
  heap s !! id = Some f -> file_inv f ->
  (forall b h n, buffer_ok b (_sectors f) -> kept (_buffer f) b -> buffer_data b <> None ->
     (forall x, holds (_sectors f) x -> byte_at b x = byte_at (_buffer f) x) ->
     Q tt (set_heap (<[id := set_buffer b (set_home_node h f)]> (heap s)) (set_os_calls n s))) ->
  twp (file_createBuffer id home) Q s.
Proof using os_succeeds.
  intros Hf Hinv HQ. destruct (os_succeeds (os_calls s)) as [Hk Hfd].
  unfold file_createBuffer. apply twp_bind. eapply twp_Done; [done|].
  destruct (os (os_calls s)) as [k fd]. simpl in Hk, Hfd.
  destruct (createBuffer_spec k fd home f Hinv Hk Hfd) as (b & h & E & Hok & Hl' & Hs & Hx).
  eapply twp_on_file; [done|exact E|]. by apply HQ.
Qed.

(** Making room for data: [createBuffer] and [expandBuffer] as needed. *)
Lemma twp_room id f home e s (Q : unit -> Server -> Prop) :
  heap s !! id = Some f -> file_inv f -> fits (_buffer f) e ->
  (forall b h n, buffer_ok b (_sectors f) -> (live (_buffer f) -> live b) -> buffer_data b <> None -> e <= buffer_size b ->
     (forall x, holds (_sectors f) x -> byte_at b x = byte_at (_buffer f) x) ->
     Q tt (set_heap (<[id := set_buffer b (set_home_node h f)]> (heap s)) (set_os_calls n s))) ->
  twp (file_createBuffer id home ;; file_reserve id e) Q s.
Proof using os_succeeds.
  intros Hf Hinv Hl HQ. apply twp_bind. eapply twp_createBuffer; [done..|].
  intros b h n Hok Hkb Hsb Hx. unfold file_reserve. apply twp_bind. eapply twp_file_get; [simpl; by rewrite lookup_insert_eq|].
  change (getBufSize (set_buffer b (set_home_node h f))) with (buffer_size b).
  unfold when. destruct (Z.ltb_spec (buffer_size b) e) as [Hlt|Hge].
  - destruct (os_succeeds n) as [Hk _]. destruct (kept_fits _ _ _ Hkb Hsb Hl) as [Hlb|?]; [|lia].
    unfold file_expandBuffer. apply twp_bind. eapply twp_Done; [done|]. simpl.
    destruct (os n) as [k fd]. simpl in Hk.
    destruct (buffer_grow_spec k b e (_sectors f) Hok ltac:(lia) Hlb Hk Hsb) as (b' & Hg & Hok' & Hl' & Hsz & Hs' & Hx').
    eapply twp_on_file; [simpl; by rewrite lookup_insert_eq| |].
    + unfold expandBuffer. simpl. rewrite Hg. simpl. done.
    + simpl. rewrite insert_insert_eq.
      apply (HQ b' h (S n)); try done. intros x Hh. rewrite Hx' by done. by apply Hx.
  - apply twp_ret. apply (HQ b h n); try done. by apply kept_live.
Qed.
End Total.

(** A call on a file that an earlier call has just put in the heap. *)
Ltac file_do_step :=
  apply twp_bind; eapply twp_file_do; [simpl; by rewrite lookup_insert_eq|]; simpl; rewrite insert_insert_eq.
Ltac file_get_step := apply twp_bind; eapply twp_file_get; [simpl; by rewrite lookup_insert_eq|].

Lemma bind_assoc {S A B C} (m : M S A) (k : A -> M S B) (h : B -> M S C) s :
  bind (bind m k) h s = bind m (fun a => bind (k a) h) s.
Proof. unfold bind. destruct (m s) as [[a s']| | | |]; done. Qed.
Lemma twp_assoc {A B C} (m : M Server A) (k : A -> M Server B) (h : B -> M Server C) Q s :
  twp (bind (bind m k) h) Q s -> twp (bind m (fun a => bind (k a) h)) Q s.
Proof. intros (c & s' & E & HQ). exists c, s'. by rewrite <- bind_assoc. Qed.

(** The replies sent to a client and the data sent to it. *)
Definition replies (s : Server) (tid : Z) : option (list Z) := responses (client_manager s) !! tid.
Definition sent_data (s : Server) (tid : Z) : option Fifo :=
  ServerToClient <$> data_buffers (client_manager s) !! tid.

(** What a write of [data] at [v] through [(tid, fd)] leaves: the file [f'],
    the offset, the queue without the data, and the rest as it was. *)
Record written `{Config} (s s' : Server) (tid fd : Z) (path : string) (id o v : Z) (f f' : CapioFile)
    (data : list cell) (b : ClientDataBuffers) : Prop := {
  wr_opened : opened s' tid fd path id o (v + Z.of_nat (length data)) f';
  wr_inv : file_inv f';
  wr_sectors : _sectors f' = insertSector (_sectors f) v (v + Z.of_nat (length data));
  wr_new x : v <= x < v + Z.of_nat (length data) -> file_data f' x = default None (data !! Z.to_nat (x - v));
  wr_old x : holds (_sectors f) x -> ~ v <= x < v + Z.of_nat (length data) -> file_data f' x = file_data f x;
  wr_live : live (_buffer f) -> live (_buffer f');
  wr_others id' : id' <> id -> heap s' !! id' = heap s !! id';
  wr_storage : _storage s' = _storage s;
  wr_responses : responses (client_manager s') = responses (client_manager s);
  wr_queue : data_buffers (client_manager s') !! tid =
    Some {| ClientToServer := fifo_skip (length (write_chunks getCacheLineSize data)) (ClientToServer b);
            ServerToClient := ServerToClient b |};
  wr_producer : isProducer (client_manager s') tid path = true;
  wr_first : _first_write f' = _first_write f;
  wr_registered : is_Some (files_created_by_producer (client_manager s') !! tid)
}.

(** [f'] is [f] with [data] stored at [v]. *)
Record stored_in (f f' : CapioFile) (v : Z) (data : list cell) : Prop := {
  sd_inv : file_inv f';
  sd_sectors : _sectors f' = insertSector (_sectors f) v (v + Z.of_nat (length data));
  sd_new x : v <= x < v + Z.of_nat (length data) -> file_data f' x = default None (data !! Z.to_nat (x - v));
  sd_old x : holds (_sectors f) x -> ~ v <= x < v + Z.of_nat (length data) -> file_data f' x = file_data f x
}.
(** A buffer with room gets the data and the sector is recorded. *)
Lemma store_registers f h b1 v data :
  file_inv f -> 0 <= v -> buffer_ok b1 (_sectors f) -> (live (_buffer f) -> live b1) -> buffer_data b1 <> None ->
  v + Z.of_nat (length data) <= buffer_size b1 ->
  (forall x, holds (_sectors f) x -> byte_at b1 x = byte_at (_buffer f) x) ->
  let f1 := set_buffer b1 (set_home_node h f) in
  exists b2, store v data f1 = Done (tt, set_buffer b2 f1) /\ (live (_buffer f) -> live b2) /\
    stored_in f (file_insertSector v (v + Z.of_nat (length data)) (set_buffer b2 f1)) v data.
Proof.
  intros Hinv Hv Hok1 Hl1 Hs1 Hsz1 Hx1 f1. set (e := v + Z.of_nat (length data)).
  destruct (store_spec v data f1 Hs1 Hv Hsz1) as (b2 & Est & Hsz2 & Hl2 & Hs2 & Hb2).
  change (_buffer f1) with b1 in Hsz2, Hl2, Hb2. exists b2. split; [done|]. split; [by rewrite Hl2|].
  assert (Hhold : forall x, holds (_sectors f) x \/ v <= x < e -> holds (insertSector (_sectors f) v e) x).
  { intros x Hx. apply insertSector_holds_sub; [apply Hinv|unfold e; lia|done]. }
  split.
  - apply (file_inv_insert b2 (set_home_node h f)); [apply Hinv| |apply Hinv|unfold e; lia| |done].
    + destruct Hok1 as (Hp & Hin & _). rewrite <- Hsz2 in Hp. split; [exact Hp|]. split; [|done].
      rewrite Hsz2. exact Hin.
    + rewrite Hsz2. exact Hsz1.
  - done.
  - intros x Hx. unfold file_data. simpl. rewrite decide_True by (apply Hhold; by right).
    by rewrite Hb2, decide_True.
  - intros x Hh Hx. unfold file_data. simpl. rewrite decide_True by (apply Hhold; by left).
    rewrite Hb2, decide_False by done. simpl. rewrite Hx1 by done. by rewrite decide_True.
Qed.

(** Written data of a file whose location is published. *)
Lemma twp_register `{Config} tid path id f v e s (Q : unit -> Server -> Prop) :
  heap s !! id = Some f -> _first_write f = false ->
  Q tt (set_heap (<[id := file_insertSector v e f]> (heap s))
          (set_client_manager (registerProducedFile tid path (client_manager s)) s)) ->
  twp (register_written_data tid path id v e) Q s.
Proof.
  intros Hf Hfirst HQ. unfold register_written_data. apply twp_bind. eapply twp_Done; [done|]. simpl.
  apply twp_bind. eapply twp_file_do; [done|]. simpl. file_get_step.
  change (isFirstWrite (file_insertSector v e f)) with (_first_write f). rewrite Hfirst. by apply twp_ret.
Qed.
Lemma registered_producer tid path c :
  is_Some (files_created_by_producer c !! tid) ->
  isProducer (registerProducedFile tid path c) tid path = true /\
  is_Some (files_created_by_producer (registerProducedFile tid path c) !! tid).
Proof.
  intros [pr Hpr]. unfold isProducer, registerProducedFile. rewrite Hpr. simpl. split.
  - apply orb_true_iff. left. rewrite produced_by_insert. rewrite bool_decide_eq_true_2 by eauto. by rewrite bool_decide_eq_true_2.
  - unfold insert_produced. rewrite lookup_alter_eq, Hpr. by eexists.
Qed.

Section Writes.
Context `{Config}.
Hypothesis os_succeeds : forall n, fst (os n) = kernel_ok /\ 0 <= snd (os n).
Hypothesis cache_line_pos : 0 < getCacheLineSize.

(** A write up to its registration: [f2] is the file with the data in its buffer. *)
Lemma gwp_stored s tid fd path id o v f b data rest (Q : outcome (unit * Server) -> Prop) :
  opened s tid fd path id o v f -> file_inv f -> fits (_buffer f) (v + Z.of_nat (length data)) -> 0 <= v ->
  data_buffers (client_manager s) !! tid = Some b ->
  fifo_pending (ClientToServer b) = write_chunks getCacheLineSize data ++ rest ->
  let e := v + Z.of_nat (length data) in
  (forall f2 n, stored_in f (file_insertSector v e f2) v data -> (live (_buffer f) -> live (_buffer f2)) -> _first_write f2 = _first_write f ->
     gwp (register_written_data tid path id v e ;; setFileOffset tid fd e) Q
       (set_heap (<[id := f2]> (heap s))
         (set_client_manager (set_data_buffers
            (<[tid := {| ClientToServer := fifo_skip (length (write_chunks getCacheLineSize data)) (ClientToServer b);
                         ServerToClient := ServerToClient b |}]> (data_buffers (client_manager s))) (client_manager s))
            (set_os_calls n s)))) ->
  gwp (write_handler tid fd (Z.of_nat (length data))) Q s.
Proof using os_succeeds cache_line_pos.
  intros Hop Hinv Hl Hv Hb Hq e HQ. unfold write_handler. apply gwp_bind. eapply twp_getFileOffset; [done|].
  apply gwp_bind. eapply twp_getPath; [done|].
  apply gwp_bind. eapply twp_storage_get; [apply Hop|]. fold e.
  apply gwp_assoc, gwp_bind. eapply twp_room; [done|apply Hop|done|done|].
  intros b1 h n Hok1 Hl1 Hs1 Hsz1 Hx1.
  destruct (store_registers f h b1 v data Hinv Hv Hok1 Hl1 Hs1 Hsz1 Hx1) as (b2 & Est & Hl2 & Hsd).
  apply gwp_bind. eapply twp_Done.
  { unfold file_readFromQueue. simpl. rewrite Hb, lookup_insert_eq. unfold readFromQueue.
    rewrite (fifo_read_spec _ _ _ _ cache_line_pos Hq). simpl. rewrite Est. simpl. done. }
  simpl. rewrite insert_insert_eq. by apply (HQ _ n Hsd).
Qed.

Lemma write_handler_spec s tid fd path id o v f b data rest :
  opened s tid fd path id o v f -> file_inv f -> fits (_buffer f) (v + Z.of_nat (length data)) -> 0 <= v ->
  _first_write f = false ->
  data_buffers (client_manager s) !! tid = Some b ->
  is_Some (files_created_by_producer (client_manager s) !! tid) ->
  fifo_pending (ClientToServer b) = write_chunks getCacheLineSize data ++ rest ->
  exists s' f', write_handler tid fd (Z.of_nat (length data)) s = Done (tt, s') /\
    written s s' tid fd path id o v f f' data b.
Proof using os_succeeds cache_line_pos.
  intros Hop Hinv Hl Hv Hfirst Hb Hpr Hq.
  cut (twp (write_handler tid fd (Z.of_nat (length data)))
        (fun _ s' => exists f', written s s' tid fd path id o v f f' data b) s).
  { intros ([] & s' & E & f' & Hw). by exists s', f'. }
  apply gwp_returns. eapply gwp_stored; [done..|].
  intros f2 n Hsd Hl2 Hf2. set (e := v + _) in *. apply (gwp_returns _ (fun _ s' => exists f', written s s' tid fd path id o v f f' data b)).
  apply twp_bind. eapply twp_register; [simpl; by rewrite lookup_insert_eq|by rewrite Hf2|]. simpl. rewrite insert_insert_eq.
  eapply twp_setFileOffset.
  { destruct Hop as [Hd Hst Hf Ho]. split; [exact Hd|exact Hst|simpl; by rewrite lookup_insert_eq|exact Ho]. }
  eexists. destruct Hop as [Hd Hst Hf Ho], Hsd. split; try done; simpl.
  - split; [exact Hd|exact Hst|simpl; by rewrite lookup_insert_eq|simpl; by rewrite lookup_insert_eq].
  - intros id' Hne. by rewrite lookup_insert_ne.
  - by rewrite responses_registerProducedFile.
  - rewrite data_buffers_registerProducedFile. simpl. by rewrite lookup_insert_eq.
  - by apply registered_producer.
  - by apply registered_producer.
Qed.
End Writes.

(** ** Reads *)

(** The client [tid] is told the new offset [v + n], sent the [n] bytes at [v],
    and its offset moves by [n]. *)
Record served `{Config} (s s' : Server) (tid o id v n : Z) (f : CapioFile) (r : list Z) (q : Fifo) : Prop := {
  sv_reply : replies s' tid = Some (r ++ [v + n]);
  sv_data : sent_data s' tid = Some (fifo_write getCacheLineSize (file_data f <$> seqZ v n) q);
  sv_offset : offsets s' !! o = Some (v + n);
  sv_threads : threads s' = threads s;
  sv_file : exists f', heap s' !! id = Some f' /\ _sectors f' = _sectors f /\
              (forall x, file_data f' x = file_data f x) /\
              file_inv f' /\ (live (_buffer f) -> live (_buffer f')) /\ _committed f' = _committed f;
  sv_storage : _storage s' = _storage s /\ _opened_fd_map s' = _opened_fd_map s;
  sv_locations : locations s' = locations s;
  sv_clients : app_names (client_manager s') = app_names (client_manager s) /\
    files_created_by_producer (client_manager s') = files_created_by_producer (client_manager s) /\
    files_created_by_app_name (client_manager s') = files_created_by_app_name (client_manager s);
  sv_others : (forall id', id' <> id -> heap s' !! id' = heap s !! id') /\
    (forall o', o' <> o -> offsets s' !! o' = offsets s !! o') /\
    (forall tid', tid' <> tid -> replies s' tid' = replies s tid' /\
       data_buffers (client_manager s') !! tid' = data_buffers (client_manager s) !! tid')
}.

Section Reads.
Context `{Config}.
Hypothesis os_succeeds : forall n, fst (os n) = kernel_ok /\ 0 <= snd (os n).

(** Serving [n] bytes from [v] on that are all data, whatever the offset [w] of the
    descriptor is by now. *)
Lemma serve_bytes s tid fd path id o w v f n r b :
  opened s tid fd path id o w f -> file_inv f -> 0 <= n ->
  (forall y, v <= y < v + n -> holds (_sectors f) y) ->
  replies s tid = Some r -> data_buffers (client_manager s) !! tid = Some b ->
  twp (file_createBuffer id false ;; reply_file tid v id n ;; setFileOffset tid fd (v + n))
    (fun _ s' => served s s' tid o id v n f r (ServerToClient b)) s.
Proof using os_succeeds.
  intros Hop Hinv Hn Hall Hr Hb. apply twp_bind. eapply twp_createBuffer; [done|apply Hop|done|].
  intros b1 h k Hok1 Hl1 Hs1 Hx1. set (f1 := set_buffer b1 (set_home_node h f)).
  assert (Hinv1 : file_inv f1) by (split; [apply Hinv|done|apply Hinv]).
  assert (Hsame : forall x, file_data f1 x = file_data f x).
  { intros x. unfold file_data. simpl. case_decide; [by apply Hx1|done]. }
  apply twp_bind. unfold reply_file. file_get_step.
  apply twp_bind. eapply twp_Done; [unfold lift; by rewrite load_spec by done|].
  set (data := file_data f1 <$> seqZ v n).
  assert (HL : Z.of_nat (length data) = n) by (unfold data; rewrite length_fmap, length_seqZ; lia).
  eapply twp_Done.
  { unfold on_clients, zoom, replyToClient_data. simpl. rewrite Hb. unfold bind, replyToClient.
    unfold replies in Hr. rewrite Hr. simpl. done. }
  rewrite HL. eapply twp_setFileOffset.
  { destruct Hop as [Hd Hst Hf Ho]. split; [exact Hd|exact Hst|simpl; by rewrite lookup_insert_eq|exact Ho]. }
  split; simpl.
  - unfold replies. simpl. by rewrite lookup_insert_eq.
  - unfold sent_data. simpl. rewrite lookup_insert_eq. simpl. do 2 f_equal.
    apply list_fmap_ext. intros i x _. apply Hsame.
  - by rewrite lookup_insert_eq.
  - done.
  - exists f1. rewrite lookup_insert_eq. split_and!; try done. by apply kept_live.
  - done.
  - done.
  - done.
  - split_and!; intros; unfold replies; simpl; rewrite ?lookup_insert_ne by done; done.
Qed.

(** How much [handle_local_read] serves: all data, and short only at its end. *)
Lemma read_size_spec ss v count :
  sectors_wf ss -> 0 <= v -> 0 <= count -> covers ss v ->
  let n := Z.min count (getSectorEnd ss v - v) in
  0 <= n /\ (forall y, v <= y < v + n -> holds ss y) /\ (n = count \/ ~ holds ss (v + n)).
Proof using.
  intros Hwf Hv Hc Hcov. pose proof (getSectorEnd_maximal ss v Hwf Hcov) as Hmax.
  assert (v <= getSectorEnd ss v) as Hle.
  { destruct (getSectorEnd_spec ss v Hwf) as [(s & _ & ? & ->)|[? _]]; [lia|done]. }
  split; [lia|]. split.
  - intros y Hy. apply (getSectorEnd_holds ss v y); [done|lia|done].
  - destruct (decide (count <= getSectorEnd ss v - v)); [left; lia|right].
    replace (v + Z.min count (getSectorEnd ss v - v)) with (getSectorEnd ss v) by lia. done.
Qed.

Lemma fifo_write_nil es q : fifo_write es [] q = q.
Proof using.
  unfold fifo_write, write_chunks, fifo_pushes. change (Z.of_nat (length [])) with 0.
  rewrite Zdiv_0_l, Zmod_0_l. simpl. rewrite app_nil_r. by destruct q.
Qed.

(** The three things [handle_local_read] can do. *)
(** A reply with no data. *)
Lemma serve_nothing s tid fd path id o v f r b :
  opened s tid fd path id o v f -> file_inv f ->
  replies s tid = Some r -> data_buffers (client_manager s) !! tid = Some b ->
  twp (reply tid v) (fun _ s' => served s s' tid o id v 0 f r (ServerToClient b)) s.
Proof using.
  intros Hop Hinv Hr Hb.
  eapply twp_Done; [unfold reply, on_clients, zoom, replyToClient; unfold replies in Hr; rewrite Hr; done|].
  rewrite <- (fifo_write_nil getCacheLineSize (ServerToClient b)) at 1. split; simpl.
  - unfold replies. simpl. by rewrite lookup_insert_eq, Z.add_0_r.
  - unfold sent_data. simpl. rewrite Hb. simpl. by rewrite !fifo_write_nil.
  - rewrite Z.add_0_r. apply Hop.
  - done.
  - exists f. split_and!; [apply Hop|done..].
  - done.
  - done.
  - done.
  - split_and!; intros; unfold replies; simpl; rewrite ?lookup_insert_ne by done; done.
Qed.

Lemma handle_local_read_spec s tid fd path id o v f count is_prod r b :
  opened s tid fd path id o v f -> file_inv f -> 0 <= v -> 0 < count ->
  replies s tid = Some r -> data_buffers (client_manager s) !! tid = Some b ->
  let complete := _committed f || is_prod in
  exists s', handle_local_read tid fd count is_prod s = Done (tt, s') /\
  if complete || isFirable path && bool_decide (v + count <= getSectorEnd (_sectors f) v) then
    exists n, served s s' tid o id v n f r (ServerToClient b) /\ 0 <= n <= count /\
      (forall y, v <= y < v + n -> holds (_sectors f) y) /\ (n = count \/ ~ holds (_sectors f) (v + n)) /\
      (complete = false -> n = count)
  else s' = set_threads (threads s ++ [if isFirable path then PendingReadData id tid fd count v
                                       else PendingReadCommit id tid fd count v]) s.
Proof using os_succeeds.
  intros Hop Hinv Hv Hc Hr Hb complete.
  set (Q := fun (_ : unit) s' => if complete || isFirable path && bool_decide (v + count <= getSectorEnd (_sectors f) v) then
    exists n, served s s' tid o id v n f r (ServerToClient b) /\ 0 <= n <= count /\
      (forall y, v <= y < v + n -> holds (_sectors f) y) /\ (n = count \/ ~ holds (_sectors f) (v + n)) /\
      (complete = false -> n = count)
  else s' = set_threads (threads s ++ [if isFirable path then PendingReadData id tid fd count v
                                       else PendingReadCommit id tid fd count v]) s).
  cut (twp (handle_local_read tid fd count is_prod) Q s).
  { intros ([] & s' & E & HQ). by exists s'. }
  pose proof (fi_wf f Hinv) as Hwf. pose proof (fi_nonneg f Hinv) as Hnn.
  pose proof (getSectorEnd_found (_sectors f) v Hwf Hnn) as Hfound.
  unfold handle_local_read. apply twp_bind. eapply twp_getPath; [done|].
  apply twp_bind. eapply twp_storage_get; [apply Hop|].
  apply twp_bind. eapply twp_getFileOffset; [done|].
  apply twp_bind. eapply twp_file_get; [apply Hop|]. change (isCommitted f || is_prod) with complete. clearbody complete.
  destruct (complete || isFirable path) eqn:E1; simpl.
  2: { apply orb_false_iff in E1 as [E1 E2]. eapply twp_Done; [done|].
       unfold Q. by rewrite E1, E2. }
  apply twp_bind. eapply twp_file_get; [apply Hop|]. set (e := getSectorEnd (_sectors f) v) in *.
  destruct (Z.eqb_spec e CAPIO_SECTOR_NOT_FOUND) as [Ee|Ee]; simpl.
  - assert (Hnc : ~ covers (_sectors f) v) by tauto.
    destruct complete eqn:Ec; simpl.
    + eapply twp_mono; [by eapply serve_nothing|]. intros [] s' Hsv.
      exists 0. split_and!; [done|lia|lia|intros; lia| |done].
      right. rewrite Z.add_0_r. intros Hh. by apply Hnc, holds_covers.
    + eapply twp_Done; [done|]. unfold Q. simpl in E1 |- *. rewrite E1. simpl.
      rewrite bool_decide_eq_false_2; [done|]. unfold CAPIO_SECTOR_NOT_FOUND in Ee. lia.
  - destruct ((e <? v + count) && negb complete) eqn:E2; simpl.
    + apply andb_prop in E2 as [E2 E3%negb_true_iff]. eapply twp_Done; [done|].
      unfold Q. rewrite E3 in E1 |- *. simpl in E1. rewrite E1. simpl.
      rewrite bool_decide_eq_false_2; [done|]. fold e. lia.
    + assert (Hcov : covers (_sectors f) v) by tauto.
      destruct (read_size_spec (_sectors f) v count Hwf Hv ltac:(lia) Hcov) as (Hn & Hall & Hmax).
      fold e in Hn, Hall, Hmax.
      assert (Hcount : complete = false -> Z.min count (e - v) = count).
      { intros Hcf. rewrite Hcf in E2. rewrite andb_true_r in E2. lia. }
      eapply twp_mono; [by eapply serve_bytes|]. intros [] s' Hsv.
      assert (Hcond : complete || isFirable path && bool_decide (v + count <= e) = true).
      { destruct complete; [done|]. simpl in E1 |- *. rewrite E1. simpl. apply bool_decide_eq_true_2.
        specialize (Hcount eq_refl). lia. }
      unfold Q. fold e. rewrite Hcond. exists (Z.min count (e - v)). split_and!; try done. lia.
Qed.
End Reads.

(** A mapped file that has been committed does not grow: the server ends. *)
Lemma twp_run {A} (m : M Server A) s a s' : twp m (fun x y => x = a /\ y = s') s -> m s = Done (a, s').
Proof. by intros (x & y & E & -> & ->). Qed.
Lemma write_handler_full `{Config} s tid fd path id o v f count :
  opened s tid fd path id o v f -> ~ fits (_buffer f) (v + count) ->
  exists w, write_handler tid fd count s = Exit w.
Proof.
  intros Hop Hn. destruct Hop as [Hd Hst Hf Ho] eqn:Eop. clear Eop.
  destruct (_buffer f) as [h|m] eqn:Eb; [destruct Hn; by left|].
  assert (_fd (storage_ m) < 0 /\ (exists d, _data m = Some d) /\ _size m < v + count) as (Hfd & [d Ed] & Hsz).
  { unfold fits in Hn. simpl in Hn. destruct (_data m); [|tauto]. split; [lia|]. split; [by eexists|lia]. }
  eexists. unfold write_handler.
  eapply bind_done; [apply twp_run; eapply twp_getFileOffset; done|].
  eapply bind_done; [apply twp_run; eapply twp_getPath; done|].
  eapply bind_done; [apply twp_run; eapply twp_storage_get; done|].
  eapply bind_done.
  { unfold file_createBuffer, bind, next_os. destruct (os (os_calls s)) as [k z]. unfold on_file. simpl. rewrite Hf.
    unfold createBuffer. rewrite Eb. unfold buffer_empty. simpl. rewrite Ed. simpl. done. }
  unfold file_reserve. unfold bind at 1 2. unfold file_get. simpl. rewrite insert_id by done. rewrite Hf.
  unfold getBufSize. rewrite Eb. simpl. rewrite (proj2 (Z.ltb_lt _ _) Hsz). simpl.
  unfold file_expandBuffer, bind, next_os. simpl. destruct (os (S (os_calls s))) as [k z].
  unfold on_file. simpl. rewrite Hf. unfold expandBuffer. rewrite Eb. unfold buffer_grow, mapped_grow. simpl.
  rewrite (proj2 (Z.ltb_lt _ _) Hfd). done.
Qed.

(** C31. Writes put the client's data in the file. For a descriptor open at [v] on a
    file whose location is published, of a registered thread that has queued the
    data, where the calls of the operating system succeed: when the buffer of
    the file is not made yet, can grow, or has room for the write,
    [write_handler] takes exactly the bytes the client queued, whatever the
    number of cache lines they took, stores them at the descriptor's offset,
    keeps the other bytes of the file and every other file, moves the offset to
    the end of the write and makes the thread a producer of the file. Otherwise
    (a permanent file that has been committed, and a write past the end of its
    mapping) the server ends. *)
Theorem write_request_correct `{Config} s tid fd path id o v f b data rest :
  (forall n, fst (os n) = kernel_ok /\ 0 <= snd (os n)) -> 0 < getCacheLineSize ->
  opened s tid fd path id o v f -> file_inv f -> 0 <= v -> _first_write f = false ->
  data_buffers (client_manager s) !! tid = Some b ->
  is_Some (files_created_by_producer (client_manager s) !! tid) ->
  fifo_pending (ClientToServer b) = write_chunks getCacheLineSize data ++ rest ->
  let e := v + Z.of_nat (length data) in
  (fits (_buffer f) e ->
   exists s' f', write_handler tid fd (Z.of_nat (length data)) s = Done (tt, s') /\
     written s s' tid fd path id o v f f' data b) /\
  (~ fits (_buffer f) e -> exists w, write_handler tid fd (Z.of_nat (length data)) s = Exit w).
Proof.
  intros Hos Hcl Hop Hinv Hv Hfirst Hb Hpr Hq e. split.
  - intros Hfit. by eapply write_handler_spec.
  - by apply (write_handler_full s tid fd path id o v f).
Qed.

(** Local reads, on every branch: the file is complete for the reader when it is
    committed or the reader produced it.  Then, or when the file can be read
    while it is written and the whole range is there, the reader gets, with
    its new offset, exactly the bytes of the file from its offset, all of them
    data, fewer than asked only up to the end of the data; otherwise nothing
    is sent and a thread waits, for the data or for the commit as the firing
    rule of the file says. *)
Theorem local_read_correct `{Config} s tid fd path id o v f count is_prod r b :
  (forall n, fst (os n) = kernel_ok /\ 0 <= snd (os n)) ->
  opened s tid fd path id o v f -> file_inv f -> 0 <= v -> 0 < count ->
  replies s tid = Some r -> data_buffers (client_manager s) !! tid = Some b ->
  let complete := _committed f || is_prod in
  exists s', handle_local_read tid fd count is_prod s = Done (tt, s') /\
  if complete || isFirable path && bool_decide (v + count <= getSectorEnd (_sectors f) v) then
    exists n, served s s' tid o id v n f r (ServerToClient b) /\ 0 <= n <= count /\
      (forall y, v <= y < v + n -> holds (_sectors f) y) /\ (n = count \/ ~ holds (_sectors f) (v + n)) /\
      (complete = false -> n = count)
  else s' = set_threads (threads s ++ [if isFirable path then PendingReadData id tid fd count v
                                       else PendingReadCommit id tid fd count v]) s.
Proof. intros Hos. by apply handle_local_read_spec. Qed.

(** A producer always reads locally. *)
Lemma handle_read_producer `{Config} s tid fd path id o v f count :
  opened s tid fd path id o v f -> isProducer (client_manager s) tid path = true ->
  handle_read tid fd count s = handle_local_read tid fd count true s.
Proof.
  intros Hop Hp. unfold handle_read, bind at 1, getPath, bind at 1.
  rewrite (descriptor_known _ _ _ _ (op_descriptor _ _ _ _ _ _ _ _ Hop)). simpl.
  unfold bind, gets, location_opt. simpl. rewrite Hp, orb_true_r.
  by destruct (get_file_location_opt (locations s) path) as [[p z]|].
Qed.

(** Read your writes, end to end: a thread that writes data, seeks back and reads
    as many bytes receives exactly the data it wrote, and the three replies
    carry the offsets it expects. *)
Theorem read_your_writes `{Config} s tid fd path id o v f b data rest r :
  (forall n, fst (os n) = kernel_ok /\ 0 <= snd (os n)) -> 0 < getCacheLineSize ->
  opened s tid fd path id o v f -> file_inv f -> live (_buffer f) -> 0 <= v -> _first_write f = false ->
  data_buffers (client_manager s) !! tid = Some b ->
  is_Some (files_created_by_producer (client_manager s) !! tid) ->
  fifo_pending (ClientToServer b) = write_chunks getCacheLineSize data ++ rest ->
  data <> [] -> replies s tid = Some r ->
  let len := Z.of_nat (length data) in
  exists s1 s2 s3,
    write_handler tid fd len s = Done (tt, s1) /\
    handle_lseek tid fd v s1 = Done (tt, s2) /\
    handle_read tid fd len s2 = Done (tt, s3) /\
    replies s3 tid = Some (r ++ [v; v + len]) /\
    sent_data s3 tid = Some (fifo_write getCacheLineSize data (ServerToClient b)).
Proof.
  intros Hos Hcl Hop Hinv Hl Hv Hfirst Hb Hpr Hq Hne Hr len.
  destruct (write_handler_spec Hos Hcl s tid fd path id o v f b data rest) as (s1 & f' & E1 & W); [try done..|]; [by left|].
  destruct W as [[Hd Hst Hf Ho] Hi Hsec Hnew Hold Hl' Hoth Hsto Hres Hdb Hprod _ _].
  assert (Hlen : 0 < len) by (unfold len; destruct data; [done|simpl; lia]).
  assert (Hr1 : replies s1 tid = Some r) by (unfold replies in *; by rewrite Hres).
  destruct (twp_setFileOffset tid fd path id o (v + len) f' s1 v (fun _ s' => s' = set_offsets (<[o := v]> (offsets s1)) s1))
    as ([] & s1' & E1' & ->); [by split|done|].
  set (s2 := set_client_manager (set_responses (<[tid := r ++ [v]]> (responses (client_manager s1))) (client_manager s1))
               (set_offsets (<[o := v]> (offsets s1)) s1)).
  assert (E2 : handle_lseek tid fd v s1 = Done (tt, s2)).
  { unfold handle_lseek, bind. rewrite E1'. simpl. unfold reply, on_clients, zoom, replyToClient.
    change (responses (client_manager (set_offsets (<[o := v]> (offsets s1)) s1)) !! tid) with (replies s1 tid).
    by rewrite Hr1. }
  assert (Hop2 : opened s2 tid fd path id o v f').
  { split; [exact Hd|exact Hst|exact Hf|]. simpl. by rewrite lookup_insert_eq. }
  assert (Hr2 : replies s2 tid = Some (r ++ [v])) by (unfold replies; simpl; by rewrite lookup_insert_eq).
  destruct (handle_local_read_spec Hos s2 tid fd path id o v f' len true (r ++ [v]) _ Hop2 Hi Hv Hlen Hr2 Hdb)
    as (s3 & E3 & Hcase).
  rewrite orb_true_r in Hcase. simpl in Hcase. destruct Hcase as (n & Hsv & Hn & _ & Hmax & _).
  assert (n = len) as ->.
  { destruct Hmax as [?|Hnot]; [done|]. destruct (decide (n = len)) as [|Hlt]; [done|]. exfalso. apply Hnot.
    rewrite Hsec. apply insertSector_holds_sub; [apply Hinv|lia|right; lia]. }
  exists s1, s2, s3. split; [done|]. split; [done|]. split.
  { rewrite (handle_read_producer s2 tid fd path id o v f' len Hop2); [done|].
    unfold isProducer, getAppName in *. exact Hprod. }
  destruct Hsv as [Hrep Hsent _ _ _ _ _ _ _]. split.
  - rewrite Hrep. by rewrite <- app_assoc.
  - rewrite Hsent. simpl. do 2 f_equal. apply list_eq. intros i. rewrite list_lookup_fmap.
    destruct (decide (i < length data)%nat) as [Hlt|Hge].
    + rewrite lookup_seqZ_lt by (unfold len; lia). simpl. rewrite Hnew by lia.
      replace (Z.to_nat (v + Z.of_nat i - v)) with i by lia.
      destruct (lookup_lt_is_Some_2 data i Hlt) as [c Hc]. by rewrite Hc.
    + rewrite lookup_seqZ_ge by (unfold len; lia). simpl. symmetry. apply lookup_ge_None. lia.
Qed.

(** A server with one client that has one file open, for the examples. *)
Definition demo_open (firable : bool) : M Server unit :=
  let H := demo_config firable in
  run [start_server 1; handle_request (HandshakeNamed 7 7 "app" false);
       handle_request (Create 7 3 "/c/f"); client_data 7 [Some x61; Some x62; Some x63]].
Definition demo_state (firable : bool) : Server := state_of (demo_open firable).
Definition demo_file : CapioFile := default CapioFile_default (heap (demo_state true) !! 1).
Definition demo_buffers : ClientDataBuffers :=
  default {| ClientToServer := fifo_new; ServerToClient := fifo_new |}
    (data_buffers (client_manager (demo_state true)) !! 7).

Lemma demo_opened : opened (demo_state true) 7 3 "/c/f" 1 0 0 demo_file.
Proof. split; vm_compute; reflexivity. Qed.
Lemma demo_file_inv : file_inv demo_file.
Proof.
  apply (same_data_inv (CapioFile_directory false 0 false 64 0)); [|apply file_inv_directory; lia].
  vm_compute. auto.
Qed.

Lemma write_request_correct_witness :
  let H := demo_config true in
  exists s' f', write_handler 7 3 3 (demo_state true) = Done (tt, s') /\
    heap s' !! 1 = Some f' /\ file_data f' 1 = Some x62 /\ offsets s' !! 0 = Some 3.
Proof.
  intros H.
  destruct (@write_request_correct H (demo_state true) 7 3 "/c/f" 1 0 0 demo_file demo_buffers
    [Some x61; Some x62; Some x63] []) as [Hw _].
  - intros n. split; [reflexivity|vm_compute; discriminate].
  - reflexivity.
  - exact demo_opened.
  - exact demo_file_inv.
  - lia.
  - vm_compute. reflexivity.
  - vm_compute. reflexivity.
  - vm_compute. eexists. reflexivity.
  - vm_compute. reflexivity.
  - destruct Hw as (s' & f' & E & W); [left; exact I|].
    exists s', f'. split; [exact E|]. destruct W as [[_ _ Hf Ho] _ _ Hnew _ _ _ _ _ _ _ _ _].
    split; [exact Hf|]. split; [|exact Ho]. rewrite Hnew by (simpl; lia). reflexivity.
Defined.

Lemma local_read_correct_witness :
  let H := demo_config true in
  exists s', handle_local_read 7 3 5 false (demo_state true) = Done (tt, s') /\
    s' = set_threads (threads (demo_state true) ++ [PendingReadData 1 7 3 5 0]) (demo_state true).
Proof.
  intros H.
  destruct (@local_read_correct H (demo_state true) 7 3 "/c/f" 1 0 0 demo_file 5 false [0] demo_buffers)
    as (s' & E & Hc).
  - intros n. split; [reflexivity|vm_compute; discriminate].
  - exact demo_opened.
  - exact demo_file_inv.
  - lia.
  - lia.
  - vm_compute. reflexivity.
  - vm_compute. reflexivity.
  - exists s'. split; [exact E|exact Hc].
Defined.

Lemma read_your_writes_witness :
  let H := demo_config true in
  exists s1 s2 s3, write_handler 7 3 3 (demo_state true) = Done (tt, s1) /\
    handle_lseek 7 3 0 s1 = Done (tt, s2) /\ handle_read 7 3 3 s2 = Done (tt, s3) /\
    replies s3 7 = Some [0; 0; 3] /\
    sent_data s3 7 = Some (fifo_write 4 [Some x61; Some x62; Some x63] (ServerToClient demo_buffers)).
Proof.
  intros H.
  destruct (@read_your_writes H (demo_state true) 7 3 "/c/f" 1 0 0 demo_file demo_buffers
    [Some x61; Some x62; Some x63] [] [0]) as (s1 & s2 & s3 & E1 & E2 & E3 & E4 & E5).
  - intros n. split; [reflexivity|vm_compute; discriminate].
  - reflexivity.
  - exact demo_opened.
  - exact demo_file_inv.
  - exact I.
  - lia.
  - vm_compute. reflexivity.
  - vm_compute. reflexivity.
  - vm_compute. eexists. reflexivity.
  - vm_compute. reflexivity.
  - discriminate.
  - vm_compute. reflexivity.
  - exists s1, s2, s3. split; [exact E1|]. split; [exact E2|]. split; [exact E3|]. split; [exact E4|exact E5].
Defined.
