(* ===== verification/ServerBehaviour.v ===== *)
(** * More of what the handlers do

    Closing and committing, waiting readers, directories, reads between two
    servers, and the corner cases of the handlers. *)
From S2P Require Import Prelude Memory Sectors FileBuffer Queue CapioFile ClientManager Locations Server StorageManager Handlers RemoteHandlers ServerInv ServerProps.

Lemma set_buffer_self f : set_buffer (_buffer f) f = f.
Proof. by destruct f. Qed.

Section Behaviour.
Context `{Config}.
Hypothesis os_succeeds : forall n, fst (os n) = kernel_ok /\ 0 <= snd (os n).

Lemma twp_reserve id f e s (Q : unit -> Server -> Prop) :
  heap s !! id = Some f -> buffer_ok (_buffer f) (_sectors f) -> live (_buffer f) ->
  buffer_data (_buffer f) <> None ->
  (forall b n, buffer_ok b (_sectors f) -> live b -> buffer_data b <> None -> e <= buffer_size b ->
     (forall x, holds (_sectors f) x -> byte_at b x = byte_at (_buffer f) x) ->
     Q tt (set_heap (<[id := set_buffer b f]> (heap s)) (set_os_calls n s))) ->
  twp (file_reserve id e) Q s.
Proof using os_succeeds.
  intros Hf Hok Hl Hs HQ. unfold file_reserve. apply twp_bind. eapply twp_file_get; [done|].
  change (getBufSize f) with (buffer_size (_buffer f)).
  unfold when. destruct (Z.ltb_spec (buffer_size (_buffer f)) e) as [Hlt|Hge].
  - destruct (os_succeeds (os_calls s)) as [Hk _].
    unfold file_expandBuffer. apply twp_bind. eapply twp_Done; [done|].
    destruct (os (os_calls s)) as [k fd]. simpl in Hk.
    destruct (buffer_grow_spec k (_buffer f) e (_sectors f) Hok ltac:(lia) Hl Hk Hs) as (b' & Hg & Hok' & Hl' & Hsz & Hs' & Hx').
    eapply twp_on_file; [done| |].
    + unfold expandBuffer. rewrite Hg. simpl. done.
    + simpl. by apply (HQ b' (S (os_calls s))).
  - apply twp_ret. specialize (HQ (_buffer f) (os_calls s) Hok Hl Hs Hge ltac:(done)).
    rewrite set_buffer_self, insert_id in HQ by done. by destruct s.
Qed.

(** ** Directories *)

(** A directory with [n] entries: [n] records of 280 bytes from its start. *)
Definition directory_of (n : Z) (f : CapioFile) : Prop :=
  _n_files f = n /\ _sectors f = if n =? 0 then [] else [(0, n * sizeof_linux_dirent64)].

Lemma insertSector_end a b : 0 < a <= b -> insertSector [(0, a)] a b = [(0, b)].
Proof using.
  intros Hab. unfold insertSector, set_erase. cbn -[Z.leb Z.ltb Z.max].
  unfold compareSectors. cbn -[Z.leb Z.ltb Z.max].
  rewrite (proj2 (Z.ltb_lt 0 a)) by lia. cbn -[Z.leb Z.ltb Z.max].
  rewrite Z.leb_refl, Z.max_l by lia. cbn -[Z.leb Z.ltb Z.max].
  rewrite (proj2 (Z.ltb_ge (b + 1) 0)) by lia. cbn -[Z.leb Z.ltb Z.max].
  by rewrite (proj2 (Z.ltb_ge b a)) by lia.
Qed.

Lemma insertSector_append n :
  0 <= n -> insertSector (if n =? 0 then [] else [(0, n * sizeof_linux_dirent64)])
              (n * sizeof_linux_dirent64) (n * sizeof_linux_dirent64 + sizeof_linux_dirent64)
            = [(0, (n + 1) * sizeof_linux_dirent64)].
Proof using.
  intros Hn. unfold sizeof_linux_dirent64. destruct (Z.eqb_spec n 0) as [->|Hne]; [by vm_compute|].
  rewrite insertSector_end by lia. do 2 f_equal. lia.
Qed.

Lemma directory_size n f : 0 <= n -> directory_of n f -> getStoredSize f = n * sizeof_linux_dirent64.
Proof using. intros Hn [_ E]. unfold getStoredSize. rewrite E. by destruct (Z.eqb_spec n 0) as [->|]. Qed.

Lemma directory_holds n f x : 0 <= n -> directory_of n f -> holds (_sectors f) x <-> 0 <= x < n * sizeof_linux_dirent64.
Proof using.
  intros Hn [_ ->]. unfold sizeof_linux_dirent64. destruct (Z.eqb_spec n 0) as [->|].
  - split; [intros Hx; by apply holds_nil in Hx|lia].
  - rewrite holds_cons. simpl. split; [intros [?|Hx]; [lia|by apply holds_nil in Hx]|by left].
Qed.

(** The file of a directory after its new record was stored in [b] and counted. *)
Lemma directory_append n f b h ld :
  file_inv f -> directory_of n f -> 0 <= n < 2 ^ 31 - 1 ->
  Z.of_nat (length ld) = sizeof_linux_dirent64 ->
  buffer_ok b (_sectors f) -> buffer_data b <> None ->
  n * sizeof_linux_dirent64 + sizeof_linux_dirent64 <= buffer_size b ->
  (forall x, byte_at b x =
     if decide (n * sizeof_linux_dirent64 <= x < n * sizeof_linux_dirent64 + sizeof_linux_dirent64)
     then default None (ld !! Z.to_nat (x - n * sizeof_linux_dirent64)) else
     if decide (holds (_sectors f) x) then byte_at (_buffer f) x else byte_at b x) ->
  let f' := incrementDirectoryFileCount 1
    (file_insertSector (n * sizeof_linux_dirent64) (n * sizeof_linux_dirent64 + sizeof_linux_dirent64)
       (set_buffer b (set_home_node h f))) in
  file_inv f' /\ directory_of (n + 1) f' /\
  (forall x, x < n * sizeof_linux_dirent64 -> file_data f' x = file_data f x) /\
  (forall i, 0 <= i < sizeof_linux_dirent64 ->
     file_data f' (n * sizeof_linux_dirent64 + i) = default None (ld !! Z.to_nat i)).
Proof using.
  intros Hinv Hdir Hn HL Hok Hs Hsz Hb f'.
  assert (Hdir' : directory_of (n + 1) f').
  { destruct Hdir as [Hc Hsec]. unfold f'. split; simpl.
    - rewrite Hc, s32_small by lia. done.
    - rewrite Hsec, insertSector_append by lia. by rewrite (proj2 (Z.eqb_neq (n + 1) 0)) by lia. }
  split_and!; [|done| |].
  - apply (same_data_inv (file_insertSector (n * sizeof_linux_dirent64)
      (n * sizeof_linux_dirent64 + sizeof_linux_dirent64) (set_buffer b (set_home_node h f)))); [done|].
    apply file_inv_insert; [apply Hinv|done|apply Hinv| |done|done]. unfold sizeof_linux_dirent64. simpl. lia.
  - intros x Hx. unfold file_data. destruct (decide (0 <= x)) as [H0|H0].
    + rewrite !decide_True
        by (first [apply (directory_holds n f) | apply (directory_holds (n + 1) f')]; try done; unfold sizeof_linux_dirent64 in *; lia).
      change (_buffer f') with b. rewrite Hb, decide_False by lia.
      rewrite decide_True; [done|]. apply (directory_holds n f); [lia|done|lia].
    + rewrite !decide_False; [done| |].
      * rewrite (directory_holds n f) by (done || lia). lia.
      * rewrite (directory_holds (n + 1) f') by (done || lia). lia.
  - intros i Hi. unfold file_data. rewrite decide_True.
    + change (_buffer f') with b. rewrite Hb, decide_True by lia. do 3 f_equal. lia.
    + apply (directory_holds (n + 1) f'); [lia|done|]. unfold sizeof_linux_dirent64 in *. lia.
Qed.

(** What adding an entry to a directory leaves. *)
Record entry_added (s s' : Server) (tid : Z) (dir : string) (id n : Z) (f : CapioFile) (rule : bool) (ld : list cell) : Prop := {
  ea_file : exists f', heap s' !! id = Some f' /\ file_inv f' /\ directory_of (n + 1) f' /\
    (forall x, x < n * sizeof_linux_dirent64 -> file_data f' x = file_data f x) /\
    (forall i, 0 <= i < sizeof_linux_dirent64 ->
       file_data f' (n * sizeof_linux_dirent64 + i) = default None (ld !! Z.to_nat i)) /\
    _committed f' = _committed f || ((n + 1 =? _n_files_expected f) && rule);
  ea_others id' : id' <> id -> heap s' !! id' = heap s !! id';
  ea_rest : s' = set_heap (heap s') (set_os_calls (os_calls s')
    (set_client_manager (registerProducedFile tid dir (client_manager s)) s))
}.

Definition entry_name (file_path : string) (type : ManagerDirEntryType) : string :=
  match type with REGULAR_ENTRY => path_filename file_path | DOT_ENTRY => "." | DOT_DOT_ENTRY => ".." end.

(** The commit at the end: [f3] is the directory with its new entry. *)
Lemma commit_entry s s0 tid dir id n f f3 rule ld :
  heap s0 !! id = Some f3 -> (forall id', id' <> id -> heap s0 !! id' = heap s !! id') ->
  s0 = set_heap (heap s0) (set_os_calls (os_calls s0) (set_client_manager (registerProducedFile tid dir (client_manager s)) s)) ->
  file_inv f3 -> directory_of (n + 1) f3 ->
  (forall x, x < n * sizeof_linux_dirent64 -> file_data f3 x = file_data f x) ->
  (forall i, 0 <= i < sizeof_linux_dirent64 ->
     file_data f3 (n * sizeof_linux_dirent64 + i) = default None (ld !! Z.to_nat i)) ->
  _committed f3 = _committed f ->
  twp (when ((n + 1 =? _n_files_expected f) && rule) (file_do id (setCommitted true)))
    (fun _ s' => entry_added s s' tid dir id n f rule ld) s0.
Proof.
  intros Hf Hothers Hst Hi Hd Hold Hnew Hc. unfold when.
  destruct ((n + 1 =? _n_files_expected f) && rule) eqn:Ec.
  - eapply twp_file_do; [done|]. split; simpl; [|intros id' Hne; rewrite lookup_insert_ne by done; by apply Hothers|by rewrite Hst].
    exists (setCommitted true f3). rewrite lookup_insert_eq, Ec, orb_true_r. split; [done|].
    split; [by eapply same_data_inv; [apply same_data_setCommitted|]|].
    unfold setCommitted. destruct (_committed f3) eqn:Ecm; simpl; by split_and!.
  - apply twp_ret. split; [|done|done]. exists f3. rewrite Ec, orb_false_r. by split_and!.
Qed.

Lemma addDirectoryEntry_spec s tid file_path dir type id f n :
  _storage s !! dir = Some id -> heap s !! id = Some f -> file_inv f -> live (_buffer f) ->
  directory_of n f -> 0 <= n < 2 ^ 31 - 1 ->
  (String.length (entry_name file_path type) < NAME_MAX)%nat ->
  exists s', addDirectoryEntry tid file_path dir type s = Done (tt, s') /\
    entry_added s s' tid dir id n f (bool_decide (getCommitRule file_path = ON_N_FILES))
      (dirent_bytes (path_hash file_path) ((n + 1) * sizeof_linux_dirent64)
         (if _directory f then DT_DIR else DT_REG) (entry_name file_path type)).
Proof using os_succeeds.
  intros Hst Hf Hinv Hl Hdir Hn Hname.
  set (rule := bool_decide _). set (ld := dirent_bytes _ _ _ _).
  cut (twp (addDirectoryEntry tid file_path dir type) (fun _ s' => entry_added s s' tid dir id n f rule ld) s).
  { intros ([] & s' & E & HQ). by exists s'. }
  pose proof (directory_size n f (proj1 Hn) Hdir) as Hsize.
  assert (HL : Z.of_nat (length ld) = sizeof_linux_dirent64) by by apply length_dirent_bytes.
  unfold addDirectoryEntry. fold (entry_name file_path type).
  apply Nat.ltb_lt in Hname as Hname'. rewrite Hname'. apply twp_bind, twp_ret.
  apply twp_bind. eapply twp_storage_get; [done|].
  apply twp_bind. eapply twp_createBuffer; [done..|]. intros b1 h k Hok1 Hl1 Hs1 Hx1.
  set (f1 := set_buffer b1 (set_home_node h f)).
  file_get_step.
  change (getStoredSize f1) with (getStoredSize f). rewrite Hsize.
  set (e := n * sizeof_linux_dirent64 + sizeof_linux_dirent64).
  apply twp_bind. eapply (twp_reserve id f1 e); [simpl; by rewrite lookup_insert_eq|done|by eapply kept_live|done|].
  intros b2 k2 Hok2 Hl2 Hs2 Hsz2 Hx2. simpl. rewrite insert_insert_eq. set (f2 := set_buffer b2 f1).
  file_get_step.
  replace (dirent_bytes _ e _ _) with ld
    by (unfold ld, e; f_equal; lia).
  assert (0 <= n * sizeof_linux_dirent64) as Hpos by (unfold sizeof_linux_dirent64; lia).
  destruct (store_spec (n * sizeof_linux_dirent64) ld f2 Hs2 Hpos ltac:(rewrite HL; exact Hsz2))
    as (b3 & Est & Hsz3 & Hl3 & Hs3 & Hb3). change (_buffer f2) with b2 in Hsz3, Hl3, Hb3. rewrite HL in Hb3.
  apply twp_bind. eapply twp_on_file; [simpl; by rewrite lookup_insert_eq|exact Est|]. simpl. rewrite insert_insert_eq.
  file_do_step. file_do_step.
  apply twp_bind. eapply twp_Done; [done|]. simpl.
  set (f3 := incrementDirectoryFileCount 1 _).
  file_get_step. file_get_step.
  assert (Hcount : getCurrentDirectoryFileCount f3 = n + 1).
  { unfold getCurrentDirectoryFileCount, f3. simpl. destruct Hdir as [-> _].
    rewrite s32_small, u32_small; lia. }
  change (getDirectoryExpectedFileCount f3) with (_n_files_expected f). rewrite Hcount.
  destruct (directory_append n f b3 h ld Hinv Hdir Hn HL) as (Hi & Hd' & Hold & Hnew); [| | | |].
  { destruct Hok2 as (Hp & Hin & _). rewrite <- Hsz3 in Hp, Hin. by split_and!. }
  { done. }
  { by rewrite Hsz3. }
  { intros x. rewrite Hb3. case_decide; [done|]. case_decide as Hh; [|done].
    rewrite Hx2 by done. by apply Hx1. }
  fold rule. apply (commit_entry s _ tid dir id n f f3 rule ld); simpl; try done.
  - by rewrite lookup_insert_eq.
  - intros id' Hne. by rewrite lookup_insert_ne.
Qed.

(** Directories grow by one record per entry: [addDirectoryEntry] on a
    directory of [n] entries always completes, leaves the earlier records as
    they were, puts the new one, with the name and the type of the entry and
    the offset of its end, after them, counts it, and commits the directory
    exactly when the count reaches the expected one and the commit rule is
    the number of files. *)
Theorem addDirectoryEntry_appends s tid file_path dir type id f n :
  _storage s !! dir = Some id -> heap s !! id = Some f -> file_inv f -> live (_buffer f) ->
  directory_of n f -> 0 <= n < 2 ^ 31 - 1 ->
  (String.length (entry_name file_path type) < NAME_MAX)%nat ->
  exists s', addDirectoryEntry tid file_path dir type s = Done (tt, s') /\
    entry_added s s' tid dir id n f (bool_decide (getCommitRule file_path = ON_N_FILES))
      (dirent_bytes (path_hash file_path) ((n + 1) * sizeof_linux_dirent64)
         (if _directory f then DT_DIR else DT_REG) (entry_name file_path type)).
Proof using os_succeeds. apply addDirectoryEntry_spec. Qed.

(** ** Closing and committing *)

(** The commit of a file writes its mapping back, if it has one. *)
Definition dumped (f : CapioFile) : bool := _permanent f && negb (_directory f) && _home_node f.
Lemma twp_dump id f s (Q : unit -> Server -> Prop) :
  heap s !! id = Some f -> dumped f = false \/ live (_buffer f) ->
  (forall b n, buffer_data b = buffer_data (_buffer f) ->
     Q tt (set_heap (<[id := set_buffer b f]> (heap s)) (set_os_calls n s))) ->
  twp (file_dump id) Q s.
Proof using os_succeeds.
  intros Hf Hd HQ. destruct (os_succeeds (os_calls s)) as [Hk _].
  unfold file_dump. apply twp_bind. eapply twp_Done; [done|].
  destruct (os (os_calls s)) as [k fd]. simpl in Hk. subst k.
  assert (exists b, dump kernel_ok f = Done (tt, set_buffer b f) /\ buffer_data b = buffer_data (_buffer f)) as (b & E & Hb).
  { unfold dump. fold (dumped f). destruct (dumped f); [|exists (_buffer f); by destruct f].
    destruct Hd as [|Hl]; [done|]. destruct (_buffer f) as [h|m] eqn:Eb; [exists (BHeap h); split; [|done]; by destruct f; simpl in *; subst|].
    unfold buffer_commit, mapped_commit. simpl in Hl |- *. rewrite (proj2 (Z.ltb_ge _ _) Hl). simpl. by eexists. }
  eapply twp_on_file; [done|exact E|]. by apply HQ.
Qed.
Lemma dump_exits id f s :
  heap s !! id = Some f -> dumped f = true -> ~ live (_buffer f) -> exists w, file_dump id s = Exit w.
Proof using.
  intros Hf Hd Hl. unfold file_dump, bind, next_os. destruct (os (os_calls s)) as [k fd].
  unfold on_file. simpl. rewrite Hf. unfold dump. fold (dumped f). rewrite Hd.
  destruct (_buffer f) as [h|m]; simpl in Hl; [tauto|]. unfold buffer_commit, mapped_commit.
  rewrite (proj2 (Z.ltb_lt _ _)) by lia. simpl. by eexists.
Qed.

(** The threads that wait for the commit or for the data of a file. *)
Definition waits_for (id : Z) (path : string) (t : task) : bool :=
  match t with
  | PendingReadCommit i _ _ _ _ | PendingReadData i _ _ _ _ | WaitForDirentData _ _ _ _ i _
  | PendingCopy i _ _ | WaitForRemoteCopyData i _ _ _ _ _ _ _ _ => i =? id
  | WaitForRemoteData p _ _ _ _ _ _ | WaitForCompletion p _ _ => String.eqb p path
  | _ => false
  end.
Lemma committed_wakes s id path f t :
  _storage s !! path = Some id -> heap s !! id = Some f -> _committed f = true ->
  waits_for id path t = true -> task_ready t s = true.
Proof using.
  intros Hst Hf Hc. assert (forall n, data_ready n f = true) as Hd by (intros n; unfold data_ready; by rewrite Hc, orb_true_r).
  destruct t; simpl; try done; try (intros ->%Z.eqb_eq); try (intros ->%String.eqb_eq);
    rewrite ?Hst, ?Hf; try apply Hd; try done. case_match; [done|apply Hd].
Qed.

(** [handle_close] up to the test of the commit rule. *)
Lemma close_start s tid fd path id o v f :
  opened s tid fd path id o v f -> path <> ""%string ->
  let commit := bool_decide (getCommitRule path = ON_CLOSE) && closed (file_close f) in
  let s1 := set_heap (<[id := file_close f]> (heap s)) (set_opened_fd_map (emplace tid ∅ (_opened_fd_map s)) s) in
  handle_close tid fd s =
  (when commit (file_do id (setCommitted true) ;; file_dump id) ;; removeFromTid tid fd) s1 /\
  opened s1 tid fd path id o v (file_close f).
Proof using.
  intros Hop Hpath commit s1. pose proof (op_descriptor _ _ _ _ _ _ _ _ Hop) as Hd. split.
  - unfold handle_close. eapply bind_done; [apply twp_run; by eapply twp_getPath|].
    rewrite (proj2 (String.eqb_neq path "")) by done.
    eapply bind_done.
    { apply twp_run. unfold storage_get_fd. apply twp_bind. eapply twp_Done; [done|]. rewrite emplace_lookup. simpl.
      rewrite descriptor_at_default in Hd. rewrite Hd. simpl. apply twp_bind, twp_ret, twp_ret. done. }
    eapply bind_done; [apply twp_run; eapply twp_file_do; [apply Hop|done]|].
    eapply bind_done; [|done]. apply twp_run. eapply twp_file_get; [simpl; by rewrite lookup_insert_eq|done].
  - destruct Hop as [_ Hst Hf Ho]. split; [|exact Hst|simpl; by rewrite lookup_insert_eq|exact Ho].
    unfold descriptor_at. simpl. rewrite emplace_lookup. simpl. by rewrite descriptor_at_default in Hd.
Qed.


(** ** Threads that wake up *)

Lemma pending_read_spec s tid fd path id o w v f count r b :
  opened s tid fd path id o w f -> file_inv f -> 0 <= v -> 0 <= count ->
  replies s tid = Some r -> data_buffers (client_manager s) !! tid = Some b ->
  exists s' n, handle_pending_read tid fd v count s = Done (tt, s') /\
    served s s' tid o id v n f r (ServerToClient b) /\ 0 <= n <= count /\
    (forall y, v <= y < v + n -> holds (_sectors f) y) /\ (n = count \/ ~ holds (_sectors f) (v + n)).
Proof using os_succeeds.
  intros Hop Hinv Hv Hc Hr Hb. pose proof (fi_wf f Hinv) as Hwf. pose proof (fi_nonneg f Hinv) as Hnn.
  set (e := getSectorEnd (_sectors f) v).
  set (n := if v + count <? e then count else if e =? CAPIO_SECTOR_NOT_FOUND then 0 else e - v).
  assert (Hspec : 0 <= n <= count /\ (forall y, v <= y < v + n -> holds (_sectors f) y) /\
                  (n = count \/ ~ holds (_sectors f) (v + n))).
  { pose proof (getSectorEnd_found (_sectors f) v Hwf Hnn) as Hfound. fold e in Hfound.
    destruct (decide (covers (_sectors f) v)) as [Hcov|Hcov].
    - destruct (read_size_spec (_sectors f) v count Hwf Hv Hc Hcov) as (H0 & Hall & Hmax). fold e in H0, Hall, Hmax.
      replace n with (Z.min count (e - v)); [split; [lia|done]|].
      unfold n. apply Hfound in Hcov as Hne. rewrite (proj2 (Z.eqb_neq _ _) Hne).
      destruct (Z.ltb_spec (v + count) e); lia.
    - assert (e = CAPIO_SECTOR_NOT_FOUND) as Ee by (destruct (decide (e = CAPIO_SECTOR_NOT_FOUND)); tauto).
      assert (n = 0) as ->. { unfold n. rewrite Ee. unfold CAPIO_SECTOR_NOT_FOUND. by rewrite (proj2 (Z.ltb_ge _ _)) by lia. }
      split; [lia|]. split; [intros; lia|]. right. rewrite Z.add_0_r. intros Hh. by apply Hcov, holds_covers. }
  destruct Hspec as (Hn & Hall & Hmax).
  cut (twp (handle_pending_read tid fd v count) (fun _ s' => served s s' tid o id v n f r (ServerToClient b)) s).
  { intros ([] & s' & E & Hs). by exists s', n. }
  unfold handle_pending_read. apply twp_bind. eapply twp_getPath; [done|].
  apply twp_bind. eapply twp_storage_get; [apply Hop|].
  apply twp_bind. eapply twp_file_get; [apply Hop|]. fold e. fold n.
  eapply serve_bytes; try done. lia.
Qed.

(** A reader that waited is answered rightly: when a thread that waited for a
    read wakes up, the reader gets its new offset and exactly the bytes of the
    file from its offset that are data, as many as asked or up to the end of
    the data, and none when there is no data at the offset. Its offset is the
    one it had when it began to wait. *)
Theorem pending_read_correct s tid fd path id o w v f count r b :
  opened s tid fd path id o w f -> file_inv f -> 0 <= v -> 0 <= count ->
  replies s tid = Some r -> data_buffers (client_manager s) !! tid = Some b ->
  exists s' n, handle_pending_read tid fd v count s = Done (tt, s') /\
    served s s' tid o id v n f r (ServerToClient b) /\ 0 <= n <= count /\
    (forall y, v <= y < v + n -> holds (_sectors f) y) /\ (n = count \/ ~ holds (_sectors f) (v + n)).
Proof using os_succeeds. apply pending_read_spec. Qed.

(** ** Reads between two servers *)

(** When [n] bytes from [v] on are data, the sector of [v] ends after them. *)
Lemma sector_end_reaches l v n :
  sectors_wf l -> 0 <= v -> 0 < n -> (forall y, v <= y < v + n -> holds l y) -> v + n <= getSectorEnd l v.
Proof.
  intros Hwf Hv Hn Hall. destruct (getSectorEnd_spec l v Hwf) as [(x & _ & Hx & Heq)|[Hnc _]].
  2: { exfalso. apply Hnc, holds_covers, Hall. lia. }
  destruct (read_size_spec l v n Hwf Hv ltac:(lia)) as (_ & _ & [Hm|Hm]); [apply holds_covers, Hall; lia|lia|].
  destruct (decide (v + n <= getSectorEnd l v)); [done|]. exfalso. apply Hm, Hall. lia.
Qed.

(** [n] bytes put at [v], where no sector reached past [v], are in a sector of their
    own from there on: [count] bytes from [v] are at most those. *)
Lemma inserted_length l v n count :
  sectors_wf l -> 0 <= v -> 0 < n -> count <= n \/ (forall y, v < y -> ~ covers l y) ->
  Z.min count (getSectorEnd (insertSector l v (v + n)) v - v) = Z.min count n.
Proof.
  intros Hwf Hv Hn Hc. pose proof (insertSector_wf_aux l v (v + n) Hwf ltac:(lia)) as Hwf'.
  assert (Hge : v + n <= getSectorEnd (insertSector l v (v + n)) v).
  { apply sector_end_reaches; [done..|]. intros y Hy. apply insertSector_holds_sub; [done|lia|by right]. }
  destruct Hc as [Hc|Habs]; [lia|]. cut (getSectorEnd (insertSector l v (v + n)) v <= v + n); [lia|].
  apply Z.nlt_ge. intros Hlt.
  assert (holds (insertSector l v (v + n)) (v + n)) as Hh by (apply (getSectorEnd_holds _ v); [done|lia|done]).
  destruct (insertSector_holds_inv l v (v + n) (v + n) Hwf ltac:(lia) Hh) as [Hl|[?|(_ & k & Hk & Ek)]]; [|lia|].
  - apply holds_covers in Hl. by apply (Habs (v + n)); [lia|].
  - apply (Habs (v + n + 1)); [lia|]. apply Exists_exists. exists k. split; [done|].
    destruct Hwf as [_ Hle]. rewrite Forall_forall in Hle. specialize (Hle k Hk). lia.
Qed.

(** Reading back [count] bytes of [data] from where they were put. *)
Lemma fmap_seqZ_take (g : Z -> cell) v count (data : list cell) :
  0 <= count <= Z.of_nat (length data) ->
  (forall i c, data !! i = Some c -> Z.of_nat i < count -> g (v + Z.of_nat i) = c) ->
  g <$> seqZ v count = take (Z.to_nat count) data.
Proof.
  intros Hc Hg. apply list_eq. intros i. rewrite list_lookup_fmap. destruct (decide (Z.of_nat i < count)) as [Hi|Hi].
  - rewrite lookup_seqZ_lt, lookup_take_lt by lia. simpl.
    destruct (lookup_lt_is_Some_2 data i ltac:(lia)) as [c Ec]. rewrite Ec. f_equal. by apply Hg.
  - by rewrite lookup_seqZ_ge, lookup_take_ge by lia.
Qed.

(** The reply [data] is in the buffer of the file: the client gets the first
    [count] bytes of it, or all of it. *)
Definition got_reply (tid o v count : Z) (data : list cell) r (b : ClientDataBuffers) (s' : Server) : Prop :=
  replies s' tid = Some (r ++ [v + count]) /\
  sent_data s' tid = Some (fifo_write getCacheLineSize (take (Z.to_nat count) data) (ServerToClient b)) /\
  offsets s' !! o = Some (v + count).

Lemma read_reply_serves s tid fd path id o v f count file_size complete r b (data : list cell) :
  opened s tid fd path id o v f -> sectors_wf (_sectors f) ->
  file_inv (file_insertSector v (v + Z.of_nat (length data)) f) -> 0 <= v -> 0 < count ->
  data <> [] -> count <= Z.of_nat (length data) \/ (forall y, v < y -> ~ covers (_sectors f) y) ->
  replies s tid = Some r -> data_buffers (client_manager s) !! tid = Some b ->
  (forall x, v <= x < v + Z.of_nat (length data) -> byte_at (_buffer f) x = default None (data !! Z.to_nat (x - v))) ->
  twp (handle_read_reply tid fd count file_size (Z.of_nat (length data)) complete false)
    (fun _ => got_reply tid o v (Z.min count (Z.of_nat (length data))) data r b) s.
Proof using os_succeeds.
  intros Hop Hwf Hinv Hv Hc Hne Hlen Hr Hb Hbytes.
  assert (0 < Z.of_nat (length data)) as Hn by (destruct data; [done|simpl; lia]). set (n := Z.of_nat (length data)) in *. unfold handle_read_reply.
  apply twp_bind. eapply twp_getPath; [done|]. apply twp_bind. eapply twp_storage_get; [apply Hop|].
  apply twp_bind. eapply twp_getFileOffset; [done|].
  apply twp_bind. eapply twp_file_do; [apply Hop|].
  file_do_step. file_do_step.
  set (f3 := file_insertSector v (v + n) (setRealFileSize file_size f)). set (f4 := setCommitted complete f3).
  assert (Hf3 : file_inv f3) by (by apply (same_data_inv (file_insertSector v (v + n) f))).
  assert (Hsd : same_data f3 f4) by apply same_data_setCommitted.
  assert (Hf4 : file_inv f4) by by eapply same_data_inv.
  file_get_step.
  assert (Hholds : forall y, v <= y < v + n -> holds (_sectors f4) y).
  { intros y Hy. destruct Hsd as (_ & -> & _). apply insertSector_holds_sub; [done|lia|by right]. }
  set (m := if v + count <? getSectorEnd (_sectors f4) v then count else getSectorEnd (_sectors f4) v - v).
  assert (m = Z.min count n) as Hm.
  { rewrite <- (inserted_length (_sectors f) v n count) by done. unfold m.
    replace (_sectors f4) with (insertSector (_sectors f) v (v + n)) by (destruct Hsd as (_ & -> & _); done).
    destruct (Z.ltb_spec (v + count) (getSectorEnd (insertSector (_sectors f) v (v + n)) v)); lia. }
  fold m. rewrite Hm. eapply twp_mono.
  { eapply (serve_bytes os_succeeds _ tid fd path id o v v f4 (Z.min count n) r b); try done.
    - destruct Hop as [Hd Hst Hf Ho]. split; [exact Hd|exact Hst|simpl; by rewrite lookup_insert_eq|exact Ho].
    - lia.
    - intros y Hy. apply Hholds. lia. }
  intros [] s' [Hrep Hsent Hoff _ _]. split; [done|]. split; [|done]. rewrite Hsent. do 2 f_equal.
  apply fmap_seqZ_take; [lia|]. intros i c Ec Hi. unfold file_data. rewrite decide_True by (apply Hholds; lia).
  destruct Hsd as (-> & _ & _). change (_buffer f3) with (_buffer f). rewrite Hbytes by lia.
  replace (Z.to_nat (v + Z.of_nat i - v)) with i by lia. by rewrite Ec.
Qed.

(** Receiving [data] from another node into the buffer of a file. *)
Lemma twp_receive source id f v data rest s (k : M Server unit) (Q : unit -> Server -> Prop) :
  heap s !! id = Some f -> file_inv f -> live (_buffer f) -> 0 <= v -> data <> [] ->
  inbox s !! source = Some (data :: rest) ->
  let n := Z.of_nat (length data) in
  (forall f3 m, stored_in f (file_insertSector v (v + n) f3) v data -> live (_buffer f3) ->
     _sectors f3 = _sectors f -> _first_write f3 = _first_write f ->
     (forall x, v <= x < v + n -> byte_at (_buffer f3) x = default None (data !! Z.to_nat (x - v))) ->
     twp k Q (set_inbox (<[source := rest]> (inbox s)) (set_heap (<[id := f3]> (heap s)) (set_os_calls m s)))) ->
  twp (file_createBuffer id false ;;
       when (negb (n =? 0)) (file_reserve id (v + n) ;; file_readFromNode id source v n) ;; k) Q s.
Proof using os_succeeds.
  intros Hf Hinv Hl Hv Hne Hin n HQ. assert (0 < n) as Hn by (unfold n; destruct data; simpl; [done|lia]).
  apply twp_bind. eapply twp_createBuffer; [done..|]. intros b1 h m Hok1 Hl1 Hs1 Hx1.
  set (f1 := set_buffer b1 (set_home_node h f)). rewrite (proj2 (Z.eqb_neq n 0)) by lia. apply twp_bind, twp_bind.
  eapply (twp_reserve id f1 (v + n)); [simpl; by rewrite lookup_insert_eq|done|by eapply kept_live|done|].
  intros b2 k2 Hok2 Hl2 Hs2 Hsz2 Hx2. simpl. rewrite insert_insert_eq.
  destruct (store_registers f h b2 v data Hinv Hv Hok2 (fun _ => Hl2) Hs2 Hsz2) as (b3 & Est & Hl3 & Hsd).
  { intros x Hx. rewrite Hx2 by done. by apply Hx1. }
  change (set_buffer b2 f1) with (set_buffer b2 (set_home_node h f)). eapply twp_Done.
  { unfold file_readFromNode. simpl. rewrite Hin. unfold on_file. simpl. rewrite lookup_insert_eq.
    unfold readFromNode. replace (slot_bytes data n) with data; [rewrite Est; simpl; done|].
    unfold slot_bytes, n. rewrite Nat2Z.id, Nat.sub_diag, app_nil_r. by rewrite take_ge. }
  simpl. rewrite insert_insert_eq. apply (HQ _ k2); try done; [by apply Hl3|].
  intros x Hx. rewrite <- (sd_new _ _ _ _ Hsd x Hx). unfold file_data. rewrite decide_True; [done|].
  simpl. apply insertSector_holds_sub; [apply Hinv|lia|by right].
Qed.

(** Receiving [data] for the file a client reads. *)
Lemma read_reply_spec s source tid fd path id o v f count file_size complete r b data rest :
  opened s tid fd path id o v f -> file_inv f -> live (_buffer f) -> 0 <= v -> 0 < count ->
  data <> [] -> count <= Z.of_nat (length data) \/ (forall y, v < y -> ~ covers (_sectors f) y) ->
  replies s tid = Some r -> data_buffers (client_manager s) !! tid = Some b ->
  inbox s !! source = Some (data :: rest) ->
  exists s', handle_remote_read_reply source tid fd count (Z.of_nat (length data)) file_size complete false s = Done (tt, s') /\
    got_reply tid o v (Z.min count (Z.of_nat (length data))) data r b s'.
Proof using os_succeeds.
  intros Hop Hinv Hl Hv Hc Hne Hlen Hr Hb Hin. set (n := Z.of_nat (length data)) in *.
  cut (twp (handle_remote_read_reply source tid fd count n file_size complete false)
         (fun _ => got_reply tid o v (Z.min count (Z.of_nat (length data))) data r b) s).
  { intros ([] & s' & E & HQ). by exists s'. }
  unfold handle_remote_read_reply. apply twp_bind. eapply twp_getPath; [done|].
  apply twp_bind. eapply twp_getFileOffset; [done|].
  apply twp_bind. eapply twp_storage_get; [apply Hop|].
  eapply (twp_receive source id f v data rest); [apply Hop|done..|].
  intros f3 k Hsd Hl3 Hsec _ Hbytes. eapply (read_reply_serves _ tid fd path id o v f3 count); try done.
  - destruct Hop as [Hd Hst Hf Ho]. split; [exact Hd|exact Hst|simpl; by rewrite lookup_insert_eq|exact Ho].
  - rewrite Hsec. apply Hinv.
  - apply Hsd.
  - by rewrite Hsec.
Qed.
End Behaviour.

(** The reply of the server that stores the file. *)
Lemma remote_read_serves `{Config} s path dest tid fd count offset id f :
  _storage s !! path = Some id -> heap s !! id = Some f -> file_inv f -> _committed f = true ->
  (forall y, offset <= y < getStoredSize f -> holds (_sectors f) y) ->
  handle_remote_read path dest tid fd count offset false s =
  Done (tt, set_outbox (outbox s ++ [{| s_dest := dest;
    s_message := RemoteReadReply tid fd (s32 count) (remote_reply_size f offset) (getStoredSize f) true false;
    s_data := file_data f <$> seqZ offset (remote_reply_size f offset) |}]) s).
Proof.
  intros Hst Hf Hinv Hc Hall.
  assert (Hn : 0 <= remote_reply_size f offset -> forall y, offset <= y < offset + remote_reply_size f offset -> holds (_sectors f) y).
  { intros _ y Hy. apply Hall. unfold remote_reply_size in Hy. case_match; lia. }
  set (s' := set_outbox _ s). cut (twp (handle_remote_read path dest tid fd count offset false) (fun _ x => x = s') s).
  { by intros ([] & x & E & ->). }
  unfold handle_remote_read. apply twp_bind. eapply twp_storage_get; [done|].
  apply twp_bind. eapply twp_file_get; [done|]. apply twp_bind. eapply twp_file_get; [done|].
  unfold isCommitted. rewrite Hc. unfold serve_remote_read. simpl.
  apply twp_bind. eapply twp_storage_get; [done|].
  apply twp_bind. eapply twp_file_get; [done|]. apply twp_bind. eapply twp_file_get; [done|].
  apply twp_bind. unfold file_bytes. destruct (Z.eqb_spec (remote_reply_size f offset) 0) as [E0|E0].
  - apply twp_ret. eapply twp_Done; [done|]. unfold s'. rewrite E0. by rewrite seqZ_nil.
  - apply twp_bind. eapply twp_file_get; [done|].
    eapply twp_Done; [unfold lift; rewrite load_spec; [done|done|]|].
    + intros y Hy. apply Hn; lia.
    + by eapply twp_Done.
Qed.

(** Reads between servers: a client of one server reads a committed file that
    another server stores.  The server that stores it answers with its bytes,
    and when the answer arrives the client's server gives the client exactly
    the [count] bytes of the file at its offset and moves its offset, whatever
    the copy it kept held before. *)
Theorem remote_read_correct (A B : Config) sA sB path idA fA tid fd idB o offset fB count r b rest :
  @_storage sA !! path = Some idA -> heap sA !! idA = Some fA -> file_inv fA -> _committed fA = true ->
  (forall y, offset <= y < getStoredSize fA -> holds (_sectors fA) y) ->
  offset + count <= getStoredSize fA -> 0 < count < 2 ^ 31 ->
  (@getPrefetchDataSize A = 0 \/ count <= @getPrefetchDataSize A) ->
  (forall n, fst (@os B n) = kernel_ok /\ 0 <= snd (@os B n)) ->
  opened sB tid fd path idB o offset fB -> file_inv fB -> live (_buffer fB) -> 0 <= offset ->
  replies sB tid = Some r -> data_buffers (client_manager sB) !! tid = Some b ->
  exists m data, @handle_remote_read A path (@get_node_name (@config_nodes B)) tid fd count offset false sA =
      Done (tt, set_outbox (outbox sA ++ [{| s_dest := @get_node_name (@config_nodes B); s_message := m; s_data := data |}]) sA) /\
    (inbox sB !! (@get_node_name (@config_nodes A)) = Some (data :: rest) ->
     exists sB', @handle_message B (@get_node_name (@config_nodes A)) m sB = Done (tt, sB') /\
       replies sB' tid = Some (r ++ [offset + count]) /\
       sent_data sB' tid = Some (fifo_write (@getCacheLineSize B) (file_data fA <$> seqZ offset count) (ServerToClient b)) /\
       offsets sB' !! o = Some (offset + count)).
Proof.
  intros Hst Hf Hinv Hc Hall Hle Hcount Hpre Hos Hop HinvB HlB H0 Hr Hb.
  set (n := @remote_reply_size A fA offset).
  assert (Hn : count <= n <= getStoredSize fA - offset).
  { unfold n, remote_reply_size. destruct (_ && _) eqn:E; [|lia]. apply andb_prop in E as [E1%negb_true_iff E2].
    apply Z.eqb_neq in E1. destruct Hpre as [?|?]; [done|lia]. }
  do 2 eexists. split; [by eapply remote_read_serves|]. intros Hin. fold n in Hin.
  assert (HL : Z.of_nat (length (file_data fA <$> seqZ offset n)) = n) by (rewrite length_fmap, length_seqZ; lia).
  rewrite (s32_small count) by lia. fold n. cbn [handle_message].
  destruct (@read_reply_spec B Hos sB (@get_node_name (@config_nodes A)) tid fd path idB o offset fB count
    (getStoredSize fA) true r b (file_data fA <$> seqZ offset n) rest) as (sB' & E & E1 & E2 & E3);
    [done|done|done|done|lia| |left; rewrite HL; lia|done|done|done|].
  { intros Hnil. rewrite Hnil in HL. simpl in HL. lia. }
  rewrite HL in E, E1, E2, E3. rewrite Z.min_l in E1, E2, E3 by lia. exists sB'. split; [exact E|]. split; [done|]. split; [|done]. rewrite E2. do 2 f_equal.
  rewrite <- fmap_take. f_equal. replace n with (count + (n - count)) by lia.
  rewrite seqZ_app by lia. apply take_app_length'. by rewrite length_seqZ.
Qed.

(** ** Examples *)

Lemma demo_os firable : forall n, fst (@os (demo_config firable) n) = kernel_ok /\ 0 <= snd (@os (demo_config firable) n).
Proof. intros n. split; [done|]. vm_compute. discriminate. Qed.

Definition demo_started : Server := @state_of (@start_server (demo_config true) 1).
Definition demo_dir : CapioFile := default CapioFile_default (heap demo_started !! 0).
Lemma demo_started_inv : server_inv demo_started.
Proof. apply (@start_inv (demo_config true) 1). vm_compute. reflexivity. Qed.

Lemma addDirectoryEntry_appends_witness :
  exists s', @addDirectoryEntry (demo_config true) 7 "/c/x" "/c" REGULAR_ENTRY demo_started = Done (tt, s') /\
    exists f', heap s' !! 0 = Some f' /\ directory_of 3 f' /\ file_data f' (2 * 280 + 19) = Some x78.
Proof.
  destruct (@addDirectoryEntry_appends (demo_config true) (demo_os true) demo_started 7 "/c/x" "/c" REGULAR_ENTRY
    0 demo_dir 2) as (s' & E & [(f' & Hf & _ & Hd & _ & Hnew & _) _ _]).
  - vm_compute. reflexivity.
  - vm_compute. reflexivity.
  - apply (si_files _ demo_started_inv 0). vm_compute. reflexivity.
  - exact I.
  - vm_compute. split; reflexivity.
  - lia.
  - vm_compute. lia.
  - exists s'. split; [exact E|]. exists f'. split; [exact Hf|]. split; [exact Hd|].
    etransitivity; [apply (Hnew 19); unfold sizeof_linux_dirent64; lia|]. vm_compute. reflexivity.
Defined.

Lemma pending_read_correct_witness :
  exists s' n, @handle_pending_read (demo_config true) 7 3 0 5 (demo_state true) = Done (tt, s') /\
    replies s' 7 = Some [0; 0 + n] /\ 0 <= n <= 5.
Proof.
  destruct (@pending_read_correct (demo_config true) (demo_os true) (demo_state true) 7 3 "/c/f" 1 0 0 0 demo_file 5 [0] demo_buffers)
    as (s' & n & E & [Hr _ _ _ _] & Hn & _).
  - exact demo_opened.
  - exact demo_file_inv.
  - lia.
  - lia.
  - vm_compute. reflexivity.
  - vm_compute. reflexivity.
  - exists s', n. split; [exact E|]. split; [exact Hr|exact Hn].
Defined.

(** A server that stores the committed file "abc". *)
Definition demo_remote : Server :=
  set_heap {[5 := setCommitted true file_abc]} (set_storage {["/c/f"%string := 5]} Server_new).

(** The server of a client to which the file has been sent. *)
Definition demo_receiver : Server :=
  set_inbox {["a"%string := [[Some x61; Some x62; Some x63]]]} (demo_state true).
Lemma demo_receiver_opened : opened demo_receiver 7 3 "/c/f" 1 0 0 demo_file.
Proof. split; vm_compute; reflexivity. Qed.

Lemma remote_read_correct_witness :
  let A := demo_config true in
  exists m data sA' sB', @handle_remote_read A "/c/f" "a" 7 3 2 0 false demo_remote = Done (tt, sA') /\
    outbox sA' = [{| s_dest := "a"; s_message := m; s_data := data |}] /\
    @handle_message A "a" m demo_receiver = Done (tt, sB') /\ replies sB' 7 = Some [0; 2].
Proof.
  intros A.
  destruct (remote_read_correct A A demo_remote demo_receiver "/c/f" 5 (setCommitted true file_abc) 7 3 1 0 0
    demo_file 2 [0] demo_buffers []) as (m & data & E & Hrest).
  - vm_compute. reflexivity.
  - vm_compute. reflexivity.
  - apply (same_data_inv file_abc); [apply same_data_setCommitted|exact file_abc_inv].
  - vm_compute. reflexivity.
  - intros y Hy. apply holds_cons. left. exact Hy.
  - vm_compute. discriminate.
  - lia.
  - left. reflexivity.
  - exact (demo_os true).
  - exact demo_receiver_opened.
  - exact demo_file_inv.
  - exact I.
  - lia.
  - vm_compute. reflexivity.
  - vm_compute. reflexivity.
  - exists m, data. eexists.
    assert (Hd : data = [Some x61; Some x62; Some x63]).
    { pose proof E as E'. vm_compute in E'. injection E' as _ <-. reflexivity. }
    destruct Hrest as (sB' & E2 & Hr & _); [rewrite Hd; vm_compute; reflexivity|].
    exists sB'. split; [exact E|]. split; [reflexivity|]. split; [exact E2|exact Hr].
Defined.

(** ** Corner cases *)

(** A server with two files open, by one client. *)
Definition demo_two : M Server unit :=
  let H := demo_config true in
  run [start_server 1; handle_request (HandshakeNamed 7 7 "app" false);
       handle_request (Create 7 3 "/c/a"); handle_request (Create 7 4 "/c/b")].

(** A rename onto an existing file destroys the renamed file while it is open: the
    rename itself succeeds, and the next use of the descriptor goes through a
    dangling pointer. *)
Theorem rename_onto_existing_dangles :
  let H := demo_config true in
  let s := state_of (run [demo_two; handle_request (Rename "/c/a" "/c/b" 7)]) in
  descriptor_at s 7 3 = Some {| _pointer := Some 1; _offset := Some 0; _path := "/c/b" |} /\
  heap s !! 1 = None /\ handle_request (Close 7 3) s = UB "dangling CapioFile pointer".
Proof. split_and!; vm_compute; reflexivity. Qed.

(** A failed [SEEK_DATA] leaves the descriptor at offset -1: after it a write of
    the same client stores before the start of the buffer. *)
Theorem seek_data_failure_breaks_offset :
  let H := demo_config true in
  let s := state_of (run [demo_open true; handle_request (Write 7 3 3); handle_request (SeekData 7 3 10);
                          client_data 7 [Some x64]]) in
  replies s 7 = Some [0; -1] /\ offsets s !! 0 = Some (-1) /\
  handle_request (Write 7 3 1) s = UB "store out of the buffer".
Proof. split_and!; vm_compute; reflexivity. Qed.

(** A reader can be told that the file ended while it is being written: bytes
    written past a hole make the waiting reader ready, there is no data at its
    offset, and it gets 0 bytes although the file is not committed. *)
Theorem hole_ends_read_early :
  let H := demo_config true in
  let s := state_of (run [demo_open true; handle_request (HandshakeNamed 8 8 "reader" false);
                          handle_request (Open 8 5 "/c/f"); handle_request (Read 8 5 10);
                          handle_request (Seek 7 3 100); handle_request (Write 7 3 3)]) in
  let t := PendingReadData 1 8 5 10 0 in
  threads s = [t] /\ task_ready t s = true /\
  isCommitted <$> heap s !! 1 = Some false /\
  (exists s', run_task t s = Done (tt, s') /\ replies s' 8 = Some [0; 0] /\ sent_data s' 8 = Some fifo_new).
Proof.
  split_and!; [vm_compute; reflexivity..|]. eexists. split; [vm_compute; reflexivity|].
  split; vm_compute; reflexivity.
Qed.

(** An empty answer of another server makes the file longer: a reply without data
    to a read at offset 100 records an empty sector there, and the size of a
    file that has no byte becomes 100. *)
Theorem empty_reply_extends_file :
  let H := demo_config true in
  let s := state_of (run [demo_open true; handle_request (Seek 7 3 100);
                          handle_message "b" (RemoteReadReply 7 3 10 0 0 true false)]) in
  (fun f => (getFileSize (_sectors f), _sectors f)) <$> heap s !! 1 = Some (100, [(100, 100)]).
Proof. vm_compute. reflexivity. Qed.

Definition permanent_config : Config := {|
  config_nodes := nodes_ab "a"; config_quota := quota_unlimited;
  getDirectoryFileCount := fun _ => 0; isPermanent := fun _ => true; getCommitCloseCount := fun _ => 0;
  getCommitRule := fun _ => ON_CLOSE; isFirable := fun _ => true; isExcluded := fun _ => false;
  cl_isProducer := fun _ _ => false; getCapioDir := "/c"; getFileInitialSize := 64; getCacheLineSize := 4;
  getPrefetchDataSize := 0; path_hash := fun _ => 7; os := fun _ => (kernel_ok, 9) |}.

(** A permanent file with one byte, open, and committed by its close. *)
Definition permanent_state : Server :=
  let H := permanent_config in
  state_of (run [start_server 1; handle_request (HandshakeNamed 7 7 "app" false); handle_request (Create 7 3 "/c/f");
                 client_data 7 [Some x61]; handle_request (Write 7 3 1)]).
Definition permanent_file : CapioFile := default CapioFile_default (heap permanent_state !! 1).
Lemma permanent_os : forall n, fst (@os permanent_config n) = kernel_ok /\ 0 <= snd (@os permanent_config n).
Proof. intros n. split; [done|]. vm_compute. discriminate. Qed.

(** Closing a permanent file twice ends the server: with the commit on close and
    no number of closes configured, a file open through two descriptors is
    committed by the first close, and the second one calls [ERR_EXIT]. *)
Theorem second_close_exits :
  let H := permanent_config in
  let s := state_of (run [start_server 1; handle_request (HandshakeNamed 7 7 "app" false);
                          handle_request (Create 7 3 "/c/f"); handle_request (Dup 7 3 4);
                          client_data 7 [Some x61]; handle_request (Write 7 3 1);
                          handle_request (Close 7 3)]) in
  isCommitted <$> heap s !! 1 = Some true /\
  handle_request (Close 7 4) s = Exit "ftruncate/close commit capio_file".
Proof. split; vm_compute; reflexivity. Qed.
