(* ===== verification/Creation.v ===== *)
(** * New files

    What [create_handler] does for a path nobody knows ([handlers/open.hpp]): the
    file, its descriptor, its location and its entry in the directory, through
    [StorageManager], [Locations] and [ClientManager]. *)
From S2P Require Import Prelude Memory Sectors FileBuffer Queue CapioFile ClientManager Locations Server StorageManager Handlers RemoteHandlers ServerInv ServerProps ServerBehaviour.

(** [open_fd]: the state after a descriptor of the file [id] was opened. *)
Definition with_descriptor (tid fd : Z) (path : string) (offset id : Z) (f : CapioFile) (s : Server) : Server :=
  set_descriptor tid fd {| _pointer := Some id; _offset := Some (Server.next_offset s); _path := path |}
    {| heap := <[id := addFd tid fd (file_open f)]> (heap s); next_file := next_file s; _storage := _storage s;
       _opened_fd_map := _opened_fd_map s; offsets := <[Server.next_offset s := offset]> (offsets s);
       next_offset := Server.next_offset s + 1; client_manager := client_manager s; locations := locations s;
       threads := threads s; outbox := outbox s; inbox := inbox s; os_calls := os_calls s |}.

Lemma twp_addFileToTid tid fd path offset id f s (Q : unit -> Server -> Prop) :
  _storage s !! path = Some id -> heap s !! id = Some f -> Q tt (with_descriptor tid fd path offset id f s) ->
  twp (addFileToTid tid fd path offset) Q s.
Proof.
  intros Hst Hf HQ.
  assert (Hat : forall s' (R : Z -> Server -> Prop), _storage s' !! path = Some id -> R id s' -> twp (storage_at path) R s').
  { intros s' R Hs' HR. unfold storage_at, tryGet. apply twp_bind, twp_gets. rewrite Hs'. by apply twp_ret. }
  unfold addFileToTid, _addNewFdToStorage, _addNewFdToMap. apply twp_bind. cbn [when].
  apply twp_bind, twp_bind, Hat; [done|]. eapply twp_file_do; [done|].
  apply twp_bind, Hat; [done|]. eapply twp_file_do; [simpl; by rewrite lookup_insert_eq|]. simpl. rewrite insert_insert_eq.
  apply twp_bind, Hat; [done|]. apply twp_bind. eapply twp_Done; [done|]. by apply twp_modify.
Qed.

Lemma descriptor_at_set tid fd d s : descriptor_at (set_descriptor tid fd d s) tid fd = Some d.
Proof. unfold descriptor_at, set_descriptor. simpl. rewrite lookup_insert_eq. simpl. by rewrite lookup_insert_eq. Qed.

Lemma descriptor_at_set_ne tid fd d s t e :
  (t, e) <> (tid, fd) -> descriptor_at (set_descriptor tid fd d s) t e = descriptor_at s t e.
Proof.
  intros Hne. unfold descriptor_at, set_descriptor. simpl. destruct (decide (t = tid)) as [->|Ht].
  - rewrite lookup_insert_eq. simpl. rewrite lookup_insert_ne by congruence. by destruct (_opened_fd_map s !! tid).
  - by rewrite lookup_insert_ne.
Qed.

Section Creation.
Context `{Config}.
Hypothesis os_succeeds : forall n, fst (os n) = kernel_ok /\ 0 <= snd (os n).

(** Nobody knows the path: this server has no file and no location for it, and no
    node lists it. *)
Record unknown (s : Server) (path : string) : Prop := {
  un_storage : _storage s !! path = None;
  un_location : files_location (locations s) !! path = None;
  un_listed : existsb (listed (locations s) path) get_nodes = false
}.

(** The directory [dir] of the server has [n] entries. *)
Record has_directory (s : Server) (dir : string) (idd n : Z) (d : CapioFile) : Prop := {
  hd_storage : _storage s !! dir = Some idd;
  hd_heap : heap s !! idd = Some d;
  hd_live : live (_buffer d);
  hd_first : _first_write d = false;
  hd_entries : directory_of n d;
  hd_range : 0 <= n < 2 ^ 31 - 1
}.

(** What the creation of [path] leaves. *)
Record created (s s' : Server) (tid fd : Z) (path : string) (idd n : Z) (d : CapioFile) (r : list Z) : Prop := {
  cr_open : exists f, opened s' tid fd path (next_file s) (Server.next_offset s) 0 f /\
    _sectors f = [] /\ file_inv f /\ live (_buffer f) /\ _first_write f = false /\ _committed f = false /\
    _directory f = false /\ _threads_fd f = [(tid, fd)];
  cr_location : get_file_location_opt (locations s') path = Some (BackendName, strlen (location_file (locations s) get_node_name)) /\
    forall q nd, listed (locations s') q nd = listed (locations s) q nd || bool_decide (nd = get_node_name) && same_path path q;
  cr_entry : exists d', heap s' !! idd = Some d' /\ file_inv d' /\ directory_of (n + 1) d' /\
    (forall x, x < n * sizeof_linux_dirent64 -> file_data d' x = file_data d x) /\
    (forall i, 0 <= i < sizeof_linux_dirent64 -> file_data d' (n * sizeof_linux_dirent64 + i) =
       default None (dirent_bytes (path_hash path) ((n + 1) * sizeof_linux_dirent64)
         (if _directory d then DT_DIR else DT_REG) (path_filename path) !! Z.to_nat i));
  cr_others : (forall id, id <> next_file s -> id <> idd -> heap s' !! id = heap s !! id) /\
    (forall q, q <> path -> _storage s' !! q = _storage s !! q) /\
    (forall t e, (t, e) <> (tid, fd) -> descriptor_at s' t e = descriptor_at s t e);
  cr_producer : isProducer (client_manager s') tid path = true;
  cr_reply : replies s' tid = Some (r ++ [0]);
  cr_queues : data_buffers (client_manager s') = data_buffers (client_manager s)
}.

(** The state once the replies of [tid] are [r]. *)
Definition replied_with (tid : Z) (r : list Z) (s : Server) : Server :=
  set_client_manager (set_responses (<[tid := r]> (responses (client_manager s))) (client_manager s)) s.

Lemma unknown_path s path : unknown s path -> location_known path s = Done (false, s).
Proof using.
  intros [_ Hl Hn]. unfold location_known, bind, location_opt, gets, get_file_location_opt. simpl. rewrite Hl.
  unfold location_load, on_locations, zoom. simpl. rewrite <- load_file_location_found in Hn.
  destruct (load_file_location path (locations s)) as [b l] eqn:E. simpl in Hn. subst b.
  unfold load_file_location in E. destruct (search_nodes _ _ _) as [[? ?]|]; [done|]. injection E as <-. by destruct s.
Qed.

(** The file and its descriptor; then its registration. *)
Definition new_file (path : string) : CapioFile :=
  CapioFile_directory false (getDirectoryFileCount path) (isPermanent path)
    (if 1 <? getDirectoryFileCount path then CAPIO_DEFAULT_DIR_INITIAL_SIZE else getFileInitialSize) (getCommitCloseCount path).
Definition with_new_file (path : string) (s : Server) : Server := {|
  heap := <[next_file s := new_file path]> (heap s); next_file := next_file s + 1;
  _storage := <[path := next_file s]> (_storage s); _opened_fd_map := _opened_fd_map s;
  offsets := offsets s; next_offset := Server.next_offset s; client_manager := client_manager s; locations := locations s;
  threads := threads s; outbox := outbox s; inbox := inbox s; os_calls := os_calls s |}.
Definition registered_file (tid fd : Z) (path : string) (s : Server) : Server :=
  let s1 := with_descriptor tid fd path 0 (next_file s) (new_file path) (with_new_file path s) in
  set_locations (write_file_location path (locations s))
    (set_heap (<[next_file s := registerFirstWrite (addFd tid fd (file_open (new_file path)))]> (heap s1))
      (set_client_manager (registerProducedFile tid path (client_manager s)) s1)).

Lemma gwp_update_metadata tid fd path s (Q : outcome (unit * Server) -> Prop) :
  _storage s !! path = None -> gwp (updateDirectory tid path) Q (registered_file tid fd path s) ->
  gwp (update_file_metadata path tid fd true 0) Q s.
Proof using.
  intros Hst HQ. unfold update_file_metadata, tryGet. apply gwp_bind, twp_gets. rewrite Hst. apply gwp_bind.
  unfold storage_add. apply twp_bind, twp_gets. rewrite Hst. apply twp_bind. eapply twp_Done; [done|].
  apply twp_bind, twp_modify, twp_ret. fold (new_file path). simpl. apply gwp_bind.
  eapply (twp_addFileToTid tid fd path 0 (next_file s) (new_file path)); [simpl; by rewrite lookup_insert_eq..|].
  apply gwp_bind. eapply twp_file_get; [simpl; by rewrite lookup_insert_eq|]. cbn [isFirstWrite andb when].
  apply gwp_bind. eapply twp_Done; [done|]. simpl. apply gwp_bind. eapply twp_file_do; [simpl; by rewrite lookup_insert_eq|]. simpl.
  apply gwp_bind. eapply twp_Done; [done|]. simpl. unfold registered_file in HQ. simpl in HQ.
  rewrite !insert_insert_eq in *. exact HQ.
Qed.

Lemma registered_file_open tid fd path s :
  let f := registerFirstWrite (addFd tid fd (file_open (new_file path))) in
  opened (registered_file tid fd path s) tid fd path (next_file s) (Server.next_offset s) 0 f.
Proof using.
  split; unfold registered_file; simpl; [apply descriptor_at_set|by rewrite lookup_insert_eq..].
Qed.

(** The entry of a file in its directory. *)
Lemma twp_updateDirectory tid path s idd n d :
  has_directory s (get_parent_dir_path path) idd n d -> file_inv d ->
  (String.length (path_filename path) < NAME_MAX)%nat ->
  twp (updateDirectory tid path) (fun _ s' => entry_added s s' tid (get_parent_dir_path path) idd n d
    (bool_decide (getCommitRule path = ON_N_FILES))
    (dirent_bytes (path_hash path) ((n + 1) * sizeof_linux_dirent64) (if _directory d then DT_DIR else DT_REG) (path_filename path))) s.
Proof using os_succeeds.
  intros [Hds Hdh Hdl Hdf Hde Hdr] Hd Hname.
  unfold updateDirectory. apply twp_bind. eapply twp_storage_get; [exact Hds|]. apply twp_bind. eapply twp_file_get; [exact Hdh|].
  unfold isFirstWrite. rewrite Hdf. apply twp_bind, twp_ret.
  destruct (addDirectoryEntry_spec os_succeeds s tid path (get_parent_dir_path path) REGULAR_ENTRY idd d n Hds Hdh
    Hd Hdl Hde Hdr Hname) as (s' & E & Hadd).
  by exists tt, s'.
Qed.

(** Without the directory the server ends; a name that does not fit in an entry is
    written past it. *)
Lemma updateDirectory_missing tid path s :
  _storage s !! get_parent_dir_path path = None -> exists w, updateDirectory tid path s = Exit w.
Proof using. intros Hd. eexists. unfold updateDirectory, storage_get, tryGet, bind, gets. simpl. rewrite Hd. done. Qed.
Lemma updateDirectory_overrun tid path s idd n d :
  has_directory s (get_parent_dir_path path) idd n d -> (NAME_MAX <= String.length (path_filename path))%nat ->
  exists w, updateDirectory tid path s = UB w.
Proof using.
  intros [Hds Hdh _ Hdf _ _] Hname. eexists. unfold updateDirectory, storage_get, tryGet, bind, gets. simpl. rewrite Hds. simpl.
  unfold file_get. rewrite Hdh. simpl. unfold isFirstWrite. rewrite Hdf. simpl. unfold addDirectoryEntry, bind.
  rewrite (proj2 (Nat.ltb_ge _ _) Hname). done.
Qed.

(** The directory is still there once the file is registered. *)
Lemma registered_file_directory tid fd path s idd n d :
  server_inv s -> unknown s path -> has_directory s (get_parent_dir_path path) idd n d ->
  has_directory (registered_file tid fd path s) (get_parent_dir_path path) idd n d.
Proof using.
  intros Hinv [Hst _ _] [Hds Hdh Hdl Hdf Hde Hdr].
  assert (Hne : idd <> next_file s) by (intros ->; apply (si_fresh _ Hinv) in Hdh; lia).
  split; try done; simpl; [rewrite lookup_insert_ne by congruence|rewrite !lookup_insert_ne by done]; done.
Qed.

Hypothesis initial_size : 0 <= getFileInitialSize < 2 ^ 63.

Lemma new_file_facts tid fd path :
  let f := registerFirstWrite (addFd tid fd (file_open (new_file path))) in
  _sectors f = [] /\ file_inv f /\ live (_buffer f) /\ _first_write f = false /\ _committed f = false /\
  _directory f = false /\ _threads_fd f = [(tid, fd)].
Proof using initial_size.
  intros f. split_and!; try done. apply (same_data_inv (new_file path)); [done|]. apply file_inv_directory.
  unfold CAPIO_DEFAULT_DIR_INITIAL_SIZE. case_match; lia.
Qed.

Lemma create_completes s tid fd path idd n d r :
  server_inv s -> isExcluded path = false -> unknown s path ->
  has_directory s (get_parent_dir_path path) idd n d -> (String.length (path_filename path) < NAME_MAX)%nat ->
  complete (location_file (locations s) get_node_name) = true -> path_ok path = true -> node_ok get_node_name = true ->
  is_Some (files_created_by_producer (client_manager s) !! tid) -> replies s tid = Some r ->
  exists s', create_handler tid fd path s = Done (tt, s') /\ created s s' tid fd path idd n d r.
Proof using os_succeeds initial_size.
  intros Hinv Hex Hun Hdir Hname Hcomp Hpath Hnode Hreg Hrep.
  assert (Hne : idd <> next_file s) by (intros ->; pose proof (si_fresh _ Hinv _ _ (hd_heap _ _ _ _ _ Hdir)); lia).
  destruct (twp_updateDirectory tid path _ idd n d (registered_file_directory tid fd path s idd n d Hinv Hun Hdir)
    (si_files _ Hinv _ _ (hd_heap _ _ _ _ _ Hdir)) Hname) as ([] & s1 & E1 & [Hfile Hoth Hrest]).
  set (s0 := registered_file tid fd path s) in *.
  assert (Hresp : responses (client_manager s1) = responses (client_manager s)).
  { rewrite Hrest. simpl. by rewrite !responses_registerProducedFile. }
  set (s2 := set_client_manager (set_responses (<[tid := r ++ [0]]> (responses (client_manager s1))) (client_manager s1)) s1).
  exists s2. split.
  { unfold create_handler, unless_excluded, handle_create. rewrite Hex. eapply bind_done; [by apply unknown_path|]. cbn [negb].
    eapply bind_done; [by apply (gwp_update_metadata tid fd path s (fun r => r = Done (tt, s1)) (un_storage _ _ Hun))|].
    unfold s2, reply, on_clients, zoom, replyToClient. rewrite Hresp. unfold replies in Hrep. by rewrite Hrep. }
  destruct (registered_file_open tid fd path s) as [Od Os Oh Oo]. fold s0 in Od, Os, Oh, Oo.
  destruct (registered_producer tid path (client_manager s) Hreg) as [Hp1 Hp2].
  split; simpl.
  - eexists. split; [|apply new_file_facts]. split; simpl.
    + unfold descriptor_at in *. simpl. rewrite Hrest. exact Od.
    + rewrite Hrest. exact Os.
    + rewrite Hoth by done. exact Oh.
    + rewrite Hrest. exact Oo.
  - rewrite Hrest. simpl. split.
    + unfold get_file_location_opt, write_file_location, add_file_location. simpl.
      rewrite emplace_lookup, (un_location _ _ Hun). done.
    + intros q nd. by apply listed_write.
  - destruct Hfile as (d' & Hd' & Hi & He & Hold & Hnew & _). by exists d'.
  - split_and!.
    + intros id H1 H2. rewrite Hoth by done. unfold s0, registered_file. simpl. by rewrite !lookup_insert_ne.
    + intros q Hq. rewrite Hrest. simpl. by rewrite lookup_insert_ne.
    + intros t e Hte. unfold descriptor_at. simpl. rewrite Hrest. by apply (descriptor_at_set_ne tid fd _ (with_new_file path s)).
  - change (isProducer (client_manager s1) tid path = true). rewrite Hrest. simpl.
    rewrite (proj1 (producers_correct tid (get_parent_dir_path path) path _ Hp2)), Hp1. apply orb_true_r.
  - unfold replies. simpl. by rewrite lookup_insert_eq.
  - rewrite Hrest. simpl. by rewrite !data_buffers_registerProducedFile.
Qed.

(** When the directory cannot take the entry, neither can the request. *)
Lemma create_fails s tid fd path (Q : outcome (unit * Server) -> Prop) :
  isExcluded path = false -> unknown s path ->
  (forall r, Q r -> Q (outcome_bind r (fun '(_, s1) => reply tid 0 s1))) ->
  Q (updateDirectory tid path (registered_file tid fd path s)) -> Q (create_handler tid fd path s).
Proof using.
  intros Hex Hun Hcl HQ. unfold create_handler, unless_excluded, handle_create. rewrite Hex.
  apply gwp_bind. eapply twp_Done; [by apply unknown_path|]. cbn [negb]. unfold gwp, bind. apply Hcl.
  by apply (gwp_update_metadata tid fd path s Q (un_storage _ _ Hun)).
Qed.


(** ** The first write of a file that was opened, not created *)

Hypothesis cache_line_pos : 0 < getCacheLineSize.

(** What the first write leaves, beside what every write does ([stored_in]). *)
Record first_written (s s' : Server) (tid fd : Z) (path : string) (id o v : Z) (f : CapioFile) (data : list cell)
    (b : ClientDataBuffers) (idd n : Z) (d : CapioFile) : Prop := {
  fw_open : exists f', opened s' tid fd path id o (v + Z.of_nat (length data)) f' /\
    stored_in f f' v data /\ _first_write f' = false;
  fw_location : get_file_location_opt (locations s') path =
      Some (default (BackendName, strlen (location_file (locations s) get_node_name))
              (get_file_location_opt (locations s) path)) /\
    forall q nd, listed (locations s') q nd = listed (locations s) q nd || bool_decide (nd = get_node_name) && same_path path q;
  fw_entry : exists d', heap s' !! idd = Some d' /\ file_inv d' /\ directory_of (n + 1) d' /\
    (forall x, x < n * sizeof_linux_dirent64 -> file_data d' x = file_data d x) /\
    (forall i, 0 <= i < sizeof_linux_dirent64 -> file_data d' (n * sizeof_linux_dirent64 + i) =
       default None (dirent_bytes (path_hash path) ((n + 1) * sizeof_linux_dirent64)
         (if _directory d then DT_DIR else DT_REG) (path_filename path) !! Z.to_nat i));
  fw_others : (forall id', id' <> id -> id' <> idd -> heap s' !! id' = heap s !! id') /\ _storage s' = _storage s /\
    (forall t e, descriptor_at s' t e = descriptor_at s t e);
  fw_producer : isProducer (client_manager s') tid path = true;
  fw_queue : data_buffers (client_manager s') !! tid =
    Some {| ClientToServer := fifo_skip (length (write_chunks getCacheLineSize data)) (ClientToServer b);
            ServerToClient := ServerToClient b |}
}.

Lemma stored_first f f2 v e data :
  stored_in f (file_insertSector v e f2) v data -> stored_in f (registerFirstWrite (file_insertSector v e f2)) v data.
Proof using.
  intros [Hi Hs Hn Ho]. split; [by eapply same_data_inv; [apply same_data_registerFirstWrite|]|done|..];
    intros x; rewrite (same_data_data _ _ x (same_data_registerFirstWrite _)); auto.
Qed.

(** The registration of the first write, up to the directory. *)
Lemma gwp_register_first tid path id f v e s (Q : outcome (unit * Server) -> Prop) :
  heap s !! id = Some f -> _first_write f = true ->
  gwp (updateDirectory tid path) Q
    (set_locations (write_file_location path (locations s))
      (set_heap (<[id := registerFirstWrite (file_insertSector v e f)]> (heap s))
        (set_client_manager (registerProducedFile tid path (client_manager s)) s))) ->
  gwp (register_written_data tid path id v e) Q s.
Proof using.
  intros Hf Hfirst HQ. unfold register_written_data. apply gwp_bind. eapply twp_Done; [done|]. simpl.
  apply gwp_bind. eapply twp_file_do; [done|]. simpl. apply gwp_bind. eapply twp_file_get; [simpl; by rewrite lookup_insert_eq|].
  change (isFirstWrite (file_insertSector v e f)) with (_first_write f). rewrite Hfirst. cbn [when].
  apply gwp_bind. eapply twp_file_do; [simpl; by rewrite lookup_insert_eq|]. simpl. apply gwp_bind. eapply twp_Done; [done|]. simpl. rewrite ?insert_insert_eq. exact HQ.
Qed.

(** The write, up to the directory: the data is stored and the file registered. *)
Definition first_stored (s : Server) (tid : Z) (path : string) (id v : Z) (f2 : CapioFile) (data : list cell)
    (b : ClientDataBuffers) (k : nat) : Server :=
  let c := set_data_buffers (<[tid := {| ClientToServer := fifo_skip (length (write_chunks getCacheLineSize data)) (ClientToServer b);
                                         ServerToClient := ServerToClient b |}]> (data_buffers (client_manager s))) (client_manager s) in
  set_locations (write_file_location path (locations s))
    (set_heap (<[id := registerFirstWrite (file_insertSector v (v + Z.of_nat (length data)) f2)]> (heap s))
      (set_client_manager (registerProducedFile tid path c) (set_os_calls k s))).

Lemma gwp_first_write s tid fd path id o v f b data rest (Q : outcome (unit * Server) -> Prop) :
  server_inv s -> opened s tid fd path id o v f -> fits (_buffer f) (v + Z.of_nat (length data)) -> 0 <= v -> _first_write f = true ->
  data_buffers (client_manager s) !! tid = Some b ->
  fifo_pending (ClientToServer b) = write_chunks getCacheLineSize data ++ rest ->
  (forall f2 k, stored_in f (file_insertSector v (v + Z.of_nat (length data)) f2) v data ->
     gwp (updateDirectory tid path ;; setFileOffset tid fd (v + Z.of_nat (length data))) Q (first_stored s tid path id v f2 data b k)) ->
  gwp (write_handler tid fd (Z.of_nat (length data))) Q s.
Proof using os_succeeds cache_line_pos.
  intros Hinv Hop Hl Hv Hfirst Hb Hq HQ.
  eapply (gwp_stored os_succeeds cache_line_pos); [done|by eapply (si_files _ Hinv), Hop|done..|].
  intros f2 k Hsd _ Hf2. specialize (HQ f2 k Hsd). set (e := v + _) in *.
  unfold gwp, bind at 1. eapply (gwp_register_first tid path id f2 v e _ (fun r => Q (outcome_bind r (fun '(_, s1) => setFileOffset tid fd e s1))));
    [simpl; by rewrite lookup_insert_eq|by rewrite Hf2|]. simpl. rewrite insert_insert_eq. exact HQ.
Qed.

Lemma first_stored_directory s tid path id o v f f2 data b k fd dir idd n d :
  opened s tid fd path id o v f -> _first_write f = true -> has_directory s dir idd n d ->
  idd <> id /\ has_directory (first_stored s tid path id v f2 data b k) dir idd n d.
Proof using.
  intros [_ _ Hf _] Hfirst [Hds Hdh Hdl Hdf Hde Hdr].
  assert (idd <> id) by congruence. split; [done|]. split; try done. simpl. by rewrite lookup_insert_ne.
Qed.

Lemma first_write_completes s tid fd path id o v f b data rest idd n d :
  server_inv s -> opened s tid fd path id o v f -> fits (_buffer f) (v + Z.of_nat (length data)) -> 0 <= v -> _first_write f = true ->
  has_directory s (get_parent_dir_path path) idd n d -> (String.length (path_filename path) < NAME_MAX)%nat ->
  complete (location_file (locations s) get_node_name) = true -> path_ok path = true -> node_ok get_node_name = true ->
  is_Some (files_created_by_producer (client_manager s) !! tid) ->
  data_buffers (client_manager s) !! tid = Some b ->
  fifo_pending (ClientToServer b) = write_chunks getCacheLineSize data ++ rest ->
  exists s', write_handler tid fd (Z.of_nat (length data)) s = Done (tt, s') /\
    first_written s s' tid fd path id o v f data b idd n d.
Proof using os_succeeds cache_line_pos.
  intros Hinv Hop Hl Hv Hfirst Hdir Hname Hcomp Hpath Hnode Hreg Hb Hq.
  cut (twp (write_handler tid fd (Z.of_nat (length data)))
        (fun _ s' => first_written s s' tid fd path id o v f data b idd n d) s).
  { intros ([] & s' & E & Hw). by exists s'. }
  apply gwp_returns. eapply gwp_first_write; [done..|]. intros f2 k Hsd. apply gwp_returns. set (e := v + _) in *.
  destruct (first_stored_directory s tid path id o v f f2 data b k fd _ idd n d Hop Hfirst Hdir) as [Hne Hdir1].
  set (s1 := first_stored _ _ _ _ _ _ _ _ _) in *. apply twp_bind.
  eapply twp_mono; [by apply (twp_updateDirectory tid path s1 idd n d Hdir1 (si_files _ Hinv _ _ (hd_heap _ _ _ _ _ Hdir)))|].
  intros [] s2 [Hfile Hoth Hrest]. destruct Hop as [Od Os Oh Oo].
  assert (Hop2 : opened s2 tid fd path id o v (registerFirstWrite (file_insertSector v e f2))).
  { split; [unfold descriptor_at in *; by rewrite Hrest|by rewrite Hrest| |by rewrite Hrest].
    rewrite Hoth by done. simpl. by rewrite lookup_insert_eq. }
  eapply twp_setFileOffset; [exact Hop2|]. destruct Hop2 as [Od2 Os2 Oh2 Oo2]. split; simpl.
  - eexists. split; [|split; [by apply stored_first|done]].
    split; [exact Od2|exact Os2|exact Oh2|simpl; by rewrite lookup_insert_eq].
  - rewrite Hrest. simpl. split; [|intros q nd; by apply listed_write].
    unfold get_file_location_opt, write_file_location, add_file_location. simpl. apply emplace_lookup.
  - destruct Hfile as (d' & Hd' & Hi & He & Hold & Hnew & _). by exists d'.
  - split_and!.
    + intros id' H1 H2. rewrite Hoth by done. simpl. by rewrite lookup_insert_ne.
    + by rewrite Hrest.
    + intros t e'. unfold descriptor_at. simpl. by rewrite Hrest.
  - rewrite Hrest. simpl.
    match goal with |- isProducer (registerProducedFile _ _ (registerProducedFile _ _ ?c)) _ _ = _ =>
      destruct (registered_producer tid path c Hreg) as [Hp1 Hp2] end.
    rewrite (proj1 (producers_correct tid (get_parent_dir_path path) path _ Hp2)), Hp1. apply orb_true_r.
  - rewrite Hrest. simpl. rewrite !data_buffers_registerProducedFile. simpl. by rewrite lookup_insert_eq.
Qed.

End Creation.

(** ** A thread creates "/c/f" *)

Definition demo_client : Server :=
  let H := demo_config true in state_of (run [start_server 1; handle_request (HandshakeNamed 7 7 "app" false)]).
Lemma demo_client_inv : server_inv demo_client.
Proof.
  apply (@reachable_inv (demo_config true)); [vm_compute; split; [discriminate|reflexivity]|vm_compute; reflexivity|].
  eapply (@reach_step _ (ERequest (HandshakeNamed 7 7 "app" false))); [|exact I|].
  - apply (@reach_start _ 1). vm_compute. reflexivity.
  - apply step_request. vm_compute. reflexivity.
Qed.
Lemma demo_client_directory : has_directory demo_client "/c" 0 2 demo_dir.
Proof. split; [vm_compute; reflexivity..|exact I|vm_compute; reflexivity|vm_compute; split; reflexivity|lia]. Qed.


(** ** A thread opens "/c/f", which node b lists, and writes to it *)

Definition listed_by_b (s : Server) : Server :=
  set_locations (set_location_files (<["b" := location_line "/c/f" "b"]> (location_files (locations s))) (locations s)) s.
Definition demo_opened : Server :=
  match @handle_request (demo_config true) (Open 7 3 "/c/f") (listed_by_b demo_client) with
  | Done (_, s) => s
  | _ => Server_new
  end.
Definition demo_writer : Server :=
  match client_data 7 [Some x61; Some x62] demo_opened with Done (_, s) => s | _ => Server_new end.
Lemma demo_writer_inv : server_inv demo_writer.
Proof.
  set (H := demo_config true).
  assert (forall e s s', server_inv s -> event_ok e s -> step e s s' -> server_inv s') as Hstep.
  { intros e s s'. apply step_inv; [vm_compute; split; [discriminate|reflexivity]|vm_compute; reflexivity]. }
  apply (Hstep (EClientData 7 [Some x61; Some x62]) demo_opened); [|exact I|].
  - apply (Hstep (ERequest (Open 7 3 "/c/f")) (listed_by_b demo_client)); [|exact I|].
    + apply (Hstep (ELocation "b" (location_line "/c/f" "b")) demo_client); [exact demo_client_inv|exact I|apply step_location].
    + apply step_request. vm_compute. reflexivity.
  - unfold demo_writer, client_data. destruct (data_buffers (client_manager demo_opened) !! 7) as [b|] eqn:E.
    + by apply step_client_data.
    + vm_compute in E. discriminate.
Qed.

