(* ===== verification/ServerLiveness.v ===== *)
(** * Every waiting reader is answered

    A read that cannot be served starts a thread that waits.  Once the files the
    readers wait for are committed, each of the threads can run, in whatever order
    the scheduler picks them: none fails, none makes another wait again, and each
    reader gets one reply and its data. *)
From S2P Require Import Prelude Sectors Memory Queue FileBuffer CapioFile ClientManager Locations Server StorageManager Handlers RemoteHandlers ServerInv ServerProps ServerBehaviour.

(** A read that waits, for a commit or for data. *)
Record reader : Type := { rd_file : Z; rd_tid : Z; rd_fd : Z; rd_count : Z; rd_offset : Z; rd_commit : bool }.
Definition reader_task (r : reader) : task :=
  if rd_commit r then PendingReadCommit (rd_file r) (rd_tid r) (rd_fd r) (rd_count r) (rd_offset r)
  else PendingReadData (rd_file r) (rd_tid r) (rd_fd r) (rd_count r) (rd_offset r).

Section Liveness.
Context `{Config}.
Hypothesis os_succeeds : forall n, fst (os n) = kernel_ok /\ 0 <= snd (os n).

(** The reader's descriptor is open, at whatever offset, on a file that is committed
    since it began to wait. *)
Record waits (s : Server) (r : reader) : Prop := {
  wt_open : exists path o w f, opened s (rd_tid r) (rd_fd r) path (rd_file r) o w f
    /\ file_inv f /\ _committed f = true;
  wt_range : 0 <= rd_offset r /\ 0 <= rd_count r;
  wt_client : is_Some (replies s (rd_tid r)) /\ is_Some (data_buffers (client_manager s) !! rd_tid r)
}.

(** The bytes of file [id] at [x]. *)
Definition byte_of (s : Server) (id x : Z) : cell := heap s !! id ≫= fun f => file_data f x.

(** Serving another reader does not disturb this one. *)
Lemma waits_after s s' tid o id v n f l q r :
  waits s r -> served s s' tid o id v n f l q -> heap s !! id = Some f -> _committed f = true -> rd_tid r <> tid ->
  waits s' r.
Proof using.
  intros [(path & o' & w & g & [Hd Hst Hg Ho] & Hinv & Hc) Hr [Hrep Hb]]
    [_ _ Hov _ (f' & Hf' & Hsec & Hdata & Hinv' & _ & Hc') [Es Eo] _ _ (Hh & Hoff & Hcl)] Hf Hcf Ht.
  destruct (Hcl (rd_tid r) Ht) as [Hrep' Hb']. split; [|done|by rewrite Hrep', Hb'].
  assert (Hdesc : descriptor_at s' (rd_tid r) (rd_fd r) = descriptor_at s (rd_tid r) (rd_fd r)) by (unfold descriptor_at; by rewrite Eo).
  assert (Hw : exists w', offsets s' !! o' = Some w').
  { destruct (decide (o' = o)) as [->|Hne]; [by eexists|]. rewrite Hoff by done. by eexists. }
  destruct Hw as [w' Hw]. destruct (decide (rd_file r = id)) as [E|E].
  - exists path, o', w', f'. split; [|by rewrite Hc']. split; [by rewrite Hdesc|by rewrite Es|by rewrite E|done].
  - exists path, o', w', g. split; [|done]. split; [by rewrite Hdesc|by rewrite Es|by rewrite Hh|done].
Qed.

(** Whether a sector of the file has [x]. *)
Definition is_data (s : Server) (id x : Z) : Prop := exists f, heap s !! id = Some f /\ holds (_sectors f) x.
Lemma is_data_served s s' tid o id v n f l q id' x :
  served s s' tid o id v n f l q -> heap s !! id = Some f -> is_data s' id' x <-> is_data s id' x.
Proof using.
  intros [_ _ _ _ (f' & Hf' & Hsec & _) _ _ _ (Hh & _)] Hf. unfold is_data.
  destruct (decide (id' = id)) as [->|]; [|by rewrite Hh]. rewrite Hf, Hf'.
  split; intros (g & [= <-] & Hg); eexists; (split; [done|]); congruence.
Qed.

Lemma byte_of_served s s' tid o id v n f l q id' x :
  served s s' tid o id v n f l q -> heap s !! id = Some f -> byte_of s' id' x = byte_of s id' x.
Proof using.
  intros [_ _ _ _ (f' & Hf' & _ & Hdata & _) _ _ _ (Hh & _)] Hf. unfold byte_of.
  destruct (decide (id' = id)) as [->|]; [rewrite Hf, Hf'; apply Hdata|by rewrite Hh].
Qed.

(** The reader has one more reply, the new offset, and the bytes before it: all it
    asked for, or up to where the data ends. *)
Definition answered (s s' : Server) (r : reader) : Prop :=
  exists l q n, replies s (rd_tid r) = Some l /\ replies s' (rd_tid r) = Some (l ++ [rd_offset r + n])
    /\ sent_data s (rd_tid r) = Some q
    /\ sent_data s' (rd_tid r) = Some (fifo_write getCacheLineSize (byte_of s (rd_file r) <$> seqZ (rd_offset r) n) q)
    /\ 0 <= n <= rd_count r /\ (forall y, rd_offset r <= y < rd_offset r + n -> is_data s (rd_file r) y)
    /\ (n = rd_count r \/ ~ is_data s (rd_file r) (rd_offset r + n)).

(** The events happen one after the other. *)
Fixpoint steps (es : list event) (s s' : Server) : Prop :=
  match es with [] => s' = s | e :: es' => exists s1, step e s s1 /\ steps es' s1 s' end.

(** One waiting reader runs. *)
Lemma reader_runs s r before after :
  threads s = before ++ reader_task r :: after -> waits s r ->
  exists s' o n f l q, step (ETask (reader_task r)) s s' /\ threads s' = before ++ after
    /\ served (set_threads (before ++ after) s) s' (rd_tid r) o (rd_file r) (rd_offset r) n f l q
    /\ heap s !! rd_file r = Some f /\ _committed f = true /\ answered s s' r.
Proof.
  intros Hth [(path & o & w & f & Hop & Hinv & Hc) [Hv Hn] [[l Hrep] [b Hb]]]. set (s0 := set_threads (before ++ after) s).
  assert (Hop0 : opened s0 (rd_tid r) (rd_fd r) path (rd_file r) o w f) by by destruct Hop.
  destruct (pending_read_spec os_succeeds s0 (rd_tid r) (rd_fd r) path (rd_file r) o w (rd_offset r) f (rd_count r) l b)
    as (s' & n & E & Hs & Hn' & Hall & Hmax); try done.
  pose proof (op_file _ _ _ _ _ _ _ _ Hop) as Hf.
  exists s', o, n, f, l, (ServerToClient b). split_and!; [|by apply Hs|done|done|done|].
  - apply (step_task before (reader_task r) after); [done| |].
    + unfold reader_task. destruct (rd_commit r); simpl; rewrite Hf; [done|]. unfold data_ready. by rewrite Hc, orb_true_r.
    + unfold reader_task. by destruct (rd_commit r).
  - exists l, (ServerToClient b), n. split_and!; try done; try lia.
    + apply Hs.
    + unfold sent_data. by rewrite Hb.
    + rewrite (sv_data _ _ _ _ _ _ _ _ _ _ Hs). do 2 f_equal. apply list_fmap_ext. intros i x _. unfold byte_of. by rewrite Hf.
    + intros y Hy. exists f. split; [done|]. by apply Hall.
    + destruct Hmax as [?|Hnot]; [by left|]. right. intros (g & Hg & Hh). apply Hnot. by simplify_eq.
Qed.

(** What was true of a reader before another was served still is. *)
Lemma answered_before s s0 s1 s' tid o id v n f l q r :
  served s0 s1 tid o id v n f l q -> heap s0 = heap s -> client_manager s0 = client_manager s -> heap s0 !! id = Some f ->
  rd_tid r <> tid -> answered s1 s' r -> answered s s' r.
Proof using.
  intros Hs Eh Ec Hf Ht (l' & q' & n' & H1 & H2 & H3 & H4 & H5 & H6 & H7).
  destruct (sv_others _ _ _ _ _ _ _ _ _ _ Hs) as (_ & _ & Hcl). destruct (Hcl (rd_tid r) Ht) as [Hr Hb].
  assert (Hbyte : forall x, byte_of s1 (rd_file r) x = byte_of s (rd_file r) x).
  { intros x. rewrite (byte_of_served _ _ _ _ _ _ _ _ _ _ (rd_file r) x Hs Hf). unfold byte_of. by rewrite Eh. }
  assert (Hdata : forall x, is_data s1 (rd_file r) x <-> is_data s (rd_file r) x).
  { intros x. rewrite (is_data_served _ _ _ _ _ _ _ _ _ _ (rd_file r) x Hs Hf). unfold is_data. by rewrite Eh. }
  assert (Er : replies s1 (rd_tid r) = replies s (rd_tid r)) by (rewrite Hr; unfold replies; by rewrite Ec).
  assert (Ed : sent_data s1 (rd_tid r) = sent_data s (rd_tid r)) by (unfold sent_data; by rewrite Hb, Ec).
  exists l', q', n'. rewrite <- Er, <- Ed. split_and!; try done; try lia.
  - rewrite H4. do 2 f_equal. apply list_fmap_ext. intros i x _. apply Hbyte.
  - intros y Hy. by apply Hdata, H6.
  - destruct H7 as [?|Hnot]; [by left|]. right. by rewrite <- Hdata.
Qed.

(** The readers run in any order. *)
Lemma readers_run order s :
  threads s ≡ₚ reader_task <$> order -> Forall (waits s) order -> NoDup (rd_tid <$> order) ->
  exists s', steps (ETask ∘ reader_task <$> order) s s' /\ threads s' = []
    /\ Forall (answered s s') order
    /\ (forall tid, tid ∉ rd_tid <$> order -> replies s' tid = replies s tid /\ sent_data s' tid = sent_data s tid).
Proof.
  revert s. induction order as [|r order IH]; intros s Hth Hw Ht.
  { exists s. simpl in Hth. apply Permutation_nil_r in Hth. by split_and!. }
  apply Forall_cons in Hw as [Hr Hw]. simpl in Hr, Ht. apply NoDup_cons in Ht as [Ht0 Ht].
  assert (Hin : reader_task r ∈ threads s) by (rewrite Hth; simpl; apply elem_of_cons; by left).
  apply list_elem_of_split in Hin as (before & after & Hsplit).
  destruct (reader_runs s r before after Hsplit Hr) as (s1 & o & n & f & l & q & Hstep & Hth1 & Hs & Hf & Hc & Ha).
  assert (Hrest : forall p, p ∈ order -> rd_tid p <> rd_tid r).
  { intros p Hp E. apply Ht0. rewrite <- E. apply list_elem_of_fmap. by exists p. }
  destruct (IH s1) as (s' & Hsteps & Hend & Hans & Hframe); [| |done|].
  - rewrite Hth1. rewrite Hsplit in Hth. simpl in Hth. rewrite <- Permutation_middle in Hth. by apply Permutation_cons_inv in Hth.
  - apply Forall_forall. intros p Hp. rewrite Forall_forall in Hw.
    eapply (waits_after (set_threads (before ++ after) s)); [|exact Hs|done|done|by apply Hrest].
    destruct (Hw p Hp) as [(path & o' & w & g & [? ? ? ?] & Hg) ? ?]. split; [|done|done]. by exists path, o', w, g.
  - exists s'. split_and!; [by exists s1|done| |].
    + apply Forall_cons. split.
      * destruct (Hframe (rd_tid r) Ht0) as [Hr' Hd']. destruct Ha as (l' & q' & n' & H1 & H2 & H3 & H4 & H5).
        exists l', q', n'. simpl. by rewrite Hr', Hd'.
      * apply Forall_forall. intros p Hp. rewrite Forall_forall in Hans.
        by eapply (answered_before s (set_threads (before ++ after) s)); [exact Hs|..|by apply Hrest|by apply Hans].
    + intros tid Hno. apply not_elem_of_cons in Hno as [Hne Hno]. destruct (Hframe tid Hno) as [-> ->].
      destruct (sv_others _ _ _ _ _ _ _ _ _ _ Hs) as (_ & _ & Hcl). destruct (Hcl tid Hne) as [-> Hb].
      unfold sent_data. by rewrite Hb.
Qed.
End Liveness.

(** C4. Every waiting reader is answered.  When the threads that run in the server wait for
    reads, one for each of some clients, and the files they wait for are committed
    (permanent files, written back by the commit, included), then in
    whatever order the scheduler runs them, each can run
    when its turn comes, all end, and each reader has then got exactly one reply:
    its new offset, with the bytes its file had after the offset it waited at, as many as it asked for or
    up to where the data ends; no other client is sent anything.  The descriptors of the
    readers are still open and the calls of the operating system succeed. *)
Theorem waiting_readers_answered `{Config} (s : Server) (waiting order : list reader) :
  (forall n, fst (os n) = kernel_ok /\ 0 <= snd (os n)) ->
  threads s = reader_task <$> waiting -> Forall (waits s) waiting ->
  NoDup (rd_tid <$> waiting) -> order ≡ₚ waiting ->
  exists s', steps (ETask ∘ reader_task <$> order) s s' /\ threads s' = []
    /\ Forall (answered s s') waiting
    /\ (forall tid, tid ∉ rd_tid <$> waiting -> replies s' tid = replies s tid /\ sent_data s' tid = sent_data s tid).
Proof.
  intros Hos Hth Hw Ht Hperm. destruct (readers_run Hos order s) as (s' & Hsteps & Hend & Hans & Hframe).
  - by rewrite Hth, Hperm.
  - by rewrite Hperm.
  - by rewrite Hperm.
  - exists s'. split_and!; [done|done|by rewrite <- Hperm|]. intros tid Hno. apply Hframe. by rewrite Hperm.
Qed.

(** A thread and its clone wait for data of one permanent file; then a producer writes
    a byte, and its close commits the file. *)
Definition demo_waiting : Server :=
  let H := permanent_config in
  state_of (run [start_server 1; handle_request (HandshakeNamed 7 7 "writer" false);
                 handle_request (HandshakeNamed 8 8 "reader" false); handle_request (HandshakeNamed 9 9 "reader" false);
                 handle_request (Create 7 3 "/c/f"); handle_request (Open 8 4 "/c/f"); handle_request (Clone 8 9);
                 handle_request (Read 8 4 2); handle_request (Read 9 4 9);
                 client_data 7 [Some x61]; handle_request (Write 7 3 1); handle_request (Close 7 3)]).
Definition demo_committed : CapioFile := default CapioFile_default (heap demo_waiting !! 1).
Lemma demo_committed_inv : file_inv demo_committed.
Proof.
  assert (exists f, demo_committed = f) as [f Ef] by by eexists. rewrite Ef. vm_compute in Ef. subst f.
  split; simpl; [|split; [done|split; [|done]]|lia].
  - split; repeat constructor; simpl; lia.
  - by repeat constructor.
Qed.
Definition demo_reader (tid count : Z) : reader :=
  {| rd_file := 1; rd_tid := tid; rd_fd := 4; rd_count := count; rd_offset := 0; rd_commit := false |}.
Lemma demo_waits tid count : (tid, count) = (8, 2) \/ (tid, count) = (9, 9) -> waits demo_waiting (demo_reader tid count).
Proof.
  intros [[= -> ->]|[= -> ->]];
    (split; [exists "/c/f"%string; eexists; exists 0, demo_committed;
               (split; [split; [vm_compute; reflexivity..]|split; [exact demo_committed_inv|reflexivity]])
            |split; apply Z.leb_le; reflexivity|split; eexists; vm_compute; reflexivity]).
Qed.

Lemma waiting_readers_answered_witness :
  let H := permanent_config in
  exists s', steps [ETask (PendingReadData 1 9 4 9 0); ETask (PendingReadData 1 8 4 2 0)] demo_waiting s'
    /\ threads s' = [] /\ (exists n, replies s' 8 = Some [0; 0 + n]) /\ (exists n, replies s' 9 = Some [0 + n]).
Proof.
  intros H. destruct (@waiting_readers_answered H demo_waiting [demo_reader 8 2; demo_reader 9 9] [demo_reader 9 9; demo_reader 8 2])
    as (s' & E & Hth & Ha & _).
  - exact permanent_os.
  - vm_compute. reflexivity.
  - apply Forall_cons. split; [apply demo_waits; by left|]. apply Forall_cons. split; [apply demo_waits; by right|constructor].
  - apply (bool_decide_unpack _). vm_compute. exact I.
  - apply perm_swap.
  - exists s'. split; [exact E|]. split; [exact Hth|]. apply Forall_cons in Ha as [(l & q & n & H1 & H2 & _) Ha].
    apply Forall_cons in Ha as [(l' & q' & n' & H3 & H4 & _) _]. vm_compute in H1, H3. simplify_eq. split; eexists; [exact H2|exact H4].
Defined.
