(* ===== verification/Requests.v ===== *)
(** * The requests of the clients on the wire

    The functions of [posix/utils/requests.hpp] print a request with [sprintf]
    into a buffer of 256 characters and put it in the request queue;
    [ClientManager::readNextRequest] takes the code off the front, and the
    handler of the code parses the rest with [sscanf] (the formats are those of
    [Text]).  The text of a request is its code on four digits and its fields,
    each after a space. *)
From S2P Require Import Prelude Text Memory Sectors FileBuffer Queue CapioFile ClientManager Locations Server StorageManager Handlers RemoteHandlers ServerProps.

(** ** The client: [sprintf] into [req] and the replies it then reads *)

Definition CAPIO_REQ_MAX_SIZE : nat := 256.
(** What a function reads from [buff_response]: nothing, a value, two values,
    or a value and, unless it is the one of a refusal, a second. *)
Inductive replies : Type := R_none | R_one | R_two | R_stat.
Record call : Type := { c_code : Z; c_fields : list field; c_replies : replies }.
(** The values read and those left; [None] while the client waits. *)
Definition receive (r : replies) (queue : list Z) : option (list Z * list Z) :=
  match r, queue with
  | R_none, _ => Some ([], queue)
  | R_one, v :: q => Some ([v], q)
  | R_two, v :: w :: q => Some ([v; w], q)
  | R_stat, v :: q =>
      if v =? CAPIO_POSIX_SYSCALL_REQUEST_SKIP then Some ([v; -1], q)
      else match q with w :: q' => Some ([v; w], q') | [] => None end
  | _, _ => None
  end.
(** What [sprintf] prints, of any length; [send_call] puts it in the array. *)
Definition req_text (c : call) : string := (print_code (c_code c) ++ print_fields (c_fields c))%string.
(** The write of [req] to the queue; a longer text overruns the array. *)
Definition send_call (c : call) : outcome string :=
  if (String.length (req_text c) <? CAPIO_REQ_MAX_SIZE)%nat then Done (req_text c) else UB "sprintf past req".

Definition CAPIO_REQUEST_ACCESS : Z := 0.
Definition CAPIO_REQUEST_CLONE : Z := 1.
Definition CAPIO_REQUEST_CLOSE : Z := 2.
Definition CAPIO_REQUEST_CREATE : Z := 3.
Definition CAPIO_REQUEST_CREATE_EXCLUSIVE : Z := 4.
Definition CAPIO_REQUEST_DUP : Z := 5.
Definition CAPIO_REQUEST_EXIT_GROUP : Z := 6.
Definition CAPIO_REQUEST_FSTAT : Z := 7.
Definition CAPIO_REQUEST_GETDENTS : Z := 8.
Definition CAPIO_REQUEST_GETDENTS64 : Z := 9.
Definition CAPIO_REQUEST_HANDSHAKE_NAMED : Z := 10.
Definition CAPIO_REQUEST_HANDSHAKE_ANONYMOUS : Z := 11.
Definition CAPIO_REQUEST_MKDIR : Z := 12.
Definition CAPIO_REQUEST_OPEN : Z := 13.
Definition CAPIO_REQUEST_READ : Z := 14.
Definition CAPIO_REQUEST_RENAME : Z := 15.
Definition CAPIO_REQUEST_SEEK : Z := 16.
Definition CAPIO_REQUEST_SEEK_DATA : Z := 17.
Definition CAPIO_REQUEST_SEEK_END : Z := 18.
Definition CAPIO_REQUEST_SEEK_HOLE : Z := 19.
Definition CAPIO_REQUEST_STAT : Z := 20.
Definition CAPIO_REQUEST_UNLINK : Z := 21.
Definition CAPIO_REQUEST_WRITE : Z := 22.
Definition CAPIO_REQUEST_RMDIR : Z := 23.
Definition CAPIO_REQUEST_COPY_FILE_RANGE : Z := 24.
Definition CAPIO_NR_REQUESTS : Z := 25.

Definition mk_call (code : Z) (fields : list field) (replies : replies) : call :=
  {| c_code := code; c_fields := fields; c_replies := replies |}.

Definition access_request (path : string) (tid : Z) := mk_call CAPIO_REQUEST_ACCESS [F_ld tid; F_s path] R_one.
(** The format of [clone_request] has two spaces after the code. *)
Definition clone_request (parent_tid child_tid : Z) :=
  mk_call CAPIO_REQUEST_CLONE [F_s ""; F_ld parent_tid; F_ld child_tid] R_none.
Definition close_request (fd tid : Z) := mk_call CAPIO_REQUEST_CLOSE [F_ld tid; F_ld fd] R_none.
Definition rename_request (tid : Z) (old_path newpath : string) :=
  mk_call CAPIO_REQUEST_RENAME [F_s old_path; F_s newpath; F_ld tid] R_one.
Definition create_request (fd : Z) (path : string) (tid : Z) :=
  mk_call CAPIO_REQUEST_CREATE [F_ld tid; F_ld fd; F_s path] R_one.
Definition create_exclusive_request (fd : Z) (path : string) (tid : Z) :=
  mk_call CAPIO_REQUEST_CREATE_EXCLUSIVE [F_ld tid; F_ld fd; F_s path] R_one.
Definition dup_request (old_fd new_fd tid : Z) := mk_call CAPIO_REQUEST_DUP [F_ld tid; F_ld old_fd; F_ld new_fd] R_none.
Definition exit_group_request (tid : Z) := mk_call CAPIO_REQUEST_EXIT_GROUP [F_ld tid] R_none.
Definition getdents_request (fd count : Z) (is64bit : bool) (tid : Z) :=
  mk_call (if is64bit then CAPIO_REQUEST_GETDENTS64 else CAPIO_REQUEST_GETDENTS) [F_ld tid; F_ld fd; F_ld count] R_one.
Definition handshake_anonymous_request (tid pid : Z) :=
  mk_call CAPIO_REQUEST_HANDSHAKE_ANONYMOUS [F_ld tid; F_ld pid] R_none.
Definition handshake_named_request (tid pid : Z) (app_name : string) (wait : bool) :=
  mk_call CAPIO_REQUEST_HANDSHAKE_NAMED [F_ld tid; F_ld pid; F_s app_name; F_ld (if wait then 1 else 0)]
    (if wait then R_one else R_none).
Definition fstat_request (fd tid : Z) := mk_call CAPIO_REQUEST_FSTAT [F_ld tid; F_ld fd] R_two.
Definition mkdir_request (path : string) (tid : Z) := mk_call CAPIO_REQUEST_MKDIR [F_ld tid; F_s path] R_one.
Definition open_request (fd : Z) (path : string) (tid : Z) :=
  mk_call CAPIO_REQUEST_OPEN [F_ld tid; F_ld fd; F_s path] R_one.
Definition copy_file_range_request (fd_in fd_out offset_in offset_out count tid : Z) :=
  mk_call CAPIO_REQUEST_COPY_FILE_RANGE
    [F_ld tid; F_ld fd_in; F_ld fd_out; F_ld offset_in; F_ld offset_out; F_ld count] R_one.
Definition read_request (fd count tid : Z) := mk_call CAPIO_REQUEST_READ [F_ld tid; F_ld fd; F_ld count] R_one.
Definition seek_data_request (fd offset tid : Z) := mk_call CAPIO_REQUEST_SEEK_DATA [F_ld tid; F_ld fd; F_zu offset] R_one.
Definition seek_end_request (fd tid : Z) := mk_call CAPIO_REQUEST_SEEK_END [F_ld tid; F_ld fd] R_two.
Definition seek_hole_request (fd offset tid : Z) := mk_call CAPIO_REQUEST_SEEK_HOLE [F_ld tid; F_ld fd; F_zu offset] R_one.
Definition seek_request (fd offset tid : Z) := mk_call CAPIO_REQUEST_SEEK [F_ld tid; F_ld fd; F_zu offset] R_one.
Definition stat_request (path : string) (tid : Z) := mk_call CAPIO_REQUEST_STAT [F_ld tid; F_s path] R_stat.
Definition unlink_request (path : string) (tid : Z) := mk_call CAPIO_REQUEST_UNLINK [F_ld tid; F_s path] R_one.
Definition rmdir_request (dir_path : string) (tid : Z) := mk_call CAPIO_REQUEST_RMDIR [F_s dir_path; F_ld tid] R_one.
Definition write_request (fd count tid : Z) := mk_call CAPIO_REQUEST_WRITE [F_ld tid; F_ld fd; F_ld count] R_none.

(** The call a client makes for a request. *)
Definition call_of (is64bit : bool) (r : request) : call :=
  match r with
  | Access tid path => access_request path tid
  | Clone parent child => clone_request parent child
  | Close tid fd => close_request fd tid
  | Create tid fd path => create_request fd path tid
  | CreateExclusive tid fd path => create_exclusive_request fd path tid
  | Dup tid old_fd new_fd => dup_request old_fd new_fd tid
  | ExitGroup tid => exit_group_request tid
  | Fstat tid fd => fstat_request fd tid
  | Getdents tid fd count => getdents_request fd count is64bit tid
  | HandshakeNamed tid pid app_name wait => handshake_named_request tid pid app_name wait
  | HandshakeAnonymous tid pid => handshake_anonymous_request tid pid
  | Mkdir tid path => mkdir_request path tid
  | Open tid fd path => open_request fd path tid
  | Read tid fd count => read_request fd count tid
  | Rename oldpath newpath tid => rename_request tid oldpath newpath
  | Seek tid fd offset => seek_request fd offset tid
  | SeekData tid fd offset => seek_data_request fd offset tid
  | SeekEnd tid fd => seek_end_request fd tid
  | SeekHole tid fd offset => seek_hole_request fd offset tid
  | Stat tid path => stat_request path tid
  | Unlink tid path => unlink_request path tid
  | Write tid fd count => write_request fd count tid
  | Rmdir path tid => rmdir_request path tid
  | CopyFileRange tid fd_in fd_out offset_in offset_out count =>
      copy_file_range_request fd_in fd_out offset_in offset_out count tid
  end.

(** ** The server *)

(** [std::from_chars(req, req + 4, code)]: the number in the first four
    characters and what follows it. *)
Fixpoint scan_upto (k : nat) (s : string) (acc : Z) : Z * string :=
  match k, s with
  | S k', String c s' => match char_digit c with Some d => scan_upto k' s' (acc * 10 + d) | None => (acc, s) end
  | _, _ => (acc, s)
  end.
Definition from_chars4 (s : string) : option (Z * string) :=
  match s with
  | String "-" s' => if starts_with_digit s' then let '(n, r) := scan_upto 3 s' 0 in Some (- n, r) else None
  | _ => if starts_with_digit s then Some (scan_upto 4 s 0) else None
  end.

(** [readNextRequest]: the code and the text after the separator, or -1. *)
Definition readNextRequest (req : string) : Z * string :=
  match from_chars4 req with
  | Some (code, ptr) => (code, string_tail ptr)
  | None => (-1, ""%string)
  end.

(** The [sscanf] of each handler. *)
Definition parse_request (code : Z) (str : string) : option request :=
  match code with
  | 0 => match sscanf [C_ld; C_s] str with Some [V_int tid; V_str path] => Some (Access tid path) | _ => None end
  | 1 => match sscanf [C_d; C_d] str with Some [V_int p; V_int c] => Some (Clone p c) | _ => None end
  | 2 => match sscanf [C_d; C_d] str with Some [V_int t; V_int f] => Some (Close t f) | _ => None end
  | 3 => match sscanf [C_d; C_d; C_s] str with Some [V_int t; V_int f; V_str p] => Some (Create t f p) | _ => None end
  | 4 => match sscanf [C_d; C_d; C_s] str with Some [V_int t; V_int f; V_str p] => Some (CreateExclusive t f p) | _ => None end
  | 5 => match sscanf [C_d; C_d; C_d] str with Some [V_int t; V_int o; V_int n] => Some (Dup t o n) | _ => None end
  | 6 => match sscanf [C_d] str with Some [V_int t] => Some (ExitGroup t) | _ => None end
  | 7 => match sscanf [C_d; C_d] str with Some [V_int t; V_int f] => Some (Fstat t f) | _ => None end
  | 8 | 9 => match sscanf [C_d; C_d; C_ld] str with Some [V_int t; V_int f; V_int n] => Some (Getdents t f n) | _ => None end
  | 10 => match sscanf [C_d; C_d; C_s; C_d] str with
          | Some [V_int t; V_int p; V_str a; V_int w] => Some (HandshakeNamed t p a (negb (w =? 0))) | _ => None end
  | 11 => match sscanf [C_d; C_d] str with Some [V_int t; V_int p] => Some (HandshakeAnonymous t p) | _ => None end
  | 12 => match sscanf [C_d; C_s] str with Some [V_int t; V_str p] => Some (Mkdir t p) | _ => None end
  | 13 => match sscanf [C_d; C_d; C_s] str with Some [V_int t; V_int f; V_str p] => Some (Open t f p) | _ => None end
  | 14 => match sscanf [C_d; C_d; C_ld] str with Some [V_int t; V_int f; V_int n] => Some (Read t f n) | _ => None end
  | 15 => match sscanf [C_s; C_s; C_d] str with Some [V_str o; V_str n; V_int t] => Some (Rename o n t) | _ => None end
  | 16 => match sscanf [C_d; C_d; C_ld] str with Some [V_int t; V_int f; V_int n] => Some (Seek t f n) | _ => None end
  | 17 => match sscanf [C_d; C_d; C_ld] str with Some [V_int t; V_int f; V_int n] => Some (SeekData t f n) | _ => None end
  | 18 => match sscanf [C_d; C_d] str with Some [V_int t; V_int f] => Some (SeekEnd t f) | _ => None end
  | 19 => match sscanf [C_d; C_d; C_ld] str with Some [V_int t; V_int f; V_int n] => Some (SeekHole t f n) | _ => None end
  | 20 => match sscanf [C_d; C_s] str with Some [V_int t; V_str p] => Some (Stat t p) | _ => None end
  | 21 => match sscanf [C_d; C_s] str with Some [V_int t; V_str p] => Some (Unlink t p) | _ => None end
  | 22 => match sscanf [C_d; C_d; C_ld] str with Some [V_int t; V_int f; V_int n] => Some (Write t f n) | _ => None end
  | 23 => match sscanf [C_s; C_d] str with Some [V_str p; V_int t] => Some (Rmdir p t) | _ => None end
  | 24 => match sscanf [C_d; C_d; C_d; C_ld; C_ld; C_ld] str with
          | Some [V_int t; V_int a; V_int b; V_int c; V_int d; V_int e] => Some (CopyFileRange t a b c d e) | _ => None end
  | _ => None
  end.

(** One turn of the loop of [capio_server]. *)
Definition serve_request `{Config} (req : string) : M Server unit :=
  let '(code, str) := readNextRequest req in
  if (code <? 0) || (CAPIO_NR_REQUESTS <? code) then err_exit "Error: received invalid request code"
  else if code =? CAPIO_NR_REQUESTS then undefined "request_handlers index out of bounds"
  else match parse_request code str with
       | Some r => handle_request r
       | None => undefined "sscanf left its arguments unset"
       end.

#[local] Arguments String.append !_ _ /.

(** ** Requests are scanned as they were printed *)

(** The three fields of a seek, in any range. *)
Lemma sscanf_seek tid fd offset :
  int32 tid -> int32 fd ->
  sscanf [C_d; C_d; C_ld] (print_fields [F_ld tid; F_ld fd; F_zu offset])
  = Some [V_int tid; V_int fd; V_int (clamp64 (offset mod 2 ^ 64))].
Proof.
  intros Ht Hf. cbn [print_fields]. rewrite sscanf_skips by done. cbn [sscanf print_field]. unfold scan_d.
  rewrite scan_print_ld by (done || unfold int32, int64 in *; lia). rewrite scan_ld_skips.
  rewrite scan_print_ld by (done || unfold int32, int64 in *; lia). rewrite scan_ld_skips.
  rewrite scan_print_zu by done. by rewrite !s32_small.
Qed.

(** ** The code *)

Lemma readNextRequest_text c :
  0 <= c_code c < CAPIO_NR_REQUESTS ->
  readNextRequest (req_text c) = (c_code c, string_tail (print_fields (c_fields c))).
Proof.
  destruct c as [code fs reps]. unfold req_text; cbn [c_code c_fields]. intros Hc.
  assert (Hall : Forall (fun n => forall s, stops s -> readNextRequest (print_code n ++ s) = (n, string_tail s))
                   (seqZ 0 CAPIO_NR_REQUESTS)).
  { unfold CAPIO_NR_REQUESTS. vm_compute seqZ. repeat constructor; intros [|? ?] ?; done. }
  rewrite Forall_forall in Hall. apply Hall; [|auto with scan]. apply elem_of_seqZ. lia.
Qed.

(** ** The round trip *)

(** The requests whose fields are in the range of the types the handler reads
    them into: thread and process ids and descriptors are [int]s, counts and
    offsets [off64_t]s, an absolute seek is not negative, and a name is one word. *)
Definition request_wf (r : request) : Prop :=
  match r with
  | Access tid path => int64 tid /\ word path
  | Clone a b | Close a b | Fstat a b | HandshakeAnonymous a b | SeekEnd a b => int32 a /\ int32 b
  | Create tid fd path | CreateExclusive tid fd path | Open tid fd path => int32 tid /\ int32 fd /\ word path
  | Dup tid a b => int32 tid /\ int32 a /\ int32 b
  | ExitGroup tid => int32 tid
  | Getdents tid fd n | Read tid fd n | Write tid fd n => int32 tid /\ int32 fd /\ int64 n
  | HandshakeNamed tid pid app_name _ => int32 tid /\ int32 pid /\ word app_name
  | Mkdir tid path | Stat tid path | Unlink tid path | Rmdir path tid => int32 tid /\ word path
  | Rename a b tid => int32 tid /\ word a /\ word b
  | Seek tid fd offset | SeekData tid fd offset | SeekHole tid fd offset =>
      int32 tid /\ int32 fd /\ 0 <= offset < 2 ^ 63
  | CopyFileRange tid a b c d e => int32 tid /\ int32 a /\ int32 b /\ int64 c /\ int64 d /\ int64 e
  end.

Lemma call_of_code is64bit r : 0 <= c_code (call_of is64bit r) < CAPIO_NR_REQUESTS.
Proof. destruct r, is64bit; vm_compute; split; congruence. Qed.

Lemma parse_call is64bit r :
  request_wf r ->
  parse_request (c_code (call_of is64bit r)) (string_tail (print_fields (c_fields (call_of is64bit r)))) = Some r.
Proof.
  intros Hwf. destruct r, is64bit; cbn [request_wf] in Hwf; cbn -[print_fields string_tail sscanf].
  all: try match goal with
       | |- context [string_tail (print_fields (F_s "" :: ?fs))] =>
           change (string_tail (print_fields (F_s "" :: fs))) with (print_fields fs);
           rewrite sscanf_print; [done|solve_scans]
       end.
  all: try destruct wait.
  all: by parse_fields.
Qed.

Lemma request_roundtrip_run `{Config} is64bit r s :
  request_wf r -> serve_request (req_text (call_of is64bit r)) s = handle_request r s.
Proof.
  intros Hwf. pose proof (call_of_code is64bit r) as Hc. pose proof (parse_call is64bit r Hwf) as Hp.
  unfold serve_request. rewrite readNextRequest_text by done.
  rewrite Hp. unfold CAPIO_NR_REQUESTS in *.
  rewrite (proj2 (Z.ltb_ge _ _)), (proj2 (Z.ltb_ge 25 _)), (proj2 (Z.eqb_neq _ _)) by lia. done.
Qed.

(** ** The text of a request fits in its array *)

(** A number below [10 ^ k] has at most [k] digits. *)
Lemma length_print_digits fuel n k tail :
  0 <= n < 10 ^ Z.of_nat k -> (0 < k)%nat -> (String.length (print_digits fuel n tail) <= k + String.length tail)%nat.
Proof.
  revert n k tail. induction fuel as [|fuel IH]; intros n k tail Hn Hk; cbn [print_digits]; [lia|].
  destruct (Z.ltb_spec n 10) as [Hlt|Hge]; [simpl; lia|].
  destruct k as [|[|k]]; [lia|simpl in Hn; lia|]. etrans; [apply (IH _ (S k)); [|lia]|simpl; lia].
  rewrite Nat2Z.inj_succ, Z.pow_succ_r in Hn by lia. split; [apply Z.div_pos; lia|]. apply Z.div_lt_upper_bound; lia.
Qed.
Lemma length_print_nonneg n k : 0 <= n < 10 ^ Z.of_nat k -> (0 < k)%nat -> (String.length (print_nonneg n) <= k)%nat.
Proof. intros Hn Hk. unfold print_nonneg. etrans; [by apply (length_print_digits _ _ k)|simpl; lia]. Qed.

Lemma length_print_ld n : int64 n -> (String.length (print_ld n) <= 20)%nat.
Proof.
  unfold int64. intros Hn. unfold print_ld.
  destruct (Z.ltb_spec n 0); simpl; [apply le_n_S|transitivity 19%nat; [|lia]]; apply length_print_nonneg; simpl; lia.
Qed.
Lemma length_print_zu n : (String.length (print_zu n) <= 20)%nat.
Proof. pose proof (Z.mod_pos_bound n (2 ^ 64) ltac:(lia)). apply length_print_nonneg; simpl; lia. Qed.

(** A number takes at most 20 characters. *)
Definition field_length (f : field) : nat := match f with F_s s => String.length s | _ => 20 end.
Definition field_int64 (f : field) : Prop := match f with F_ld n => int64 n | _ => True end.
Lemma length_print_fields fs :
  Forall field_int64 fs -> (String.length (print_fields fs) <= sum_list_with (fun f => S (field_length f)) fs)%nat.
Proof.
  induction 1 as [|f fs Hf _ IH]; [done|]. cbn [print_fields String.length]. rewrite length_append. simpl.
  assert (String.length (print_field f) <= field_length f)%nat; [|lia].
  destruct f; simpl in *; [by apply length_print_ld|apply length_print_zu|done].
Qed.

(** The characters of the names of a request. *)
Definition names_length (r : request) : nat :=
  sum_list_with (fun f => match f with F_s s => String.length s | _ => O end) (c_fields (call_of false r)).

Lemma short_names_fit is64bit r :
  request_wf r -> (names_length r <= 180)%nat -> (String.length (req_text (call_of is64bit r)) < CAPIO_REQ_MAX_SIZE)%nat.
Proof.
  intros Hwf Hn. unfold req_text. rewrite length_append.
  assert (String.length (print_code (c_code (call_of is64bit r))) = 4)%nat as -> by (by destruct r, is64bit).
  assert (Hf : Forall field_int64 (c_fields (call_of is64bit r))).
  { destruct r, is64bit; cbn [request_wf] in Hwf; cbn; repeat apply Forall_cons_2; try apply Forall_nil_2;
      unfold field_int64, int32, int64 in *; try done; try lia; destruct wait; lia. }
  pose proof (length_print_fields _ Hf) as Hlen. unfold CAPIO_REQ_MAX_SIZE, names_length in *.
  destruct r, is64bit; simpl in Hlen, Hn; simpl; lia.
Qed.

(** C18. What a client prints for a request is what the server serves: for every
    request whose fields are in the range of their types and whose names are single words,
    when its text fits in the array of 256 characters, as it does when its names have at
    most 180 characters together, it is sent, [readNextRequest] returns the code the
    client printed, the [sscanf] of that code's handler gives back the fields,
    and the turn of the server's loop is the handler's run on that request. A longer
    text overruns the array. *)
Theorem request_roundtrip `{Config} (is64bit : bool) (r : request) (s : Server) :
  request_wf r ->
  let c := call_of is64bit r in
  match send_call c with
  | Done text => let '(code, str) := readNextRequest text in
      code = c_code c /\ parse_request code str = Some r /\ serve_request text s = handle_request r s
  | UB _ => (CAPIO_REQ_MAX_SIZE <= String.length (req_text c) /\ 180 < names_length r)%nat
  | _ => False
  end.
Proof.
  intros Hwf c. pose proof (parse_call is64bit r Hwf) as Hp. pose proof (request_roundtrip_run is64bit r s Hwf) as Hs.
  pose proof (short_names_fit is64bit r Hwf) as Hfit. unfold send_call. fold c in Hfit.
  destruct (Nat.ltb_spec (String.length (req_text c)) CAPIO_REQ_MAX_SIZE) as [Hlt|Hge].
  - unfold c. rewrite readNextRequest_text by apply call_of_code. by split_and!.
  - split; [done|]. destruct (decide (names_length r <= 180)%nat); lia.
Qed.

Lemma request_roundtrip_witness :
  let r := Rename "/c/out.tmp" "/c/out" 4242 in
  request_wf r /\
  send_call (call_of true r) = Done "0015 /c/out.tmp /c/out 4242"%string /\
  let '(code, str) := readNextRequest "0015 /c/out.tmp /c/out 4242" in
  code = 15 /\ parse_request code str = Some r /\
  @serve_request (demo_config true) "0015 /c/out.tmp /c/out 4242" Server_new
  = @handle_request (demo_config true) r Server_new.
Proof.
  intros r. assert (Hwf : request_wf r) by (vm_compute; repeat split; congruence).
  split; [exact Hwf|]. split; [reflexivity|]. exact (@request_roundtrip (demo_config true) true r Server_new Hwf).
Defined.

(** The offset of a seek is printed with ["%zu"] and scanned with ["%ld"]: a
    negative one arrives as the largest [off64_t], whatever it was, and not as
    the offset the client asked for. *)
Theorem negative_seek_saturates `{Config} (tid fd offset : Z) (s : Server) :
  int32 tid -> int32 fd -> - 2 ^ 63 <= offset < 0 ->
  serve_request (req_text (seek_request fd offset tid)) s = handle_request (Seek tid fd (2 ^ 63 - 1)) s.
Proof.
  intros Ht Hf Ho. unfold serve_request. rewrite readNextRequest_text by (vm_compute; split; congruence).
  cbn -[print_fields sscanf handle_request]. rewrite <- sscanf_skips by done.
  change (String " " (string_tail _)) with (print_fields [F_ld tid; F_ld fd; F_zu offset]).
  rewrite sscanf_seek by done.
  rewrite <- (Z.mod_add offset 1), Z.mod_small by lia. unfold clamp64.
  rewrite Z.min_l, Z.max_r by lia. done.
Qed.

Lemma negative_seek_saturates_witness :
  @serve_request (demo_config true) (req_text (seek_request 3 (-1) 4242)) Server_new
  = @handle_request (demo_config true) (Seek 4242 3 (2 ^ 63 - 1)) Server_new.
Proof. apply (@negative_seek_saturates (demo_config true) 4242 3 (-1) Server_new); unfold int32; lia. Defined.

(** The test of the code in [capio_server] lets [CAPIO_NR_REQUESTS] itself
    through, and the table of handlers is then read past its end; larger codes
    and negative ones end the server with an error. *)
Theorem request_code_check `{Config} (req str : string) (code : Z) (s : Server) :
  readNextRequest req = (code, str) -> ~ (0 <= code < CAPIO_NR_REQUESTS) ->
  serve_request req s =
    if code =? CAPIO_NR_REQUESTS then UB "request_handlers index out of bounds"
    else Exit "Error: received invalid request code".
Proof.
  intros Hr Hc. unfold serve_request. rewrite Hr. unfold CAPIO_NR_REQUESTS in *.
  destruct (Z.eqb_spec code 25) as [->|Hne]; [done|].
  destruct (Z.ltb_spec code 0) as [|H0]; [done|]. by rewrite (proj2 (Z.ltb_lt 25 code)) by lia.
Qed.

Lemma request_code_check_witness :
  @serve_request (demo_config true) "0025 4242" Server_new = UB "request_handlers index out of bounds" /\
  @serve_request (demo_config true) "0026 4242" Server_new = Exit "Error: received invalid request code".
Proof.
  split.
  - apply (@request_code_check (demo_config true) "0025 4242" "4242" 25 Server_new); [reflexivity|unfold CAPIO_NR_REQUESTS; lia].
  - apply (@request_code_check (demo_config true) "0026 4242" "4242" 26 Server_new); [reflexivity|unfold CAPIO_NR_REQUESTS; lia].
Defined.

(** The request array holds 256 characters, while a path may have up to
    [PATH_MAX] - 1 = 4095: a path of 250 characters that the kernel accepts
    makes the [sprintf] of [open_request] run past it. *)
Theorem long_path_overruns_request :
  exists path, word path /\ String.length path = 250%nat /\
    send_call (open_request 10 path 123456) = UB "sprintf past req".
Proof.
  exists (String.concat "" (repeat "0123456789"%string 25)).
  split; [|split]; [|vm_compute; reflexivity..].
  split; [discriminate|]. vm_compute. repeat split.
Qed.
