(* ===== verification/RemoteText.v ===== *)
(** * The text of the messages between servers

    [server/include/remote/requests.hpp] prints a message with [sprintf] and sends
    it with the NUL that ends it; [RemoteRequest] ([server/src/remote_request.cpp])
    takes the code off the front, and the loop of [remote/listener.hpp] calls the
    handler of the code, which scans the rest ([remote/handlers]).  The handlers
    themselves are in [RemoteHandlers], on messages as values. *)
From S2P Require Import Prelude Text Memory Sectors FileBuffer Queue CapioFile ClientManager Locations Server StorageManager Handlers RemoteHandlers ServerProps.

#[local] Arguments String.append !_ _ /.

(** ** Printing *)

Definition CAPIO_SERVER_REQUEST_READ : Z := 0.
Definition CAPIO_SERVER_REQUEST_READ_REPLY : Z := 1.
Definition CAPIO_SERVER_REQUEST_STAT : Z := 2.
Definition CAPIO_SERVER_REQUEST_STAT_REPLY : Z := 3.
Definition CAPIO_SERVER_REQUEST_COPY_FILE_RANGE : Z := 4.
Definition CAPIO_SERVER_REQUEST_COPY_FILE_RANGE_REPLY : Z := 5.
Definition CAPIO_SERVER_NR_REQUEST : Z := 6.

Definition F_bool (b : bool) : field := F_ld (Z.b2z b).

(** The code and the fields each function of [remote/requests.hpp] prints. *)
Definition message_code (m : remote_message) : Z :=
  match m with
  | RemoteRead _ _ _ _ _ _ => CAPIO_SERVER_REQUEST_READ
  | RemoteReadReply _ _ _ _ _ _ _ => CAPIO_SERVER_REQUEST_READ_REPLY
  | RemoteStat _ _ _ => CAPIO_SERVER_REQUEST_STAT
  | RemoteStatReply _ _ _ _ => CAPIO_SERVER_REQUEST_STAT_REPLY
  | RemoteCopy _ _ _ _ _ _ _ => CAPIO_SERVER_REQUEST_COPY_FILE_RANGE
  | RemoteCopyReply _ _ _ _ _ _ _ _ _ => CAPIO_SERVER_REQUEST_COPY_FILE_RANGE_REPLY
  end.
Definition message_fields (m : remote_message) : list field :=
  match m with
  | RemoteRead path tid fd count offset is_getdents =>
      [F_s path; F_ld tid; F_ld fd; F_ld count; F_ld offset; F_bool is_getdents]
  | RemoteReadReply tid fd count nbytes file_size complete is_getdents =>
      [F_ld tid; F_ld fd; F_ld count; F_ld nbytes; F_ld file_size; F_bool complete; F_bool is_getdents]
  | RemoteStat tid dest path => [F_ld tid; F_s dest; F_s path]
  | RemoteStatReply path tid size dir => [F_s path; F_ld tid; F_ld size; F_bool dir]
  | RemoteCopy path_in tid fd_in fd_out offset_in offset_out count =>
      [F_s path_in; F_ld tid; F_ld fd_in; F_ld fd_out; F_ld offset_in; F_ld offset_out; F_ld count]
  | RemoteCopyReply tid fd_in fd_out offset_in offset_out count nbytes file_size complete =>
      [F_ld tid; F_ld fd_in; F_ld fd_out; F_ld offset_in; F_ld offset_out; F_ld count; F_ld nbytes;
       F_ld file_size; F_bool complete]
  end.
Definition NUL : ascii := "000"%char.
(** [message.get()], all the [size + 1] characters that are sent. *)
Definition message_chars (m : remote_message) : string := (print_code (message_code m) ++ print_fields (message_fields m))%string.
Definition message_text (m : remote_message) : string := (message_chars m ++ String NUL "")%string.

(** ** [RemoteRequest] *)

Record RemoteRequest : Type := { rr_source : string; rr_content : string; rr_code : Z }.

(** [std::from_chars] of an [int] over the whole of [s], at most four characters
    here, so that the value always fits. *)
Definition from_chars_all (s : string) : option Z :=
  let '(sign, digits) := match s with String "-" s' => (-1, s') | _ => (1, s) end in
  if starts_with_digit digits then
    let '(n, rest) := scan_digits digits 0 in if String.eqb rest "" then Some (sign * n) else None
  else None.

Definition RemoteRequest_new (buf_recv source : string) : RemoteRequest :=
  if (String.length buf_recv <? 5)%nat || negb (bool_decide (String.get 4 buf_recv = Some " "%char)) then
    {| rr_source := source; rr_content := ""; rr_code := -1 |}
  else match from_chars_all (substring 0 4 buf_recv) with
       | None => {| rr_source := source; rr_content := ""; rr_code := -1 |}
       | Some code => {| rr_source := source; rr_content := sdrop 5 buf_recv; rr_code := code |}
       end.
(** [c_str()], as the functions of C read it: up to the first NUL. *)
Fixpoint c_str (s : string) : string :=
  match s with String c s' => if Ascii.eqb c NUL then "" else String c (c_str s') | EmptyString => "" end.
Definition get_content (r : RemoteRequest) : string := c_str (rr_content r).

(** ** The handlers' formats and the loop of the listener *)

Definition parse_message (code : Z) (content : string) : option remote_message :=
  if code =? CAPIO_SERVER_REQUEST_READ then
    match sscanf [C_s; C_d; C_d; C_ld; C_ld; C_d] content with
    | Some [V_str path; V_int tid; V_int fd; V_int count; V_int offset; V_int is_getdents] =>
        Some (RemoteRead path tid fd count offset (negb (is_getdents =? 0)))
    | _ => None
    end
  else if code =? CAPIO_SERVER_REQUEST_READ_REPLY then
    match sscanf [C_d; C_d; C_ld; C_ld; C_ld; C_d; C_d] content with
    | Some [V_int tid; V_int fd; V_int count; V_int nbytes; V_int file_size; V_int complete; V_int is_getdents] =>
        Some (RemoteReadReply tid fd count nbytes file_size (negb (complete =? 0)) (negb (is_getdents =? 0)))
    | _ => None
    end
  else if code =? CAPIO_SERVER_REQUEST_STAT then
    match sscanf [C_d; C_s; C_s] content with
    | Some [V_int tid; V_str dest; V_str path] => Some (RemoteStat tid dest path)
    | _ => None
    end
  else if code =? CAPIO_SERVER_REQUEST_STAT_REPLY then
    match sscanf [C_s; C_d; C_ld; C_d] content with
    | Some [V_str path; V_int tid; V_int size; V_int dir] => Some (RemoteStatReply path tid size (negb (dir =? 0)))
    | _ => None
    end
  else if code =? CAPIO_SERVER_REQUEST_COPY_FILE_RANGE then
    match sscanf [C_s; C_d; C_d; C_d; C_ld; C_ld; C_ld] content with
    | Some [V_str path_in; V_int tid; V_int fd_in; V_int fd_out; V_int offset_in; V_int offset_out; V_int count] =>
        Some (RemoteCopy path_in tid fd_in fd_out offset_in offset_out count)
    | _ => None
    end
  else
    match sscanf [C_d; C_d; C_d; C_ld; C_ld; C_ld; C_ld; C_ld; C_d] content with
    | Some [V_int tid; V_int fd_in; V_int fd_out; V_int offset_in; V_int offset_out; V_int count; V_int nbytes;
            V_int file_size; V_int complete] =>
        Some (RemoteCopyReply tid fd_in fd_out offset_in offset_out count nbytes file_size (negb (complete =? 0)))
    | _ => None
    end.

(** A turn of [capio_remote_listener], from the request it read: an unknown code
    is ignored; a text its format does not match leaves variables that were never
    set. *)
Definition listener_step `{Config} (request : RemoteRequest) : M Server unit :=
  let code := rr_code request in
  if (code <? 0) || (CAPIO_SERVER_NR_REQUEST <=? code) then ret tt
  else match parse_message code (get_content request) with
       | Some m => handle_message (rr_source request) m
       | None => undefined "sscanf left variables unset"
       end.

(** ** What is printed is what is handled *)

(** The name of a file or node: one word, as ["%s"] reads it, that is a C string. *)
Definition c_word (w : string) : Prop := word w /\ lacks NUL w = true.

(** The fields of a message are in the range of their types. *)
Definition message_wf (m : remote_message) : Prop :=
  match m with
  | RemoteRead path tid fd count offset _ => c_word path /\ int32 tid /\ int32 fd /\ int64 count /\ int64 offset
  | RemoteReadReply tid fd count nbytes file_size _ _ =>
      int32 tid /\ int32 fd /\ int64 count /\ int64 nbytes /\ int64 file_size
  | RemoteStat tid dest path => int32 tid /\ c_word dest /\ c_word path
  | RemoteStatReply path tid size _ => c_word path /\ int32 tid /\ int64 size
  | RemoteCopy path_in tid fd_in fd_out offset_in offset_out count =>
      c_word path_in /\ int32 tid /\ int32 fd_in /\ int32 fd_out /\ int64 offset_in /\ int64 offset_out /\ int64 count
  | RemoteCopyReply tid fd_in fd_out offset_in offset_out count nbytes file_size _ =>
      int32 tid /\ int32 fd_in /\ int32 fd_out /\ int64 offset_in /\ int64 offset_out /\ int64 count
      /\ int64 nbytes /\ int64 file_size
  end.

Lemma c_str_lacks s t : lacks NUL s = true -> c_str (s ++ String NUL t) = s.
Proof.
  induction s as [|c s IH]; simpl; [done|]. intros [Hc Hs]%andb_true_iff. destruct (Ascii.eqb c NUL); [done|]. by rewrite IH.
Qed.

(** ** Printed numbers hold no NUL *)

Definition field_c_string (f : field) : Prop := match f with F_s s => lacks NUL s = true | _ => True end.

Lemma print_fields_lacks fs : Forall field_c_string fs -> lacks NUL (print_fields fs) = true.
Proof.
  induction 1 as [|f fs Hf _ IH]; [done|]. cbn [print_fields]. simpl. rewrite lacks_app, IH, andb_true_r.
  destruct f as [n|n|w]; simpl; [by apply print_ld_lacks| |done].
  unfold print_zu, print_nonneg. apply print_digits_lacks; [done|apply Z.mod_pos_bound; lia|done].
Qed.

(** ** The round trip *)

Lemma message_code_range m : 0 <= message_code m < CAPIO_SERVER_NR_REQUEST.
Proof. destruct m; vm_compute; split; congruence. Qed.

Lemma print_fields_message m :
  message_wf m -> exists rest, print_fields (message_fields m) = String " " rest /\ lacks NUL rest = true.
Proof.
  intros Hwf. assert (Hl : lacks NUL (print_fields (message_fields m)) = true).
  { apply print_fields_lacks. destruct m; simpl in *; repeat constructor; unfold c_word in *; simpl; tauto. }
  destruct m; (eexists; split; [reflexivity|]); exact Hl.
Qed.
Lemma message_chars_lacks m : message_wf m -> lacks NUL (message_chars m) = true.
Proof.
  intros Hwf. destruct (print_fields_message m Hwf) as (rest & Hfs & Hrest). unfold message_chars. rewrite lacks_app, Hfs. simpl.
  rewrite Hrest, andb_true_r. by destruct m.
Qed.

(** The text may end with its characters, or have a NUL after them and anything
    behind it. *)
Definition c_end (tail : string) : Prop := match tail with String c _ => c = NUL | EmptyString => True end.
Lemma c_str_end s tail : lacks NUL s = true -> c_end tail -> c_str (s ++ tail) = s.
Proof.
  intros Hs Ht. destruct tail as [|c tail]; simpl in Ht.
  - rewrite string_app_nil. induction s as [|c s IH]; simpl in *; [done|]. apply andb_true_iff in Hs as [Hc Hs].
    destruct (Ascii.eqb c NUL); [done|]. by rewrite IH.
  - subst c. by apply c_str_lacks.
Qed.

Lemma RemoteRequest_text m source tail :
  message_wf m -> c_end tail ->
  let r := RemoteRequest_new (message_chars m ++ tail) source in
  rr_source r = source /\ rr_code r = message_code m /\ get_content r = string_tail (print_fields (message_fields m)).
Proof.
  intros Hwf Htail. pose proof (message_code_range m) as Hc. destruct (print_fields_message m Hwf) as (rest & Hfs & Hrest).
  unfold message_chars. rewrite Hfs, string_app_assoc. cbn [String.append string_tail].
  assert (Hall : Forall (fun code => forall t, let r := RemoteRequest_new (print_code code ++ String " " t) source in
      rr_source r = source /\ rr_code r = code /\ rr_content r = t) (seqZ 0 CAPIO_SERVER_NR_REQUEST)).
  { unfold CAPIO_SERVER_NR_REQUEST. vm_compute seqZ. repeat constructor. }
  rewrite Forall_forall in Hall. assert (Hin : message_code m ∈ seqZ 0 CAPIO_SERVER_NR_REQUEST) by (apply elem_of_seqZ; lia).
  destruct (Hall (message_code m) Hin (rest ++ tail)%string) as (Hs & Hcode & Ht).
  split_and!; [done|done|]. unfold get_content. rewrite Ht. by apply c_str_end.
Qed.

Lemma b2z_negb b : negb (Z.b2z b =? 0) = b.
Proof. by destruct b. Qed.

Lemma int32_b2z b : int32 (Z.b2z b).
Proof. unfold int32. destruct b; simpl; lia. Qed.

Lemma parse_message_text m :
  message_wf m -> parse_message (message_code m) (string_tail (print_fields (message_fields m))) = Some m.
Proof.
  intros Hwf. destruct m; simpl in Hwf; unfold c_word in Hwf; cbn -[print_fields string_tail sscanf].
  all: rewrite sscanf_tail; [simpl fmap; cbv iota; by rewrite ?b2z_negb|done|].
  all: unfold F_bool; repeat first [apply Forall2_nil_2 | apply Forall2_cons_2]; simpl; (apply int32_b2z || tauto).
Qed.

Lemma listener_handles `{Config} m source tail :
  message_wf m -> c_end tail -> listener_step (RemoteRequest_new (message_chars m ++ tail) source) = handle_message source m.
Proof.
  intros Hwf Htail. destruct (RemoteRequest_text m source tail Hwf Htail) as (Hs & Hc & Ht).
  pose proof (message_code_range m). unfold listener_step. rewrite Hs, Hc, Ht, parse_message_text by done.
  rewrite (proj2 (Z.ltb_ge _ _)), (proj2 (Z.leb_gt _ _)) by lia. done.
Qed.

(** A server handles the message another server printed.  For every message whose
    fields are in the range of their types and whose names are words, the text
    that is sent, with its NUL, is taken by [RemoteRequest] as the code and the
    fields that were printed; the turn of the listener is the handler of that
    message, run with the sender as its source. *)
Theorem message_roundtrip `{Config} (m : remote_message) (source : string) :
  message_wf m ->
  listener_step (RemoteRequest_new (message_text m) source) = handle_message source m.
Proof. intros Hwf. by apply listener_handles. Qed.

(** A malformed message does not reach a handler: a text shorter than five
    characters, without a space after the first four, or whose first four
    characters are not the number of a message leaves the server as it was. *)
Theorem malformed_message_ignored `{Config} (buf source : string) (s : Server) :
  (String.length buf < 5)%nat \/ String.get 4 buf <> Some " "%char
    \/ (forall code, from_chars_all (substring 0 4 buf) = Some code -> ~ 0 <= code < CAPIO_SERVER_NR_REQUEST) ->
  listener_step (RemoteRequest_new buf source) s = Done (tt, s).
Proof.
  intros Hbad. unfold listener_step, RemoteRequest_new.
  destruct (Nat.ltb_spec (String.length buf) 5); [done|]. simpl orb.
  case_bool_decide as Hsp; simpl; [|done].
  destruct (from_chars_all (substring 0 4 buf)) as [code|] eqn:Hcode; [|done]. simpl.
  destruct Hbad as [|[|Hno]]; [lia|done|]. specialize (Hno code eq_refl).
  destruct ((code <? 0) || (CAPIO_SERVER_NR_REQUEST <=? code)) eqn:Hr; [done|].
  apply orb_false_iff in Hr. lia.
Qed.

Lemma message_roundtrip_witness :
  let m := RemoteRead "/c/f" 7 3 100 (-1) true in
  message_wf m /\ message_text m = ("0000 /c/f 7 3 100 -1 1" ++ String NUL "")%string
  /\ @listener_step (demo_config true) (RemoteRequest_new (message_text m) "b") = @handle_message (demo_config true) "b" m.
Proof.
  assert (Hwf : message_wf (RemoteRead "/c/f" 7 3 100 (-1) true)).
  { unfold message_wf, c_word, word, int32, int64. split_and!; (done || lia || reflexivity). }
  split; [exact Hwf|]. split; [vm_compute; reflexivity|]. exact (@message_roundtrip (demo_config true) _ "b" Hwf).
Defined.
Lemma malformed_message_ignored_witness :
  @listener_step (demo_config true) (RemoteRequest_new "0009 x" "b") Server_new = Done (tt, Server_new).
Proof.
  apply (@malformed_message_ignored (demo_config true)). right. right.
  intros code Hcode. vm_compute in Hcode. injection Hcode as <-. unfold CAPIO_SERVER_NR_REQUEST. lia.
Defined.
