(* ===== verification/Mtcl.v ===== *)
(** * The MTCL backend

    [server/src/mtcl_backend.cpp] with [remote/backend/mtcl.hpp]: the frames that
    carry a message and its file, their validation, the connections by host name,
    the buffers of the sends under way.  The MTCL library is a parameter: what
    [getNext], [probe], [receive], [connect], [send], [isend] and [test] answer is
    in the arguments of the operations.  A handle is a number; [closed] holds the
    handles that were closed and [transmitted] the bytes given to the library for
    each. *)
From S2P Require Import Prelude Text Memory Server RemoteHandlers ServerProps RemoteText.

#[local] Arguments String.append !_ _ /.

(** ** Bytes and sizes *)

Definition byte_of (v : Z) : byte := default x00 (Byte.of_N (Z.to_N (v mod 256))).
Definition byte_val (b : byte) : Z := Z.of_N (Byte.to_N b).

(** [for (i = n - 1; i >= 0; --i) { destination[i] = value; value >>= 8; }] *)
Fixpoint write_loop (n : nat) (value : Z) (tail : list byte) : list byte :=
  match n with
  | O => tail
  | S n' => write_loop n' (Z.shiftr value 8) (byte_of value :: tail)
  end.
Definition write_u64 (value : Z) : list byte := write_loop 8 value [].
Definition read_u64 (source : list byte) : Z :=
  foldl (fun value b => Z.lor (u64 (Z.shiftl value 8)) (byte_val b)) 0 (take 8 source).

(** The bytes of a [size_t] in the memory of the machine, little endian. *)
Definition size_t_bytes (n : Z) : list byte := rev (write_u64 n).
Definition size_t_of (bs : list byte) : Z := read_u64 (rev bs).

(** ** Frames *)

Definition MTCL_HEADER_SIZE : Z := 17.
Definition MTCL_MAX_FILE_TRANSFER_SIZE : Z := 4 * 1024 * 1024 * 1024.
Definition PATH_MAX : Z := 4096.
Definition HOST_NAME_MAX : Z := 64.
Definition CAPIO_SERVER_REQUEST_MAX_SIZE : Z := PATH_MAX + 81920.
Definition MTCL_MAX_FRAME_SIZE : Z :=
  MTCL_HEADER_SIZE + CAPIO_SERVER_REQUEST_MAX_SIZE + MTCL_MAX_FILE_TRANSFER_SIZE.

Inductive MessageType : Type := request | request_with_file.
Definition MessageType_byte (t : MessageType) : byte :=
  match t with request => x01 | request_with_file => x02 end.

Definition zlen {A} (l : list A) : Z := Z.of_nat (length l).

(** [memcpy] of [n] bytes from a buffer; past its end it is undefined. *)
Definition copy_from (buf : list byte) (n : Z) : outcome (list byte) :=
  if n <=? zlen buf then Done (take (Z.to_nat n) buf) else UB "memcpy past the buffer".

(** The bytes of the frame in [send_frame]; [file] is [None] for a null pointer. *)
Definition build_frame (message : list byte) (message_len : Z) (file : option (list byte)) (file_len : Z)
  : outcome (list byte) :=
  outcome_bind (copy_from message message_len) (fun request_bytes =>
  outcome_bind (if file_len =? 0 then Done [] else copy_from (default [] file) file_len) (fun file_bytes =>
  Done (MessageType_byte (if file then request_with_file else request)
        :: write_u64 message_len ++ write_u64 file_len ++ request_bytes ++ file_bytes))).

(** The validation of a received frame in [read_next_request], in its order: the
    request and, when the frame has a file, where it starts; or the reason for
    which the frame is rejected. *)
Inductive rejection : Type :=
| InvalidType | InvalidRequestSize | InvalidFileSize | TypeFileMismatch | PayloadMismatch.

Definition decode_frame (frame : list byte) : rejection + (list byte * option Z) :=
  let available := zlen frame in
  let type := match frame with
              | x01 :: _ => Some request
              | x02 :: _ => Some request_with_file
              | _ => None
              end in
  let request_size := read_u64 (drop 1 frame) in
  let file_size := read_u64 (drop 9 frame) in
  match type with
  | None => inl InvalidType
  | Some type =>
      if (request_size =? 0) || (CAPIO_SERVER_REQUEST_MAX_SIZE <? request_size) then inl InvalidRequestSize
      else if MTCL_MAX_FILE_TRANSFER_SIZE <? file_size then inl InvalidFileSize
      else
        let expects_file := match type with request_with_file => true | request => false end in
        let has_file := negb (file_size =? 0) in
        if negb (Bool.eqb expects_file has_file) then inl TypeFileMismatch
        else if negb (u64 (request_size + file_size) =? available - MTCL_HEADER_SIZE) then inl PayloadMismatch
        else inr (take (Z.to_nat request_size) (drop (Z.to_nat MTCL_HEADER_SIZE) frame),
                  if expects_file then Some (MTCL_HEADER_SIZE + request_size) else None)
  end.

(** ** State *)

Record PendingSend : Type := { ps_frame : list byte; ps_request : Z }.
Record MTCLConnection : Type := { handle : Z; pending_sends : list PendingSend }.
Record PendingFile : Type := { pf_source : string; pf_frame : list byte; pf_offset : Z }.
Record MTCLBackend : Type := {
  node_name : string;
  open_connections : gmap string MTCLConnection;
  pending_file : option PendingFile;
  closed : list Z;
  transmitted : list (Z * list byte);
  next_send : Z
}.

Definition set_open_connections (v : gmap string MTCLConnection) (b : MTCLBackend) : MTCLBackend := {|
  node_name := node_name b; open_connections := v; pending_file := pending_file b; closed := closed b;
  transmitted := transmitted b; next_send := next_send b |}.
Definition set_pending_file (v : option PendingFile) (b : MTCLBackend) : MTCLBackend := {|
  node_name := node_name b; open_connections := open_connections b; pending_file := v; closed := closed b;
  transmitted := transmitted b; next_send := next_send b |}.
(** [handle.close()] *)
Definition close_handle (h : Z) (b : MTCLBackend) : MTCLBackend := {|
  node_name := node_name b; open_connections := open_connections b; pending_file := pending_file b;
  closed := closed b ++ [h]; transmitted := transmitted b; next_send := next_send b |}.
(** Bytes given to the library for a handle. *)
Definition transmit (h : Z) (bs : list byte) (b : MTCLBackend) : MTCLBackend := {|
  node_name := node_name b; open_connections := open_connections b; pending_file := pending_file b;
  closed := closed b; transmitted := transmitted b ++ [(h, bs)]; next_send := next_send b |}.
Definition next_send_up (b : MTCLBackend) : MTCLBackend := {|
  node_name := node_name b; open_connections := open_connections b; pending_file := pending_file b;
  closed := closed b; transmitted := transmitted b; next_send := next_send b + 1 |}.

(** ** Sends *)

(** [MTCL::test] of the sends: [None] while one is under way, or the bytes it
    moved. *)
Definition tests : Type := Z -> option Z.

(** [MTCLConnection::_cleanup_completed_sends] *)
Fixpoint cleanup_sends (test : tests) (sends : list PendingSend) : bool * list PendingSend :=
  match sends with
  | [] => (true, [])
  | s :: sends' =>
      match test (ps_request s) with
      | None => let '(ok, rest) := cleanup_sends test sends' in (ok, s :: rest)
      | Some n => if negb (n =? zlen (ps_frame s)) then (false, s :: sends') else cleanup_sends test sends'
      end
  end.

(** Erasing a connection runs its destructor, which closes the handle. *)
Definition remove_connection (hostname : string) (b : MTCLBackend) : MTCLBackend :=
  match open_connections b !! hostname with
  | None => b
  | Some c => close_handle (handle c) (set_open_connections (delete hostname (open_connections b)) b)
  end.

(** [MTCLBackend::cleanup_completed_sends]: the failed peers are removed after the
    loop. *)
Definition cleanup_completed_sends (test : tests) (b : MTCLBackend) : MTCLBackend :=
  let results := (fun c => cleanup_sends test (pending_sends c)) <$> open_connections b in
  let failed := (filter (fun p => p.2.1 = false) (map_to_list results)).*1 in
  let kept := (fun c => {| handle := handle c; pending_sends := (cleanup_sends test (pending_sends c)).2 |})
              <$> open_connections b in
  foldl (fun b hostname => remove_connection hostname b) (set_open_connections kept b) failed.

(** [MTCLConnection::send]: [accepted] is the answer of [isend]. *)
Definition connection_send (test : tests) (accepted : bool) (frame : list byte) (id : Z) (c : MTCLConnection)
  : bool * MTCLConnection :=
  let '(ok, sends) := cleanup_sends test (pending_sends c) in
  if negb ok then (false, {| handle := handle c; pending_sends := sends |})
  else if negb accepted then (false, {| handle := handle c; pending_sends := sends |})
  else (true, {| handle := handle c; pending_sends := sends ++ [{| ps_frame := frame; ps_request := id |}] |}).

Definition send_frame (test : tests) (accepted : bool) (message : list byte) (message_len : Z)
    (file : option (list byte)) (file_len : Z) (target : string) : M MTCLBackend unit :=
  let* frame := lift (build_frame message message_len file file_len) in
  let* b := get in
  match open_connections b !! target with
  | None => ret tt
  | Some c =>
      let '(ok, c') := connection_send test accepted frame (next_send b) c in
      modify (fun b => set_open_connections (<[target := c']> (open_connections b)) b) ;;
      if ok then modify (fun b => next_send_up (transmit (handle c) frame b))
      else modify (remove_connection target)
  end.

Definition invalid_message (message : option (list byte)) (message_len : Z) : bool :=
  negb (bool_decide (is_Some message)) || (message_len <=? 0) || (CAPIO_SERVER_REQUEST_MAX_SIZE <? message_len).

Definition mtcl_send_request (test : tests) (accepted : bool) (message : option (list byte)) (message_len : Z)
    (target : string) : M MTCLBackend unit :=
  if invalid_message message message_len then throw "Invalid MTCL request"
  else send_frame test accepted (default [] message) message_len None 0 target.

Definition mtcl_send_file (test : tests) (accepted : bool) (message : option (list byte)) (message_len : Z)
    (shm : option (list byte)) (nbytes : Z) (target : string) : M MTCLBackend unit :=
  if invalid_message message message_len || (nbytes <? 0) || (MTCL_MAX_FILE_TRANSFER_SIZE <? nbytes)
     || (negb (nbytes =? 0) && negb (bool_decide (is_Some shm)))
  then throw "Invalid MTCL request or file buffer"
  else send_frame test accepted (default [] message) message_len (if nbytes =? 0 then None else shm) nbytes target.

(** The bytes [recv_file] copies to the caller's buffer, [None] for a null one. *)
Definition recv_file (shm : bool) (bytes_expected : Z) (source : string) : M MTCLBackend (list byte) :=
  if negb shm || (bytes_expected <? 0) then throw "Invalid MTCL destination buffer"
  else
    let* b := get in
    match pending_file b with
    | None => throw "MTCL file does not match the pending request"
    | Some f =>
        if negb (String.eqb (pf_source f) source) || negb (u64 (zlen (pf_frame f) - pf_offset f) =? bytes_expected)
        then throw "MTCL file does not match the pending request"
        else modify (set_pending_file None) ;;
             ret (take (Z.to_nat bytes_expected) (drop (Z.to_nat (pf_offset f)) (pf_frame f)))
    end.

(** ** Connections *)

(** [receive_message] on a handle whose next messages are [incoming]: the message
    when it has exactly the expected size. *)
Definition receive_message (incoming : list (list byte)) (size : Z) : option (list byte * list (list byte)) :=
  match incoming with
  | m :: rest => if zlen m =? size then Some (m, rest) else None
  | [] => None
  end.

(** A connection that was yielded to the library, registered under its name. *)
Definition register_connection (h : Z) (remote_hostname : string) (b : MTCLBackend) : MTCLBackend :=
  match open_connections b !! remote_hostname with
  | Some _ => close_handle h b
  | None => set_open_connections (<[remote_hostname := {| handle := h; pending_sends := [] |}]> (open_connections b)) b
  end.

Definition accept_connection (h : Z) (incoming : list (list byte)) (b : MTCLBackend) : MTCLBackend :=
  match receive_message incoming 8 with
  | None => close_handle h b
  | Some (size, incoming) =>
      let hostname_size := size_t_of size in
      if (hostname_size =? 0) || (HOST_NAME_MAX <? hostname_size) then close_handle h b
      else match receive_message incoming hostname_size with
           | None => close_handle h b
           | Some (name, _) => register_connection h (string_of_list_byte name) b
           end
  end.

(** The host of a token [protocol:host:port]. *)
Definition token_hostname (token : string) : option string :=
  match String.index 0 ":" token, rindex ":" token with
  | Some first_colon, Some last_colon =>
      if (first_colon =? last_colon)%nat then None
      else Some (substring (first_colon + 1) (last_colon - first_colon - 1) token)
  | _, _ => None
  end.

(** Whether [connect_to] goes on to open a connection: only the node with the
    smaller name does, to a peer it is not connected with. *)
Definition initiates (b : MTCLBackend) (token : string) : option string :=
  match token_hostname token with
  | None => None
  | Some remote_hostname =>
      if String.eqb remote_hostname "" || negb (String.ltb (node_name b) remote_hostname) then None
      else match open_connections b !! remote_hostname with Some _ => None | None => Some remote_hostname end
  end.

(** [connected] is the handle of [Manager::connect], when it is valid; [sent1] and
    [sent2] say whether the two sends move all their bytes. *)
Definition connect_to (connected : option Z) (sent1 sent2 : bool) (target_token : string) (b : MTCLBackend)
  : MTCLBackend :=
  match initiates b target_token with
  | None => b
  | Some remote_hostname =>
      match connected with
      | None => b
      | Some h =>
          let name := list_byte_of_string (node_name b) in
          let b1 := transmit h (size_t_bytes (zlen name)) b in
          if negb sent1 then close_handle h b1
          else let b2 := transmit h name b1 in
               if negb sent2 then close_handle h b2 else register_connection h remote_hostname b2
      end
  end.

(** [MTCLBackend::MTCLBackend], its tokens, and the destructor. *)
Definition MTCLBackend_new (name : string) : MTCLBackend :=
  {| node_name := name; open_connections := ∅; pending_file := None; closed := []; transmitted := []; next_send := 0 |}.
Definition listen_token (proto port : string) : string := (proto ++ ":0.0.0.0:" ++ port)%string.
Definition advertisement_token (proto name port : string) : string := (proto ++ ":" ++ name ++ ":" ++ port)%string.
Definition MTCLBackend_destroy (b : MTCLBackend) : MTCLBackend :=
  foldl (fun b hostname => remove_connection hostname b) b (map_to_list (open_connections b)).*1.
Definition get_nodes (b : MTCLBackend) : gset string := {[ node_name b ]} ∪ dom (open_connections b).

(** ** The loop of [read_next_request] *)

(** What [getNext] answers: nothing before the timeout, a new connection with what
    it sends, or a handle with something to read, its name, the answers of
    [probe] and the bytes that arrive. *)
Inductive mtcl_event : Type :=
| Nothing
| NewConnection (h : Z) (incoming : list (list byte))
| Readable (name : string) (probe available : Z) (received : option (list byte)).
(** A turn: whether the server still runs, the sends that completed, the event. *)
Record turn : Type := { t_continue : bool; t_test : tests; t_event : mtcl_event }.

(** What a turn does with a readable handle: [None] when the peer is dropped. *)
Definition read_frame (available : Z) (probe : Z) (received : option (list byte)) : option (list byte * list byte * option Z) :=
  if probe <=? 0 then None
  else if (available <? MTCL_HEADER_SIZE) || (MTCL_MAX_FRAME_SIZE <? available) then None
  else match received with
       | None => None
       | Some frame =>
           if negb (zlen frame =? available) then None
           else match decode_frame frame with
                | inl _ => None
                | inr (req, offset) => Some (frame, req, offset)
                end
       end.

Fixpoint read_next_loop (turns : list turn) (b : MTCLBackend) : outcome (RemoteRequest * list turn * MTCLBackend) :=
  match turns with
  | [] => Blocks "MTCL::Manager::getNext"
  | t :: turns' =>
      if negb (t_continue t) then Done (RemoteRequest_new "" "", turns', b)
      else
        let b := cleanup_completed_sends (t_test t) b in
        match t_event t with
        | Nothing => read_next_loop turns' b
        | NewConnection h incoming => read_next_loop turns' (accept_connection h incoming b)
        | Readable remote_hostname probe available received =>
            match read_frame available probe received with
            | None => read_next_loop turns' (remove_connection remote_hostname b)
            | Some (frame, req, offset) =>
                let b := match offset with
                         | Some o => set_pending_file (Some {| pf_source := remote_hostname; pf_frame := frame;
                                                               pf_offset := o |}) b
                         | None => b
                         end in
                Done (RemoteRequest_new (string_of_list_byte req) remote_hostname, turns', b)
            end
        end
  end.
Definition read_next_request (turns : list turn) (b : MTCLBackend) : outcome (RemoteRequest * list turn * MTCLBackend) :=
  read_next_loop turns (set_pending_file None b).

(** ** Numbers are read as they were written *)

Lemma byte_val_range b : 0 <= byte_val b < 256.
Proof. unfold byte_val. pose proof (Byte.to_N_bounded b). lia. Qed.

Lemma byte_val_of v : byte_val (byte_of v) = v mod 256.
Proof.
  pose proof (Z.mod_pos_bound v 256 ltac:(lia)) as Hm. unfold byte_val, byte_of.
  destruct (Byte.of_N (Z.to_N (v mod 256))) as [b|] eqn:Hb; simpl.
  - apply Byte.to_of_N in Hb. rewrite Hb. lia.
  - apply Byte.of_N_None_iff in Hb. lia.
Qed.

Lemma byte_of_val x b : byte_of (x * 256 + byte_val b) = b.
Proof.
  unfold byte_of. pose proof (byte_val_range b).
  rewrite Z.add_comm, Z.mod_add, Z.mod_small by lia. unfold byte_val. by rewrite N2Z.id, Byte.of_to_N.
Qed.

(** One more byte, when the value so far leaves room for it. *)
Lemma read_step v b :
  0 <= v < 2 ^ 56 -> Z.lor (u64 (Z.shiftl v 8)) (byte_val b) = v * 256 + byte_val b.
Proof.
  intros Hv. pose proof (byte_val_range b). rewrite Z.shiftl_mul_pow2 by lia. change (2 ^ 8) with 256.
  rewrite u64_small by lia. pose proof (Z.add_lor_land (v * 256) (byte_val b)) as Hadd.
  assert (Z.land (v * 256) (byte_val b) = 0) as Hz; [|lia].
  apply Z.bits_inj'. intros i Hi. rewrite Z.land_spec, Z.bits_0. change 256 with (2 ^ 8).
  destruct (decide (i < 8)).
  - by rewrite Z.mul_pow2_bits_low.
  - rewrite (Z.bits_above_log2 (byte_val b)), andb_false_r; [done|lia|].
    assert (2 ^ 8 <= 2 ^ i) by (apply Z.pow_le_mono_r; lia).
    destruct (decide (byte_val b = 0)) as [->|]; [simpl; lia|]. apply Z.log2_lt_pow2; lia.
Qed.

Definition be_step (v : Z) (b : byte) : Z := v * 256 + byte_val b.

Lemma read_fold l v :
  0 <= v -> (v + 1) * 256 ^ zlen l <= 2 ^ 64 ->
  foldl (fun value b => Z.lor (u64 (Z.shiftl value 8)) (byte_val b)) v l = foldl be_step v l.
Proof.
  revert v; induction l as [|b l IH]; intros v Hv Hb; simpl; [done|].
  pose proof (byte_val_range b). unfold zlen in *. cbn [length] in Hb.
  rewrite Nat2Z.inj_succ, Z.pow_succ_r in Hb by lia. pose proof (Z.pow_pos_nonneg 256 (Z.of_nat (length l)) ltac:(lia) ltac:(lia)).
  rewrite read_step by (split; [done|]; change (2 ^ 64) with (2 ^ 56 * 256) in Hb; nia).
  change (be_step v b) with (v * 256 + byte_val b). apply IH; [lia|]. etrans; [|exact Hb].
  rewrite Z.mul_assoc. apply Z.mul_le_mono_nonneg_r; lia.
Qed.

Lemma write_loop_fold n v tail a :
  foldl be_step a (write_loop n v tail) = foldl be_step (a * 256 ^ Z.of_nat n + v mod 256 ^ Z.of_nat n) tail.
Proof.
  revert v tail; induction n as [|n IH]; intros v tail; [simpl; rewrite Z.mod_1_r; f_equal; lia|].
  cbn [write_loop]. rewrite IH. simpl foldl. f_equal. unfold be_step. rewrite byte_val_of.
  rewrite Z.shiftr_div_pow2 by lia. change (2 ^ 8) with 256.
  rewrite Nat2Z.inj_succ, Z.pow_succ_r by lia.
  pose proof (Z.pow_pos_nonneg 256 (Z.of_nat n) ltac:(lia) ltac:(lia)).
  rewrite (Z.rem_mul_r v 256) by lia. lia.
Qed.

Lemma write_fold l a tail : write_loop (length l) (foldl be_step a l) tail = l ++ tail.
Proof.
  revert tail; induction l as [|b l IH] using rev_ind; intros tail; [done|].
  rewrite length_app, Nat.add_comm, foldl_app. cbn [foldl length Nat.add write_loop].
  change (be_step (foldl be_step a l) b) with (foldl be_step a l * 256 + byte_val b). rewrite byte_of_val.
  rewrite Z.shiftr_div_pow2, Z.div_add_l, (Z.div_small (byte_val b)), Z.add_0_r by (done || lia || apply byte_val_range).
  rewrite IH. by rewrite <- app_assoc.
Qed.

Lemma length_write_loop n v tail : length (write_loop n v tail) = (n + length tail)%nat.
Proof. revert v tail; induction n as [|n IH]; intros; simpl; [done|]. rewrite IH. simpl. lia. Qed.

Lemma length_write_u64 v : length (write_u64 v) = 8%nat.
Proof. apply length_write_loop. Qed.

Lemma read_u64_fold l : read_u64 l = foldl be_step 0 (take 8 l).
Proof.
  unfold read_u64. apply read_fold; [done|]. rewrite Z.add_0_l, Z.mul_1_l. change (2 ^ 64) with (256 ^ 8).
  apply Z.pow_le_mono_r; [lia|]. unfold zlen. rewrite length_take. lia.
Qed.

Lemma read_write_u64 v rest : 0 <= v < 2 ^ 64 -> read_u64 (write_u64 v ++ rest) = v.
Proof.
  intros Hv. rewrite read_u64_fold, (take_app_length' (write_u64 v) rest 8) by (symmetry; apply length_write_u64).
  unfold write_u64. rewrite write_loop_fold. simpl. rewrite Z.mod_small; lia.
Qed.

Lemma write_read_u64 l : (8 <= length l)%nat -> write_u64 (read_u64 l) = take 8 l.
Proof.
  intros Hl. rewrite read_u64_fold. unfold write_u64.
  replace 8%nat with (length (take 8 l)) at 1 by (rewrite length_take; lia). by rewrite write_fold, app_nil_r.
Qed.

Lemma read_u64_range l : 0 <= read_u64 l < 2 ^ 64.
Proof.
  rewrite read_u64_fold. assert (Hlen : (length (take 8 l) <= 8)%nat) by (rewrite length_take; lia).
  assert (Hgen : forall k a, 0 <= a -> 0 <= foldl be_step a k < (a + 1) * 256 ^ zlen k).
  { induction k as [|b k IH]; intros a Ha; simpl; [unfold zlen; simpl; lia|].
    pose proof (byte_val_range b). change (be_step a b) with (a * 256 + byte_val b).
    destruct (IH (a * 256 + byte_val b)) as [? Hlt]; [lia|]. split; [done|]. eapply Z.lt_le_trans; [exact Hlt|]. unfold zlen. cbn [length]. rewrite Nat2Z.inj_succ, Z.pow_succ_r by lia.
    pose proof (Z.pow_pos_nonneg 256 (Z.of_nat (length k)) ltac:(lia) ltac:(lia)).
    rewrite Z.mul_assoc. apply Z.mul_le_mono_nonneg_r; lia. }
  destruct (Hgen (take 8 l) 0 ltac:(lia)) as [? Hlt]. split; [done|]. eapply Z.lt_le_trans; [exact Hlt|].
  change (2 ^ 64) with ((0 + 1) * 256 ^ 8). apply Z.mul_le_mono_nonneg_l; [lia|]. apply Z.pow_le_mono_r; unfold zlen; lia.
Qed.

(** ** Frames *)

(** The frame of a request and its file, as the layout of the source shows it. *)
Definition frame_of (req file : list byte) : list byte :=
  MessageType_byte (match file with [] => request | _ => request_with_file end)
  :: write_u64 (zlen req) ++ write_u64 (zlen file) ++ req ++ file.
Definition frame_ok (req file : list byte) : Prop :=
  1 <= zlen req <= CAPIO_SERVER_REQUEST_MAX_SIZE /\ zlen file <= MTCL_MAX_FILE_TRANSFER_SIZE.

Lemma zlen_nonneg {A} (l : list A) : 0 <= zlen l.
Proof. unfold zlen. lia. Qed.
Lemma zlen_app {A} (l k : list A) : zlen (l ++ k) = zlen l + zlen k.
Proof. unfold zlen. rewrite length_app. lia. Qed.
Lemma zlen_nil_iff {A} (l : list A) : zlen l = 0 <-> l = [].
Proof. unfold zlen. destruct l; simpl; split; (done || lia). Qed.

Lemma zlen_frame req file : zlen (frame_of req file) = MTCL_HEADER_SIZE + zlen req + zlen file.
Proof.
  unfold frame_of, MTCL_HEADER_SIZE, zlen. cbn [length]. rewrite !length_app, !length_write_u64. lia.
Qed.

Lemma drop_frame_request req file : drop 17 (frame_of req file) = req ++ file.
Proof. done. Qed.

Lemma drop_frame_file req file : drop (Z.to_nat (MTCL_HEADER_SIZE + zlen req)) (frame_of req file) = file.
Proof.
  unfold MTCL_HEADER_SIZE, zlen. replace (Z.to_nat (17 + Z.of_nat (length req))) with (17 + length req)%nat by lia.
  rewrite <- drop_drop, drop_frame_request. by apply drop_app_length'.
Qed.

Lemma decode_frame_of req file :
  frame_ok req file ->
  decode_frame (frame_of req file)
  = inr (req, match file with [] => None | _ => Some (MTCL_HEADER_SIZE + zlen req) end).
Proof.
  intros [Hreq Hfile]. pose proof (zlen_nonneg file).
  assert (Hbound : MTCL_MAX_FILE_TRANSFER_SIZE < 2 ^ 63 /\ CAPIO_SERVER_REQUEST_MAX_SIZE < 2 ^ 63) by (split; reflexivity).
  assert (Hr : read_u64 (drop 1 (frame_of req file)) = zlen req) by (apply read_write_u64; lia).
  assert (Hf : read_u64 (drop 9 (frame_of req file)) = zlen file).
  { change (drop 9 (frame_of req file)) with (write_u64 (zlen file) ++ req ++ file). apply read_write_u64. lia. }
  unfold decode_frame. rewrite Hr, Hf, zlen_frame, u64_small by lia.
  rewrite (proj2 (Z.eqb_neq (zlen req) 0)), (proj2 (Z.ltb_ge _ (zlen req))), (proj2 (Z.ltb_ge _ (zlen file))) by lia.
  replace (zlen req + zlen file =? _) with true by (symmetry; apply Z.eqb_eq; lia).
  change (drop (Z.to_nat MTCL_HEADER_SIZE) (frame_of req file)) with (req ++ file).
  replace (Z.to_nat (zlen req)) with (length req) by (unfold zlen; lia). rewrite take_app_length.
  destruct file as [|x file]; [done|]. simpl MessageType_byte. unfold frame_of. cbn [MessageType_byte orb].
  rewrite (proj2 (Z.eqb_neq (zlen (x :: file)) 0)) by (unfold zlen; simpl; lia). done.
Qed.

(** The type byte of a frame that was accepted. *)
Lemma decode_frame_of_inv frame req off :
  MTCL_HEADER_SIZE <= zlen frame -> decode_frame frame = inr (req, off) ->
  exists file, frame_ok req file /\ frame = frame_of req file
    /\ off = match file with [] => None | _ => Some (MTCL_HEADER_SIZE + zlen req) end.
Proof.
  intros Hlen Hd. unfold decode_frame in Hd. set (rs := read_u64 (drop 1 frame)) in *. set (fs := read_u64 (drop 9 frame)) in *.
  assert (Hrs : 0 <= rs < 2 ^ 64) by apply read_u64_range. assert (Hfs : 0 <= fs < 2 ^ 64) by apply read_u64_range.
  destruct frame as [|t frame]; [done|]. unfold MTCL_HEADER_SIZE, zlen in Hlen. simpl in Hlen.
  assert (exists ty, (match t :: frame with x01 :: _ => Some request | x02 :: _ => Some request_with_file | _ => None end) = Some ty
          /\ t = MessageType_byte ty) as (ty & Hty & ->) by (destruct t; try done; by eexists).
  rewrite Hty in Hd. clear Hty.
  destruct ((rs =? 0) || _) eqn:Hr in Hd; [done|]. apply orb_false_iff in Hr as [Hr0%Z.eqb_neq Hr1%Z.ltb_ge].
  destruct (MTCL_MAX_FILE_TRANSFER_SIZE <? fs) eqn:Hf in Hd; [done|]. apply Z.ltb_ge in Hf.
  destruct (Bool.eqb _ _) eqn:He in Hd; [|done]. simpl in Hd. apply Bool.eqb_prop in He.
  assert (MTCL_MAX_FILE_TRANSFER_SIZE < 2 ^ 63 /\ CAPIO_SERVER_REQUEST_MAX_SIZE < 2 ^ 63) as [? ?] by (split; reflexivity).
  rewrite u64_small in Hd by lia. destruct (_ =? _) eqn:Hsz in Hd; [|done]. simpl in Hd. apply Z.eqb_eq in Hsz.
  unfold MTCL_HEADER_SIZE, zlen in Hsz. simpl length in Hsz.
  injection Hd as Hreq Hoff. simpl drop in Hreq.
  set (body := drop 16 frame) in *. assert (Hbody : zlen body = rs + fs) by (unfold zlen, body; rewrite length_drop; lia).
  assert (Hfr : frame = write_u64 rs ++ write_u64 fs ++ body).
  { unfold rs, fs, body. simpl drop. rewrite !write_read_u64 by (rewrite ?length_drop; lia).
    rewrite <- (take_drop 8 frame) at 1. f_equal. rewrite <- (take_drop 8 (drop 8 frame)) at 1. by rewrite drop_drop. }
  assert (Hzr : zlen req = rs) by (subst req; unfold zlen in *; rewrite length_take; lia).
  exists (drop (Z.to_nat rs) body).
  assert (Hzf : zlen (drop (Z.to_nat rs) body) = fs) by (unfold zlen in *; rewrite length_drop; lia).
  assert (Hemp : ty = request /\ drop (Z.to_nat rs) body = [] \/ ty = request_with_file /\ drop (Z.to_nat rs) body <> []).
  { rewrite <- !zlen_nil_iff, Hzf. destruct ty; [left|right]; (split; [done|]); destruct (Z.eqb_spec fs 0); done. }
  split; [split; lia|]. unfold frame_of. rewrite Hzr, Hzf.
  assert (Hty : match drop (Z.to_nat rs) body with [] => request | _ => request_with_file end = ty)
    by (destruct Hemp as [[-> ->]|[-> ?]]; [done|by destruct (drop _ body)]).
  rewrite Hty. split.
  - f_equal. rewrite Hfr. do 2 f_equal. subst req. symmetry. apply take_drop.
  - rewrite <- Hoff. destruct Hemp as [[-> ->]|[-> ?]]; [done|by destruct (drop _ body)].
Qed.

(** ** Transfers *)

Lemma send_frame_transmits test message file target a c frame :
  build_frame message (zlen message) file (zlen (default [] file)) = Done frame ->
  open_connections a !! target = Some c -> (cleanup_sends test (pending_sends c)).1 = true ->
  exists a', send_frame test true message (zlen message) file (zlen (default [] file)) target a = Done (tt, a')
    /\ transmitted a' = transmitted a ++ [(handle c, frame)].
Proof.
  intros Hb Hc Hok. unfold send_frame, bind, lift, get. rewrite Hb. cbn [outcome_bind]. rewrite Hc.
  unfold connection_send. destruct (cleanup_sends test (pending_sends c)) as [ok sends]. simpl in Hok. subst ok.
  by eexists.
Qed.

Lemma copy_from_all l : copy_from l (zlen l) = Done l.
Proof.
  unfold copy_from. rewrite Z.leb_refl. do 2 f_equal. unfold zlen. rewrite Nat2Z.id. apply take_ge. lia.
Qed.

Lemma build_frame_of message data :
  build_frame message (zlen message) (if zlen data =? 0 then None else Some data) (zlen data)
  = Done (frame_of message data).
Proof.
  unfold build_frame. rewrite copy_from_all. cbn [outcome_bind].
  destruct (Z.eqb_spec (zlen data) 0) as [Hz|Hz].
  - apply zlen_nil_iff in Hz as ->. done.
  - cbn [default]. rewrite copy_from_all. cbn [outcome_bind]. do 2 f_equal. by destruct data.
Qed.

(** What a peer that reads the frame gets. *)
Lemma read_next_frame req file source probe test turns b :
  frame_ok req file -> 0 < probe ->
  exists b', read_next_request ({| t_continue := true; t_test := test;
        t_event := Readable source probe (zlen (frame_of req file)) (Some (frame_of req file)) |} :: turns) b
      = Done (RemoteRequest_new (string_of_list_byte req) source, turns, b')
    /\ (file <> [] -> recv_file true (zlen file) source b' = Done (file, set_pending_file None b')).
Proof.
  intros Hok Hp. pose proof Hok as [[Hr1 Hr2] Hf]. pose proof (zlen_nonneg file).
  unfold read_next_request. cbn [read_next_loop t_continue negb t_event t_test].
  set (b0 := cleanup_completed_sends test (set_pending_file None b)).
  unfold read_frame. rewrite (proj2 (Z.leb_gt probe 0)) by done. rewrite zlen_frame.
  rewrite (proj2 (Z.ltb_ge _ MTCL_HEADER_SIZE)), (proj2 (Z.ltb_ge MTCL_MAX_FRAME_SIZE _)), Z.eqb_refl
    by (unfold MTCL_MAX_FRAME_SIZE; lia).
  cbn [orb negb]. rewrite decode_frame_of by done. cbv beta iota.
  eexists. split; [reflexivity|]. intros Hne. destruct file as [|x file]; [done|]. set (f := x :: file) in *.
  unfold recv_file. rewrite (proj2 (Z.ltb_ge (zlen f) 0)) by lia. unfold bind, get. cbn [negb orb outcome_bind].
  cbn [pending_file set_pending_file pf_source pf_frame pf_offset]. rewrite String.eqb_refl. cbn [negb orb].
  rewrite zlen_frame. replace (MTCL_HEADER_SIZE + zlen req + zlen f - (MTCL_HEADER_SIZE + zlen req)) with (zlen f) by lia.
  assert (MTCL_MAX_FILE_TRANSFER_SIZE < 2 ^ 63) by reflexivity. rewrite u64_small, Z.eqb_refl by lia. cbn [negb].
  unfold modify, ret. cbn [outcome_bind]. rewrite drop_frame_file.
  rewrite take_ge by (unfold zlen; lia). done.
Qed.

(** A message and its file reach the other server unchanged.  When node [a] has a
    connection to a peer and its earlier sends did not fail, [send_file] gives the
    library one frame; the peer that then receives these bytes decodes a request
    that its listener handles as the message that was sent, with [a] as its
    source, and [recv_file] of the announced size gives exactly the file. *)
Theorem transfer_correct `{Config} (a b : MTCLBackend) (c : MTCLConnection) (test test' : tests) (m : remote_message)
    (data : list byte) (peer : string) (probe : Z) (turns : list turn) :
  let msg := list_byte_of_string (message_text m) in
  message_wf m -> frame_ok msg data ->
  open_connections a !! peer = Some c -> (cleanup_sends test (pending_sends c)).1 = true -> 0 < probe ->
  exists a' frame r b',
    mtcl_send_file test true (Some msg) (zlen msg) (Some data) (zlen data) peer a = Done (tt, a')
    /\ transmitted a' = transmitted a ++ [(handle c, frame)]
    /\ read_next_request ({| t_continue := true; t_test := test';
          t_event := Readable (node_name a) probe (zlen frame) (Some frame) |} :: turns) b = Done (r, turns, b')
    /\ listener_step r = handle_message (node_name a) m
    /\ (data <> [] -> recv_file true (zlen data) (node_name a) b' = Done (data, set_pending_file None b')).
Proof.
  intros msg Hwf Hok Hc Hclean Hp. pose proof Hok as [[Hm1 Hm2] Hd]. pose proof (zlen_nonneg data).
  pose proof (build_frame_of msg data) as Hframe.
  set (file := if zlen data =? 0 then None else Some data) in *.
  assert (Hlen : zlen data = zlen (default [] file)).
  { subst file. destruct (Z.eqb_spec (zlen data) 0); [by rewrite e|done]. }
  rewrite Hlen in Hframe. destruct (send_frame_transmits test msg file peer a c _ Hframe Hc Hclean) as (a' & Hsend & Ht).
  destruct (read_next_frame msg data (node_name a) probe test' turns b Hok Hp) as (b' & Hread & Hrecv).
  exists a', (frame_of msg data), (RemoteRequest_new (string_of_list_byte msg) (node_name a)), b'. split_and!; try done.
  - unfold mtcl_send_file, invalid_message. cbn [is_Some bool_decide].
    rewrite bool_decide_eq_true_2 by eauto. cbn [negb orb].
    rewrite (proj2 (Z.leb_gt (zlen msg) 0)), (proj2 (Z.ltb_ge _ (zlen msg))), (proj2 (Z.ltb_ge (zlen data) 0)),
      (proj2 (Z.ltb_ge _ (zlen data))) by lia.
    rewrite (bool_decide_eq_true_2 (is_Some (Some data))) by eauto. rewrite andb_false_r. cbn [orb default].
    fold file. by rewrite Hlen.
  - unfold msg. rewrite string_of_list_byte_of_string. by apply listener_handles.
Qed.

(** C37. Only frames of the protocol are accepted.  Whatever bytes a peer sends, a
    request that [read_next_request] takes out of them came in a frame that
    [send_frame] builds for that request and some file, within the size limits of
    both, and the file offset that is kept is where that file starts: a declared
    size that does not match the bytes, a wrong type or an oversized part is
    rejected. *)
Theorem accepted_frames_well_formed (available probe : Z) (received : option (list byte))
    (frame req : list byte) (offset : option Z) :
  read_frame available probe received = Some (frame, req, offset) ->
  received = Some frame /\ zlen frame = available
  /\ exists file, frame_ok req file /\ frame = frame_of req file
    /\ build_frame req (zlen req) (if zlen file =? 0 then None else Some file) (zlen file) = Done frame
    /\ offset = (if decide (file = []) then None else Some (zlen frame - zlen file)).
Proof.
  unfold read_frame. case_match; [done|]. destruct ((available <? _) || _) eqn:Hav; [done|].
  apply orb_false_iff in Hav as [Hav%Z.ltb_ge _]. destruct received as [f|]; [|done].
  destruct (Z.eqb_spec (zlen f) available) as [<-|]; [|done]. simpl.
  destruct (decode_frame f) as [|[r o]] eqn:Hd; [done|]. intros [= -> -> ->].
  destruct (decode_frame_of_inv _ _ _ Hav Hd) as (file & Hok & -> & ->). split_and!; [done|done|].
  exists file. split_and!; [done|done|apply build_frame_of|]. rewrite zlen_frame.
  destruct file as [|x file]; [done|]. rewrite decide_False by done. f_equal. lia.
Qed.

(** ** Connections *)

(** Every handle the library handed out, [hs], is open under one name or was
    closed, once; what is being sent was given to the library for that handle. *)
Record mtcl_inv (hs : gset Z) (b : MTCLBackend) : Prop := {
  mi_once : NoDup (closed b);
  mi_one_name n1 n2 c1 c2 : open_connections b !! n1 = Some c1 -> open_connections b !! n2 = Some c2 ->
    handle c1 = handle c2 -> n1 = n2;
  mi_open n c : open_connections b !! n = Some c -> handle c ∉ closed b;
  mi_all h : h ∈ hs <-> h ∈ closed b \/ exists n c, open_connections b !! n = Some c /\ handle c = h;
  mi_sends n c p : open_connections b !! n = Some c -> p ∈ pending_sends c ->
    (handle c, ps_frame p) ∈ transmitted b
}.

Lemma mtcl_inv_new name : mtcl_inv ∅ (MTCLBackend_new name).
Proof.
  split; simpl; [constructor|done|done| |done]. intros h. split; [set_solver|].
  intros [Hh|(n & c & Hc & _)]; [by apply elem_of_nil in Hh|done].
Qed.

Lemma mtcl_inv_pending hs b f : mtcl_inv hs b -> mtcl_inv hs (set_pending_file f b).
Proof. by intros []. Qed.

Lemma mtcl_inv_remove hs b hostname : mtcl_inv hs b -> mtcl_inv hs (remove_connection hostname b).
Proof.
  intros [Honce Hname Hopen Hall Hsends]. unfold remove_connection.
  destruct (open_connections b !! hostname) as [c|] eqn:Hc; [|done].
  split; simpl.
  - apply NoDup_app. split; [done|]. split; [|apply NoDup_singleton].
    intros h Hh ->%list_elem_of_singleton. by apply (Hopen _ _ Hc).
  - intros n1 n2 c1 c2 [_ H1]%lookup_delete_Some [_ H2]%lookup_delete_Some. by apply Hname.
  - intros n c' [Hne Hc']%lookup_delete_Some. rewrite elem_of_app, list_elem_of_singleton.
    intros [Hin|Heq]; [by apply (Hopen _ _ Hc')|]. by apply Hne, (Hname _ _ _ _ Hc Hc').
  - intros h. rewrite Hall, elem_of_app, list_elem_of_singleton. split.
    + intros [?|(n & c' & Hc' & <-)]; [by left; left|].
      destruct (decide (n = hostname)) as [->|Hne]; [left; right; congruence|].
      right. exists n, c'. by rewrite lookup_delete_ne.
    + intros [[?| ->]|(n & c' & [_ Hc']%lookup_delete_Some & <-)]; [by left|right; eauto..].
  - intros n c' p [_ Hc']%lookup_delete_Some. by apply (Hsends n).
Qed.

Lemma mtcl_inv_removes hs b l :
  mtcl_inv hs b -> mtcl_inv hs (foldl (fun b hostname => remove_connection hostname b) b l).
Proof. revert b; induction l as [|n l IH]; intros b Hb; simpl; [done|]. by apply IH, mtcl_inv_remove. Qed.

(** A change of the pending sends of the connections. *)
Lemma mtcl_inv_conns hs b conns sent :
  (forall n, handle <$> conns !! n = handle <$> open_connections b !! n) ->
  (forall n c p, conns !! n = Some c -> p ∈ pending_sends c -> (handle c, ps_frame p) ∈ transmitted b ++ sent) ->
  mtcl_inv hs b ->
  mtcl_inv hs {| node_name := node_name b; open_connections := conns; pending_file := pending_file b;
                 closed := closed b; transmitted := transmitted b ++ sent; next_send := next_send b |}.
Proof.
  intros Hh Hp [Honce Hname Hopen Hall Hsends].
  assert (Hold : forall n c, conns !! n = Some c -> exists c0, open_connections b !! n = Some c0 /\ handle c0 = handle c).
  { intros n c Hc. specialize (Hh n). rewrite Hc in Hh. destruct (open_connections b !! n); naive_solver. }
  assert (Hnew : forall n c0, open_connections b !! n = Some c0 -> exists c, conns !! n = Some c /\ handle c0 = handle c).
  { intros n c Hc. specialize (Hh n). rewrite Hc in Hh. destruct (conns !! n); naive_solver. }
  split; simpl; [done| | | |done].
  - intros n1 n2 c1 c2 H1 H2 Heq. destruct (Hold _ _ H1) as (d1 & Hd1 & E1), (Hold _ _ H2) as (d2 & Hd2 & E2).
    apply (Hname _ _ d1 d2); congruence.
  - intros n c Hc. destruct (Hold _ _ Hc) as (d & Hd & <-). by apply Hopen with n.
  - intros h. rewrite Hall. split; (intros [?|(n & c & Hc & <-)]; [by left|right; exists n]).
    + destruct (Hnew _ _ Hc) as (d & Hd & E). exists d. by rewrite E.
    + destruct (Hold _ _ Hc) as (d & Hd & E). by exists d.
Qed.

Lemma cleanup_sends_subset test sends p : p ∈ (cleanup_sends test sends).2 -> p ∈ sends.
Proof.
  induction sends as [|s sends IH]; simpl; [done|]. destruct (test (ps_request s)).
  - case_match; simpl; [done|]. intros Hp. right. by apply IH.
  - destruct (cleanup_sends test sends) as [ok rest]. simpl in *. rewrite !elem_of_cons. naive_solver.
Qed.

Lemma mtcl_inv_cleanup hs b test : mtcl_inv hs b -> mtcl_inv hs (cleanup_completed_sends test b).
Proof.
  intros Hb. apply mtcl_inv_removes. unfold set_open_connections.
  rewrite <- (app_nil_r (transmitted b)). apply mtcl_inv_conns; [| |done].
  - intros n. rewrite lookup_fmap. by destruct (open_connections b !! n).
  - intros n c p. rewrite lookup_fmap, app_nil_r. destruct (open_connections b !! n) as [c0|] eqn:Hc; [|done].
    intros [= <-] Hp. simpl. apply (mi_sends _ _ Hb n c0 p Hc). by apply cleanup_sends_subset in Hp.
Qed.

(** A handle that is closed or registered when it is new. *)
Lemma mtcl_inv_close hs b h : h ∉ hs -> mtcl_inv hs b -> mtcl_inv ({[ h ]} ∪ hs) (close_handle h b).
Proof.
  intros Hh [Honce Hname Hopen Hall Hsends]. split; simpl; [|done| | |done].
  - apply NoDup_app. split; [done|]. split; [|apply NoDup_singleton].
    intros x Hx ->%list_elem_of_singleton. apply Hh, Hall. by left.
  - intros n c Hc. rewrite elem_of_app, list_elem_of_singleton. intros [Hin|Heq]; [by apply (Hopen _ _ Hc)|].
    apply Hh, Hall. right. by exists n, c.
  - intros x. rewrite elem_of_union, elem_of_singleton, elem_of_app, list_elem_of_singleton, Hall. naive_solver.
Qed.

Lemma mtcl_inv_register hs b h name :
  h ∉ hs -> mtcl_inv hs b -> mtcl_inv ({[ h ]} ∪ hs) (register_connection h name b).
Proof.
  intros Hh Hb. unfold register_connection. destruct (open_connections b !! name) as [c|] eqn:Hc; [by apply mtcl_inv_close|].
  destruct Hb as [Honce Hname Hopen Hall Hsends].
  assert (Hfresh : forall n c, open_connections b !! n = Some c -> handle c <> h).
  { intros n c' Hc' <-. apply Hh, Hall. right. by exists n, c'. }
  split; simpl; [done| | | |].
  - intros n1 n2 c1 c2 [[<- <-]|[? H1]]%lookup_insert_Some [[<- <-]|[? H2]]%lookup_insert_Some Heq; try done.
    + by destruct (Hfresh _ _ H2).
    + by destruct (Hfresh _ _ H1).
    + by apply (Hname _ _ _ _ H1 H2).
  - intros n c' [[<- <-]|[? Hc']]%lookup_insert_Some; [|by apply Hopen with n].
    simpl. intros Hin. apply Hh, Hall. by left.
  - intros x. rewrite elem_of_union, elem_of_singleton, Hall. split.
    + intros [->|[?|(n & c' & Hc' & <-)]]; [right|by left|right; exists n, c'].
      * exists name. eexists. by rewrite lookup_insert_eq.
      * rewrite lookup_insert_ne by congruence. done.
    + intros [?|(n & c' & [[<- <-]|[? Hc']]%lookup_insert_Some & <-)]; [by right; left|by left|right; right; eauto].
  - intros n c' p [[<- <-]|[? Hc']]%lookup_insert_Some Hp; [by apply elem_of_nil in Hp|by apply (Hsends n)].
Qed.

Lemma mtcl_inv_transmit hs b h bs : mtcl_inv hs b -> mtcl_inv hs (transmit h bs b).
Proof.
  intros Hb. unfold transmit. apply mtcl_inv_conns; [done| |done].
  intros n c p Hc Hp. apply elem_of_app. left. by apply (mi_sends _ _ Hb n).
Qed.

Lemma mtcl_inv_accept hs b h incoming :
  h ∉ hs -> mtcl_inv hs b -> mtcl_inv ({[ h ]} ∪ hs) (accept_connection h incoming b).
Proof.
  intros Hh Hb. unfold accept_connection.
  repeat case_match; by (apply mtcl_inv_close || apply mtcl_inv_register).
Qed.

Lemma mtcl_inv_connect hs b h sent1 sent2 token name :
  initiates b token = Some name -> h ∉ hs -> mtcl_inv hs b ->
  mtcl_inv ({[ h ]} ∪ hs) (connect_to (Some h) sent1 sent2 token b).
Proof.
  intros Hi Hh Hb. unfold connect_to. rewrite Hi.
  destruct sent1, sent2; simpl; (apply mtcl_inv_register || apply mtcl_inv_close); auto using mtcl_inv_transmit.
Qed.

Lemma mtcl_inv_insert hs b target c sends sent :
  open_connections b !! target = Some c ->
  (forall p, p ∈ sends -> (handle c, ps_frame p) ∈ transmitted b ++ sent) -> mtcl_inv hs b ->
  mtcl_inv hs {| node_name := node_name b;
    open_connections := <[target := {| handle := handle c; pending_sends := sends |}]> (open_connections b);
    pending_file := pending_file b; closed := closed b; transmitted := transmitted b ++ sent; next_send := next_send b |}.
Proof.
  intros Hc Hp Hb. apply mtcl_inv_conns; [| |done].
  - intros n. destruct (decide (n = target)) as [->|]; [by rewrite lookup_insert_eq, Hc|by rewrite lookup_insert_ne].
  - intros n c' p [[<- <-]|[? Hc']]%lookup_insert_Some Hin; [by apply Hp|].
    apply elem_of_app. left. by apply (mi_sends _ _ Hb n).
Qed.

Lemma mtcl_inv_send_frame hs b b' test accepted message len file file_len target :
  mtcl_inv hs b -> send_frame test accepted message len file file_len target b = Done (tt, b') -> mtcl_inv hs b'.
Proof.
  intros Hb. unfold send_frame, bind, lift, get. destruct (build_frame message len file file_len) as [frame| | | |]; try done.
  cbn [outcome_bind]. destruct (open_connections b !! target) as [c|] eqn:Hc; [|by intros [= <-]].
  assert (Hsub : forall p, p ∈ (cleanup_sends test (pending_sends c)).2 -> (handle c, ps_frame p) ∈ transmitted b).
  { intros p Hp. apply (mi_sends _ _ Hb target c p Hc). by apply cleanup_sends_subset in Hp. }
  unfold connection_send. destruct (cleanup_sends test (pending_sends c)) as [ok sends]. simpl in Hsub.
  assert (Hfail : mtcl_inv hs (remove_connection target (set_open_connections
    (<[target := {| handle := handle c; pending_sends := sends |}]> (open_connections b)) b))).
  { apply mtcl_inv_remove. unfold set_open_connections. rewrite <- (app_nil_r (transmitted b)).
    apply mtcl_inv_insert; [done| |done]. intros p Hp. rewrite app_nil_r. by apply Hsub. }
  destruct ok; simpl; [|by intros [= <-]]. destruct accepted; simpl; [|by intros [= <-]]. intros [= <-].
  unfold next_send_up, transmit, set_open_connections. simpl.
  pose proof (mtcl_inv_insert hs b target c (sends ++ [{| ps_frame := frame; ps_request := next_send b |}])
    [(handle c, frame)] Hc) as [? ? ? ? ?]; [|done|by split].
  intros p [Hp| ->%list_elem_of_singleton]%elem_of_app; apply elem_of_app; [left; by apply Hsub|right].
  by apply list_elem_of_singleton.
Qed.

(** The handles the library hands out in the turns of the loop. *)
Definition turn_handle (t : turn) : list Z :=
  if t_continue t then match t_event t with NewConnection h _ => [h] | _ => [] end else [].
Definition turn_handles (ts : list turn) : list Z := mjoin (turn_handle <$> ts).

Lemma mtcl_inv_loop turns hs b r turns' b' :
  NoDup (turn_handles turns) -> (forall h, h ∈ turn_handles turns -> h ∉ hs) -> mtcl_inv hs b ->
  read_next_loop turns b = Done (r, turns', b') ->
  exists used, turns = used ++ turns' /\ mtcl_inv (list_to_set (turn_handles used) ∪ hs) b'.
Proof.
  revert hs b; induction turns as [|t turns IH]; intros hs b Hnd Hfresh Hb; [done|]. cbn [read_next_loop].
  unfold turn_handles in Hnd, Hfresh. rewrite fmap_cons in Hnd, Hfresh. cbn [mjoin list_join] in Hnd, Hfresh.
  apply NoDup_app in Hnd as (_ & Hdis & Hnd).
  (* a turn after which the loop goes on *)
  assert (Hgo : forall b1, mtcl_inv (list_to_set (turn_handle t) ∪ hs) b1 ->
    read_next_loop turns b1 = Done (r, turns', b') ->
    exists used, t :: turns = used ++ turns' /\ mtcl_inv (list_to_set (turn_handles used) ∪ hs) b').
  { intros b1 Hb1 Hr. destruct (IH (list_to_set (turn_handle t) ∪ hs) b1) as (used & -> & Hinv); [done| |done|done|].
    - intros h Hh. rewrite elem_of_union, elem_of_list_to_set. intros [Ht|Hhs]; [by apply (Hdis h Ht)|].
      by apply (Hfresh h); [apply elem_of_app; right|].
    - exists (t :: used). split; [done|]. unfold turn_handles in *. rewrite fmap_cons. cbn [mjoin list_join].
      rewrite list_to_set_app_L. by rewrite (union_comm_L (list_to_set (turn_handle t))), <- union_assoc_L. }
  (* a turn that ends the loop *)
  assert (Hend : forall b1, turn_handle t = [] -> mtcl_inv hs b1 -> turns = turns' -> b1 = b' ->
    exists used, t :: turns = used ++ turns' /\ mtcl_inv (list_to_set (turn_handles used) ∪ hs) b').
  { intros b1 Ht Hb1 <- <-. exists [t]. split; [done|]. unfold turn_handles. simpl. rewrite Ht. simpl. by rewrite union_empty_l_L. }
  unfold turn_handle in Hgo, Hend, Hfresh. destruct (t_continue t); simpl; [|by intros [= <- <- <-]; apply (Hend b)].
  pose proof (mtcl_inv_cleanup hs b (t_test t) Hb) as Hc.
  destruct (t_event t) as [|h incoming|name probe available received].
  - apply Hgo. simpl. by rewrite union_empty_l_L.
  - apply Hgo. simpl. rewrite union_empty_r_L. apply mtcl_inv_accept; [|done]. apply Hfresh. by left.
  - destruct (read_frame available probe received) as [[[frame req] offset]|].
    + intros [= <- <- <-]. eapply Hend; [done| |done|done]. destruct offset; [by apply mtcl_inv_pending|done].
    + apply Hgo. simpl. rewrite union_empty_l_L. by apply mtcl_inv_remove.
Qed.

(** The states of a backend: the operations the server calls, in any order.  The
    library never hands out a handle twice. *)
Inductive mtcl_reachable (name : string) : gset Z -> MTCLBackend -> Prop :=
| reach_new : mtcl_reachable name ∅ (MTCLBackend_new name)
| reach_send_request hs b b' test accepted message len target :
    mtcl_reachable name hs b -> mtcl_send_request test accepted message len target b = Done (tt, b') ->
    mtcl_reachable name hs b'
| reach_send_file hs b b' test accepted message len shm nbytes target :
    mtcl_reachable name hs b -> mtcl_send_file test accepted message len shm nbytes target b = Done (tt, b') ->
    mtcl_reachable name hs b'
| reach_recv_file hs b b' shm n source data :
    mtcl_reachable name hs b -> recv_file shm n source b = Done (data, b') -> mtcl_reachable name hs b'
| reach_connect hs b h sent1 sent2 token peer :
    mtcl_reachable name hs b -> initiates b token = Some peer -> h ∉ hs ->
    mtcl_reachable name ({[ h ]} ∪ hs) (connect_to (Some h) sent1 sent2 token b)
| reach_read hs b used turns r b' :
    mtcl_reachable name hs b -> NoDup (turn_handles (used ++ turns)) ->
    (forall h, h ∈ turn_handles (used ++ turns) -> h ∉ hs) ->
    read_next_request (used ++ turns) b = Done (r, turns, b') ->
    mtcl_reachable name (list_to_set (turn_handles used) ∪ hs) b'
| reach_destroy hs b : mtcl_reachable name hs b -> mtcl_reachable name hs (MTCLBackend_destroy b).

(** C21. No connection is leaked or closed twice.  In every state the backend can
    reach, each handle the library handed out, to an incoming or an outgoing
    connection, is either registered, under exactly one host name, or closed, and
    was closed once; what a connection still sends was given to the library for
    its own handle. *)
Theorem mtcl_invariant (name : string) (hs : gset Z) (b : MTCLBackend) :
  mtcl_reachable name hs b -> mtcl_inv hs b.
Proof.
  induction 1 as [|? ? ? ? ? ? ? ? _ IH Hs|? ? ? ? ? ? ? ? ? ? _ IH Hs|? ? ? ? ? ? ? _ IH Hs
    |? ? ? ? ? ? ? _ IH Hi Hh|hs b used turns r b' _ IH Hnd Hfresh Hr|? ? _ IH].
  - apply mtcl_inv_new.
  - unfold mtcl_send_request in Hs. case_match; [done|]. by eapply mtcl_inv_send_frame.
  - unfold mtcl_send_file in Hs. case_match; [done|]. by eapply mtcl_inv_send_frame.
  - unfold recv_file, bind, get in Hs. simpl in Hs. repeat (case_match; try done). simpl in Hs.
    injection Hs as _ <-. by apply mtcl_inv_pending.
  - by eapply mtcl_inv_connect.
  - destruct (mtcl_inv_loop (used ++ turns) hs (set_pending_file None b) r turns b') as (used' & Heq & Hinv); auto.
    { by apply mtcl_inv_pending. }
    apply app_inv_tail in Heq as ->. done.
  - by apply mtcl_inv_removes.
Qed.

(** ** Who connects to whom *)

Lemma token_hostname_advertised proto name port :
  lacks ":" proto = true -> lacks ":" port = true ->
  token_hostname (advertisement_token proto name port) = Some name.
Proof.
  intros Hp Hq. unfold token_hostname, advertisement_token.
  change (proto ++ ":" ++ name ++ ":" ++ port)%string with (proto ++ String ":" (name ++ String ":" port))%string.
  rewrite index_char_first by done.
  replace (proto ++ String ":" (name ++ String ":" port))%string
    with ((proto ++ String ":" name) ++ String ":" port)%string by (by rewrite string_app_assoc).
  rewrite rindex_last by done. rewrite length_append. simpl.
  rewrite (proj2 (Nat.eqb_neq _ _)) by lia. f_equal.
  rewrite string_app_assoc, substring_sdrop, <- sdrop_drop, sdrop_app. simpl.
  replace (String.length proto + S (String.length name) - String.length proto - 1)%nat with (String.length name) by lia.
  apply substring_prefix.
Qed.

Lemma ltb_trichotomy a b : a <> b -> String.ltb a b = negb (String.ltb b a).
Proof.
  intros Hne. unfold String.ltb. rewrite (String.compare_antisym a b).
  destruct (String.compare b a) eqn:Hc; simpl; try done. apply String.compare_eq_iff in Hc. congruence.
Qed.

Lemma ltb_irrefl a : String.ltb a a = false.
Proof. unfold String.ltb. pose proof (String.compare_antisym a a). by destruct (String.compare a a). Qed.

(** The messages of the handshake give the peer the name they were made of. *)
Lemma accept_handshake h name b :
  1 <= zlen (list_byte_of_string name) <= HOST_NAME_MAX ->
  accept_connection h [size_t_bytes (zlen (list_byte_of_string name)); list_byte_of_string name] b
  = register_connection h name b.
Proof.
  intros Hn. set (bs := list_byte_of_string name) in *. unfold accept_connection, receive_message.
  assert (Hsz : zlen (size_t_bytes (zlen bs)) = 8) by (unfold size_t_bytes, zlen; by rewrite length_rev, length_write_u64).
  rewrite Hsz. cbn [Z.eqb Pos.eqb]. unfold size_t_of, size_t_bytes. rewrite rev_involutive.
  assert (Hr : read_u64 (write_u64 (zlen bs)) = zlen bs).
  { rewrite <- (app_nil_r (write_u64 (zlen bs))). apply read_write_u64. unfold HOST_NAME_MAX in Hn. lia. }
  rewrite Hr. rewrite (proj2 (Z.eqb_neq _ 0)), (proj2 (Z.ltb_ge HOST_NAME_MAX _)), Z.eqb_refl by lia. simpl.
  unfold bs. by rewrite string_of_list_byte_of_string.
Qed.

(** Two nodes make one link.  When each learns the other's advertised token and
    neither is connected to the other, exactly one of them opens a connection, the
    one with the smaller name; the two messages it sends make the other register
    it, so that each then has the other as a peer under its name, and neither
    opens a second connection. *)
Theorem one_link (a b : MTCLBackend) (proto pa pb : string) (ha hb : Z) :
  lacks ":" proto = true -> lacks ":" pa = true -> lacks ":" pb = true ->
  String.ltb (node_name a) (node_name b) = true -> node_name a <> ""%string ->
  zlen (list_byte_of_string (node_name a)) <= HOST_NAME_MAX ->
  open_connections a !! node_name b = None -> open_connections b !! node_name a = None ->
  let token_a := advertisement_token proto (node_name a) pa in
  let token_b := advertisement_token proto (node_name b) pb in
  let a' := connect_to (Some ha) true true token_b a in
  let size := size_t_bytes (zlen (list_byte_of_string (node_name a))) in
  let name := list_byte_of_string (node_name a) in
  let b' := accept_connection hb [size; name] b in
  initiates a token_b = Some (node_name b) /\ initiates b token_a = None
  /\ transmitted a' = transmitted a ++ [(ha, size); (ha, name)]
  /\ open_connections a' !! node_name b = Some {| handle := ha; pending_sends := [] |}
  /\ open_connections b' !! node_name a = Some {| handle := hb; pending_sends := [] |}
  /\ initiates a' token_b = None /\ initiates b' token_a = None.
Proof.
  intros Hproto Hpa Hpb Hlt Hne Hlen Hna Hnb token_a token_b a' size name b'.
  assert (Htb : token_hostname token_b = Some (node_name b)) by by apply token_hostname_advertised.
  assert (Hta : token_hostname token_a = Some (node_name a)) by by apply token_hostname_advertised.
  assert (Hge : String.ltb (node_name b) (node_name a) = false).
  { destruct (decide (node_name a = node_name b)) as [Heq|Hneq]; [by rewrite Heq, ltb_irrefl in Hlt|].
    rewrite (ltb_trichotomy _ _ Hneq) in Hlt. by destruct (String.ltb (node_name b) (node_name a)). }
  assert (Hbne : String.eqb (node_name b) "" = false).
  { apply String.eqb_neq. intros Hb. rewrite Hb in Hlt. by destruct (node_name a). }
  assert (Hia : initiates a token_b = Some (node_name b)) by (unfold initiates; by rewrite Htb, Hbne, Hlt, Hna).
  assert (Hib : forall x, node_name x = node_name b -> initiates x token_a = None).
  { intros x Hx. unfold initiates. rewrite Hta, Hx, Hge. by rewrite orb_true_r. }
  assert (Hb' : b' = register_connection hb (node_name a) b).
  { apply accept_handshake. split; [|done]. destruct (node_name a); [done|]. unfold zlen. simpl. lia. }
  assert (Ha' : a' = register_connection ha (node_name b) (transmit ha name (transmit ha size a))).
  { unfold a', connect_to. by rewrite Hia. }
  unfold register_connection in Ha', Hb'. rewrite Hnb in Hb'. simpl in Ha'. rewrite Hna in Ha'. rewrite Ha', Hb'. simpl.
  split_and!; [done|by apply Hib|by rewrite <- app_assoc|apply lookup_insert_eq|apply lookup_insert_eq| |by apply Hib].
  unfold initiates. simpl. rewrite Htb, Hbne, Hlt. simpl. by rewrite lookup_insert_eq.
Qed.

(** ** Two nodes *)

Definition demo_a : MTCLBackend := connect_to (Some 5) true true "TCP:b:4000" (MTCLBackend_new "a").
Definition demo_b : MTCLBackend := accept_connection 9 [size_t_bytes 1; [x61]] (MTCLBackend_new "b").
Definition demo_message : remote_message := RemoteReadReply 7 3 100 3 3 true false.
Definition demo_msg : list byte := list_byte_of_string (message_text demo_message).
Definition demo_data : list byte := [x68; x69; x0a].

Lemma transfer_correct_witness :
  let turn := fun frame => {| t_continue := true; t_test := fun _ => None;
                              t_event := Readable "a" 1 (zlen frame) (Some frame) |} in
  exists a' frame r b',
    mtcl_send_file (fun _ => None) true (Some demo_msg) (zlen demo_msg) (Some demo_data) 3 "b" demo_a = Done (tt, a')
    /\ transmitted a' = transmitted demo_a ++ [(5, frame)]
    /\ read_next_request [turn frame] demo_b = Done (r, [], b')
    /\ @listener_step (demo_config true) r = @handle_message (demo_config true) "a" demo_message
    /\ (demo_data <> [] -> recv_file true 3 "a" b' = Done (demo_data, set_pending_file None b')).
Proof.
  refine (@transfer_correct (demo_config true) demo_a demo_b {| handle := 5; pending_sends := [] |} (fun _ => None)
    (fun _ => None) demo_message demo_data "b" 1 [] _ _ _ _ _).
  - unfold message_wf, int32, int64; simpl. lia.
  - split; [split|]; vm_compute; discriminate.
  - vm_compute. reflexivity.
  - reflexivity.
  - reflexivity.
Defined.

Definition demo_frame : list byte :=
  [x01; x00; x00; x00; x00; x00; x00; x00; x01; x00; x00; x00; x00; x00; x00; x00; x00; x41].
Lemma accepted_frames_well_formed_witness :
  read_frame 18 1 (Some demo_frame) = Some (demo_frame, [x41], None)
  /\ exists file, frame_ok [x41] file /\ demo_frame = frame_of [x41] file.
Proof.
  split; [vm_compute; reflexivity|].
  destruct (accepted_frames_well_formed 18 1 (Some demo_frame) demo_frame [x41] None) as (_ & _ & file & Hok & Hf & _);
    [vm_compute; reflexivity|]. exists file. split; [exact Hok|exact Hf].
Defined.

Lemma mtcl_invariant_witness :
  mtcl_inv ({[ 5 ]} ∪ ∅) demo_a /\ (open_connections demo_a !! "b"%string) = Some {| handle := 5; pending_sends := [] |}.
Proof.
  split; [|vm_compute; reflexivity]. apply (mtcl_invariant "a").
  apply (reach_connect "a" ∅ (MTCLBackend_new "a") 5 true true "TCP:b:4000" "b");
    [constructor|vm_compute; reflexivity|set_solver].
Defined.

Lemma one_link_witness :
  let a := MTCLBackend_new "a" in let b := MTCLBackend_new "b" in
  initiates a "TCP:b:4000" = Some "b"%string /\ initiates b "TCP:a:4001" = None
  /\ open_connections (connect_to (Some 5) true true "TCP:b:4000" a) !! "b"%string
     = Some {| handle := 5; pending_sends := [] |}.
Proof.
  pose proof (one_link (MTCLBackend_new "a") (MTCLBackend_new "b") "TCP" "4001" "4000" 5 9
    eq_refl eq_refl eq_refl eq_refl ltac:(discriminate) ltac:(vm_compute; discriminate) eq_refl eq_refl)
    as (H1 & H2 & _ & H4 & _).
  split; [exact H1|]. split; [exact H2|exact H4].
Defined.
