(* ===== verification/Mpi.v ===== *)
(** * The MPI backends and the empty one

    [server/src/mpi_backend.cpp], [none_backend.cpp] and [backend.cpp].  The nodes are
    the ranks of [MPI_COMM_WORLD]; a message of one rank to another arrives as it
    was sent, after those sent before it.  What MPI answers, the names it gathers
    and the messages that wait at a rank are arguments. *)
From S2P Require Import Prelude Text Memory Server RemoteHandlers ServerProps RemoteText Mtcl.
#[local] Arguments String.append !_ _ /.

Definition MPI_MAX_ELEM_COUNT : Z := 1024 * 1024 * 1024.

(** [nodes], the two maps, and the messages sent: the rank and the bytes. *)
Record MPIBackend : Type := {
  mpi_node_name : string;
  n_servers : Z;
  rank : Z;
  mpi_nodes : gset string;
  hostname_to_rank : gmap string Z;
  rank_to_hostname : gmap Z string;
  mpi_sent : list (Z * list byte)
}.
Definition set_maps (nodes : gset string) (to_rank : gmap string Z) (to_name : gmap Z string) (b : MPIBackend) : MPIBackend := {|
  mpi_node_name := mpi_node_name b; n_servers := n_servers b; rank := rank b; mpi_nodes := nodes;
  hostname_to_rank := to_rank; rank_to_hostname := to_name; mpi_sent := mpi_sent b |}.
Definition mpi_send (dest : Z) (bytes : list byte) (b : MPIBackend) : MPIBackend := {|
  mpi_node_name := mpi_node_name b; n_servers := n_servers b; rank := rank b; mpi_nodes := mpi_nodes b;
  hostname_to_rank := hostname_to_rank b; rank_to_hostname := rank_to_hostname b; mpi_sent := mpi_sent b ++ [(dest, bytes)] |}.

(** [MPI_Get_processor_name] into [node_name.data()], which holds the name of the host
    and is not resized: a shorter name leaves its NUL and the end of the old one in
    it, a longer one is written past its end. *)
Definition overwritten_name (hostname processor : string) : outcome string :=
  if (String.length hostname <? String.length processor)%nat then UB "write past the end of node_name"
  else if (String.length processor =? String.length hostname)%nat then Done processor
  else Done (processor ++ String NUL (sdrop (S (String.length processor)) hostname))%string.

(** [multiple] tells whether MPI provides [MPI_THREAD_MULTIPLE]. *)
Definition MPIBackend_new (hostname processor : string) (size my_rank : Z) (multiple : bool) : outcome MPIBackend :=
  if negb multiple then Exit "MPI_Abort"
  else outcome_bind (overwritten_name hostname processor) (fun name =>
  Done {| mpi_node_name := name; n_servers := size; rank := my_rank; mpi_nodes := {[name]};
          hostname_to_rank := {[name := my_rank]}; rank_to_hostname := {[my_rank := name]}; mpi_sent := [] |}).

(** The loop over the gathered names: those of rank [i] on. *)
Fixpoint gather (i : Z) (names : list string) (b : MPIBackend) : MPIBackend :=
  match names with
  | [] => b
  | name :: names' =>
      let hostname := c_str name in
      gather (i + 1) names' (set_maps ({[hostname]} ∪ mpi_nodes b) (<[hostname := i]> (hostname_to_rank b))
                               (<[i := hostname]> (rank_to_hostname b)) b)
  end.
(** [names] is what [MPI_Allgather] gives, one name for each rank. *)
Definition handshake_servers (names : list string) (b : MPIBackend) : MPIBackend := gather 0 names b.
Definition mpi_get_nodes (b : MPIBackend) : gset string := mpi_nodes b.

(** [hostname_to_rank[target]]: a name that is not there is entered with rank 0. *)
Definition rank_of (target : string) : M MPIBackend Z :=
  let* b := get in
  match hostname_to_rank b !! target with
  | Some r => ret r
  | None => modify (set_maps (mpi_nodes b) (<[target := 0]> (hostname_to_rank b)) (rank_to_hostname b)) ;; ret 0
  end.

(** The [message_len + 1] bytes that are sent; [after] is the byte behind an array of
    [message_len]. *)
Definition mpi_send_request (message : list byte) (after : byte) (target : string) : M MPIBackend unit :=
  let* dest := rank_of target in modify (mpi_send dest (message ++ [after])).

(** The pieces of [shm] from [k] on; each has at least one byte. *)
Fixpoint send_chunks (fuel : nat) (dest : Z) (shm : list byte) (k nbytes : Z) : M MPIBackend unit :=
  if k <? nbytes then
    match fuel with
    | O => blocks "for (long int k = 0; k < nbytes; k += elem_to_snd)"
    | S fuel' =>
        let elem_to_snd := Z.min (nbytes - k) MPI_MAX_ELEM_COUNT in
        modify (mpi_send dest (take (Z.to_nat elem_to_snd) (drop (Z.to_nat k) shm))) ;;
        send_chunks fuel' dest shm (k + elem_to_snd) nbytes
    end
  else ret tt.
Definition mpi_send_file (message : list byte) (after : byte) (shm : list byte) (nbytes : Z) (target : string) : M MPIBackend unit :=
  let* dest := rank_of target in
  modify (mpi_send dest (message ++ [after])) ;;
  send_chunks (Z.to_nat nbytes) dest shm 0 nbytes.

(** The messages that wait at a rank, from each source, in their order.  [recv_file]
    takes those of one source; a message longer than the count is an error of MPI,
    which ends the program. *)
Notation inbox := (gmap Z (list (list byte))).
Fixpoint recv_chunks (messages : list (list byte)) (k bytes_expected : Z) : outcome (list byte * list (list byte)) :=
  if k <? bytes_expected then
    match messages with
    | [] => Blocks "MPI_Recv"
    | m :: messages' =>
        if Z.min (bytes_expected - k) MPI_MAX_ELEM_COUNT <? zlen m then Exit "MPI_ERR_TRUNCATE"
        else outcome_bind (recv_chunks messages' (k + zlen m) bytes_expected) (fun '(data, rest) => Done (m ++ data, rest))
    end
  else Done ([], messages).
Definition mpi_recv_file (bytes_expected : Z) (source : string) (waiting : inbox) (b : MPIBackend)
  : outcome (list byte * inbox) :=
  let r := default 0 (hostname_to_rank b !! source) in
  outcome_bind (recv_chunks (default [] (waiting !! r)) 0 bytes_expected) (fun '(data, rest) => Done (data, <[r := rest]> waiting)).

(** [read_next_request]: the first message of [source], the rank MPI picks; the
    request is the C string in the buffer. *)
Definition mpi_read_next_request (source : Z) (waiting : inbox) (b : MPIBackend) : outcome (RemoteRequest * inbox) :=
  match waiting !! source with
  | Some (m :: rest) =>
      if CAPIO_SERVER_REQUEST_MAX_SIZE <? zlen m then Exit "MPI_ERR_TRUNCATE"
      else Done (RemoteRequest_new (c_str (string_of_list_byte m)) (default ""%string (rank_to_hostname b !! source)),
                 <[source := rest]> waiting)
  | _ => Blocks "MPI_Irecv"
  end.

(** [MPISYNCBackend::read_next_request] waits in one call. *)
Definition mpisync_read_next_request (source : Z) (waiting : inbox) (b : MPIBackend) : outcome (RemoteRequest * inbox) :=
  mpi_read_next_request source waiting b.

(** [NoneBackend]: nothing is sent or received, the only node is this one. *)
Definition none_read_next_request : RemoteRequest := RemoteRequest_new "" "".
Definition none_send_request {B} (message : list byte) (target : string) : M B unit := ret tt.
Definition none_send_file {B} (message shm : list byte) (target : string) : M B unit := ret tt.
Definition none_recv_file {B} (shm : list cell) (source : string) : M B (list cell) := ret shm.
Definition backend_get_nodes (node_name : string) : gset string := {[node_name]}.

(** ** The names and the ranks *)

Lemma c_str_id s : lacks NUL s = true -> c_str s = s.
Proof. intros Hs. rewrite <- (string_app_nil s) at 1. by apply c_str_end. Qed.

(** What the loop leaves in the maps, from rank [i] on. *)
Lemma gather_spec i names b :
  Forall (fun n => lacks NUL n = true) names -> NoDup names ->
  let b' := gather i names b in
  (forall n, n ∈ mpi_nodes b' <-> n ∈ mpi_nodes b \/ n ∈ names)
  /\ (forall x, rank_to_hostname b' !! x = if decide (i <= x < i + Z.of_nat (length names)) then names !! Z.to_nat (x - i)
                                          else rank_to_hostname b !! x)
  /\ (forall n j, names !! j = Some n -> hostname_to_rank b' !! n = Some (i + Z.of_nat j))
  /\ (forall n, n ∉ names -> hostname_to_rank b' !! n = hostname_to_rank b !! n).
Proof.
  revert i b. induction names as [|h names IH]; intros i b Hc Hd.
  { simpl. split_and!; [set_solver| |done|done]. intros x. rewrite decide_False by lia. done. }
  apply Forall_cons in Hc as [Hh Hc]. apply NoDup_cons in Hd as [Hno Hd]. simpl. rewrite c_str_id by done.
  set (b1 := set_maps _ _ _ b). destruct (IH (i + 1) b1 Hc Hd) as (Hn & Hr & Hin & Hout). split_and!.
  - intros n. rewrite Hn. unfold b1. simpl. set_solver.
  - intros x. rewrite Hr. unfold b1. simpl. destruct (decide (x = i)) as [->|Hne].
    + rewrite decide_False, decide_True by lia. rewrite lookup_insert_eq, Z.sub_diag. done.
    + rewrite lookup_insert_ne by done. destruct (decide (i + 1 <= x < i + 1 + Z.of_nat (length names))).
      * rewrite decide_True by lia. replace (Z.to_nat (x - i)) with (S (Z.to_nat (x - (i + 1)))) by lia. done.
      * by rewrite decide_False by lia.
  - intros n [|j] Hj; simpl in Hj.
    + simplify_eq. rewrite Hout by done. unfold b1. simpl. rewrite lookup_insert_eq. f_equal. lia.
    + rewrite (Hin n j Hj). f_equal. lia.
  - intros n Hn'. apply not_elem_of_cons in Hn' as [Hne Hn']. rewrite Hout by done. unfold b1. simpl. by rewrite lookup_insert_ne.
Qed.

(** After the handshake a name is the rank of its node.  When the nodes have
    different names that are C strings, and MPI calls this node as its host does,
    the two maps are the inverse of each other: a name leads to a rank exactly when
    the node of that rank has it, and the nodes known are those of the
    communicator. *)
Theorem handshake_names_ranks (names : list string) (hostname processor : string) (size r : Z) (b : MPIBackend) :
  NoDup names -> Forall (fun n => lacks NUL n = true) names -> 0 <= r -> names !! Z.to_nat r = Some processor ->
  String.length processor = String.length hostname -> MPIBackend_new hostname processor size r true = Done b ->
  let b' := handshake_servers names b in
  forall name i,
    (hostname_to_rank b' !! name = Some i <-> rank_to_hostname b' !! i = Some name)
    /\ (rank_to_hostname b' !! i = Some name <-> 0 <= i /\ names !! Z.to_nat i = Some name)
    /\ (name ∈ mpi_get_nodes b' <-> name ∈ names).
Proof.
  intros Hd Hc Hr Hme Hlen Hnew b' name i. unfold MPIBackend_new, overwritten_name in Hnew. simpl in Hnew.
  rewrite Hlen, Nat.ltb_irrefl, Nat.eqb_refl in Hnew. injection Hnew as <-.
  destruct (gather_spec 0 names {| mpi_node_name := processor; n_servers := size; rank := r; mpi_nodes := {[processor]};
    hostname_to_rank := {[processor := r]}; rank_to_hostname := {[r := processor]}; mpi_sent := [] |} Hc Hd) as (Hn & Hto & Hin & Hout).
  fold (handshake_servers names {| mpi_node_name := processor; n_servers := size; rank := r; mpi_nodes := {[processor]};
    hostname_to_rank := {[processor := r]}; rank_to_hostname := {[r := processor]}; mpi_sent := [] |}) in Hn, Hto, Hin, Hout.
  fold b' in Hn, Hto, Hin, Hout. simpl in Hn, Hto, Hout.
  assert (Hrank : rank_to_hostname b' !! i = Some name <-> 0 <= i /\ names !! Z.to_nat i = Some name).
  { rewrite Hto. rewrite Z.sub_0_r. case_decide as Hi; [naive_solver lia|].
    pose proof (lookup_lt_Some _ _ _ Hme). rewrite lookup_singleton_ne by lia. split; [done|].
    intros [Hi0 Hl]. apply lookup_lt_Some in Hl. lia. }
  split_and!; [|done|].
  - rewrite Hrank. split.
    + intros Hh. destruct (decide (name ∈ names)) as [Hel|Hnot].
      * apply list_elem_of_lookup in Hel as [j Hj]. rewrite (Hin name j Hj) in Hh. simplify_eq. rewrite Z.add_0_l, Nat2Z.id.
        split; [lia|done].
      * rewrite Hout in Hh by done. apply lookup_singleton_Some in Hh as [<- <-]. done.
    + intros [Hi Hl]. rewrite (Hin name _ Hl). f_equal. lia.
  - unfold mpi_get_nodes. rewrite Hn. split; [|by right]. intros [->%elem_of_singleton|?]; [|done].
    by eapply list_elem_of_lookup_2.
Qed.

(** ** A transfer *)

Lemma send_chunks_received fuel dest shm k b :
  0 <= k -> zlen shm - k <= Z.of_nat fuel ->
  exists b' messages, send_chunks fuel dest shm k (zlen shm) b = Done (tt, b')
    /\ mpi_sent b' = mpi_sent b ++ ((fun m => (dest, m)) <$> messages)
    /\ forall rest, recv_chunks (messages ++ rest) k (zlen shm) = Done (drop (Z.to_nat k) shm, rest).
Proof.
  revert k b. induction fuel as [|fuel IH]; intros k b Hk Hf; simpl; destruct (Z.ltb_spec k (zlen shm)) as [Hlt|Hge]; [lia| | |].
  1, 3: exists b, []; split_and!; [done|by rewrite app_nil_r|]; intros rest; simpl;
    (destruct rest; simpl; rewrite (proj2 (Z.ltb_ge _ _)) by lia; by rewrite drop_ge by (unfold zlen in *; lia)).
  set (n := Z.min (zlen shm - k) MPI_MAX_ELEM_COUNT). set (m := take (Z.to_nat n) (drop (Z.to_nat k) shm)).
  assert (Hn : 0 < n) by (unfold n, MPI_MAX_ELEM_COUNT; lia).
  assert (Hm : zlen m = n) by (unfold m, zlen in *; rewrite length_take, length_drop; unfold n, zlen; lia).
  destruct (IH (k + n) (mpi_send dest m b)) as (b' & messages & E & Hs & Hrecv); [lia|lia|].
  exists b', (m :: messages). split_and!.
  - unfold bind, modify. cbn [outcome_bind]. exact E.
  - rewrite Hs. simpl. by rewrite <- app_assoc.
  - intros rest. simpl. rewrite (proj2 (Z.ltb_lt _ _)) by lia. fold n. rewrite Hm, Z.ltb_irrefl, Hrecv. simpl. do 2 f_equal.
    rewrite Z2Nat.inj_add, <- drop_drop by lia. apply take_drop.
Qed.

Lemma rank_of_known target r b : hostname_to_rank b !! target = Some r -> rank_of target b = Done (r, b).
Proof. intros E. unfold rank_of, bind, get. simpl. by rewrite E. Qed.

(** The characters of a message, its NUL, and the byte behind. *)
Lemma message_bytes_c_str m after :
  message_wf m ->
  c_str (string_of_list_byte (list_byte_of_string (message_text m) ++ [after])) = message_chars m.
Proof.
  intros Hwf. assert (Happ : forall l l', string_of_list_byte (l ++ l') = (string_of_list_byte l ++ string_of_list_byte l')%string).
  { intros l l'. induction l as [|x l IH]; [done|]. unfold string_of_list_byte in *. simpl. by rewrite IH. }
  rewrite Happ, string_of_list_byte_of_string. unfold message_text. rewrite string_app_assoc.
  by apply c_str_lacks, message_chars_lacks.
Qed.

(** What a send gives to MPI and what the peer makes of it. *)
Lemma mpi_send_received (a b : MPIBackend) (m : remote_message) (after : byte) (data : list byte)
    (peer sender : string) (ra rb : Z) :
  message_wf m -> zlen (list_byte_of_string (message_text m)) < CAPIO_SERVER_REQUEST_MAX_SIZE ->
  hostname_to_rank a !! peer = Some rb -> hostname_to_rank b !! sender = Some ra -> rank_to_hostname b !! ra = Some sender ->
  exists a' messages,
    mpi_send_file (list_byte_of_string (message_text m)) after data (zlen data) peer a = Done (tt, a')
    /\ mpi_sent a' = mpi_sent a ++ ((fun m => (rb, m)) <$> messages)
    /\ forall waiting rest, waiting !! ra = Some (messages ++ rest) ->
       exists waiting', mpi_read_next_request ra waiting b = Done (RemoteRequest_new (message_chars m) sender, waiting')
         /\ mpi_recv_file (zlen data) sender waiting' b = Done (data, <[ra := rest]> waiting).
Proof.
  intros Hwf Hlen Hpeer Hra Hname. set (msg := list_byte_of_string (message_text m) ++ [after]).
  destruct (send_chunks_received (Z.to_nat (zlen data)) rb data 0 (mpi_send rb msg a)) as (a' & messages & E & Hs & Hrecv); [lia|unfold zlen; lia|].
  exists a', (msg :: messages). split_and!.
  - unfold mpi_send_file. eapply bind_done; [by apply rank_of_known|]. eapply bind_done; [done|]. exact E.
  - rewrite Hs. simpl. by rewrite <- app_assoc.
  - intros waiting rest Hw. unfold mpi_read_next_request. rewrite Hw. simpl.
    rewrite (proj2 (Z.ltb_ge _ _)) by (unfold msg, zlen in *; rewrite length_app; simpl; lia).
    eexists. unfold msg. rewrite message_bytes_c_str, Hname by done. simpl. split; [reflexivity|].
    unfold mpi_recv_file. rewrite Hra. simpl. rewrite lookup_insert_eq. simpl. rewrite Hrecv. simpl.
    by rewrite insert_insert_eq.
Qed.

(** A message and its file reach the other rank.  A node that knows its peer's rank
    sends the message and the file in pieces; the peer that receives them in this
    order, with more behind them, handles the message with the sender as its
    source, whatever the byte sent behind its end, and [recv_file] of the size of
    the file gives the file, also one of more than a piece, and leaves what was
    behind. *)
Theorem mpi_transfer `{Config} (a b : MPIBackend) (m : remote_message) (after : byte) (data : list byte)
    (peer sender : string) (ra rb : Z) :
  message_wf m -> zlen (list_byte_of_string (message_text m)) < CAPIO_SERVER_REQUEST_MAX_SIZE ->
  hostname_to_rank a !! peer = Some rb -> hostname_to_rank b !! sender = Some ra -> rank_to_hostname b !! ra = Some sender ->
  exists a' messages,
    mpi_send_file (list_byte_of_string (message_text m)) after data (zlen data) peer a = Done (tt, a')
    /\ mpi_sent a' = mpi_sent a ++ ((fun m => (rb, m)) <$> messages)
    /\ forall waiting rest, waiting !! ra = Some (messages ++ rest) ->
       exists r waiting', mpi_read_next_request ra waiting b = Done (r, waiting')
         /\ listener_step r = handle_message sender m
         /\ mpi_recv_file (zlen data) sender waiting' b = Done (data, <[ra := rest]> waiting).
Proof.
  intros Hwf Hlen Hpeer Hra Hname.
  destruct (mpi_send_received a b m after data peer sender ra rb Hwf Hlen Hpeer Hra Hname) as (a' & messages & E & Hs & Hr).
  exists a', messages. split; [done|]. split; [done|]. intros waiting rest Hw.
  destruct (Hr waiting rest Hw) as (waiting' & E1 & E2). eexists _, waiting'. split; [exact E1|]. split; [|exact E2].
  rewrite <- (string_app_nil (message_chars m)). by apply listener_handles.
Qed.

(** ** Examples *)

Definition demo_mpi (r : Z) (name : string) : MPIBackend :=
  handshake_servers ["n0"; "n1"]%string
    {| mpi_node_name := name; n_servers := 2; rank := r; mpi_nodes := {[name]}; hostname_to_rank := {[name := r]};
       rank_to_hostname := {[r := name]}; mpi_sent := [] |}.

Lemma handshake_names_ranks_witness :
  exists b, MPIBackend_new "n1" "n1" 2 1 true = Done b /\ hostname_to_rank (handshake_servers ["n0"; "n1"]%string b) !! "n0"%string = Some 0.
Proof.
  eexists. split; [reflexivity|].
  apply (handshake_names_ranks ["n0"; "n1"]%string "n1" "n1" 2 1 _).
  - apply (bool_decide_unpack _). vm_compute. exact I.
  - repeat constructor.
  - lia.
  - reflexivity.
  - reflexivity.
  - reflexivity.
  - vm_compute. reflexivity.
Defined.

Lemma mpi_transfer_witness :
  let m := RemoteReadReply 7 3 3 3 3 true false in
  exists a' messages,
    mpi_send_file (list_byte_of_string (message_text m)) x00 [x61; x62; x63] 3 "n1" (demo_mpi 0 "n0") = Done (tt, a')
    /\ mpi_sent a' = mpi_sent (demo_mpi 0 "n0") ++ ((fun m => (1, m)) <$> messages)
    /\ exists r waiting', mpi_read_next_request 0 {[0 := messages]} (demo_mpi 1 "n1") = Done (r, waiting')
       /\ mpi_recv_file 3 "n0" waiting' (demo_mpi 1 "n1") = Done ([x61; x62; x63], {[0 := []]}).
Proof.
  intros m. destruct (@mpi_transfer (demo_config true) (demo_mpi 0 "n0") (demo_mpi 1 "n1") m x00 [x61; x62; x63] "n1" "n0" 0 1)
    as (a' & messages & E & Hs & Hr).
  - unfold m, message_wf, int32, int64. split_and!; lia.
  - vm_compute. reflexivity.
  - vm_compute. reflexivity.
  - vm_compute. reflexivity.
  - vm_compute. reflexivity.
  - exists a', messages. split; [exact E|]. split; [exact Hs|].
    destruct (Hr {[0 := messages]} []) as (r & w & E1 & _ & E2); [by rewrite lookup_singleton_eq, app_nil_r|].
    exists r, w. split; [exact E1|]. rewrite insert_singleton_eq in E2. exact E2.
Defined.
