(* ===== verification/Configuration.v ===== *)
(** * The configuration of the server and the environment of the client

    [server/src/runtime_configuration.cpp], with the choice of a backend
    ([remote/listener.hpp]) and of a discovery service ([remote/discovery.hpp]), and
    what the client library reads from its environment ([common/env.hpp],
    [posix/utils/env.hpp]).  What the [args] library makes of the command line, the
    environment variables and [realpath] are parameters. *)
From S2P Require Import Prelude Text ClientManager Server PosixPath.
#[local] Arguments String.append !_ _ /.

(** ** Numbers *)

Definition environment : Type := string -> option string.

(** [std::strtoll] and [strtol] in base 10: both have 64 bits, what is not a number
    is 0. *)
Definition strtol (s : string) : Z := match scan_ld s with Some (n, _) => n | None => 0 end.
Definition env_number (env : environment) (name : string) (default_value : Z) : Z :=
  match env name with None => default_value | Some value => strtol value end.

(** [std::stoi]: the value and the number of characters it has. *)
Definition stoi (s : string) : outcome (Z * nat) :=
  match scan_ld s with
  | None => Throw "std::invalid_argument"
  | Some (n, rest) =>
      if bool_decide (int32 n) then Done (n, (String.length s - String.length rest)%nat) else Throw "std::out_of_range"
  end.

(** ** Constants *)

Definition CAPIO_MCAST_ADV_DEFAULT_ADDR : string := "224.0.0.2".
Definition CAPIO_MCAST_ADV_DEFAULT_PORT : Z := 22334.
Definition CAPIO_MTCL_DEFAULT_PROTOCOL : string := "TCP".
Definition CAPIO_MTCL_DEFAULT_PORT : Z := 7600.
Definition CAPIO_MTCL_DEFAULT_POLL_INTERVAL : Z := 1000000.
Definition CAPIO_MCAST_PROTO_FLAG : string := "mcast".
Definition CAPIO_FS_PROTO_FLAG : string := "fs".
Definition CAPIO_FS_DEFAULT_TOKEN_DIRECTORY : string := ".capio_tokens/".
Definition CAPIO_DEFAULT_WORKFLOW_NAME : string := "CAPIO".
Definition CAPIO_CACHE_LINES_DEFAULT : Z := 10.
Definition CAPIO_CACHE_LINE_SIZE_DEFAULT : Z := 256 * 1024.

(** ** The server *)

(** What the parser of the command line found. *)
Record Flags : Type := {
  resolve_prefix : option string;
  config_flag : option string;
  noConfigFile : bool;
  backend_flag : option string;
  discovery_flag : option string;
  mcast_addr_flag : option string;
  mcast_port_flag : option Z;
  token_directory_flag : option string;
  backend_options_flag : option string;
  continueOnErrorFlag : bool;
  mem_only_flag : bool
}.
Inductive cli : Type := Parsed (f : Flags) | Help | ParseError (what : string).

Record RuntimeConfiguration : Type := {
  capio_dir : string;
  continue_on_error : bool;
  cache_lines : Z;
  cache_line_size : Z;
  file_initial_size : Z;
  prefetch_data_size : Z;
  discovery_type : string;
  mcast_address : string;
  mcast_port : Z;
  token_directory : string;
  backend_name : string;
  mtcl_protocol : string;
  mtcl_port : Z;
  mtcl_poll_interval : Z;
  capio_cl_config_path : string;
  capio_cl_resolve_path : string;
  capio_cl_dynamic_config : bool;
  store_all_in_memory : bool
}.

(** PROTO:PORT@POLL_INTERVAL_US *)
Definition mtcl_numbers (options : string) (colon at_sign : nat) : outcome (string * Z * Z) :=
  let size := String.length options in
  outcome_bind (stoi (substring (colon + 1) (at_sign - colon - 1) options)) (fun '(port, parsed) =>
  if negb (parsed =? at_sign - colon - 1)%nat || (port <=? 0) || (65535 <? port) then Throw "invalid port"
  else
    outcome_bind (stoi (substring (at_sign + 1) (size - at_sign - 1) options)) (fun '(poll_interval, parsed) =>
    if negb (parsed =? size - at_sign - 1)%nat || (poll_interval <=? 0) then Throw "invalid poll interval"
    else Done (substring 0 colon options, port, poll_interval))).
Definition parse_mtcl_options (options : string) : outcome (string * Z * Z) :=
  match String.index 0 ":" options with
  | None => Throw "Invalid MTCL backend options"
  | Some colon =>
      match String.index (colon + 1) "@" options with
      | None => Throw "Invalid MTCL backend options"
      | Some at_sign =>
          if (colon =? 0)%nat || (at_sign =? colon + 1)%nat || (at_sign + 1 =? String.length options)%nat
             || bool_decide (is_Some (String.index (colon + 1) ":" options))
             || bool_decide (is_Some (String.index (at_sign + 1) "@" options))
          then Throw "Invalid MTCL backend options"
          else match mtcl_numbers options colon at_sign with
               | Throw _ => Throw "Invalid MTCL port or poll interval in backend options"
               | r => r
               end
      end
  end.

Definition forbidden_paths : list string := ["/proc/"; "/sys/"]%string.
Definition resolve_capio_dir (env : environment) (canonical : string -> option string) : outcome string :=
  match env "CAPIO_DIR" with
  | None => Throw "CAPIO_DIR not provided"
  | Some value =>
      match canonical value with
      | None => Throw "CAPIO_DIR set, but directory does not exist on filesystem"
      | Some capio_dir =>
          if existsb (fun forbidden_path => String.prefix forbidden_path capio_dir) forbidden_paths
          then Throw "CAPIO_DIR is in forbidden path"
          else Done capio_dir
      end
  end.

(** The configuration file: its path, the prefix it is resolved with, and whether
    the engine is configured while it runs. *)
Definition config_file (f : Flags) : outcome (string * string * bool) :=
  match config_flag f with
  | Some path =>
      if String.eqb path "dynamic" then Done (path, ""%string, true)
      else Done (path, default ""%string (resolve_prefix f), false)
  | None =>
      if noConfigFile f then Done (""%string, ""%string, false)
      else Throw "Error: no config file provided. To skip config file use --no-config option!"
  end.

Definition RuntimeConfiguration_new (args : cli) (env : environment) (canonical : string -> option string)
  : outcome RuntimeConfiguration :=
  match args with
  | Help => Exit "EXIT_SUCCESS"
  | ParseError what => Throw what
  | Parsed f =>
      let discovery_type := default CAPIO_MCAST_PROTO_FLAG (discovery_flag f) in
      if negb (String.eqb discovery_type CAPIO_MCAST_PROTO_FLAG) && negb (String.eqb discovery_type CAPIO_FS_PROTO_FLAG)
      then Throw "Invalid discovery interface"
      else
        outcome_bind (config_file f) (fun '(path, prefix, dynamic) =>
        let backend := default ""%string (backend_flag f) in
        let options := default ""%string (backend_options_flag f) in
        outcome_bind (if String.eqb backend "mtcl" && negb (String.eqb options "") then parse_mtcl_options options
                      else Done (CAPIO_MTCL_DEFAULT_PROTOCOL, CAPIO_MTCL_DEFAULT_PORT, CAPIO_MTCL_DEFAULT_POLL_INTERVAL))
          (fun '(protocol, port, poll_interval) =>
        outcome_bind (resolve_capio_dir env canonical) (fun dir =>
        Done {| capio_dir := dir;
                continue_on_error := continueOnErrorFlag f;
                cache_lines := env_number env "CAPIO_CACHE_LINES" CAPIO_CACHE_LINES_DEFAULT;
                cache_line_size := env_number env "CAPIO_CACHE_LINE_SIZE" CAPIO_CACHE_LINE_SIZE_DEFAULT;
                file_initial_size := env_number env "CAPIO_FILE_INIT_SIZE" CAPIO_DEFAULT_FILE_INITIAL_SIZE;
                prefetch_data_size := env_number env "CAPIO_PREFETCH_DATA_SIZE" 0;
                discovery_type := discovery_type;
                mcast_address := default CAPIO_MCAST_ADV_DEFAULT_ADDR (mcast_addr_flag f);
                mcast_port := default CAPIO_MCAST_ADV_DEFAULT_PORT (mcast_port_flag f);
                token_directory := default CAPIO_FS_DEFAULT_TOKEN_DIRECTORY (token_directory_flag f);
                backend_name := backend;
                mtcl_protocol := protocol; mtcl_port := port; mtcl_poll_interval := poll_interval;
                capio_cl_config_path := path; capio_cl_resolve_path := prefix;
                capio_cl_dynamic_config := dynamic; store_all_in_memory := mem_only_flag f |})))
  end.

(** The global configuration: [set], [get] and [initialize]. *)
Definition configuration_set (c : RuntimeConfiguration) : M (option RuntimeConfiguration) unit := put (Some c).
Definition configuration_get : M (option RuntimeConfiguration) RuntimeConfiguration :=
  let* c := get in or_throw c "RuntimeConfiguration::get() called before initialization".
Definition configuration_initialize (args : cli) (env : environment) (canonical : string -> option string)
  : M (option RuntimeConfiguration) unit :=
  let* c := fun s => match lift (RuntimeConfiguration_new args env canonical) s with
                     | Throw _ => Exit "EXIT_FAILURE"
                     | r => r
                     end in
  configuration_set c ;; let* _ := configuration_get in ret tt.

(** The calls on the CAPIO-CL library that make its engine. *)
Inductive engine_call : Type :=
| Engine_new
| Engine_startApiServer
| Parser_parse (path resolve_prefix : string) (store_all_in_memory : bool)
| Engine_setWorkflowName (name : string)
| Engine_setAllStoreInMemory.
Definition createCapioClEngine (env : environment) (c : RuntimeConfiguration) : list engine_call :=
  (if capio_cl_dynamic_config c then [Engine_new; Engine_startApiServer]
   else if negb (String.eqb (capio_cl_config_path c) "")
   then [Parser_parse (capio_cl_config_path c) (capio_cl_resolve_path c) (store_all_in_memory c)]
   else [Engine_new; Engine_setWorkflowName (default CAPIO_DEFAULT_WORKFLOW_NAME (env "CAPIO_WORKFLOW_NAME"%string))])
  ++ (if store_all_in_memory c then [Engine_setAllStoreInMemory] else []).

(** [select_backend] and [select_discovery_service]; [has_mpi] is how CAPIO was
    built. *)
Inductive backend_choice : Type :=
| Use_none | Use_mpi | Use_mpisync | Use_mtcl (protocol port : string) (poll_interval : Z).
Definition select_backend (has_mpi : bool) (c : RuntimeConfiguration) : outcome backend_choice :=
  let name := backend_name c in
  if String.eqb name "" || String.eqb name "none" then Done Use_none
  else if String.eqb name "mpi" then if has_mpi then Done Use_mpi else Exit "EXIT_FAILURE"
  else if String.eqb name "mtcl" then
    Done (Use_mtcl (mtcl_protocol c) (print_ld (mtcl_port c)) (mtcl_poll_interval c))
  else if String.eqb name "mpisync" then if has_mpi then Done Use_mpisync else Exit "EXIT_FAILURE"
  else Done Use_none.
Inductive discovery_choice : Type := Multicast (address : string) (port : Z) | TokenDirectory (directory : string).
Definition select_discovery_service (c : RuntimeConfiguration) : discovery_choice :=
  if String.eqb (discovery_type c) CAPIO_MCAST_PROTO_FLAG then Multicast (mcast_address c) (mcast_port c)
  else TokenDirectory (token_directory c).

(** ** The client *)

(** The static variables of [common/env.hpp]. *)
Record ClientEnv : Type := {
  static_capio_dir : string;
  data_bufs_size : Z;
  data_bufs_count : Z;
  workflow_name : string
}.
Definition ClientEnv_start : ClientEnv :=
  {| static_capio_dir := ""; data_bufs_size := -1; data_bufs_count := -1; workflow_name := "" |}.

Section Client.
Variables (env : environment) (realpath : string -> option string).

Definition get_capio_dir : M ClientEnv string :=
  let* s := get in
  if String.eqb (static_capio_dir s) "" then
    let* val := or_exit (env "CAPIO_DIR"%string) "Fatal:  CAPIO_DIR not provided!" in
    let* dir := or_exit (realpath val) "error CAPIO_DIR: directory does not exist" in
    modify (fun s => {| static_capio_dir := dir; data_bufs_size := data_bufs_size s;
                        data_bufs_count := data_bufs_count s; workflow_name := workflow_name s |}) ;;
    if is_forbidden_path dir then err_exit "CAPIO_DIR is in forbidden path" else ret dir
  else ret (static_capio_dir s).

Definition get_cache_lines : M ClientEnv Z :=
  let* s := get in
  when (data_bufs_size s =? -1) (
    modify (fun s => {| static_capio_dir := static_capio_dir s;
                        data_bufs_size := match env "CAPIO_CACHE_LINES"%string with
                                          | Some value => strtol value
                                          | None => CAPIO_CACHE_LINES_DEFAULT
                                          end;
                        data_bufs_count := data_bufs_count s; workflow_name := workflow_name s |})) ;;
  gets data_bufs_size.

Definition get_cache_line_size : M ClientEnv Z :=
  let* s := get in
  when (data_bufs_count s =? -1) (
    let value := match env "CAPIO_CACHE_LINE_SIZE"%string with
                 | Some value => strtol value
                 | None => data_bufs_count s
                 end in
    modify (fun s => {| static_capio_dir := static_capio_dir s; data_bufs_size := data_bufs_size s;
                        data_bufs_count := if value <=? 0 then CAPIO_CACHE_LINE_SIZE_DEFAULT else value;
                        workflow_name := workflow_name s |})) ;;
  gets data_bufs_count.

Definition get_capio_workflow_name : M ClientEnv string :=
  let* s := get in
  when (String.eqb (workflow_name s) "") (
    modify (fun s => {| static_capio_dir := static_capio_dir s; data_bufs_size := data_bufs_size s;
                        data_bufs_count := data_bufs_count s;
                        workflow_name := default CAPIO_DEFAULT_WORKFLOW_NAME (env "CAPIO_WORKFLOW_NAME"%string) |})) ;;
  gets workflow_name.

(** [posix/utils/env.hpp] *)
Definition get_capio_app_name : string := default CAPIO_DEFAULT_APP_NAME (env "CAPIO_APP_NAME"%string).
End Client.

(** ** The options of the MTCL backend *)

Lemma lacks_split c s : lacks c s = false -> exists a b, s = (a ++ String c b)%string /\ lacks c a = true.
Proof.
  induction s as [|d s IH]; simpl; [done|]. destruct (Ascii.eqb_spec d c) as [->|Hne]; simpl.
  - intros _. by exists ""%string, s.
  - intros Hs. destruct (IH Hs) as (a & b & -> & Ha). exists (String d a), b. split; [done|]. simpl.
    by rewrite (proj2 (Ascii.eqb_neq d c) Hne), Ha.
Qed.

(** [find] of one character from [n] on. *)
Lemma index_from n c s :
  (n <= String.length s)%nat ->
  match String.index n (String c "") s with
  | Some i => exists a b, sdrop n s = (a ++ String c b)%string /\ lacks c a = true /\ i = (n + String.length a)%nat
  | None => lacks c (sdrop n s) = true
  end.
Proof.
  intros Hn. rewrite index_sdrop by done. destruct (lacks c (sdrop n s)) eqn:Hl.
  - by rewrite index_char_lacks.
  - destruct (lacks_split c _ Hl) as (a & b & E & Ha). rewrite E, index_char_first by done. simpl. by exists a, b.
Qed.
Lemma index_from_some n c s :
  (n <= String.length s)%nat -> bool_decide (is_Some (String.index n (String c "") s)) = negb (lacks c (sdrop n s)).
Proof.
  intros Hn. rewrite index_sdrop by done. destruct (lacks c (sdrop n s)) eqn:Hl.
  - by rewrite index_char_lacks.
  - destruct (lacks_split c _ Hl) as (a & b & E & Ha). by rewrite E, index_char_first.
Qed.

(** The number is the whole text. *)
Definition reads_as (s : string) (n : Z) : Prop := scan_ld s = Some (n, ""%string).

Lemma stoi_whole s n k : stoi s = Done (n, k) -> k = String.length s <-> reads_as s n.
Proof.
  unfold stoi, reads_as. destruct (scan_ld s) as [[m rest]|] eqn:E; [|done]. case_bool_decide; [|done].
  intros [= -> <-]. split.
  - destruct rest as [|c rest]; [done|]. simpl. destruct s as [|d s]; [done|]. simpl. lia.
  - intros [= ->]. simpl. lia.
Qed.
Lemma stoi_reads s n : reads_as s n -> int32 n -> stoi s = Done (n, String.length s).
Proof. intros E Hn. unfold stoi. rewrite E, bool_decide_eq_true_2 by done. simpl. by rewrite Nat.sub_0_r. Qed.
Lemma stoi_int32 s n k : stoi s = Done (n, k) -> int32 n.
Proof. unfold stoi. destruct (scan_ld s) as [[m rest]|]; [|done]. by case_bool_decide; intros; simplify_eq. Qed.

Section Parts.
Variables proto p q : string.
Let options : string := (proto ++ String ":" (p ++ String "@" q))%string.
Let colon : nat := String.length proto.
Let at_sign : nat := (String.length proto + 1 + String.length p)%nat.

Lemma options_size : String.length options = (at_sign + 1 + String.length q)%nat.
Proof. unfold options, at_sign. rewrite length_append. simpl. rewrite length_append. simpl. lia. Qed.
Lemma options_after_colon : sdrop (colon + 1) options = (p ++ String "@" q)%string.
Proof. rewrite Nat.add_comm. unfold colon, options. rewrite Nat.add_comm, <- sdrop_drop, sdrop_app. done. Qed.
Lemma options_after_at : sdrop (at_sign + 1) options = q.
Proof.
  unfold at_sign. rewrite <- Nat.add_assoc, <- (sdrop_drop (String.length p + 1) (colon + 1)), options_after_colon.
  rewrite <- sdrop_drop. by rewrite sdrop_app.
Qed.

(** The numbers are read from the parts. *)
Lemma numbers_of_parts port poll :
  mtcl_numbers options colon at_sign = Done (proto, port, poll)
  <-> reads_as p port /\ reads_as q poll /\ 1 <= port <= 65535 /\ 1 <= poll < 2 ^ 31.
Proof.
  unfold mtcl_numbers. rewrite options_size.
  assert (Ep : substring (colon + 1) (at_sign - colon - 1) options = p).
  { rewrite substring_sdrop, options_after_colon. unfold at_sign, colon.
    replace (_ - _ - 1)%nat with (String.length p) by lia. apply substring_prefix. }
  assert (Eq : substring (at_sign + 1) (at_sign + 1 + String.length q - at_sign - 1) options = q).
  { rewrite substring_sdrop, options_after_at. apply substring_all. lia. }
  assert (E0 : substring 0 colon options = proto) by apply substring_prefix.
  rewrite Ep, Eq, E0. replace (at_sign - colon - 1)%nat with (String.length p) by (unfold at_sign, colon; lia).
  replace (at_sign + 1 + String.length q - at_sign - 1)%nat with (String.length q) by lia. split.
  - destruct (stoi p) as [[m k]| | | |] eqn:Sp; try done. simpl.
    destruct (Nat.eqb_spec k (String.length p)) as [Hk|]; [|done]. simpl.
    destruct (Z.leb_spec m 0); [done|]. destruct (Z.ltb_spec 65535 m); [done|]. simpl.
    destruct (stoi q) as [[m' k']| | | |] eqn:Sq; try done. simpl.
    destruct (Nat.eqb_spec k' (String.length q)) as [Hk'|]; [|done]. simpl. destruct (Z.leb_spec m' 0); [done|].
    intros [= <- <-]. pose proof (stoi_int32 _ _ _ Sq) as Hi. unfold int32 in Hi.
    split_and!; [by apply (stoi_whole _ _ _ Sp)|by apply (stoi_whole _ _ _ Sq)|lia..].
  - intros (Hp & Hq & Hport & Hpoll). rewrite (stoi_reads p port), (stoi_reads q poll) by (done || unfold int32; lia). simpl.
    rewrite !Nat.eqb_refl, !(proj2 (Z.leb_gt _ _)), (proj2 (Z.ltb_ge _ _)) by lia. done.
Qed.

(** What the tests on the separators let through. *)
Lemma parse_parts :
  lacks ":" proto = true -> lacks "@" p = true ->
  parse_mtcl_options options
  = if String.eqb proto "" || String.eqb p "" || String.eqb q "" || negb (lacks ":" (p ++ String "@" q)) || negb (lacks "@" q)
    then Throw "Invalid MTCL backend options"
    else match mtcl_numbers options colon at_sign with
         | Throw _ => Throw "Invalid MTCL port or poll interval in backend options"
         | r => r
         end.
Proof.
  intros Hproto Hp. unfold parse_mtcl_options. unfold options at 1. rewrite index_char_first by done. fold colon.
  rewrite index_sdrop by (rewrite options_size; unfold at_sign, colon; lia).
  rewrite options_after_colon, index_char_first by done. cbn [fmap option_fmap option_map].
  change (colon + 1 + String.length p)%nat with at_sign.
  rewrite !index_from_some by (rewrite options_size; unfold at_sign, colon; lia).
  rewrite options_after_colon, options_after_at, options_size.
  assert (E1 : (colon =? 0)%nat = String.eqb proto "") by by destruct proto.
  assert (E2 : (at_sign =? colon + 1)%nat = String.eqb p "").
  { destruct p; simpl; [by apply Nat.eqb_eq; unfold at_sign, colon; simpl; lia|].
    apply Nat.eqb_neq. unfold at_sign, colon. simpl. lia. }
  assert (E3 : (at_sign + 1 =? at_sign + 1 + String.length q)%nat = String.eqb q "").
  { destruct q; simpl; [apply Nat.eqb_eq; lia|apply Nat.eqb_neq; lia]. }
  by rewrite E1, E2, E3.
Qed.
End Parts.

(** Options that are not refused for their separators have the three parts. *)
Lemma options_split options :
  parse_mtcl_options options <> Throw "Invalid MTCL backend options" ->
  exists a p q, options = (a ++ String ":" (p ++ String "@" q))%string /\ lacks ":" a = true /\ lacks "@" p = true.
Proof.
  intros E. unfold parse_mtcl_options in E. pose proof (index_from 0 ":" options ltac:(lia)) as Hc.
  destruct (String.index 0 ":" options) as [colon|]; [|done]. destruct Hc as (a & b & Ea & Ha & ->). simpl in Ea. subst options.
  assert (Hd : sdrop (String.length a + 1) (a ++ String ":" b) = b).
  { rewrite <- sdrop_drop, sdrop_app. done. }
  pose proof (index_from (String.length a + 1) "@" (a ++ String ":" b)) as Hat. rewrite Hd in Hat. simpl in E.
  destruct (String.index (String.length a + 1) "@" (a ++ String ":" b)) as [i|]; [|done].
  destruct Hat as (p & q & -> & Hp & _); [rewrite length_append; simpl; lia|]. by exists a, p, q.
Qed.

Lemma parse_accepts proto p q r x :
  (if String.eqb proto "" || String.eqb p "" || String.eqb q "" || negb (lacks ":" (p ++ String "@" q)) || negb (lacks "@" q)
   then Throw "Invalid MTCL backend options"
   else match mtcl_numbers (proto ++ String ":" (p ++ String "@" q)) (String.length proto) (String.length proto + 1 + String.length p) with
        | Throw _ => Throw "Invalid MTCL port or poll interval in backend options"
        | r => r
        end) = Done (r, x.1, x.2) ->
  r = proto /\ proto <> ""%string /\ lacks ":" (p ++ String "@" q) = true /\ lacks "@" q = true
  /\ mtcl_numbers (proto ++ String ":" (p ++ String "@" q)) (String.length proto) (String.length proto + 1 + String.length p)
     = Done (proto, x.1, x.2).
Proof.
  destruct (String.eqb_spec proto ""), (String.eqb p ""), (String.eqb q ""), (lacks ":" (p ++ String "@" q)), (lacks "@" q); try done.
  simpl. destruct (mtcl_numbers _ _ _) as [[[r' ?] ?]| | | |] eqn:E; try done. intros [= -> -> ->].
  assert (r = proto) as ->; [|done]. unfold mtcl_numbers in E. revert E. rewrite substring_prefix.
  destruct (stoi _) as [[? ?]| | | |]; try done. simpl. case_match; try done.
  destruct (stoi _) as [[? ?]| | | |]; try done. simpl. case_match; try done. by intros [= ->].
Qed.

Lemma parse_whole proto p q port poll :
  proto <> ""%string -> lacks ":" proto = true -> lacks ":" p = true -> lacks ":" q = true -> lacks "@" p = true -> lacks "@" q = true ->
  reads_as p port -> reads_as q poll -> 1 <= port <= 65535 -> 1 <= poll < 2 ^ 31 ->
  parse_mtcl_options (proto ++ String ":" (p ++ String "@" q)) = Done (proto, port, poll).
Proof.
  intros Hne Hc Hcp Hcq Hap Haq Hrp Hrq Hport Hpoll. rewrite parse_parts by done.
  assert (String.eqb proto "" = false) as -> by by apply String.eqb_neq.
  assert (String.eqb p "" = false) as -> by (by destruct p). assert (String.eqb q "" = false) as -> by (by destruct q).
  rewrite lacks_app, Hcp, Haq. simpl. rewrite Hcq. simpl.
  by rewrite (proj2 (numbers_of_parts proto p q port poll)).
Qed.

Lemma mtcl_options_parts options proto port poll :
  parse_mtcl_options options = Done (proto, port, poll) ->
  exists p q, options = (proto ++ String ":" (p ++ String "@" q))%string /\ proto <> ""%string
    /\ lacks ":" proto = true /\ lacks ":" p = true /\ lacks ":" q = true /\ lacks "@" p = true /\ lacks "@" q = true
    /\ reads_as p port /\ reads_as q poll /\ 1 <= port <= 65535 /\ 1 <= poll < 2 ^ 31.
Proof.
  intros E. destruct (options_split options) as (a & p & q & -> & Ha & Hp); [by rewrite E|].
  rewrite parse_parts in E by done. apply (parse_accepts _ _ _ _ (port, poll)) in E as (-> & Hne & Hl & Hq & Hn).
  apply numbers_of_parts in Hn as (Hrp & Hrq & Hport & Hpoll). rewrite lacks_app in Hl. simpl in Hl.
  apply andb_true_iff in Hl as [? ?]. by exists p, q.
Qed.

(** The options of the MTCL backend are read exactly as PROTO:PORT@POLL.  They are
    accepted if and only if they are three parts with these separators and no
    others, a protocol that is not empty, a whole number between 1 and 65535 and a
    positive [int]; the result is then the three parts.  Printing a protocol and
    two such numbers and reading the text gives them back. *)
Theorem mtcl_options_correct (options proto : string) (port poll : Z) :
  (parse_mtcl_options options = Done (proto, port, poll) <->
   exists p q, options = (proto ++ String ":" (p ++ String "@" q))%string /\ proto <> ""%string
     /\ lacks ":" proto = true /\ lacks ":" p = true /\ lacks ":" q = true /\ lacks "@" p = true /\ lacks "@" q = true
     /\ reads_as p port /\ reads_as q poll /\ 1 <= port <= 65535 /\ 1 <= poll < 2 ^ 31)
  /\ (proto <> ""%string -> lacks ":" proto = true -> 1 <= port <= 65535 -> 1 <= poll < 2 ^ 31 ->
      parse_mtcl_options (proto ++ String ":" (print_ld port ++ String "@" (print_ld poll))) = Done (proto, port, poll)).
Proof.
  split; [split|].
  - apply mtcl_options_parts.
  - intros (p & q & -> & Hne & Hc & Hcp & Hcq & Hap & Haq & Hrp & Hrq & Hport & Hpoll). by apply parse_whole.
  - intros Hne Hc Hport Hpoll. apply parse_whole; try done; try (by apply print_ld_lacks);
      unfold reads_as; rewrite <- (string_app_nil (print_ld _)); apply scan_print_ld; unfold int64; (done || lia).
Qed.

(** ** Accepted configurations *)

Lemma new_accepts args env canonical c :
  RuntimeConfiguration_new args env canonical = Done c ->
  exists f, args = Parsed f /\ resolve_capio_dir env canonical = Done (capio_dir c)
    /\ (discovery_type c = CAPIO_MCAST_PROTO_FLAG \/ discovery_type c = CAPIO_FS_PROTO_FLAG)
    /\ config_file f = Done (capio_cl_config_path c, capio_cl_resolve_path c, capio_cl_dynamic_config c)
    /\ (parse_mtcl_options (default ""%string (backend_options_flag f)) = Done (mtcl_protocol c, mtcl_port c, mtcl_poll_interval c)
        \/ (mtcl_protocol c, mtcl_port c, mtcl_poll_interval c)
           = (CAPIO_MTCL_DEFAULT_PROTOCOL, CAPIO_MTCL_DEFAULT_PORT, CAPIO_MTCL_DEFAULT_POLL_INTERVAL))
    /\ cache_lines c = env_number env "CAPIO_CACHE_LINES" CAPIO_CACHE_LINES_DEFAULT
    /\ cache_line_size c = env_number env "CAPIO_CACHE_LINE_SIZE" CAPIO_CACHE_LINE_SIZE_DEFAULT.
Proof.
  destruct args as [f| |]; [|done|done]. cbn [RuntimeConfiguration_new].
  set (d := default CAPIO_MCAST_PROTO_FLAG (discovery_flag f)).
  destruct (String.eqb_spec d CAPIO_MCAST_PROTO_FLAG) as [Hd|], (String.eqb_spec d CAPIO_FS_PROTO_FLAG) as [Hd'|];
    try done; cbn [negb andb]; destruct (config_file f) as [[[path prefix] dynamic]| | | |] eqn:Ec; try done; simpl;
    (case_match eqn:Eb; [destruct (parse_mtcl_options _) as [[[? ?] ?]| | | |] eqn:Eo; try done|]); simpl;
    destruct (resolve_capio_dir env canonical) as [dir| | | |] eqn:Er; try done; intros [= <-]; exists f; simpl; auto 10.
Qed.

(** The addresses a backend is given are usable, and the directory is not one of the
    forbidden ones. *)
Lemma resolve_allowed env canonical dir :
  resolve_capio_dir env canonical = Done dir ->
  is_forbidden_path dir = false /\ exists value, env "CAPIO_DIR"%string = Some value /\ canonical value = Some dir.
Proof.
  unfold resolve_capio_dir. destruct (env _) as [value|]; [|done]. destruct (canonical value) as [d|] eqn:E; [|done].
  case_match eqn:Ef; [done|]. intros [= <-]. split; [exact Ef|by exists value].
Qed.

(** Reading the configuration neither waits nor does anything undefined. *)
Definition returns {A} (o : outcome A) : Prop := match o with Done _ | Throw _ | Exit _ => True | Blocks _ | UB _ => False end.
Lemma returns_bind {A B} (o : outcome A) (k : A -> outcome B) : returns o -> (forall a, returns (k a)) -> returns (outcome_bind o k).
Proof. intros Ho Hk. destruct o; simpl; done || apply Hk. Qed.
Lemma stoi_returns s : returns (stoi s).
Proof. unfold stoi. destruct (scan_ld s) as [[? ?]|]; [|done]. by case_match. Qed.
Lemma numbers_returns options colon at_sign : returns (mtcl_numbers options colon at_sign).
Proof.
  unfold mtcl_numbers. apply returns_bind; [apply stoi_returns|intros [? ?]]. case_match; [done|].
  apply returns_bind; [apply stoi_returns|intros [? ?]]. by case_match.
Qed.
Lemma parse_returns options : returns (parse_mtcl_options options).
Proof.
  unfold parse_mtcl_options. destruct (String.index 0 ":" options) as [colon|]; [|done].
  destruct (String.index (colon + 1) "@" options) as [at_sign|]; [|done]. case_match; [done|].
  pose proof (numbers_returns options colon at_sign). by destruct (mtcl_numbers _ _ _).
Qed.
Lemma new_returns args env canonical : returns (RuntimeConfiguration_new args env canonical).
Proof.
  destruct args as [f| |]; [|done|done]. cbn [RuntimeConfiguration_new]. case_match; [done|].
  apply returns_bind; [unfold config_file; repeat case_match; done|intros [[? ?] ?]].
  apply returns_bind; [case_match; [apply parse_returns|done]|intros [[? ?] ?]].
  apply returns_bind; [unfold resolve_capio_dir; repeat case_match; done|done].
Qed.

(** A configuration that is accepted is usable: the discovery is by multicast or by
    token files, the MTCL port and interval are in range and the protocol is not
    empty, and the directory is a canonical path that is not under a forbidden
    one.  [initialize] sets it and [get] then returns it; a command line or an
    environment that is refused ends the process, and nothing else can happen. *)
Theorem accepted_configuration (args : cli) (env : environment) (canonical : string -> option string) (s : option RuntimeConfiguration) :
  match configuration_initialize args env canonical s with
  | Done (_, s') => exists c, s' = Some c /\ configuration_get s' = Done (c, s')
      /\ (discovery_type c = CAPIO_MCAST_PROTO_FLAG \/ discovery_type c = CAPIO_FS_PROTO_FLAG)
      /\ 1 <= mtcl_port c <= 65535 /\ 1 <= mtcl_poll_interval c < 2 ^ 31 /\ mtcl_protocol c <> ""%string
      /\ lacks ":" (mtcl_protocol c) = true /\ is_forbidden_path (capio_dir c) = false
      /\ (exists value, env "CAPIO_DIR"%string = Some value /\ canonical value = Some (capio_dir c))
  | Exit _ => forall c, RuntimeConfiguration_new args env canonical <> Done c
  | _ => False
  end.
Proof.
  pose proof (new_returns args env canonical) as Hr. unfold configuration_initialize, bind, lift.
  destruct (RuntimeConfiguration_new args env canonical) as [c| | | |] eqn:E; simpl; try done.
  exists c. split; [done|]. split; [done|]. destruct (new_accepts _ _ _ _ E) as (f & _ & Hdir & Hd & _ & Hm & _).
  destruct (resolve_allowed _ _ _ Hdir) as [Hf Hv]. split; [exact Hd|].
  destruct Hm as [Hm|[= -> -> ->]]; [|by split_and!].
  apply mtcl_options_parts in Hm as (p & q & _ & Hne & Hl & Hrest). naive_solver.
Qed.

(** ** The client and the server *)

(** What a thread of the client asks for when it makes its caches. *)
Definition client_settings (env : environment) (realpath : string -> option string) : M ClientEnv (string * Z * Z * string) :=
  let* dir := get_capio_dir env realpath in
  let* lines := get_cache_lines env in
  let* line_size := get_cache_line_size env in
  let* name := get_capio_workflow_name env in
  ret (dir, lines, line_size, name).

(** C30. The client and the server agree on the shared memory.  In one environment, a
    client of a server that started finds the same directory and the same number
    of cache lines, and the workflow name the server gives its engine when it has
    no configuration file; asking again gives the same.  The size of a cache line
    is positive for the client and the same on both sides exactly when the variable
    is unset or positive: the client replaces another value by the default, the
    server does not. *)
Theorem client_server_agree (args : cli) (env : environment) (realpath : string -> option string) (c : RuntimeConfiguration) :
  RuntimeConfiguration_new args env realpath = Done c ->
  exists line_size name s, client_settings env realpath ClientEnv_start = Done ((capio_dir c, cache_lines c, line_size, name), s)
    /\ client_settings env realpath s = Done ((capio_dir c, cache_lines c, line_size, name), s)
    /\ (capio_cl_config_path c = ""%string -> capio_cl_dynamic_config c = false ->
        exists calls, createCapioClEngine env c = Engine_new :: Engine_setWorkflowName name :: calls)
    /\ 0 < line_size
    /\ (line_size = cache_line_size c <->
        match env "CAPIO_CACHE_LINE_SIZE"%string with None => True | Some v => 0 < strtol v end).
Proof.
  intros E. destruct (new_accepts _ _ _ _ E) as (f & _ & Hdir & _ & _ & _ & Hlines & Hsize). rewrite Hlines, Hsize.
  destruct (resolve_allowed _ _ _ Hdir) as (Hf & value & Hv & Hreal).
  set (size := match env "CAPIO_CACHE_LINE_SIZE"%string with Some v => strtol v | None => -1 end).
  set (line_size := if size <=? 0 then CAPIO_CACHE_LINE_SIZE_DEFAULT else size).
  set (name := default CAPIO_DEFAULT_WORKFLOW_NAME (env "CAPIO_WORKFLOW_NAME"%string)).
  set (lines := env_number env "CAPIO_CACHE_LINES" CAPIO_CACHE_LINES_DEFAULT).
  assert (Hpos : 0 < line_size) by (unfold line_size, CAPIO_CACHE_LINE_SIZE_DEFAULT; destruct (Z.leb_spec size 0); lia).
  exists line_size, name, {| static_capio_dir := capio_dir c; data_bufs_size := lines; data_bufs_count := line_size; workflow_name := name |}.
  split_and!; [| | |done|].
  - unfold client_settings, get_capio_dir, bind, get, or_exit. cbn -[is_forbidden_path]. rewrite Hv. cbn -[is_forbidden_path].
    rewrite Hreal. cbn -[is_forbidden_path]. rewrite Hf. reflexivity.
  - set (s := {| static_capio_dir := _ |}).
    assert (E1 : get_capio_dir env realpath s = Done (capio_dir c, s)).
    { unfold get_capio_dir, bind, get, or_exit. cbn -[is_forbidden_path]. case_match; [|done].
      rewrite Hv. cbn -[is_forbidden_path]. rewrite Hreal. cbn -[is_forbidden_path]. by rewrite Hf. }
    assert (E2 : get_cache_lines env s = Done (lines, s)) by (unfold get_cache_lines, bind, get; cbn [data_bufs_size s outcome_bind]; by destruct (lines =? -1)).
    assert (E3 : get_cache_line_size env s = Done (line_size, s)).
    { unfold get_cache_line_size, bind, get. simpl. by rewrite (proj2 (Z.eqb_neq _ _)) by lia. }
    assert (E4 : get_capio_workflow_name env s = Done (name, s)).
    { unfold get_capio_workflow_name, bind, get. cbn [workflow_name s outcome_bind]. by destruct (String.eqb name ""). }
    unfold client_settings. eapply bind_done; [exact E1|]. eapply bind_done; [exact E2|].
    eapply bind_done; [exact E3|]. eapply bind_done; [exact E4|]. done.
  - intros Hp Hdyn. unfold createCapioClEngine. rewrite Hdyn, Hp. simpl. by eexists.
  - unfold line_size, size, env_number. destruct (env "CAPIO_CACHE_LINE_SIZE"%string) as [v|]; simpl.
    + destruct (Z.leb_spec (strtol v) 0); unfold CAPIO_CACHE_LINE_SIZE_DEFAULT; split; intros; lia.
    + done.
Qed.

(** ** Examples *)

Definition demo_flags : Flags := {|
  resolve_prefix := None; config_flag := None; noConfigFile := true; backend_flag := Some "mtcl"%string;
  discovery_flag := Some "fs"%string; mcast_addr_flag := None; mcast_port_flag := None; token_directory_flag := None;
  backend_options_flag := Some "UCX:7700@500"%string; continueOnErrorFlag := false; mem_only_flag := true |}.
Definition demo_env : environment := fun name =>
  if String.eqb name "CAPIO_DIR" then Some "/scratch/job"%string
  else if String.eqb name "CAPIO_CACHE_LINE_SIZE" then Some "none"%string else None.

Lemma mtcl_options_correct_witness :
  parse_mtcl_options "UCX:7700@500" = Done ("UCX"%string, 7700, 500) /\ 1 <= 7700 <= 65535.
Proof.
  split; [|lia]. apply (proj2 (mtcl_options_correct "UCX:7700@500" "UCX" 7700 500)); [done|done|lia|lia].
Defined.

Lemma client_server_agree_witness :
  exists line_size name s, client_settings demo_env Some ClientEnv_start = Done (("/scratch/job"%string, 10, line_size, name), s)
    /\ 0 < line_size /\ line_size <> 0.
Proof.
  destruct (client_server_agree (Parsed demo_flags) demo_env Some
    (default (Build_RuntimeConfiguration "" false 0 0 0 0 "" "" 0 "" "" "" 0 0 "" "" false false)
       (result_of (RuntimeConfiguration_new (Parsed demo_flags) demo_env Some)))) as (z & n & s & E & _ & _ & Hpos & _).
  - vm_compute. reflexivity.
  - exists z, n, s. split; [exact E|]. split; [exact Hpos|]. intros ->. by apply Z.lt_irrefl in Hpos.
Defined.
