(* ===== verification/Discovery.v ===== *)
(** * Node discovery

    [server/src/fs_discovery_service.cpp], [multicast_discovery_service.cpp],
    [discovery_service.cpp] and [shm_canary.cpp]: how a server tells the others
    the token they connect to it with, and learns theirs.  The tokens are files of
    a shared directory, or datagrams; each one learned is given to the
    [connect_to] of the backend, here the one of MTCL.  What a scan of the
    directory lists and which datagrams arrive are arguments: a scan of one node
    may run at any point of the start of another. *)
From S2P Require Import Prelude Text RemoteText Mtcl Configuration PosixPath.
#[local] Arguments String.append !_ _ /.

(** ** The canary *)

(** The names of the shared memory objects of the node. *)
Definition CapioShmCanary_new (capio_workflow_name : string) : M (gset string) unit :=
  if String.eqb capio_workflow_name "" then err_exit "ERR: empty workflow name for shm canary"
  else
    let* names := get in
    if bool_decide (capio_workflow_name ∈ names) then err_exit "ERR: shm canary flag already exists"
    else put ({[capio_workflow_name]} ∪ names).
Definition CapioShmCanary_destroy (canary_name : string) : M (gset string) unit :=
  modify (fun names => names ∖ {[canary_name]}).

(** ** Token files *)

(** The shared file system: the directories, and the token files by path. *)
Record TokenFs : Type := { directories : gset string; token_files : gmap string string }.
Definition write_token_file (path content : string) (fs : TokenFs) : TokenFs :=
  {| directories := directories fs; token_files := <[path := content]> (token_files fs) |}.

Record FSDiscoveryInterface : Type := { token_directory_path : string; token_filename : string; fs_terminate : bool }.

(** [created] tells whether [create_directory] succeeds. *)
Definition FSDiscoveryInterface_new (created : bool) (token_directory : string) : M TokenFs FSDiscoveryInterface :=
  if String.eqb token_directory "" then throw "Provided token directory is empty"
  else
    let* fs := get in
    (if bool_decide (token_directory ∈ directories fs) then ret tt
     else if created then put {| directories := {[token_directory]} ∪ directories fs; token_files := token_files fs |}
     else throw "filesystem_error") ;;
    ret {| token_directory_path := token_directory; token_filename := ""; fs_terminate := false |}.

(** [start] opens the file, which makes it empty, and the token is there when the
    file is closed. *)
Definition token_path (host : string) (d : FSDiscoveryInterface) : string :=
  path_append (token_directory_path d) (host ++ ".capio").
Definition fs_start_open (host : string) (d : FSDiscoveryInterface) : M TokenFs FSDiscoveryInterface :=
  modify (write_token_file (token_path host d) "") ;;
  ret {| token_directory_path := token_directory_path d; token_filename := host ++ ".capio"; fs_terminate := fs_terminate d |}.
Definition fs_start_close (token : string) (d : FSDiscoveryInterface) : M TokenFs unit :=
  modify (write_token_file (path_append (token_directory_path d) (token_filename d)) token).
Definition fs_start (host token : string) (d : FSDiscoveryInterface) : M TokenFs FSDiscoveryInterface :=
  let* d := fs_start_open host d in fs_start_close token d ;; ret d.
Definition fs_stop (d : FSDiscoveryInterface) : FSDiscoveryInterface :=
  {| token_directory_path := token_directory_path d; token_filename := token_filename d; fs_terminate := true |}.
Definition FSDiscoveryInterface_destroy (d : FSDiscoveryInterface) : M TokenFs unit :=
  when (negb (String.eqb (token_filename d) ""))
    (modify (fun fs => {| directories := directories fs;
       token_files := delete (path_append (token_directory_path d) (token_filename d)) (token_files fs) |})).

(** [input >> token]: the first word; an empty file leaves the token empty. *)
Definition read_token (content : string) : string := (scan_word (skip_spaces content)).1.

(** One scan of the entries of the directory, with their contents: the new cache and
    the tokens given to [connect_to]. *)
Fixpoint fs_scan (entries : list (string * string)) (cache : list string) : list string * list string :=
  match entries with
  | [] => (cache, [])
  | (path, content) :: entries' =>
      if bool_decide (path ∈ cache) then fs_scan entries' cache
      else let '(cache', tokens) := fs_scan entries' (cache ++ [path]) in (cache', read_token content :: tokens)
  end.
(** The loop, one scan per turn until [terminate]. *)
Fixpoint fs_discovery_loop (scans : list (list (string * string))) (cache : list string) : list string :=
  match scans with
  | [] => []
  | entries :: scans' => let '(cache', tokens) := fs_scan entries cache in tokens ++ fs_discovery_loop scans' cache'
  end.
Definition fs_discovery_service (scans : list (list (string * string))) : list string := fs_discovery_loop scans [].

(** ** Multicast *)

(** The array [incoming_token], zeroed before each datagram, holds one character
    less than its size. *)
Definition incoming_size : nat := Z.to_nat (2 * HOST_NAME_MAX - 1).
Definition mcast_token (datagram : string) : string := c_str (substring 0 incoming_size datagram).
(** [bound] tells whether the socket was bound; a turn without a datagram is a
    timeout. *)
Definition mcast_thread_discovery_service (bound : bool) (datagrams : list (option string)) : list string :=
  if negb bound then []
  else omap (fun d => match d with
                      | Some d => if (0 <? String.length d)%nat then Some (mcast_token d) else None
                      | None => None
                      end) datagrams.
(** The datagrams [advertise] sends in [n] turns. *)
Definition advertise (n : nat) (advertisement_token : string) : list string := replicate n advertisement_token.

(** [DiscoveryService::start] *)
Definition discovery_start {S A} (token : string) (interface_start : M S A) : M S A :=
  if String.eqb token "" then throw "Advertisement token is empty" else interface_start.

(** ** The calls of [connect_to] *)

(** What MTCL answers when a call of [connect_to] connects: the handle of
    [Manager::connect], when it is valid, and whether each of the two sends of the
    name of the node moves all its bytes. *)
Record attempt : Type := { at_handle : option Z; at_sent1 : bool; at_sent2 : bool }.
Definition succeeds (a : attempt) : bool := bool_decide (is_Some (at_handle a)) && at_sent1 a && at_sent2 a.
Definition connect_with (a : attempt) (token : string) (b : MTCLBackend) : MTCLBackend :=
  connect_to (at_handle a) (at_sent1 a) (at_sent2 a) token b.

(** The calls for the tokens, from the [k]-th on; [dial] answers each of them. *)
Fixpoint connect_all (dial : nat -> attempt) (k : nat) (tokens : list string) (b : MTCLBackend) : MTCLBackend :=
  match tokens with
  | [] => b
  | token :: tokens' => connect_all dial (S k) tokens' (connect_with (dial k) token b)
  end.

#[local] Ltac no_new_peer :=
  split_and!; [done|intros ?; rewrite ?elem_of_app, ?list_elem_of_singleton; naive_solver|done|
    split; [by left|]; intros [?|(? & ? & ?)]; [done|]; simplify_eq/=; rewrite ?andb_false_r in *; try done; try congruence].

Lemma connect_one (a : attempt) (token n : string) (b : MTCLBackend) :
  let b' := connect_with a token b in
  node_name b' = node_name b
  /\ (forall h, h ∈ closed b' -> h ∈ closed b \/ at_handle a = Some h /\ succeeds a = false)
  /\ (forall c, open_connections b !! n = Some c -> open_connections b' !! n = Some c)
  /\ (is_Some (open_connections b' !! n) <-> is_Some (open_connections b !! n)
       \/ String.ltb (node_name b) n = true /\ token_hostname token = Some n /\ succeeds a = true).
Proof.
  intros b'. unfold b', connect_with, connect_to, initiates, succeeds. destruct a as [oh s1 s2]. simpl.
  assert (forall m, String.ltb (node_name b) m = true -> m <> ""%string) as Hne by (intros m Hm ->; by destruct (node_name b)).
  destruct (token_hostname token) as [m|]; [|no_new_peer].
  destruct (String.eqb_spec m "") as [->|Hm]; simpl; [no_new_peer; by destruct (Hne ""%string)|].
  destruct (String.ltb (node_name b) m) eqn:Hlt; simpl; [|no_new_peer].
  destruct (open_connections b !! m) as [c|] eqn:Hc; [no_new_peer; by eexists|].
  destruct oh as [h|]; simpl; [|no_new_peer].
  destruct s1; simpl; [|no_new_peer]. destruct s2; simpl; [|no_new_peer].
  unfold register_connection. simpl. rewrite Hc. simpl. split_and!; [done|auto| |].
  - intros c Hn. rewrite lookup_insert_ne; [done|]. intros ->. congruence.
  - destruct (decide (m = n)) as [->|Hmn]; [rewrite lookup_insert_eq|rewrite lookup_insert_ne by done]; naive_solver.
Qed.

(** Whatever the tokens, their order and how often each comes, the node is then
    connected, besides the peers it had, to every node of a larger name for a token
    of which a call succeeded, and to no other; a handle is closed only when its own
    call fails. *)
Lemma connect_all_peers (dial : nat -> attempt) (tokens : list string) (b : MTCLBackend) k :
  let b' := connect_all dial k tokens b in
  node_name b' = node_name b
  /\ (forall h, h ∈ closed b' -> h ∈ closed b \/ exists i, at_handle (dial i) = Some h /\ succeeds (dial i) = false)
  /\ (forall n c, open_connections b !! n = Some c -> open_connections b' !! n = Some c)
  /\ (forall n, is_Some (open_connections b' !! n) <->
       is_Some (open_connections b !! n)
       \/ String.ltb (node_name b) n = true
          /\ exists i t, tokens !! i = Some t /\ token_hostname t = Some n /\ succeeds (dial (k + i)%nat) = true).
Proof.
  revert k b. induction tokens as [|t tokens IH]; intros k b; cbn [connect_all].
  { split_and!; auto. intros n. split; [by left|]. by intros [?|(_ & i & t & Ht & _)]. }
  pose proof (connect_one (dial k) t) as H1. destruct (IH (S k) (connect_with (dial k) t b)) as (Hname & Hclosed & Hkeep & Hpeers).
  destruct (H1 ""%string b) as (Hn1 & Hc1 & _). split_and!.
  - congruence.
  - intros h [Hh|?]%Hclosed; [|by right]. apply Hc1 in Hh as [?|?]; [by left|right; by exists k].
  - intros n c Hn. apply Hkeep. destruct (H1 n b) as (_ & _ & Hb & _). by apply Hb.
  - intros n. rewrite Hpeers, Hn1. destruct (H1 n b) as (_ & _ & _ & ->). split.
    + intros [[?|(Hlt & Ht & Hs)]|(Hlt & i & u & Hu & Hn & Hs)]; [by left|right|right]; (split; [done|]).
      * exists 0%nat, t. by rewrite Nat.add_0_r.
      * exists (S i), u. by rewrite Nat.add_succ_r.
    + intros [?|(Hlt & [|i] & u & Hu & Hn & Hs)]; [by auto| |]; simpl in Hu.
      * rewrite Nat.add_0_r in Hs. simplify_eq. auto.
      * right. split; [done|]. exists i, u. rewrite Nat.add_succ_r in Hs. done.
Qed.

(** ** Each token file is read once *)

(** The content of a path when it is listed for the first time. *)
Definition first_sight (path : string) (entries : list (string * string)) : option string :=
  snd <$> head (filter (fun e => e.1 = path) entries).

Lemma first_sight_cons path p c entries :
  first_sight path ((p, c) :: entries) = if decide (p = path) then Some c else first_sight path entries.
Proof. unfold first_sight. rewrite filter_cons. simpl. by destruct (decide (p = path)). Qed.
Lemma first_sight_app path l l' :
  first_sight path (l ++ l') = match first_sight path l with Some c => Some c | None => first_sight path l' end.
Proof.
  induction l as [|[p c] l IH]; [done|]. rewrite <- app_comm_cons, !first_sight_cons. by destruct (decide (p = path)).
Qed.
Lemma first_sight_listed path entries : is_Some (first_sight path entries) <-> path ∈ entries.*1.
Proof.
  induction entries as [|[p c] l IH]; simpl; [rewrite elem_of_nil; by split; intros []|].
  rewrite first_sight_cons, elem_of_cons, <- IH. destruct (decide (p = path)) as [->|]; naive_solver.
Qed.

(** The [i]-th token is what the [i]-th path had when it was first seen. *)
Definition tokens_of (entries : list (string * string)) (paths tokens : list string) : Prop :=
  length tokens = length paths
  /\ forall i path, paths !! i = Some path -> exists c, first_sight path entries = Some c /\ tokens !! i = Some (read_token c).

Lemma tokens_of_app_r entries entries' paths tokens :
  tokens_of entries paths tokens -> tokens_of (entries ++ entries') paths tokens.
Proof.
  intros [Hl H]. split; [done|]. intros i path Hp. destruct (H i path Hp) as (c & Hc & Ht). exists c. by rewrite first_sight_app, Hc.
Qed.
Lemma tokens_of_app_l entries entries' paths tokens :
  Forall (fun path => path ∉ entries.*1) paths -> tokens_of entries' paths tokens -> tokens_of (entries ++ entries') paths tokens.
Proof.
  intros Hno [Hl H]. split; [done|]. intros i path Hp. destruct (H i path Hp) as (c & Hc & Ht). exists c.
  rewrite first_sight_app. destruct (first_sight path entries) eqn:E; [|done]. exfalso.
  apply (proj1 (Forall_lookup _ _) Hno i path Hp). apply first_sight_listed. by rewrite E.
Qed.
Lemma tokens_of_join entries p1 p2 t1 t2 :
  tokens_of entries p1 t1 -> tokens_of entries p2 t2 -> tokens_of entries (p1 ++ p2) (t1 ++ t2).
Proof.
  intros [Hl1 H1] [Hl2 H2]. split; [by rewrite !length_app, Hl1, Hl2|]. intros i path [Hp|[Hle Hp]]%lookup_app_Some.
  - destruct (H1 i path Hp) as (c & Hc & Ht). exists c. split; [done|]. by apply lookup_app_l_Some.
  - destruct (H2 _ path Hp) as (c & Hc & Ht). exists c. split; [done|]. rewrite lookup_app_r by lia. by rewrite Hl1.
Qed.

(** A scan gives the tokens of the paths that are not in the cache, and adds them. *)
Lemma fs_scan_paths entries cache cache' tokens :
  fs_scan entries cache = (cache', tokens) -> NoDup cache ->
  exists new, cache' = cache ++ new /\ NoDup cache' /\ (forall path, path ∈ entries.*1 -> path ∈ cache') /\ tokens_of entries new tokens.
Proof.
  revert cache cache' tokens. induction entries as [|[p c] entries IH]; intros cache cache' tokens E Hnd; simpl in E.
  { injection E as <- <-. exists []. rewrite app_nil_r. split_and!; [done|done|by intros path ?%elem_of_nil|]. by split. }
  change ((p, c) :: entries) with ([(p, c)] ++ entries). case_bool_decide as Hp.
  - destruct (IH _ _ _ E Hnd) as (new & -> & Hnd' & Hin & Htok). exists new. split_and!; [done|done| |].
    + intros path [->|?]%elem_of_cons; [apply elem_of_app; by left|by apply Hin].
    + apply tokens_of_app_l; [|done]. apply Forall_forall. intros q Hq. simpl. rewrite list_elem_of_singleton. intros ->.
      apply NoDup_app in Hnd' as (_ & Hd & _). by apply (Hd p).
  - destruct (fs_scan entries (cache ++ [p])) as [cache1 tokens1] eqn:E1. injection E as <- <-.
    destruct (IH _ _ _ E1) as (new & -> & Hnd' & Hin & Htok).
    { apply NoDup_app. split_and!; [done| |apply NoDup_singleton]. intros x Hx ->%list_elem_of_singleton. done. }
    exists ([p] ++ new). split_and!; [by rewrite app_assoc|done| |].
    + intros path [->|?]%elem_of_cons; [|by apply Hin]. rewrite !elem_of_app. left. right. by apply list_elem_of_singleton.
    + apply (tokens_of_join _ [p] new [read_token c] tokens1).
      * split; [done|]. intros [|i] path Hi; simplify_eq/=. exists c. by rewrite first_sight_cons, decide_True.
      * apply tokens_of_app_l; [|done]. apply Forall_forall. intros q Hq. simpl. rewrite list_elem_of_singleton. intros ->.
        apply NoDup_app in Hnd' as (_ & Hd & _). apply (Hd p); [|done]. apply elem_of_app. right. by apply list_elem_of_singleton.
Qed.

(** Over all scans every path that is listed is read once. *)
Lemma fs_discovery_paths scans cache :
  NoDup cache ->
  exists new, NoDup (cache ++ new) /\ (forall path, path ∈ (concat scans).*1 -> path ∈ cache ++ new)
    /\ tokens_of (concat scans) new (fs_discovery_loop scans cache).
Proof.
  revert cache. induction scans as [|entries scans IH]; intros cache Hnd; simpl.
  { exists []. rewrite app_nil_r. split_and!; [done|by intros path ?%elem_of_nil|]. by split. }
  destruct (fs_scan entries cache) as [cache' tokens] eqn:E.
  destruct (fs_scan_paths _ _ _ _ E Hnd) as (new & -> & Hnd1 & Hin1 & Htok1).
  destruct (IH _ Hnd1) as (new2 & Hnd2 & Hin2 & Htok2). exists (new ++ new2). rewrite !app_assoc. split_and!; [done| |].
  - intros path. rewrite fmap_app, elem_of_app. intros [?%Hin1|?%Hin2]; [apply elem_of_app; by left|done].
  - apply tokens_of_join; [by apply tokens_of_app_r|]. apply tokens_of_app_l; [|done].
    apply Forall_forall. intros q Hq Hl%Hin1. apply NoDup_app in Hnd2 as (_ & Hd & _). by apply (Hd q).
Qed.

(** ** What a node is connected to *)

(** A token of the node [n], as its backend advertises it. *)
Definition token_of (n t : string) : Prop :=
  exists proto port, t = advertisement_token proto n port /\ lacks ":" proto = true /\ lacks ":" port = true.

Lemma read_token_word t : no_spaces t -> read_token t = t.
Proof.
  intros Ht. unfold read_token. assert (skip_spaces t = t) as ->.
  { destruct t as [|c t]; [done|]. simpl in *. destruct Ht as [-> _]. done. }
  rewrite <- (string_app_nil t) at 1. by rewrite scan_word_app.
Qed.
Lemma mcast_token_whole t : lacks NUL t = true -> (String.length t <= incoming_size)%nat -> mcast_token t = t.
Proof.
  intros Ht Hl. unfold mcast_token. rewrite substring_all by done. clear Hl.
  induction t as [|c t IH]; [done|]. simpl in *. apply andb_true_iff in Ht as [Hc Ht].
  destruct (Ascii.eqb c NUL); [done|]. by rewrite IH.
Qed.
Lemma token_of_hostname n t : token_of n t -> token_hostname t = Some n.
Proof. intros (proto & port & -> & Hp & Hq). by apply token_hostname_advertised. Qed.

(** C29. Discovery by token files.  Over any number of scans of the shared directory,
    in any order of its entries, with files that come or change while it runs, and
    whether the connections and the sends of the handshake succeed or not: every
    file that is listed is tried exactly once, with the token it holds when it is
    first seen, and never again.  The node is then connected, besides the peers it
    had, to exactly the nodes of a larger name whose token was tried with success;
    the connections it had stay, and the only handles closed are those of the
    attempts that fail.  A token as a backend advertises it names its node, so that
    when all files are complete when first seen and all attempts succeed these are
    all the nodes of a larger name whose files are listed. *)
Theorem files_discover_peers (dial : nat -> attempt) (scans : list (list (string * string))) (b : MTCLBackend) :
  let b' := connect_all dial 0 (fs_discovery_service scans) b in
  (exists paths, NoDup paths /\ (forall path, path ∈ paths <-> path ∈ (concat scans).*1)
    /\ length (fs_discovery_service scans) = length paths
    /\ forall n, is_Some (open_connections b' !! n) <-> is_Some (open_connections b !! n)
        \/ String.ltb (node_name b) n = true /\ exists i path c, paths !! i = Some path
           /\ first_sight path (concat scans) = Some c /\ token_hostname (read_token c) = Some n /\ succeeds (dial i) = true)
  /\ (forall n c, open_connections b !! n = Some c -> open_connections b' !! n = Some c)
  /\ (forall h, h ∈ closed b' -> h ∈ closed b \/ exists i, at_handle (dial i) = Some h /\ succeeds (dial i) = false)
  /\ (forall n t, token_of n t -> no_spaces t -> token_hostname (read_token t) = Some n).
Proof.
  intros b'. destruct (fs_discovery_paths scans []) as (paths & Hnd & Hin & Hlen & Htok); [constructor|]. simpl in Hnd, Hin.
  destruct (connect_all_peers dial (fs_discovery_service scans) b 0) as (_ & Hclosed & Hkeep & Hpeers). fold b' in Hclosed, Hkeep, Hpeers.
  split_and!; [|done|done|intros n t Hn Hs; rewrite read_token_word by done; by apply token_of_hostname].
  exists paths. split_and!; [done| |exact Hlen|].
  - intros path. split; [|by apply Hin]. intros (i & Hi)%list_elem_of_lookup. destruct (Htok i path Hi) as (c & Hc & _).
    apply first_sight_listed. by rewrite Hc.
  - intros n. rewrite Hpeers. split; (intros [?|(Hlt & Hex)]; [by left|right; split; [done|]]).
    + destruct Hex as (i & t & Ht & Hn & Hs).
      assert (exists path, paths !! i = Some path) as [path Hi].
      { apply lookup_lt_is_Some. rewrite <- Hlen. by eapply lookup_lt_Some. }
      destruct (Htok i path Hi) as (c & Hc & Ht'). unfold fs_discovery_service in Ht. exists i, path, c. rewrite Ht in Ht'.
      injection Ht' as ->. done.
    + destruct Hex as (i & path & c & Hi & Hc & Hn & Hs). destruct (Htok i path Hi) as (c' & Hc' & Ht'). simplify_eq. by exists i, (read_token c).
Qed.

(** Discovery by multicast finds every node: the datagrams that arrive may be lost,
    repeated and reordered; those that arrive are tokens that fit the buffer, and
    the connections succeed. *)
Theorem multicast_discovers_peers (dial : nat -> attempt) (datagrams : list (option string)) (b : MTCLBackend) :
  (forall t, Some t ∈ datagrams -> lacks NUL t = true /\ (String.length t <= incoming_size)%nat /\ exists n, token_of n t) ->
  (forall i, succeeds (dial i) = true) ->
  let b' := connect_all dial 0 (mcast_thread_discovery_service true datagrams) b in
  forall n, is_Some (open_connections b' !! n)
    <-> is_Some (open_connections b !! n) \/ String.ltb (node_name b) n = true /\ exists t, Some t ∈ datagrams /\ token_of n t.
Proof.
  intros Hall Hd b'. assert (Hin : forall t, t ∈ mcast_thread_discovery_service true datagrams <-> Some t ∈ datagrams).
  { intros t. unfold mcast_thread_discovery_service. cbn [negb]. rewrite list_elem_of_omap. split.
    - intros ([d|] & Hd' & E); [|done]. destruct (Hall d Hd') as (Hn & Hl & _). rewrite mcast_token_whole in E by done.
      by destruct (0 <? String.length d)%nat; simplify_eq.
    - intros Hd'. exists (Some t). split; [done|]. destruct (Hall t Hd') as (Hn & Hl & n & (proto & port & E & _)).
      rewrite mcast_token_whole by done. subst t. unfold advertisement_token. rewrite length_append. simpl.
      by rewrite (proj2 (Nat.ltb_lt _ _)) by lia. }
  destruct (connect_all_peers dial (mcast_thread_discovery_service true datagrams) b 0) as (_ & _ & _ & Hpeers). fold b' in Hpeers.
  intros n. rewrite Hpeers. split; (intros [?|(Hlt & Hex)]; [by left|right; split; [done|]]).
  - destruct Hex as (i & t & Ht & Hn & _). apply list_elem_of_lookup_2, Hin in Ht. exists t. split; [done|].
    destruct (Hall t Ht) as (_ & _ & m & Hm). pose proof (token_of_hostname _ _ Hm). by simplify_eq.
  - destruct Hex as (t & Ht & Hn). apply Hin, list_elem_of_lookup in Ht as [i Hi]. exists i, t.
    split_and!; [done|by apply token_of_hostname|apply Hd].
Qed.

(** A file that is listed between the moment it is made and the moment its token is
    written is taken for read, and its node is never connected. *)
Lemma half_written_token_lost (dial : nat -> attempt) (path token : string) (b : MTCLBackend) :
  fs_discovery_service [[(path, ""%string)]; [(path, token)]] = [""%string] /\ connect_all dial 0 [""%string] b = b.
Proof. split; [|done]. unfold fs_discovery_service. simpl. by rewrite bool_decide_eq_true_2 by (apply elem_of_cons; by left). Qed.

(** Two servers of one workflow do not run on one node: the canary of the second
    ends it, until the first is gone. *)
Lemma canary_excludes name names names' :
  CapioShmCanary_new name names = Done (tt, names') ->
  (exists what, CapioShmCanary_new name names' = Exit what)
  /\ exists names'', CapioShmCanary_destroy name names' = Done (tt, names'') /\ names'' = names.
Proof.
  unfold CapioShmCanary_new, bind, get, put. destruct (String.eqb name ""); [done|]. simpl.
  case_bool_decide as Hin; [done|]. intros [= <-]. rewrite bool_decide_eq_true_2 by set_solver. split; [by eexists|].
  eexists. split; [done|]. apply leibniz_equiv. set_solver.
Qed.

(** A node "b" scans a directory where the files of "a", "c" and "d" are; the send of
    its name to "d" fails, and it does not try again. *)
Lemma discovery_example :
  let scans := [[("/t/a.capio", "TCP:a:7600"); ("/t/d.capio", "TCP:d:7600")];
                [("/t/c.capio", "TCP:c:7600"); ("/t/d.capio", "TCP:d:7600"); ("/t/a.capio", "TCP:a:7600")]]%string in
  let dial k := {| at_handle := Some (Z.of_nat k); at_sent1 := true; at_sent2 := negb (k =? 1)%nat |} in
  let b' := connect_all dial 0 (fs_discovery_service scans) (MTCLBackend_new "b") in
  dom (open_connections b') = {["c"%string]} /\ closed b' = [1].
Proof. vm_compute. split; reflexivity. Qed.
