(* ===== verification/ServerMain.v ===== *)
(** * The start and the end of a server

    [capio_server.cpp]: [main] makes the parts of the server and runs its two
    threads, which a semaphore orders; [utils/signals.hpp]: the handler of the
    signals takes the parts down again.  [Machine] is what outlives or precedes
    the server on its node: the objects of the queues, the canaries, the token
    files; with the state of the server and its connections.  The queues
    [ClientManager] makes for its clients are its members, so that their
    objects come and go with the entries of its maps.

    A handler of a request or a message runs in one step: the mutexes of the
    storage that make it so are not followed further. *)
From S2P Require Import Prelude Text Memory Semaphore Queue RingThreads QueueObjects.
From S2P Require Import ClientManager Locations Server StorageManager Handlers RemoteHandlers ServerInv ServerProps.
From S2P Require Import Requests RemoteText Mtcl Mpi PosixPath Configuration Discovery.
#[local] Arguments String.append !_ _ /.

(** ** The queues of the clients *)

Definition CAPIO_REQ_BUFF_CNT : Z := 512.

Section Queues.
Variables (workflow : string) (lines line_size : Z).

Definition slots_of (c : channel) : Z := match c with QueueObjects.Requests | Responses _ => CAPIO_REQ_BUFF_CNT | _ => lines end.
Definition size_of (c : channel) : Z :=
  match c with QueueObjects.Requests => Z.of_nat CAPIO_REQ_MAX_SIZE | Responses _ => 8 | _ => line_size end.
Definition make_channel (c : channel) : M Ipc unit :=
  Queue_open workflow (channel_name c) (channel_kind c) (slots_of c) (size_of c).
Definition drop_channel (c : channel) : M Ipc unit := Queue_destroy workflow (channel_name c) (channel_kind c).

(** [ClientManager::ClientManager] *)
Definition ClientManager_queues : M Ipc unit := make_channel QueueObjects.Requests.
(** [registerClient]: [try_emplace] makes what is not in the maps yet. *)
Definition registerClient_queues (tid : Z) (c : ClientManager) : M Ipc unit :=
  when (negb (bool_decide (is_Some (data_buffers c !! tid))))
    (make_channel (ToServer tid) ;; make_channel (ToClient tid)) ;;
  when (negb (bool_decide (is_Some (responses c !! tid)))) (make_channel (Responses tid)).
(** [removeClient]; the members of [ClientDataBuffers] go in the reverse order. *)
Definition removeClient_queues (tid : Z) (c : ClientManager) : M Ipc unit :=
  when (bool_decide (is_Some (data_buffers c !! tid)))
    (drop_channel (ToClient tid) ;; drop_channel (ToServer tid)) ;;
  when (bool_decide (is_Some (responses c !! tid))) (drop_channel (Responses tid)).
(** [ClientManager::~ClientManager] and its members. *)
Definition channels_of (c : ClientManager) : list channel :=
  ((map_to_list (data_buffers c)).*1 ≫= (fun tid => [ToClient tid; ToServer tid])) ++
  (Responses <$> (map_to_list (responses c)).*1) ++ [QueueObjects.Requests].
Definition ClientManager_destroy (c : ClientManager) : M Ipc unit := for_each (channels_of c) drop_channel.
End Queues.

(** [init_client] and [initialize_data_queues] of a client make the same queues,
    with the settings the client has. *)
Definition init_client (workflow : string) (tid : Z) : M Ipc unit :=
  make_channel workflow 0 0 (Responses tid) ;; make_channel workflow 0 0 QueueObjects.Requests.
Definition initialize_data_queues (workflow : string) (lines line_size tid : Z) : M Ipc unit :=
  make_channel workflow lines line_size (ToServer tid) ;; make_channel workflow lines line_size (ToClient tid).

(** ** Discovery as an object *)

(** The threads of the server's process. *)
Inductive thread_id : Type := MainThread | ServerThread | ListenerThread | DiscoveryThread | AdvertisementThread.
#[export] Instance thread_id_eq_dec : EqDecision thread_id.
Proof. solve_decision. Defined.

(** [MulticastDiscoveryInterface] *)
Record MulticastDiscoveryInterface : Type := {
  mcast_terminate : bool;
  mcast_listener_thread : option thread_id;
  advertisement_thread : option thread_id
}.
Definition MulticastDiscoveryInterface_new : MulticastDiscoveryInterface :=
  {| mcast_terminate := false; mcast_listener_thread := None; advertisement_thread := None |}.
Definition mcast_start (d : MulticastDiscoveryInterface) : MulticastDiscoveryInterface :=
  {| mcast_terminate := mcast_terminate d; mcast_listener_thread := Some DiscoveryThread;
     advertisement_thread := Some AdvertisementThread |}.

(** [join] of a thread that has been told to end; a thread cannot join itself. *)
Definition join (self : thread_id) (t : option thread_id) : outcome unit :=
  match t with
  | None => Done tt
  | Some t => if decide (t = self) then Throw "resource_deadlock_would_occur" else Done tt
  end.
Definition mcast_stop (self : thread_id) (d : MulticastDiscoveryInterface) : outcome MulticastDiscoveryInterface :=
  outcome_bind (join self (mcast_listener_thread d)) (fun _ =>
  outcome_bind (join self (advertisement_thread d)) (fun _ =>
  Done {| mcast_terminate := true; mcast_listener_thread := None; advertisement_thread := None |})).

Inductive discovery_object : Type :=
| Multicast_ (d : MulticastDiscoveryInterface)
| Tokens (d : FSDiscoveryInterface) (fs_listener_thread : option thread_id).

(** ** The machine *)

(** [MPIBackend] and [MPISYNCBackend], and whether MPI has been finalized. *)
Inductive backend_object : Type :=
| No_backend
| Mpi_backend (finalized : bool)
| Mpisync_backend (finalized : bool)
| Mtcl_backend (proto port : string) (b : MTCLBackend).

Record Machine : Type := {
  m_ipc : Ipc;
  m_canaries : gset string;
  m_tokens : TokenFs;
  m_discovery : option discovery_object;
  m_backend : backend_object;
  m_server : Server
}.
Definition set_ipc v (m : Machine) : Machine := {| m_ipc := v; m_canaries := m_canaries m; m_tokens := m_tokens m;
  m_discovery := m_discovery m; m_backend := m_backend m; m_server := m_server m |}.
Definition set_canaries v (m : Machine) : Machine := {| m_ipc := m_ipc m; m_canaries := v; m_tokens := m_tokens m;
  m_discovery := m_discovery m; m_backend := m_backend m; m_server := m_server m |}.
Definition set_tokens v (m : Machine) : Machine := {| m_ipc := m_ipc m; m_canaries := m_canaries m; m_tokens := v;
  m_discovery := m_discovery m; m_backend := m_backend m; m_server := m_server m |}.
Definition set_discovery v (m : Machine) : Machine := {| m_ipc := m_ipc m; m_canaries := m_canaries m; m_tokens := m_tokens m;
  m_discovery := v; m_backend := m_backend m; m_server := m_server m |}.
Definition set_backend v (m : Machine) : Machine := {| m_ipc := m_ipc m; m_canaries := m_canaries m; m_tokens := m_tokens m;
  m_discovery := m_discovery m; m_backend := v; m_server := m_server m |}.
Definition set_server v (m : Machine) : Machine := {| m_ipc := m_ipc m; m_canaries := m_canaries m; m_tokens := m_tokens m;
  m_discovery := m_discovery m; m_backend := m_backend m; m_server := v |}.

Definition in_ipc {A} (x : M Ipc A) : M Machine A := zoom m_ipc set_ipc x.
Definition in_canaries {A} (x : M (gset string) A) : M Machine A := zoom m_canaries set_canaries x.
Definition in_tokens {A} (x : M TokenFs A) : M Machine A := zoom m_tokens set_tokens x.
Definition in_server {A} (x : M Server A) : M Machine A := zoom m_server set_server x.

(** [DiscoveryService] *)
Definition DiscoveryService_new (workflow : string) (created : bool) (choice : discovery_choice) : M Machine unit :=
  let* d := match choice with
            | Multicast _ _ => ret (Multicast_ MulticastDiscoveryInterface_new)
            | TokenDirectory dir => let* d := in_tokens (FSDiscoveryInterface_new created dir) in ret (Tokens d None)
            end in
  in_canaries (CapioShmCanary_new workflow) ;;
  modify (set_discovery (Some d)).
Definition DiscoveryService_start (host token : string) : M Machine unit :=
  discovery_start token (let* o := gets m_discovery in
    let* d := or_ub o "no discovery service" in
    match d with
    | Multicast_ d => modify (set_discovery (Some (Multicast_ (mcast_start d))))
    | Tokens d _ => let* d := in_tokens (fs_start host token d) in
                    modify (set_discovery (Some (Tokens d (Some DiscoveryThread))))
    end).
Definition DiscoveryService_stop (self : thread_id) : M Machine unit :=
  let* o := gets m_discovery in
  let* d := or_ub o "no discovery service" in
  match d with
  | Multicast_ d => let* d := lift (mcast_stop self d) in modify (set_discovery (Some (Multicast_ d)))
  | Tokens d t => lift (join self t) ;; modify (set_discovery (Some (Tokens (fs_stop d) None)))
  end.
(** [~DiscoveryService], then the interface and the canary. *)
Definition DiscoveryService_destroy (self : thread_id) (workflow : string) : M Machine unit :=
  DiscoveryService_stop self ;;
  let* o := gets m_discovery in
  (match o with Some (Tokens d _) => in_tokens (FSDiscoveryInterface_destroy d) | _ => ret tt end) ;;
  in_canaries (CapioShmCanary_destroy workflow) ;;
  modify (set_discovery None).

(** ** [main] *)

Section Main.
Context `{Config}.
Variable workflow : string.

(** [select_backend], on a node with this name. *)
Definition make_backend (host : string) (choice : backend_choice) : backend_object :=
  match choice with
  | Use_none => No_backend
  | Use_mpi => Mpi_backend false
  | Use_mpisync => Mpisync_backend false
  | Use_mtcl proto port _ => Mtcl_backend proto port (MTCLBackend_new host)
  end.
(** [main], up to the two threads: [has_mpi] is how CAPIO was built, [created]
    whether the directory of the tokens can be made. *)
Definition main_setup (args : cli) (env : environment) (canonical : string -> option string)
    (has_mpi created : bool) (host : string) : M Machine RuntimeConfiguration :=
  let* c := lift (match configuration_initialize args env canonical None with
                  | Done (_, Some c) => Done c
                  | Done (_, None) => Exit "no configuration"
                  | Throw w => Throw w | Exit w => Exit w | Blocks w => Blocks w | UB w => UB w
                  end) in
  DiscoveryService_new workflow created (select_discovery_service c) ;;
  let* b := lift (select_backend has_mpi c) in
  modify (set_backend (make_backend host b)) ;;
  in_server (on_locations (modify open_files_location)) ;;
  in_ipc (ClientManager_queues workflow (cache_lines c) (cache_line_size c)) ;;
  ret c.

(** ** The two threads *)

(** Where [capio_server] and [capio_remote_listener] are. *)
Inductive srv_place : Type := S_signals | S_handshake | S_directory | S_unlock | S_loop.
Inductive lst_place : Type := L_lock | L_check | L_loop | L_returned.
Record Running : Type := { r_sem : Z; r_srv : srv_place; r_lst : lst_place; r_machine : Machine }.

(** [Backend::handshake_servers] *)
Definition backend_handshake (host : string) : M Machine unit :=
  let* b := gets m_backend in
  match b with
  | Mtcl_backend proto port _ => DiscoveryService_start host (Mtcl.advertisement_token proto host port)
  | _ => ret tt
  end.

(** The queues a request makes or takes away. *)
Definition request_queues (lines line_size : Z) (r : RemoteHandlers.request) (c : ClientManager) : M Ipc unit :=
  match r with
  | HandshakeNamed tid _ _ _ | HandshakeAnonymous tid _ => registerClient_queues workflow lines line_size tid c
  | ExitGroup tid => removeClient_queues workflow tid c
  | _ => ret tt
  end.
Definition text_request (req : string) : option RemoteHandlers.request :=
  let '(code, str) := readNextRequest req in parse_request code str.
(** A turn of the loop of [capio_server]. *)
Definition serve (lines line_size : Z) (req : string) : M Machine unit :=
  let* c := gets (fun m => client_manager (m_server m)) in
  in_server (serve_request req) ;;
  in_ipc (match text_request req with Some r => request_queues lines line_size r c | None => ret tt end).

(** [setup_signal_handlers]: the eight calls of [sigaction], whose results are
    combined by a bitwise or. *)
Definition handled_signals : list string :=
  ["SIGTERM"; "SIGILL"; "SIGABRT"; "SIGFPE"; "SIGSEGV"; "SIGQUIT"; "SIGPIPE"; "SIGINT"]%string.
Definition setup_signal_handlers (sigaction : string -> Z) : outcome unit :=
  if foldl Z.lor 0 (sigaction <$> handled_signals) =? -1 then Exit "sigaction for SIGTERM" else Done tt.

(** A step of [capio_server]. *)
Definition srv_step (sigaction : string -> Z) (pid lines line_size : Z) (host req : string) (r : Running) : outcome Running :=
  let go place (x : outcome (unit * Machine)) := outcome_bind x (fun '(_, m) =>
    Done {| r_sem := r_sem r; r_srv := place; r_lst := r_lst r; r_machine := m |}) in
  match r_srv r with
  | S_signals => outcome_bind (setup_signal_handlers sigaction) (fun _ => go S_handshake (Done (tt, r_machine r)))
  | S_handshake => go S_directory (backend_handshake host (r_machine r))
  | S_directory => go S_unlock ((let* _ := in_server (addDirectory pid getCapioDir) in ret tt) (r_machine r))
  | S_unlock => outcome_bind (Semaphore_unlock (r_sem r)) (fun '(_, v) =>
      Done {| r_sem := v; r_srv := S_loop; r_lst := r_lst r; r_machine := r_machine r |})
  | S_loop => go S_loop (serve lines line_size req (r_machine r))
  end.

(** A step of [capio_remote_listener]; a signal may interrupt it while it waits. *)
Definition lst_step (interrupted : bool) (request : RemoteRequest) (r : Running) : outcome Running :=
  match r_lst r with
  | L_lock => outcome_bind (Semaphore_lock interrupted (r_sem r)) (fun '(_, v) =>
      Done {| r_sem := v; r_srv := r_srv r; r_lst := L_check; r_machine := r_machine r |})
  | L_check => Done {| r_sem := r_sem r; r_srv := r_srv r;
      r_lst := match m_backend (r_machine r) with No_backend => L_returned | _ => L_loop end; r_machine := r_machine r |}
  | L_loop => outcome_bind (in_server (listener_step request) (r_machine r)) (fun '(_, m) =>
      Done {| r_sem := r_sem r; r_srv := r_srv r; r_lst := L_loop; r_machine := m |})
  | L_returned => Blocks "the listener has returned"
  end.

(** The events of a request and of a message, in their texts. *)
Definition request_text_ok (req : string) (s : Server) : Prop :=
  forall r, text_request req = Some r -> event_ok (ERequest r) s.
Definition message_text_ok (q : RemoteRequest) (s : Server) : Prop :=
  forall m, parse_message (rr_code q) (get_content q) = Some m -> event_ok (EMessage (rr_source q) m) s.

(** The two threads, the threads they start and what the clients and the other
    nodes put in the queues, in any order. *)
Inductive running_step (sigaction : string -> Z) (pid lines line_size : Z) (host : string) : Running -> Running -> Prop :=
| run_server req r r' :
    (r_srv r = S_loop -> request_text_ok req (m_server (r_machine r))) ->
    srv_step sigaction pid lines line_size host req r = Done r' -> running_step sigaction pid lines line_size host r r'
| run_listener interrupted q r r' :
    message_text_ok q (m_server (r_machine r)) -> lst_step interrupted q r = Done r' ->
    running_step sigaction pid lines line_size host r r'
| run_thread t r s' :
    RemoteHandlers.step (ETask t) (m_server (r_machine r)) s' ->
    running_step sigaction pid lines line_size host r
      {| r_sem := r_sem r; r_srv := r_srv r; r_lst := r_lst r; r_machine := set_server s' (r_machine r) |}
| run_client_data tid d r s' :
    RemoteHandlers.step (EClientData tid d) (m_server (r_machine r)) s' ->
    running_step sigaction pid lines line_size host r
      {| r_sem := r_sem r; r_srv := r_srv r; r_lst := r_lst r; r_machine := set_server s' (r_machine r) |}
| run_node_data source d r s' :
    r_lst r = L_loop -> RemoteHandlers.step (ENodeData source d) (m_server (r_machine r)) s' ->
    running_step sigaction pid lines line_size host r
      {| r_sem := r_sem r; r_srv := r_srv r; r_lst := r_lst r; r_machine := set_server s' (r_machine r) |}
| run_location node text r s' :
    r_lst r = L_loop -> RemoteHandlers.step (ELocation node text) (m_server (r_machine r)) s' ->
    running_step sigaction pid lines line_size host r
      {| r_sem := r_sem r; r_srv := r_srv r; r_lst := r_lst r; r_machine := set_server s' (r_machine r) |}.

(** [std::thread server_thread], [remote_listener_thread] and [internal_server_sem(0)] *)
Definition main_threads (m : Machine) : Running := {| r_sem := 0; r_srv := S_signals; r_lst := L_lock; r_machine := m |}.

(** ** [sig_term_handler] *)

(** [StorageManager::~StorageManager] *)
Definition all_descriptors (s : Server) : list (Z * Z) :=
  map_to_list (_opened_fd_map s) ≫= (fun p => (fun q => (p.1, q.1)) <$> map_to_list p.2).
Definition StorageManager_destroy : M Server unit :=
  let* ds := gets all_descriptors in for_each ds (fun p => _removeFromTid p.1 p.2).

(** [MPI_Finalize] may be called once. *)
Definition MPI_Finalize (finalized : bool) : outcome bool :=
  if finalized then UB "MPI is finalized" else Done true.
(** The destructor of the backend, and then the one of its base class. *)
Definition backend_destroy (b : backend_object) : outcome backend_object :=
  match b with
  | No_backend => Done b
  | Mpi_backend f => outcome_bind (MPI_Finalize f) (fun f => Done (Mpi_backend f))
  | Mpisync_backend f =>
      outcome_bind (MPI_Finalize f) (fun f => outcome_bind (MPI_Finalize f) (fun f => Done (Mpisync_backend f)))
  | Mtcl_backend proto port c => Done (Mtcl_backend proto port (MTCLBackend_destroy c))
  end.

(** The handler, in the thread that takes the signal, up to its [exit], while the
    other threads of the server do nothing. *)
Definition sig_term_handler (self : thread_id) : M Machine unit :=
  DiscoveryService_stop self ;;
  (let* c := gets (fun m => client_manager (m_server m)) in in_ipc (ClientManager_destroy workflow c)) ;;
  in_server StorageManager_destroy ;;
  (let* b := gets m_backend in let* b' := lift (backend_destroy b) in modify (set_backend b')) ;;
  DiscoveryService_destroy self workflow.
End Main.

(** ** The threads start in order *)

Section Order.
Context `{Config}.
Variable workflow : string.

Lemma serve_request_step req s s' :
  serve_request req s = Done (tt, s') ->
  exists r, text_request req = Some r /\ RemoteHandlers.step (ERequest r) s s'.
Proof.
  unfold serve_request, text_request. destruct (readNextRequest req) as [code str].
  destruct (_ || _); [done|]. destruct (_ =? _); [done|].
  destruct (parse_request code str) as [r|]; [|done]. intros E. exists r. split; [done|]. by constructor.
Qed.

Lemma listener_step_step q s s' :
  listener_step q s = Done (tt, s') ->
  s' = s \/ exists m, parse_message (rr_code q) (get_content q) = Some m /\ RemoteHandlers.step (EMessage (rr_source q) m) s s'.
Proof.
  unfold listener_step. destruct (_ || _); [intros [= <-]; by left|].
  destruct (parse_message _ _) as [m|]; [|done]. intros E. right. exists m. split; [done|]. by constructor.
Qed.

(** The state of the server is set by the calls on it and by no others. *)
Lemma in_server_done {A} (x : M Server A) m a m' :
  in_server x m = Done (a, m') -> exists s', x (m_server m) = Done (a, s') /\ m' = set_server s' m.
Proof. unfold in_server, zoom. destruct (x (m_server m)) as [[b s']| | | |]; simpl; intros [=]; subst. by exists s'. Qed.
Lemma in_ipc_server {A} (x : M Ipc A) m a m' : in_ipc x m = Done (a, m') -> m_server m' = m_server m.
Proof. unfold in_ipc, zoom. destruct (x _) as [[b s']| | | |]; simpl; intros [=]; by subst. Qed.
Lemma in_tokens_server {A} (x : M TokenFs A) m a m' : in_tokens x m = Done (a, m') -> m_server m' = m_server m.
Proof. unfold in_tokens, zoom. destruct (x _) as [[b s']| | | |]; simpl; intros [=]; by subst. Qed.

Lemma handshake_server host m m' : backend_handshake host m = Done (tt, m') -> m_server m' = m_server m.
Proof.
  unfold backend_handshake. unfold bind at 1. simpl. destruct (m_backend m); [by intros [= <-]..|].
  unfold DiscoveryService_start, discovery_start. destruct (String.eqb _ _); [done|].
  unfold bind at 1. simpl. destruct (m_discovery m) as [[d|d t]|]; simpl; [by intros [= <-]| |done].
  unfold bind at 1, or_ub. simpl. unfold bind.
  destruct (in_tokens _ m) as [[d' m1]| | | |] eqn:E; simpl; try done. intros [= <-]. simpl. by apply in_tokens_server in E.
Qed.

Lemma serve_step lines line_size req m m' :
  serve workflow lines line_size req m = Done (tt, m') ->
  exists r, text_request req = Some r /\ RemoteHandlers.step (ERequest r) (m_server m) (m_server m').
Proof.
  unfold serve. unfold bind at 1. simpl. unfold bind.
  destruct (in_server _ m) as [[[] m1]| | | |] eqn:E; simpl; try done. intros E2%in_ipc_server.
  apply in_server_done in E as (s' & E & ->). simpl in E2. rewrite E2. by apply serve_request_step.
Qed.

(** What holds before the server's thread has made the directory, and after. *)
Definition started (p : srv_place) : bool := match p with S_unlock | S_loop => true | _ => false end.
Record order_inv (s0 : Server) (r : Running) : Prop := {
  oi_before : started (r_srv r) = false -> m_server (r_machine r) = s0;
  oi_after : started (r_srv r) = true -> reachable (m_server (r_machine r));
  oi_sem : r_sem r = match r_srv r, r_lst r with S_loop, L_lock => 1 | _, _ => 0 end;
  oi_lst : r_srv r <> S_loop -> r_lst r = L_lock
}.

(** The server that [main] has set up, before its threads. *)
Definition set_up (s : Server) : Prop := s = set_locations (open_files_location (locations Server_new)) Server_new.

Lemma order_inv_server s0 sigaction pid lines line_size host req r r' :
  set_up s0 -> order_inv s0 r -> (r_srv r = S_loop -> request_text_ok req (m_server (r_machine r))) ->
  srv_step workflow sigaction pid lines line_size host req r = Done r' -> order_inv s0 r'.
Proof.
  intros Hs0 [Hb Ha Hsem Hl] Hreq. unfold srv_step. destruct r as [v p l m]; simpl in *.
  destruct p; simpl; try (specialize (Hl ltac:(done)) as ->).
  - destruct (setup_signal_handlers sigaction); simpl; intros [= <-]. by split.
  - destruct (backend_handshake host m) as [[[] m1]| | | |] eqn:E; simpl; intros [= <-].
    apply handshake_server in E. split; simpl; try done. intros _. rewrite E. by apply Hb.
  - unfold bind. destruct (in_server _ m) as [[x m1]| | | |] eqn:E; simpl; intros [= <-].
    apply in_server_done in E as (s' & E & ->). rewrite (Hb eq_refl), Hs0 in E. split; simpl; try done.
    intros _. apply (reach_start pid). unfold start_server. eapply bind_done; [reflexivity|].
    unfold bind. by rewrite E.
  - rewrite Hsem. simpl. intros [= <-]. by split.
  - destruct (serve _ _ _ _ m) as [[[] m1]| | | |] eqn:E; simpl; intros [= <-].
    apply serve_step in E as (r & Er & E). split; simpl; try done. intros _.
    eapply reach_step; [by apply Ha| |exact E]. by apply Hreq.
Qed.

Lemma order_inv_listener s0 intr q r r' :
  order_inv s0 r -> message_text_ok q (m_server (r_machine r)) -> lst_step intr q r = Done r' -> order_inv s0 r'.
Proof.
  intros [Hb Ha Hsem Hl] Hok. unfold lst_step. destruct r as [v p l m]; simpl in *.
  assert (l <> L_lock -> p = S_loop) as Hp by (intros Hne; destruct p; try done; by destruct Hne, Hl).
  destruct l; simpl.
  - unfold Semaphore_lock. destruct (sem_lock_outcome intr v) as [[Hv E]|[_ E]]; rewrite E; simpl; [intros [= <-]|by destruct intr].
    destruct p; try lia. split; simpl; try done. lia.
  - specialize (Hp ltac:(done)) as ->. intros [= <-]. split; simpl; try done. by destruct (m_backend m).
  - specialize (Hp ltac:(done)) as ->.
    destruct (in_server _ m) as [[[] m1]| | | |] eqn:E; simpl; intros [= <-].
    apply in_server_done in E as (s' & E & ->). split; simpl; try done. intros _.
    apply listener_step_step in E as [->|(msg & Em & E)]; [by apply Ha|].
    eapply reach_step; [by apply Ha| |exact E]. by apply Hok.
  - done.
Qed.

Lemma order_inv_other s0 e r s' :
  set_up s0 -> order_inv s0 r -> RemoteHandlers.step e (m_server (r_machine r)) s' ->
  match e with ETask _ | EClientData _ _ => True | ENodeData _ _ | ELocation _ _ => r_lst r = L_loop | _ => False end ->
  order_inv s0 {| r_sem := r_sem r; r_srv := r_srv r; r_lst := r_lst r; r_machine := set_server s' (r_machine r) |}.
Proof.
  intros Hs0 [Hb Ha Hsem Hl] Hstep He. split; simpl; try done; intros Hst.
  - rewrite (Hb Hst), Hs0 in Hstep. exfalso. inversion Hstep; subst; try done.
    + by destruct before.
    + rewrite Hl in He; [done|]. intros E. by rewrite E in Hst.
    + rewrite Hl in He; [done|]. intros E. by rewrite E in Hst.
  - eapply reach_step; [by apply Ha| |exact Hstep]. by destruct e.
Qed.

(** C25. The threads of the server start in order.  Whatever the order in which
    the thread of the server, the listener and the threads they start run, while
    the requests and messages keep to the conditions of the invariant (no write
    has a negative count, no path to remove or rename is empty, a rename goes to a
    path that is not in use, a reply of another server carries data): until the
    directory of CAPIO is made, no request, no message and no thread has been
    handled, and the listener waits at its semaphore; from then on the server is in
    a state its machine of requests and messages can reach, where its invariant
    holds. *)
Theorem startup_ordered sigaction pid lines line_size host m r :
  0 <= getFileInitialSize < 2 ^ 63 -> 0 < getCacheLineSize ->
  set_up (m_server m) ->
  rtc (running_step workflow sigaction pid lines line_size host) (main_threads m) r ->
  (started (r_srv r) = false -> r_lst r = L_lock /\ m_server (r_machine r) = m_server m) /\
  (started (r_srv r) = true -> reachable (m_server (r_machine r)) /\ server_inv (m_server (r_machine r))) /\
  (r_lst r <> L_lock -> r_srv r = S_loop).
Proof.
  intros H1 H2 Hs0 Hr.
  assert (order_inv (m_server m) r) as [Hb Ha _ Hl].
  { revert Hr. apply rtc_ind_r; [by split|]. intros y z _ Hstep IH.
    destruct Hstep; [by eapply order_inv_server|by eapply order_inv_listener|by eapply order_inv_other..]. }
  split_and!.
  - intros Hst. split; [|by apply Hb]. apply Hl. intros E. by rewrite E in Hst.
  - intros Hst. split; [by apply Ha|]. apply reachable_inv; [done|done|by apply Ha].
  - intros Hne. destruct (r_srv r); try done; by destruct Hne, Hl.
Qed.
End Order.

(** ** The end of the server *)

Lemma drop_keeps_absent wf c d i i' :
  channel_ok c -> channel_ok d -> absent wf c i -> drop_channel wf d i = Done (tt, i') -> absent wf c i'.
Proof.
  intros Hc Hd Ha E. destruct (decide (c = d)) as [->|Hne].
  - destruct (Queue_destroy_absent wf d i) as (i2 & E2 & Ha2). unfold drop_channel in E. congruence.
  - destruct (Queue_destroy_elsewhere wf d i i tt i' (same_elsewhere_refl _ _ _) E) as [H1 H2].
    destruct Ha as (S1 & E1 & E2 & E3). destruct (in_sem_names wf c) as (I1 & I2 & I3). split_and!.
    + rewrite Forall_forall in S1 |- *. intros n Hn. rewrite H1; [by apply S1|].
      intros Hn'. by apply (shm_names_disjoint wf c d n).
    + rewrite H2; [done|]. intros Hn'. by apply (sem_names_disjoint wf c d _ Hc Hd Hne I1).
    + rewrite H2; [done|]. intros Hn'. by apply (sem_names_disjoint wf c d _ Hc Hd Hne I2).
    + intros Hk. rewrite H2; [by apply E3|]. intros Hn'. by apply (sem_names_disjoint wf c d _ Hc Hd Hne I3).
Qed.

(** Dropping channels leaves nothing of them, and every other queue as it was. *)
Lemma drop_all wf cs i :
  Forall channel_ok cs ->
  exists i', for_each cs (drop_channel wf) i = Done (tt, i') /\
    (forall c, channel_ok c -> c ∈ cs \/ absent wf c i -> absent wf c i') /\
    (forall d k n e, channel_ok d -> d ∉ cs ->
       queue_at wf (channel_name d) k n e i' = queue_at wf (channel_name d) k n e i).
Proof.
  intros Hok. revert i. induction Hok as [|c cs Hc Hok IH]; intros i.
  - exists i. split; [done|]. split; [|done]. intros c Hc [H%elem_of_nil|H]; done.
  - destruct (Queue_destroy_absent wf c i) as (i1 & E1 & Ha1).
    destruct (IH i1) as (i2 & E2 & Ha2 & Hq). exists i2. split; [by eapply bind_done|]. split.
    + intros d Hd Hin. apply Ha2; [done|]. destruct Hin as [Hin|Ha].
      * apply elem_of_cons in Hin as [->|Hin]; [by right|by left].
      * right. by eapply (drop_keeps_absent wf d c i).
    + intros d k n e Hd Hnot. apply not_elem_of_cons in Hnot as [Hne Hnot]. rewrite Hq by done.
      apply (queue_at_elsewhere wf c); try done.
      apply (Queue_destroy_elsewhere wf c i i tt); [apply same_elsewhere_refl|done].
Qed.

(** Removing a descriptor succeeds in a well-formed server. *)
Lemma removeFromTid_total tid fd s :
  server_inv s -> exists s', _removeFromTid tid fd s = Done (tt, s').
Proof.
  intros Hs. unfold _removeFromTid. unfold bind at 1, descriptor. rewrite <- descriptor_at_default.
  destruct (descriptor_at s tid fd) as [d|] eqn:Ed; simpl; [|by eexists].
  destruct (String.eqb_spec (_path d) "") as [Hp|Hp]; [by eexists|].
  destruct (si_descriptors s Hs _ _ _ Ed) as [->|(id' & o & f & Hid' & Hst & Hf & Hin & Ho & Hv)]; [done|].
  eexists. eapply bind_done; [by rewrite Hid'|]. eapply bind_done; [|done].
  unfold file_do, on_file. by rewrite Hf.
Qed.

Lemma remove_all ds s :
  server_inv s ->
  exists s', for_each ds (fun p => _removeFromTid p.1 p.2) s = Done (tt, s') /\ server_inv s' /\
    (forall t f, (t, f) ∈ ds \/ no_file_at t f s -> no_file_at t f s').
Proof.
  revert s. induction ds as [|[tid fd] ds IH]; intros s Hs.
  - exists s. split; [done|]. split; [done|]. intros t f [H%elem_of_nil|H]; done.
  - destruct (removeFromTid_total tid fd s Hs) as [s1 E1].
    pose proof (wp_removeFromTid tid fd s Hs) as Hwp. unfold wp in Hwp. rewrite E1 in Hwp.
    destruct Hwp as (Hs1 & Hno & Hother & _). destruct (IH s1 Hs1) as (s2 & E2 & Hs2 & Hno2).
    exists s2. split; [by eapply bind_done|]. split; [done|].
    intros t f Hin. apply Hno2. destruct (decide ((t, f) = (tid, fd))) as [[= -> ->]|Hne]; [by right|].
    destruct Hin as [[?|Hin]%elem_of_cons|Hin]; [done|by left|right]. intros d. rewrite Hother by done. apply Hin.
Qed.

Lemma all_descriptors_complete s tid fd d : descriptor_at s tid fd = Some d -> (tid, fd) ∈ all_descriptors s.
Proof.
  unfold descriptor_at, all_descriptors. intros H. destruct (_opened_fd_map s !! tid) as [m|] eqn:E; [|done].
  apply list_elem_of_bind. exists (tid, m). split; [|by apply elem_of_map_to_list].
  apply list_elem_of_fmap. exists (fd, d). split; [done|]. by apply elem_of_map_to_list.
Qed.

Lemma StorageManager_destroy_total s :
  server_inv s -> exists s', StorageManager_destroy s = Done (tt, s') /\ forall tid fd, no_file_at tid fd s'.
Proof.
  intros Hs. destruct (remove_all (all_descriptors s) s Hs) as (s' & E & _ & Hno). exists s'. split; [exact E|].
  intros tid fd. apply Hno. destruct (descriptor_at s tid fd) as [d|] eqn:Ed.
  - left. by eapply all_descriptors_complete.
  - right. intros d. by rewrite Ed.
Qed.

(** The thread that takes the signal is not one the handler waits for. *)
Definition may_stop (self : thread_id) (d : discovery_object) : Prop :=
  match d with
  | Multicast_ d => mcast_listener_thread d <> Some self /\ advertisement_thread d <> Some self
  | Tokens _ t => t <> Some self
  end.
Definition stopped (d : discovery_object) : discovery_object :=
  match d with
  | Multicast_ _ => Multicast_ {| mcast_terminate := true; mcast_listener_thread := None; advertisement_thread := None |}
  | Tokens d _ => Tokens (fs_stop d) None
  end.

Lemma DiscoveryService_stop_eq self d m :
  m_discovery m = Some d -> may_stop self d ->
  DiscoveryService_stop self m = Done (tt, set_discovery (Some (stopped d)) m).
Proof.
  intros E Hd. unfold DiscoveryService_stop. eapply bind_done; [done|]. eapply bind_done; [by rewrite E|].
  assert (forall t, t <> Some self -> join self t = Done tt) as Hj.
  { intros [t|] Ht; [|done]. simpl. rewrite decide_False; [done|]. by intros ->. }
  destruct d as [d|d t]; simpl in Hd.
  - unfold mcast_stop. destruct Hd as [H1 H2]. rewrite (Hj _ H1), (Hj _ H2). done.
  - by rewrite (Hj _ Hd).
Qed.
Lemma may_stop_stopped self d : may_stop self (stopped d).
Proof. by destruct d. Qed.
Lemma stopped_twice d : stopped (stopped d) = stopped d.
Proof. by destruct d. Qed.

(** The token files the destruction of the discovery leaves. *)
Definition tokens_after (d : discovery_object) (fs : TokenFs) : gmap string string :=
  match d with
  | Tokens d _ => if String.eqb (token_filename d) "" then token_files fs
                  else delete (path_append (token_directory_path d) (token_filename d)) (token_files fs)
  | Multicast_ _ => token_files fs
  end.

Lemma DiscoveryService_destroy_eq self wf d m :
  m_discovery m = Some d -> may_stop self d ->
  exists m', DiscoveryService_destroy self wf m = Done (tt, m') /\
    m_discovery m' = None /\ m_canaries m' = m_canaries m ∖ {[wf]} /\
    token_files (m_tokens m') = tokens_after d (m_tokens m) /\
    m_ipc m' = m_ipc m /\ m_backend m' = m_backend m /\ m_server m' = m_server m.
Proof.
  intros E Hd. unfold DiscoveryService_destroy.
  assert (exists m1, (match stopped d with Tokens d _ => in_tokens (FSDiscoveryInterface_destroy d) | _ => ret tt end)
    (set_discovery (Some (stopped d)) m) = Done (tt, m1) /\ m_discovery m1 = Some (stopped d) /\
    m_canaries m1 = m_canaries m /\ token_files (m_tokens m1) = tokens_after d (m_tokens m) /\
    m_ipc m1 = m_ipc m /\ m_backend m1 = m_backend m /\ m_server m1 = m_server m)
    as (m1 & E1 & _ & E2 & E3 & E4 & E5 & E6).
  { destruct d as [d|d t]; simpl; [by eexists|]. unfold FSDiscoveryInterface_destroy, in_tokens, zoom, when. simpl.
    destruct (String.eqb (token_filename d) ""); simpl; by eexists. }
  eexists. split.
  - eapply bind_done; [by apply DiscoveryService_stop_eq|]. eapply bind_done; [done|].
    eapply bind_done; [|eapply bind_done; [done|done]].
    simpl. destruct (stopped d) eqn:Es; [exact E1|exact E1].
  - simpl. by rewrite E2.
Qed.

Lemma remove_connections_empty l b n :
  open_connections (foldl (fun b hostname => remove_connection hostname b) b l) !! n =
  if decide (n ∈ l) then None else open_connections b !! n.
Proof.
  revert b. induction l as [|h l IH]; intros b; simpl; [done|]. rewrite IH.
  assert (open_connections (remove_connection h b) = delete h (open_connections b)) as ->.
  { unfold remove_connection. destruct (open_connections b !! h) eqn:E; [done|]. by rewrite delete_id. }
  destruct (decide (n ∈ l)), (decide (n ∈ h :: l)) as [Hn|Hn]; try done; rewrite ?elem_of_cons in Hn; try tauto.
  - rewrite lookup_delete_None. destruct Hn; [by left|done].
  - rewrite lookup_delete_ne; [done|]. intros ->. tauto.
Qed.
Lemma MTCLBackend_destroy_empty b : open_connections (MTCLBackend_destroy b) = ∅.
Proof.
  apply map_empty. intros n. unfold MTCLBackend_destroy. rewrite remove_connections_empty.
  case_decide as Hn; [done|]. destruct (open_connections b !! n) as [c|] eqn:E; [|done].
  destruct Hn. apply list_elem_of_fmap. exists (n, c). split; [done|]. by apply elem_of_map_to_list.
Qed.

(** The MPI library has been initialised once, and [mpisync] is not the backend. *)
Definition backend_ends (b : backend_object) : Prop :=
  match b with Mpi_backend f => f = false | Mpisync_backend _ => False | _ => True end.
Lemma backend_destroy_done b : backend_ends b -> exists b', backend_destroy b = Done b' /\
  forall proto port c, b' = Mtcl_backend proto port c -> open_connections c = ∅.
Proof.
  destruct b as [|f|f|proto port c]; simpl; intros Hb; subst; try done; eexists; (split; [reflexivity|]); try done.
  intros ? ? ? [= _ _ <-]. apply MTCLBackend_destroy_empty.
Qed.

(** C26. The handler of a signal leaves nothing behind, in a server whose invariant
    holds, whose backend is not [mpisync] and whose other threads do nothing while
    it runs, in a thread it does not wait for.  It runs to its end; then no object
    of a queue of the server or of its clients exists any more, while the queues of
    other threads are as they were; no descriptor has a file, no connection is
    open, the token file and the canary are gone, so that a server of the same
    workflow can start. *)
Theorem shutdown_complete workflow self m d :
  server_inv (m_server m) -> m_discovery m = Some d -> may_stop self d -> backend_ends (m_backend m) ->
  Forall channel_ok (channels_of (client_manager (m_server m))) -> workflow <> ""%string ->
  exists m', sig_term_handler workflow self m = Done (tt, m') /\
    (forall c, c ∈ channels_of (client_manager (m_server m)) -> absent workflow c (m_ipc m')) /\
    (forall c k n e, channel_ok c -> c ∉ channels_of (client_manager (m_server m)) ->
       queue_at workflow (channel_name c) k n e (m_ipc m') = queue_at workflow (channel_name c) k n e (m_ipc m)) /\
    (forall tid fd, no_file_at tid fd (m_server m')) /\
    (forall proto port b, m_backend m' = Mtcl_backend proto port b -> open_connections b = ∅) /\
    token_files (m_tokens m') = tokens_after d (m_tokens m) /\
    (exists m2, DiscoveryService_new workflow true (Multicast "" 0) m' = Done (tt, m2)).
Proof.
  intros Hs Hd Hself Hback Hok Hwf.
  destruct (backend_destroy_done _ Hback) as (b' & Eb & Hb').
  destruct (drop_all workflow _ (m_ipc m) Hok) as (i' & Ei & Hab & Hq).
  destruct (StorageManager_destroy_total _ Hs) as (s' & Es & Hno).
  set (m3 := set_backend b'
    (set_server s' (set_ipc i' (set_discovery (Some (stopped d)) m)))).
  destruct (DiscoveryService_destroy_eq self workflow (stopped d) m3 eq_refl (may_stop_stopped self d))
    as (m' & Em & _ & Hcan & Htok & Hipc & Hb & Hsrv).
  exists m'. split_and!.
  - unfold sig_term_handler. eapply bind_done; [by apply DiscoveryService_stop_eq|].
    eapply bind_done; [eapply bind_done; [done|]; unfold in_ipc, zoom, ClientManager_destroy; simpl; by rewrite Ei|].
    eapply bind_done; [unfold in_server, zoom; simpl; by rewrite Es|].
    eapply bind_done; [unfold bind, gets; simpl; by rewrite Eb|exact Em].
  - intros c Hc. rewrite Hipc. apply Hab; [|by left]. by eapply (proj1 (Forall_forall _ _)).
  - intros c k n e Hc Hnot. rewrite Hipc. by apply Hq.
  - rewrite Hsrv. exact Hno.
  - rewrite Hb. exact Hb'.
  - rewrite Htok. by destruct d.
  - unfold DiscoveryService_new. eexists. eapply bind_done; [done|].
    eapply bind_done; [|done]. unfold in_canaries, zoom, CapioShmCanary_new.
    rewrite (proj2 (String.eqb_neq _ _) Hwf). unfold bind, get. simpl.
    rewrite bool_decide_false; [done|]. rewrite Hcan. set_solver.
Qed.

(** A signal taken by a thread of the discovery: the handler would wait for itself. *)
Lemma signal_in_discovery_thread workflow m fd :
  m_discovery m = Some (Tokens fd (Some DiscoveryThread)) ->
  sig_term_handler workflow DiscoveryThread m = Throw "resource_deadlock_would_occur".
Proof.
  intros E. unfold sig_term_handler, DiscoveryService_stop. unfold bind at 1 2, gets. simpl. rewrite E. reflexivity.
Qed.

(** With [mpisync] the handler finalizes MPI twice: the destructor does, and then
    the one of the base class. *)
Lemma mpisync_finalized_twice f : exists w, backend_destroy (Mpisync_backend f) = UB w.
Proof. destruct f; by eexists. Qed.

(** ** A server that starts and ends *)

Definition demo_machine : Machine := {|
  m_ipc := no_ipc; m_canaries := {["w"%string]}; m_tokens := {| directories := ∅; token_files := ∅ |};
  m_discovery := Some (Multicast_ MulticastDiscoveryInterface_new); m_backend := Mtcl_backend "TCP" "4000" (MTCLBackend_new "a");
  m_server := let H := demo_config true in set_locations (open_files_location (locations Server_new)) Server_new |}.
Definition demo_srv (r : Running) : Running :=
  let H := demo_config true in
  match srv_step "w" (fun _ => 0) 1 10 4 "a" "" r with Done r' => r' | _ => r end.
Definition demo_running : Running := demo_srv (demo_srv (demo_srv (demo_srv (main_threads demo_machine)))).

Lemma demo_srv_step (r r' : Running) :
  let H := demo_config true in
  demo_srv r = r' -> srv_step "w" (fun _ => 0) 1 10 4 "a" "" r = Done (demo_srv r) -> r_srv r <> S_loop ->
  running_step "w" (fun _ => 0) 1 10 4 "a" r r'.
Proof. intros H <- E Hne. by apply (run_server "w" (fun _ => 0) 1 10 4 "a" "" r). Qed.

Lemma startup_ordered_witness :
  let H := demo_config true in
  r_srv demo_running = S_loop /\ reachable (m_server (r_machine demo_running)) /\ server_inv (m_server (r_machine demo_running)).
Proof.
  intros H. split; [vm_compute; reflexivity|].
  apply (@startup_ordered H "w" (fun _ => 0) 1 10 4 "a" demo_machine demo_running).
  - vm_compute; split; [discriminate|reflexivity].
  - vm_compute. reflexivity.
  - reflexivity.
  - do 4 (eapply rtc_l; [eapply demo_srv_step; [reflexivity|vm_compute; reflexivity|vm_compute; discriminate]|]).
    apply rtc_refl.
  - vm_compute. reflexivity.
Defined.

(** A server with a client, whose queues exist, as do those of a client that has
    not been registered. *)
Definition demo_ipc : Ipc :=
  match (ClientManager_queues "w" 10 4 ;; registerClient_queues "w" 10 4 7 ClientManager_new ;; init_client "w" 8) no_ipc with
  | Done (_, i) => i
  | _ => no_ipc
  end.
Definition demo_up : Machine :=
  set_ipc demo_ipc (set_server (after [HandshakeNamed 7 7 "app" false; Create 7 3 "/c/f"]) demo_machine).
Definition demo_channels : list channel := [ToClient 7; ToServer 7; Responses 7; QueueObjects.Requests].

Lemma demo_up_inv : server_inv (m_server demo_up).
Proof.
  apply (@reachable_inv (demo_config true)); [vm_compute; split; [discriminate|reflexivity]|vm_compute; reflexivity|].
  apply (@reach_request (demo_config true) (Create 7 3 "/c/f") (after [HandshakeNamed 7 7 "app" false])); [|exact I|vm_compute; reflexivity].
  apply (@reach_request (demo_config true) (HandshakeNamed 7 7 "app" false) (after [])); [|exact I|vm_compute; reflexivity].
  apply (@reach_start (demo_config true) 1). vm_compute. reflexivity.
Qed.

Lemma shutdown_complete_witness :
  exists m', sig_term_handler "w" MainThread demo_up = Done (tt, m') /\
    (forall c, c ∈ demo_channels -> absent "w" c (m_ipc m')) /\
    is_Some (queue_at "w" (channel_name (Responses 7)) (channel_kind (Responses 7)) CAPIO_REQ_BUFF_CNT 8 (m_ipc demo_up)) /\
    is_Some (queue_at "w" (channel_name (Responses 8)) (channel_kind (Responses 8)) CAPIO_REQ_BUFF_CNT 8 (m_ipc m')).
Proof.
  assert (channels_of (client_manager (m_server demo_up)) = demo_channels) as Ec by (vm_compute; reflexivity).
  destruct (shutdown_complete "w" MainThread demo_up (Multicast_ MulticastDiscoveryInterface_new)) as (m' & E & Hab & Hq & _).
  - exact demo_up_inv.
  - reflexivity.
  - split; discriminate.
  - exact I.
  - rewrite Ec. repeat constructor; vm_compute; discriminate.
  - discriminate.
  - exists m'. split; [exact E|]. rewrite Ec in Hab, Hq. split; [exact Hab|]. split; [vm_compute; by eexists|].
    assert (channel_ok (Responses 8)) as H8 by (split; vm_compute; [discriminate|reflexivity]).
    assert (Responses 8 ∉ demo_channels) as Hnot by (apply (bool_decide_unpack _); vm_compute; exact I).
    assert (is_Some (queue_at "w" (channel_name (Responses 8)) (channel_kind (Responses 8)) CAPIO_REQ_BUFF_CNT 8 (m_ipc demo_up)))
      as H1 by (vm_compute; by eexists).
    exact (eq_ind_r is_Some H1 (Hq (Responses 8) (channel_kind (Responses 8)) CAPIO_REQ_BUFF_CNT 8 H8 Hnot)).
Defined.
