(* ===== verification/Cluster.v ===== *)
(** * Servers that talk to each other

    The layers between two handlers: a handler of one server leaves a message
    in its outbox, [remote/requests.hpp] prints it, the backend sends the text
    and the file, the backend of the other server receives them, the listener
    scans the text and runs the handler there.  [Transport] states what a
    backend promises; [mtcl_transport] and [mpi_transport] are the backends of
    the source, and what follows holds for both.  [ship] is the whole way of
    one message. *)
From S2P Require Import Prelude Text Memory Sectors FileBuffer Queue CapioFile ClientManager Locations Server.
From S2P Require Import StorageManager Handlers RemoteHandlers ServerInv ServerProps ServerBehaviour.
From S2P Require Import RemoteText Mtcl Mpi.

(** ** What a backend promises *)

Definition text_bytes (m : remote_message) : list byte := list_byte_of_string (message_text m).
(** The messages a file follows. *)
Definition with_file (m : remote_message) : bool :=
  match m with RemoteReadReply _ _ _ _ _ _ _ | RemoteCopyReply _ _ _ _ _ _ _ _ _ => true | _ => false end.

Class Transport : Type := {
  net : Type;
  wire : Type;
  net_name : net -> string;
  (** the first can send to the second, which knows it *)
  linked : net -> net -> Prop;
  (** the message and its file are within the limits *)
  fits : remote_message -> list byte -> Prop;
  (** [send_request] or [send_file] to a node *)
  net_send : string -> remote_message -> list byte -> M net wire;
  (** [read_next_request], and [recv_file] of so many bytes *)
  net_receive : wire -> Z -> M net (RemoteRequest * list byte);
  (** what is sent is received, and the link stays *)
  net_law a b m data :
    linked a b -> message_wf m -> fits m data -> (with_file m = false -> data = []) ->
    exists a' b' w r,
      net_send (net_name b) m data a = Done (w, a') /\ net_receive w (zlen data) b = Done ((r, data), b') /\
      (forall C : Config, listener_step r = handle_message (net_name a) m) /\
      net_name a' = net_name a /\ net_name b' = net_name b /\ linked a' b' /\ (linked b a -> linked b' a')
}.

(** ** MTCL *)

(** No send is over when the library is asked. *)
Definition under_way : tests := fun _ => None.
Lemma cleanup_under_way l : cleanup_sends under_way l = (true, l).
Proof. induction l as [|s l IH]; simpl; [done|]. by rewrite IH. Qed.

Definition mtcl_wire : Type := string * list byte.
(** The frame the send gave to the library, as the peer reads it. *)
Definition last_frame (b : MTCLBackend) : list byte := default [] (snd <$> last (transmitted b)).
Definition mtcl_net_send (target : string) (m : remote_message) (data : list byte) : M MTCLBackend mtcl_wire :=
  (if with_file m
   then mtcl_send_file under_way true (Some (text_bytes m)) (zlen (text_bytes m)) (Some data) (zlen data) target
   else mtcl_send_request under_way true (Some (text_bytes m)) (zlen (text_bytes m)) target) ;;
  gets (fun b => (node_name b, last_frame b)).
Definition mtcl_net_receive (w : mtcl_wire) (n : Z) : M MTCLBackend (RemoteRequest * list byte) := fun b =>
  let t := {| t_continue := true; t_test := under_way; t_event := Readable w.1 1 (zlen w.2) (Some w.2) |} in
  outcome_bind (read_next_request [t] b) (fun '(r, _, b) =>
    if n =? 0 then Done ((r, []), b)
    else outcome_bind (recv_file true n w.1 b) (fun '(d, b) => Done ((r, d), b))).

Definition mtcl_linked (a b : MTCLBackend) : Prop := is_Some (open_connections a !! node_name b).

Lemma send_frame_links message file file_len target a a' :
  send_frame under_way true message (zlen message) file file_len target a = Done (tt, a') ->
  node_name a' = node_name a /\ forall n, is_Some (open_connections a !! n) -> is_Some (open_connections a' !! n).
Proof.
  unfold send_frame, bind, lift, get. destruct (build_frame _ _ _ _) as [fr| | | |]; simpl; try done.
  destruct (open_connections a !! target) as [c|] eqn:E; [|by intros [= <-]].
  unfold connection_send. rewrite cleanup_under_way. simpl. intros [= <-]. split; [done|]. simpl. intros n Hn.
  destruct (decide (n = target)) as [->|Hne]; [rewrite lookup_insert_eq|rewrite lookup_insert_ne by done]; eauto.
Qed.

Lemma cleanup_completed_links b :
  node_name (cleanup_completed_sends under_way b) = node_name b /\
  forall n, is_Some (open_connections b !! n) -> is_Some (open_connections (cleanup_completed_sends under_way b) !! n).
Proof.
  unfold cleanup_completed_sends.
  assert (filter (fun p : string * (bool * list PendingSend) => p.2.1 = false)
    (map_to_list ((fun c => cleanup_sends under_way (pending_sends c)) <$> open_connections b)) = []) as ->.
  { apply elem_of_nil_inv. intros [n [ok l]] [Hf Hin%elem_of_map_to_list]%list_elem_of_filter. rewrite lookup_fmap in Hin.
    destruct (open_connections b !! n); simplify_eq/=. rewrite cleanup_under_way in Hin. by simplify_eq. }
  simpl. split; [done|]. intros n [c Hc]. rewrite lookup_fmap, Hc. simpl. eauto.
Qed.

Lemma read_next_links t r turns b b' :
  t_test t = under_way -> t_continue t = true ->
  (forall n probe av rec, t_event t = Readable n probe av rec -> is_Some (read_frame av probe rec)) ->
  (forall h inc, t_event t <> NewConnection h inc) -> t_event t <> Nothing ->
  read_next_request (t :: turns) b = Done (r, turns, b') ->
  node_name b' = node_name b /\ forall n, is_Some (open_connections b !! n) -> is_Some (open_connections b' !! n).
Proof.
  intros Ht Hc Hok Hnew Hnot. unfold read_next_request. simpl. rewrite Hc, Ht. simpl.
  destruct (cleanup_completed_links (set_pending_file None b)) as [Hn Hl].
  destruct (t_event t) as [|h inc|n probe av rec] eqn:E; [done|by destruct (Hnew h inc)|].
  destruct (Hok _ _ _ _ eq_refl) as [[[fr rq] off] ->]. destruct off; intros [= _ <-]; simpl; split; auto.
Qed.

Lemma read_frame_of req file : frame_ok req file -> is_Some (read_frame (zlen (frame_of req file)) 1 (Some (frame_of req file))).
Proof.
  intros [[? ?] ?]. pose proof (zlen_nonneg file). unfold read_frame. change (1 <=? 0) with false. cbv iota. rewrite zlen_frame.
  rewrite (proj2 (Z.ltb_ge _ MTCL_HEADER_SIZE)), (proj2 (Z.ltb_ge MTCL_MAX_FRAME_SIZE _)), Z.eqb_refl
    by (unfold MTCL_MAX_FRAME_SIZE; lia). cbn [orb negb]. rewrite decode_frame_of by done. eauto.
Qed.

(** A request without a file, and one with a file, put the same kind of frame on the wire. *)
Lemma mtcl_net_send_spec a target m data :
  frame_ok (text_bytes m) data -> (with_file m = false -> data = []) -> is_Some (open_connections a !! target) ->
  exists a', mtcl_net_send target m data a = Done ((node_name a, frame_of (text_bytes m) data), a') /\
    node_name a' = node_name a /\ forall n, is_Some (open_connections a !! n) -> is_Some (open_connections a' !! n).
Proof.
  intros Hok Hd [c Hc]. pose proof Hok as [[Hm1 Hm2] Hf]. pose proof (zlen_nonneg data).
  pose proof (build_frame_of (text_bytes m) data) as Hframe.
  set (file := if zlen data =? 0 then None else Some data) in *.
  assert (Hlen : zlen data = zlen (default [] file)).
  { subst file. destruct (Z.eqb_spec (zlen data) 0); [by rewrite e|done]. }
  rewrite Hlen in Hframe.
  destruct (send_frame_transmits under_way (text_bytes m) file target a c _ Hframe Hc) as (a' & Hsend & Ht);
    [by rewrite cleanup_under_way|].
  assert (E : (if with_file m
   then mtcl_send_file under_way true (Some (text_bytes m)) (zlen (text_bytes m)) (Some data) (zlen data) target
   else mtcl_send_request under_way true (Some (text_bytes m)) (zlen (text_bytes m)) target) a = Done (tt, a')).
  { assert (invalid_message (Some (text_bytes m)) (zlen (text_bytes m)) = false) as Hv.
    { unfold invalid_message. simpl. rewrite (proj2 (Z.leb_gt _ 0)), (proj2 (Z.ltb_ge _ _)) by lia. done. }
    destruct (with_file m) eqn:Hw.
    - unfold mtcl_send_file. rewrite Hv, (proj2 (Z.ltb_ge (zlen data) 0)), (proj2 (Z.ltb_ge _ (zlen data))) by lia.
      rewrite (bool_decide_eq_true_2 (is_Some (Some data))) by eauto. rewrite andb_false_r. simpl. fold file. by rewrite Hlen.
    - unfold mtcl_send_request. rewrite Hv. subst file. by rewrite Hd in Hsend. }
  destruct (send_frame_links _ _ _ _ _ _ Hsend) as [Hn Hl]. exists a'. split; [|done].
  unfold mtcl_net_send. eapply bind_done; [exact E|]. unfold gets, last_frame. by rewrite Ht, last_snoc, Hn.
Qed.

Lemma mtcl_net_receive_spec b source m data :
  message_wf m -> frame_ok (text_bytes m) data ->
  exists r b', mtcl_net_receive (source, frame_of (text_bytes m) data) (zlen data) b = Done ((r, data), b') /\
    (forall C : Config, listener_step r = handle_message source m) /\
    node_name b' = node_name b /\ forall n, is_Some (open_connections b !! n) -> is_Some (open_connections b' !! n).
Proof.
  intros Hwf Hok. destruct (read_next_frame (text_bytes m) data source 1 under_way [] b Hok eq_refl) as (b' & Hread & Hrecv).
  pose proof Hread as Hlinks. apply read_next_links in Hlinks; try done.
  2: { intros n probe av rec [= <- <- <- <-]. by apply read_frame_of. }
  assert (forall C : Config, listener_step (RemoteRequest_new (string_of_list_byte (text_bytes m)) source) = handle_message source m) as HL.
  { intros C. unfold text_bytes. rewrite string_of_list_byte_of_string. by apply listener_handles. }
  unfold mtcl_net_receive. simpl fst. simpl snd. rewrite Hread. simpl.
  destruct (Z.eqb_spec (zlen data) 0) as [Hz|Hz].
  - assert (data = []) as -> by (destruct data; [done|unfold zlen in Hz; simpl in Hz; lia]). eexists _, b'. by split.
  - rewrite Hrecv by (by intros ->). simpl. eexists _, (set_pending_file None b'). by split.
Qed.

#[export] Program Instance mtcl_transport : Transport := {
  net := MTCLBackend; wire := mtcl_wire; net_name := node_name; linked := mtcl_linked;
  fits m data := frame_ok (text_bytes m) data; net_send := mtcl_net_send; net_receive := mtcl_net_receive }.
Next Obligation.
  intros a b m data Hl Hwf Hfit Hd. destruct (mtcl_net_send_spec a (node_name b) m data Hfit Hd Hl) as (a' & E & Hna & Hla).
  destruct (mtcl_net_receive_spec b (node_name a) m data Hwf Hfit) as (r & b' & E' & HL & Hnb & Hlb).
  exists a', b', (node_name a, frame_of (text_bytes m) data), r. split_and!; try done.
  - unfold mtcl_linked in *. rewrite Hnb. auto.
  - unfold mtcl_linked in *. rewrite Hna. auto.
Qed.

(** ** MPI *)

(** The rank of the sender, and the messages of one send; [after] is the byte behind the
    array of the message, which is sent too, whatever it is at each send. *)
Definition mpi_wire : Type := Z * list (list byte).
Definition mpi_net_send (after : MPIBackend -> remote_message -> byte) (target : string) (m : remote_message) (data : list byte)
  : M MPIBackend mpi_wire := fun a =>
  outcome_bind ((if with_file m then mpi_send_file (text_bytes m) (after a m) data (zlen data) target
                 else mpi_send_request (text_bytes m) (after a m) target) a) (fun '(_, a') =>
    Done ((rank a, (drop (length (mpi_sent a)) (mpi_sent a')).*2), a')).
Definition mpi_net_receive (w : mpi_wire) (n : Z) : M MPIBackend (RemoteRequest * list byte) := fun b =>
  outcome_bind (mpi_read_next_request w.1 {[w.1 := w.2]} b) (fun '(r, waiting) =>
    outcome_bind (mpi_recv_file n (rr_source r) waiting b) (fun '(d, _) => Done ((r, d), b))).

Definition mpi_linked (a b : MPIBackend) : Prop :=
  hostname_to_rank a !! mpi_node_name b = Some (rank b) /\
  hostname_to_rank b !! mpi_node_name a = Some (rank a) /\ rank_to_hostname b !! rank a = Some (mpi_node_name a).

(** What the sends leave as it is. *)
Definition same_names (a a' : MPIBackend) : Prop :=
  mpi_node_name a' = mpi_node_name a /\ rank a' = rank a /\ hostname_to_rank a' = hostname_to_rank a /\
  rank_to_hostname a' = rank_to_hostname a.
Lemma preserves_mpi_send a dest bs : preserves (same_names a) (modify (mpi_send dest bs)).
Proof. apply preserves_modify. intros s Hs. exact Hs. Qed.
Lemma preserves_send_chunks a fuel dest shm k nbytes : preserves (same_names a) (send_chunks fuel dest shm k nbytes).
Proof.
  revert k. induction fuel as [|fuel IH]; intros k; simpl; destruct (k <? nbytes); try apply preserves_ret.
  - by intros ? ? ? ? ?.
  - apply preserves_bind; [apply preserves_mpi_send|]. intros _. apply IH.
Qed.
Lemma mpi_send_file_names msg after data n target a a' r :
  hostname_to_rank a !! target = Some r -> mpi_send_file msg after data n target a = Done (tt, a') -> same_names a a'.
Proof.
  intros Hr. unfold mpi_send_file, rank_of. unfold bind at 1 2, get. simpl. rewrite Hr. simpl.
  apply (preserves_bind (same_names a)); [apply preserves_mpi_send| |done]. intros _. apply preserves_send_chunks.
Qed.
Lemma mpi_request_is_empty_file msg after target a :
  mpi_send_request msg after target a = mpi_send_file msg after [] 0 target a.
Proof.
  unfold mpi_send_request, mpi_send_file, bind, rank_of, get. simpl.
  by destruct (hostname_to_rank a !! target).
Qed.

Lemma RemoteRequest_source buf source : rr_source (RemoteRequest_new buf source) = source.
Proof. unfold RemoteRequest_new. by repeat case_match. Qed.

Program Definition mpi_transport (after : MPIBackend -> remote_message -> byte) : Transport := {|
  net := MPIBackend; wire := mpi_wire; net_name := mpi_node_name; linked := mpi_linked;
  fits m data := zlen (text_bytes m) < CAPIO_SERVER_REQUEST_MAX_SIZE;
  net_send := mpi_net_send after; net_receive := mpi_net_receive |}.
Next Obligation.
  intros after a b m data (H1 & H2 & H3) Hwf Hfit Hd.
  destruct (mpi_send_received a b m (after a m) data (mpi_node_name b) (mpi_node_name a) (rank a) (rank b) Hwf Hfit H1 H2 H3)
    as (a' & messages & E & Hs & Hr).
  destruct (Hr {[rank a := messages]} []) as (w' & Er & Ew); [by rewrite app_nil_r, lookup_singleton_eq|].
  destruct (mpi_send_file_names _ _ _ _ _ _ _ _ H1 E) as (N1 & N2 & N3 & N4).
  exists a', b, (rank a, messages), (RemoteRequest_new (message_chars m) (mpi_node_name a)). split_and!; try done.
  - unfold mpi_net_send, text_bytes. destruct (with_file m) eqn:Hw; [|rewrite (Hd eq_refl), mpi_request_is_empty_file in *; change (zlen []) with 0 in E];
      rewrite E; simpl; rewrite Hs, drop_app_length; do 3 f_equal; clear; induction messages; f_equal/=; done.
  - unfold mpi_net_receive. simpl fst. simpl snd. rewrite Er. simpl.
    by rewrite RemoteRequest_source, Ew.
  - intros C. rewrite <- (string_app_nil (message_chars m)). by apply listener_handles.
  - unfold mpi_linked. by rewrite N1, N2, N3.
  - intros (K1 & K2 & K3). unfold mpi_linked. by rewrite N1, N2, N3, N4.
Qed.

(** ** Nodes *)

Section Cluster.
Context {T : Transport}.

Record Node : Type := { cfg : Config; srv : Server; link : net }.
Definition name_of (x : Node) : string := net_name (link x).
Definition set_srv s (x : Node) : Node := {| cfg := cfg x; srv := s; link := link x |}.

(** A file arrives before the handler of its message asks for it. *)
Definition arrived (source : string) (data : list cell) (s : Server) : Server :=
  match data with
  | [] => s
  | _ => Server.set_inbox (<[source := default [] (Server.inbox s !! source) ++ [data]]> (Server.inbox s)) s
  end.

(** The way of the oldest message of [x], when it is for [y]: printed, sent,
    received, scanned and handled. *)
Definition ship (x y : Node) : outcome (Node * Node) :=
  match outbox (srv x) with
  | [] => Blocks "nothing to send"
  | o :: rest =>
      if negb (String.eqb (s_dest o) (name_of y)) then Blocks "for another node"
      else match mapM id (s_data o) with
      | None => UB "bytes that were never written"
      | Some data =>
          outcome_bind (net_send (s_dest o) (s_message o) data (link x)) (fun '(w, lx) =>
          outcome_bind (net_receive w (zlen data) (link y)) (fun '((r, data'), ly) =>
          outcome_bind (@listener_step (cfg y) r (arrived (name_of x) (Some <$> data') (srv y))) (fun '(_, sy) =>
          Done ({| cfg := cfg x; srv := set_outbox rest (srv x); link := lx |},
                {| cfg := cfg y; srv := sy; link := ly |}))))
      end
  end.

(** The same message as the handlers see it: [nx] sends, the other has [C]. *)
Definition deliver (C : Config) (nx : string) (sx sy : Server) : outcome (Server * Server) :=
  match outbox sx with
  | [] => Blocks "nothing to send"
  | o :: rest =>
      outcome_bind (@handle_message C nx (s_message o) (arrived nx (s_data o) sy))
        (fun '(_, sy') => Done (set_outbox rest sx, sy'))
  end.

(** What the oldest message of a server must satisfy to go to [ny]. *)
Definition ready (sx : Server) (ny : string) : Prop :=
  match outbox sx with
  | [] => False
  | o :: _ => s_dest o = ny /\ message_wf (s_message o) /\
      (with_file (s_message o) = false -> s_data o = []) /\
      exists data, s_data o = Some <$> data /\ fits (s_message o) data
  end.

Lemma mapM_id_Some {A} (l : list A) : mapM id (Some <$> l) = Some l.
Proof. apply mapM_Some_2. induction l; by constructor. Qed.

(** One message: the whole way and the handler. *)
Lemma ship_one x y :
  linked (link x) (link y) -> ready (srv x) (name_of y) ->
  exists lx ly, net_name lx = name_of x /\ net_name ly = name_of y /\ linked lx ly /\
    (linked (link y) (link x) -> linked ly lx) /\
    ship x y = outcome_bind (deliver (cfg y) (name_of x) (srv x) (srv y)) (fun '(sx, sy) =>
      Done ({| cfg := cfg x; srv := sx; link := lx |}, {| cfg := cfg y; srv := sy; link := ly |})).
Proof.
  intros Hl Hr. unfold ready, ship, deliver in *. destruct (outbox (srv x)) as [|o rest]; [done|].
  destruct Hr as (Hd & Hwf & Hreq & data & Hdata & Hfit).
  destruct (net_law (link x) (link y) (s_message o) data Hl Hwf Hfit) as (lx & ly & w & r & E1 & E2 & HL & N1 & N2 & L1 & L2).
  { intros Hw. specialize (Hreq Hw). rewrite Hdata in Hreq. by destruct data. }
  exists lx, ly. split; [done|]. split; [done|]. split; [done|]. split; [done|].
  rewrite Hd, String.eqb_refl. simpl. rewrite Hdata, mapM_id_Some.
  unfold name_of at 1. rewrite E1. simpl. rewrite E2. simpl. rewrite HL. fold (name_of x).
  by destruct (handle_message _ _ _) as [[[] s']| | | |].
Qed.

(** ** Exchanges between two nodes *)

(** In each turn the first node ships a message to the second, or the second to
    the first. *)
Fixpoint exchange (turns : list bool) (x y : Node) : outcome (Node * Node) :=
  match turns with
  | [] => Done (x, y)
  | true :: turns' => outcome_bind (ship x y) (fun '(x, y) => exchange turns' x y)
  | false :: turns' => outcome_bind (ship y x) (fun '(y, x) => exchange turns' x y)
  end.
Fixpoint exchange_handlers (turns : list bool) (Cx Cy : Config) (nx ny : string) (sx sy : Server) : outcome (Server * Server) :=
  match turns with
  | [] => Done (sx, sy)
  | true :: turns' =>
      outcome_bind (deliver Cy nx sx sy) (fun '(sx, sy) => exchange_handlers turns' Cx Cy nx ny sx sy)
  | false :: turns' =>
      outcome_bind (deliver Cx ny sy sx) (fun '(sy, sx) => exchange_handlers turns' Cx Cy nx ny sx sy)
  end.
Fixpoint all_ready (turns : list bool) (Cx Cy : Config) (nx ny : string) (sx sy : Server) : Prop :=
  match turns with
  | [] => True
  | true :: turns' => ready sx ny /\
      forall sx' sy', deliver Cy nx sx sy = Done (sx', sy') -> all_ready turns' Cx Cy nx ny sx' sy'
  | false :: turns' => ready sy nx /\
      forall sy' sx', deliver Cx ny sy sx = Done (sy', sx') -> all_ready turns' Cx Cy nx ny sx' sy'
  end.

Lemma exchange_eq turns x y :
  linked (link x) (link y) -> linked (link y) (link x) ->
  all_ready turns (cfg x) (cfg y) (name_of x) (name_of y) (srv x) (srv y) ->
  exists lx ly, net_name lx = name_of x /\ net_name ly = name_of y /\ linked lx ly /\ linked ly lx /\
    exchange turns x y =
    outcome_bind (exchange_handlers turns (cfg x) (cfg y) (name_of x) (name_of y) (srv x) (srv y)) (fun '(sx, sy) =>
      Done ({| cfg := cfg x; srv := sx; link := lx |}, {| cfg := cfg y; srv := sy; link := ly |})).
Proof.
  revert x y. induction turns as [|t turns IH]; intros x y Hxy Hyx Hr; simpl.
  - exists (link x), (link y). split_and!; try done. by destruct x, y.
  - destruct t; destruct Hr as [Hr Hrest].
    + destruct (ship_one x y Hxy Hr) as (lx & ly & N1 & N2 & L1 & L2 & ->).
      destruct (deliver _ _ _ _) as [[sx sy]| | | |]; simpl; try (by exists lx, ly; split_and!; auto).
      destruct (IH {| cfg := cfg x; srv := sx; link := lx |} {| cfg := cfg y; srv := sy; link := ly |}) as (lx' & ly' & M1 & M2 & K1 & K2 & E);
        unfold name_of in *; simpl in *; rewrite ?N1, ?N2 in *; auto.
      exists lx', ly'. rewrite M1, M2. split_and!; done.
    + destruct (ship_one y x Hyx Hr) as (ly & lx & N1 & N2 & L1 & L2 & ->).
      destruct (deliver _ _ _ _) as [[sy sx]| | | |]; simpl; try (by exists lx, ly; split_and!; auto).
      destruct (IH {| cfg := cfg x; srv := sx; link := lx |} {| cfg := cfg y; srv := sy; link := ly |}) as (lx' & ly' & M1 & M2 & K1 & K2 & E);
        unfold name_of in *; simpl in *; rewrite ?N1, ?N2 in *; auto.
      exists lx', ly'. rewrite M1, M2. split_and!; done.
Qed.

(** C14. Servers exchange messages as if their handlers called each other. Over any
    backend that keeps its promise, as MTCL and MPI do (MPI whatever the byte that it
    reads and sends behind a message), and for any sequence
    of turns in which two servers send the oldest message of their outboxes, each of which
    is for the other, has paths and names that are single words, numbers in the range of their
    fields, a file only where one is sent, all of its bytes written, and sizes within
    the limits of the backend:
    printing, sending, receiving, scanning and dispatching the messages has,
    message by message, exactly the effect of running the handlers of the
    messages at their destinations, with the sender as source and with the
    file that was sent; the servers keep their names and stay linked. *)
Theorem exchange_correct turns x y :
  linked (link x) (link y) -> linked (link y) (link x) ->
  all_ready turns (cfg x) (cfg y) (name_of x) (name_of y) (srv x) (srv y) ->
  exists lx ly, net_name lx = name_of x /\ net_name ly = name_of y /\ linked lx ly /\ linked ly lx /\
    exchange turns x y =
    outcome_bind (exchange_handlers turns (cfg x) (cfg y) (name_of x) (name_of y) (srv x) (srv y)) (fun '(sx, sy) =>
      Done ({| cfg := cfg x; srv := sx; link := lx |}, {| cfg := cfg y; srv := sy; link := ly |})).
Proof. apply exchange_eq. Qed.
End Cluster.

(** ** A remote read, from one client to another server's file and back *)

(** A client reads a file that another node stores: its server asks that node. *)
Lemma handle_read_asks `{Config} s tid fd path id o v f count p z :
  opened s tid fd path id o v f ->
  cl_isProducer path (getAppName (client_manager s) tid) = false -> isProducer (client_manager s) tid path = false ->
  files_location (locations s) !! path = Some (p, z) -> node_text p <> get_node_name -> getCapioDir <> path ->
  _committed f = false -> getSectorEnd (_sectors f) v < v + count ->
  handle_read tid fd count s =
  Done (tt, set_outbox (outbox s ++ [{| s_dest := node_text p; s_message := RemoteRead path tid fd count v false; s_data := [] |}]) s).
Proof.
  intros Hop Hcl Hprod Hloc Hne Hdir Hc Hend. set (s' := set_outbox _ s).
  cut (twp (handle_read tid fd count) (fun _ x => x = s') s); [by intros ([] & x & E & ->)|].
  unfold handle_read. apply twp_bind. eapply twp_getPath; [done|]. apply twp_bind, twp_gets, twp_bind, twp_gets.
  rewrite Hcl, Hprod. apply twp_bind, twp_gets. unfold get_file_location_opt. rewrite Hloc.
  unfold node_is_backend. rewrite (proj2 (String.eqb_neq _ _) Hne), (proj2 (String.eqb_neq _ _) Hdir). simpl.
  unfold request_remote_read. apply twp_bind. eapply twp_getPath; [done|]. apply twp_bind. eapply twp_storage_get; [apply Hop|].
  apply twp_bind. eapply twp_getFileOffset; [done|]. apply twp_bind. eapply twp_file_get; [apply Hop|].
  apply twp_bind. eapply twp_file_get; [apply Hop|]. apply twp_bind. eapply twp_file_get; [apply Hop|].
  unfold isCommitted. rewrite Hc, (proj2 (Z.leb_gt _ _) Hend). simpl.
  unfold handle_remote_read_request. apply twp_bind. eapply twp_getPath; [done|]. apply twp_bind. eapply twp_getFileOffset; [done|].
  apply twp_bind. eapply (twp_Done _ _ _ (p, z) s); [|by apply twp_modify].
  unfold location_get, on_locations, zoom, get_file_location, bind, gets, get_file_location_opt. simpl. rewrite Hloc. simpl.
  by destruct s.
Qed.

Section RemoteRead.
Context {T : Transport}.

(** Node [x] stores the file, committed, with the bytes of its answer written. *)
Record stores (x : Node) (path : string) (f : CapioFile) (offset : Z) (bytes : list byte) : Prop := {
  st_name : name_of x = @get_node_name (@config_nodes (cfg x));
  st_outbox : outbox (srv x) = [];
  st_file : exists id, _storage (srv x) !! path = Some id /\ heap (srv x) !! id = Some f;
  st_inv : file_inv f;
  st_committed : _committed f = true;
  st_size : int64 (getStoredSize f);
  st_data y : offset <= y < getStoredSize f -> holds (_sectors f) y;
  st_range : offset < getStoredSize f;
  st_prefetch : 0 <= @getPrefetchDataSize (cfg x);
  st_bytes : file_data f <$> seqZ offset (@remote_reply_size (cfg x) f offset) = Some <$> bytes
}.

(** A client of node [y] has the file open at [offset], knows that [nx] stores
    it, and has [r] as its replies and [b] as its queues. The copy of [y] has no data
    past the offset, unless the [n] bytes of the answer are enough. *)
Record asks (y : Node) (nx : string) (tid fd : Z) (path : string) (o offset count n : Z) (r : list Z) (b : ClientDataBuffers) : Prop := {
  as_name : name_of y = @get_node_name (@config_nodes (cfg y));
  as_outbox : outbox (srv y) = [];
  as_inbox : default [] (Server.inbox (srv y) !! nx) = [];
  as_open : exists id f, opened (srv y) tid fd path id o offset f /\ file_inv f /\ live (_buffer f) /\
    _committed f = false /\ getSectorEnd (_sectors f) offset < offset + count /\
    (count <= n \/ forall z, offset < z -> ~ covers (_sectors f) z);
  as_producer : @cl_isProducer (cfg y) path (getAppName (client_manager (srv y)) tid) = false /\
    isProducer (client_manager (srv y)) tid path = false;
  as_location : exists p z, files_location (locations (srv y)) !! path = Some (p, z) /\
    @node_text (@config_nodes (cfg y)) p = nx;
  as_remote : nx <> name_of y;
  as_dir : @getCapioDir (cfg y) <> path;
  as_kernel n : fst (@os (cfg y) n) = kernel_ok /\ 0 <= snd (@os (cfg y) n);
  as_replies : replies (srv y) tid = Some r;
  as_buffers : data_buffers (client_manager (srv y)) !! tid = Some b;
  as_fields : c_word path /\ int32 tid /\ int32 fd /\ int64 offset /\ 0 <= offset /\ 0 < count < 2 ^ 31
}.

(** The message of [y], and the answer of [x]. *)
Definition question (nx path : string) (tid fd count offset : Z) : sent :=
  {| s_dest := nx; s_message := RemoteRead path tid fd count offset false; s_data := [] |}.
Definition answer (ny : string) (tid fd count size : Z) (bytes : list byte) : sent :=
  {| s_dest := ny; s_message := RemoteReadReply tid fd count (zlen bytes) size true false; s_data := Some <$> bytes |}.

Lemma asks_question y nx tid fd path o offset count n r b :
  asks y nx tid fd path o offset count n r b ->
  @handle_read (cfg y) tid fd count (srv y) = Done (tt, set_outbox [question nx path tid fd count offset] (srv y)).
Proof.
  intros Hy. destruct (as_open _ _ _ _ _ _ _ _ _ _ _ Hy) as (id & f & Hop & _ & _ & Hc & Hend & _).
  destruct (as_location _ _ _ _ _ _ _ _ _ _ _ Hy) as (p & z & Hloc & Hp).
  destruct (as_producer _ _ _ _ _ _ _ _ _ _ _ Hy) as [H1 H2].
  rewrite (@handle_read_asks (cfg y) (srv y) tid fd path id o offset f count p z); try done.
  - by rewrite (as_outbox _ _ _ _ _ _ _ _ _ _ _ Hy), Hp.
  - rewrite Hp, <- (as_name _ _ _ _ _ _ _ _ _ _ _ Hy). apply Hy.
  - apply Hy.
Qed.

(** The answer has all the data after the offset, or as much as the prefetch size. *)
Lemma stores_bytes x path f offset bytes :
  stores x path f offset bytes ->
  zlen bytes = @remote_reply_size (cfg x) f offset /\ 0 < zlen bytes <= getStoredSize f - offset.
Proof.
  intros Hx. pose proof (st_bytes _ _ _ _ _ Hx) as Hb. pose proof (st_range _ _ _ _ _ Hx).
  pose proof (st_prefetch _ _ _ _ _ Hx). set (n := @remote_reply_size (cfg x) f offset) in *.
  assert (Hn : 0 < n <= getStoredSize f - offset).
  { unfold n, remote_reply_size. destruct (_ && _) eqn:E; [|lia]. apply andb_prop in E as [E1%negb_true_iff E2].
    apply Z.eqb_neq in E1. lia. }
  assert (Hz : zlen bytes = n).
  { apply (f_equal length) in Hb. rewrite !length_fmap, length_seqZ in Hb. unfold zlen. lia. }
  split; [done|lia].
Qed.

Lemma reply_size_cases x path f offset bytes :
  stores x path f offset bytes ->
  let pre := @getPrefetchDataSize (cfg x) in
  let all := getStoredSize f - offset in
  (if pre =? 0 then all else Z.min pre all) = @remote_reply_size (cfg x) f offset.
Proof.
  intros Hx pre all. pose proof (st_range _ _ _ _ _ Hx). unfold remote_reply_size. fold pre. rewrite Z.max_r by lia. fold all.
  destruct (Z.eqb_spec pre 0); simpl; [done|]. destruct (Z.ltb_spec pre all); lia.
Qed.

Lemma stores_answer x ny tid fd path f offset count bytes sy :
  stores x path f offset bytes -> 0 < count < 2 ^ 31 ->
  outbox sy = [question (name_of x) path tid fd count offset] ->
  deliver (cfg x) ny sy (srv x) =
  Done (set_outbox [] sy, set_outbox [answer ny tid fd count (getStoredSize f) bytes] (srv x)).
Proof.
  intros Hx Hcount Ho. destruct (st_file _ _ _ _ _ Hx) as (id & Hst & Hf).
  destruct (stores_bytes _ _ _ _ _ Hx) as [Hz _].
  unfold deliver. rewrite Ho. simpl handle_message. cbn [s_message s_data question arrived].
  rewrite (@remote_read_serves (cfg x) (srv x) path ny tid fd count offset id f); try done; try apply Hx.
  simpl. rewrite (st_outbox _ _ _ _ _ Hx), (s32_small count) by lia. unfold answer.
  by rewrite Hz, (st_bytes _ _ _ _ _ Hx).
Qed.

(** The client gets the first [count] bytes of the answer. *)
Lemma answer_prefix x path f offset count bytes :
  stores x path f offset bytes -> 0 <= count <= zlen bytes ->
  take (Z.to_nat count) (Some <$> bytes : list cell) = file_data f <$> seqZ offset count.
Proof.
  intros Hx Hc. rewrite <- (st_bytes _ _ _ _ _ Hx). destruct (stores_bytes _ _ _ _ _ Hx) as [Hn _].
  rewrite <- fmap_take. f_equal. rewrite <- Hn. replace (zlen bytes) with (count + (zlen bytes - count)) by lia.
  rewrite seqZ_app by lia. apply take_app_length'. by rewrite length_seqZ.
Qed.

Lemma asks_reply y nx tid fd path o offset count r b size bytes sx sy :
  asks y nx tid fd path o offset count (zlen bytes) r b -> 0 < zlen bytes ->
  outbox sx = [answer (name_of y) tid fd count size bytes] -> sy = set_outbox [] (srv y) ->
  exists sy', deliver (cfg y) nx sx sy = Done (set_outbox [] sx, sy') /\
    @got_reply (cfg y) tid o offset (Z.min count (zlen bytes)) (Some <$> bytes) r b sy'.
Proof.
  intros Hy Hc Ho ->. destruct (as_open _ _ _ _ _ _ _ _ _ _ _ Hy) as (id & f & Hop & Hinv & Hl & _ & _ & Habs).
  destruct (as_fields _ _ _ _ _ _ _ _ _ _ _ Hy) as (_ & _ & _ & _ & Hoff & Hcount).
  assert (Hne : (Some <$> bytes : list cell) <> []).
  { destruct bytes; [|done]. unfold zlen in Hc. simpl in Hc. lia. }
  assert (HL : Z.of_nat (length (Some <$> bytes : list cell)) = zlen bytes) by (unfold zlen; by rewrite length_fmap).
  destruct (@read_reply_spec (cfg y) (as_kernel _ _ _ _ _ _ _ _ _ _ _ Hy)
    (arrived nx (Some <$> bytes) (set_outbox [] (srv y))) nx tid fd path id o offset f count size true r b
    (Some <$> bytes) []) as (sy' & E & Hgot); try done.
  - unfold arrived. destruct (Some <$> bytes); [done|]. destruct Hop. by constructor.
  - lia.
  - by rewrite HL.
  - unfold arrived. destruct (Some <$> bytes); [done|]. apply Hy.
  - unfold arrived. destruct (Some <$> bytes); [done|]. apply Hy.
  - unfold arrived. destruct (Some <$> bytes) eqn:Eb; [done|]. simpl. rewrite lookup_insert_eq.
    by rewrite (as_inbox _ _ _ _ _ _ _ _ _ _ _ Hy).
  - rewrite HL in Hgot. exists sy'. split; [|done]. unfold deliver. rewrite Ho. cbn [s_message s_data answer handle_message].
    rewrite HL in E. by rewrite E.
Qed.

End RemoteRead.

(** ** Two nodes *)

(** Node "b" stores the committed file "abc". *)
Definition config_b : Config := {|
  config_nodes := nodes_ab "b"; config_quota := quota_unlimited;
  getDirectoryFileCount := fun _ => 0; isPermanent := fun _ => false; getCommitCloseCount := fun _ => 0;
  getCommitRule := fun _ => ON_TERMINATION; isFirable := fun _ => true; isExcluded := fun _ => false;
  cl_isProducer := fun _ _ => false; getCapioDir := "/c"; getFileInitialSize := 64; getCacheLineSize := 4;
  getPrefetchDataSize := 0; path_hash := fun _ => 7; os := fun _ => (kernel_ok, 9) |}.
Definition node_b : @Node mtcl_transport := @Build_Node mtcl_transport config_b demo_remote demo_b.

(** On node "a" a client opens that file: "b" has published its location. *)
Definition demo_client : Server :=
  let H := demo_config true in
  state_of (run [start_server 1; handle_request (HandshakeNamed 7 7 "app" false);
    modify (fun s => set_locations {| files_location := files_location (locations s);
      location_files := location_files (@write_file_location (nodes_ab "b") "/c/f" (locations s)) |} s);
    handle_request (Open 7 3 "/c/f")]).
Definition node_a : @Node mtcl_transport := @Build_Node mtcl_transport (demo_config true) demo_client demo_a.
Definition client_file : CapioFile := default CapioFile_default (heap demo_client !! 1).
Definition client_buffers : ClientDataBuffers :=
  default {| ClientToServer := fifo_new; ServerToClient := fifo_new |} (data_buffers (client_manager demo_client) !! 7).

Lemma nodes_linked : @linked mtcl_transport (link node_b) (link node_a) /\ @linked mtcl_transport (link node_a) (link node_b).
Proof. split; vm_compute; eauto. Qed.
Lemma node_b_stores : stores node_b "/c/f" (setCommitted true file_abc) 0 [x61; x62; x63].
Proof.
  split; try (vm_compute; reflexivity).
  - exists 5. by split; vm_compute.
  - apply (same_data_inv file_abc); [apply same_data_setCommitted|exact file_abc_inv].
  - vm_compute. split; [discriminate|reflexivity].
  - intros y Hy. apply holds_cons. left. exact Hy.
  - vm_compute. discriminate.
Qed.
Lemma node_a_asks : asks node_a "b" 7 3 "/c/f" 0 0 5 3 [0] client_buffers.
Proof.
  split; try (vm_compute; reflexivity).
  - exists 1, client_file. split_and!; [split; vm_compute; reflexivity| |exact I|vm_compute; reflexivity..|right; intros z _ Hz; vm_compute in Hz; by inversion Hz].
    apply (same_data_inv (CapioFile_directory false 0 false 64 0)); [|apply file_inv_directory; lia]. vm_compute. auto.
  - split; vm_compute; reflexivity.
  - exists (NodeCopy "b"), 7. split; vm_compute; reflexivity.
  - done.
  - done.
  - exact (demo_os true).
  - vm_compute. split_and!; try done. 
Qed.


(** The client of "a" has just asked. *)
Definition node_a_asking : @Node mtcl_transport := set_srv (set_outbox [question "b" "/c/f" 7 3 2 0] demo_client) node_a.
Lemma turns_ready :
  @all_ready mtcl_transport [false; true] (cfg node_b) (cfg node_a_asking) (name_of node_b) (name_of node_a_asking)
    (srv node_b) (srv node_a_asking).
Proof.
  split.
  - split; [done|]. split; [vm_compute; split_and!; done|]. split; [done|]. exists []. split; [done|].
    vm_compute. split; [split; discriminate|discriminate].
  - intros sy' sx' Hd.
    pose proof (stores_answer node_b "a" 7 3 "/c/f" _ 0 2 _ (srv node_a_asking) node_b_stores ltac:(lia) eq_refl) as E.
    change (deliver (cfg node_b) "a" (srv node_a_asking) (srv node_b) = Done (sy', sx')) in Hd.
    rewrite E in Hd. injection Hd as <- <-. split; [|done].
    split; [done|]. split; [vm_compute; split_and!; done|]. split; [done|]. exists [x61; x62; x63]. split; [done|].
    vm_compute. split; [split; discriminate|discriminate].
Qed.

Lemma asking_linked :
  @linked mtcl_transport (link node_b) (link node_a_asking) /\ @linked mtcl_transport (link node_a_asking) (link node_b).
Proof. split; vm_compute; eauto. Qed.

Lemma exchange_correct_witness :
  exists lx ly, linked lx ly /\ exchange [false; true] node_b node_a_asking =
    outcome_bind (exchange_handlers [false; true] (cfg node_b) (cfg node_a_asking) (name_of node_b) (name_of node_a_asking)
      (srv node_b) (srv node_a_asking)) (fun '(sx, sy) =>
      Done ({| cfg := cfg node_b; srv := sx; link := lx |}, {| cfg := cfg node_a_asking; srv := sy; link := ly |})).
Proof.
  destruct (@exchange_correct mtcl_transport [false; true] node_b node_a_asking (proj1 asking_linked) (proj2 asking_linked) turns_ready)
    as (lx & ly & _ & _ & Hl & _ & E).
  exists lx, ly. split; [exact Hl|exact E].
Defined.
