(* ===== verification/PosixFs.v ===== *)
(** * The tables of the client library

    [posix/utils/filesystem.hpp]: the open CAPIO descriptors of the process.
    [files] gives the offset of a descriptor through a [shared_ptr], which
    [dup] copies, so that the offsets live in a heap of their own;
    [capio_files_descriptors] gives the path of a descriptor and
    [capio_files_paths] the descriptors of a path. *)
From S2P Require Import Prelude PosixPath.

(** What the operating system answers. *)
Class Kernel := {
  realpath : string -> option string;
  readlink_fd : Z -> option string;
  fstat_isdir : Z -> option bool
}.

Record CPFile : Type := { cp_offset : Z; cp_size : Z; cp_flags : Z; cp_cloexec : bool }.
Record Filesystem : Type := {
  offset_heap : gmap Z Z;
  next_offset : Z;
  files : gmap Z CPFile;
  capio_files_descriptors : gmap Z string;
  capio_files_paths : gmap string (gset Z);
  current_dir : string
}.

Definition set_offset_heap h (s : Filesystem) : Filesystem := {|
  offset_heap := h; next_offset := next_offset s; files := files s;
  capio_files_descriptors := capio_files_descriptors s; capio_files_paths := capio_files_paths s;
  current_dir := current_dir s |}.
Definition set_files fs (s : Filesystem) : Filesystem := {|
  offset_heap := offset_heap s; next_offset := next_offset s; files := fs;
  capio_files_descriptors := capio_files_descriptors s; capio_files_paths := capio_files_paths s;
  current_dir := current_dir s |}.
Definition set_descriptors ds (s : Filesystem) : Filesystem := {|
  offset_heap := offset_heap s; next_offset := next_offset s; files := files s;
  capio_files_descriptors := ds; capio_files_paths := capio_files_paths s;
  current_dir := current_dir s |}.
Definition set_paths ps (s : Filesystem) : Filesystem := {|
  offset_heap := offset_heap s; next_offset := next_offset s; files := files s;
  capio_files_descriptors := capio_files_descriptors s; capio_files_paths := ps;
  current_dir := current_dir s |}.
Definition set_cwd cwd (s : Filesystem) : Filesystem := {|
  offset_heap := offset_heap s; next_offset := next_offset s; files := files s;
  capio_files_descriptors := capio_files_descriptors s; capio_files_paths := capio_files_paths s;
  current_dir := cwd |}.

(** [std::make_shared<off64_t>] *)
Definition make_shared (v : Z) : M Filesystem Z := fun s =>
  Done (next_offset s, {|
    offset_heap := <[next_offset s := v]> (offset_heap s); next_offset := next_offset s + 1; files := files s;
    capio_files_descriptors := capio_files_descriptors s; capio_files_paths := capio_files_paths s;
    current_dir := current_dir s |}).

(** [insert] and [emplace] of a map: a key that is there keeps its value. *)
Definition insert_new `{Countable K} {A} (k : K) (v : A) (m : gmap K A) : gmap K A :=
  match m !! k with Some _ => m | None => <[k := v]> m end.

Definition out_of_range : string := "std::out_of_range".
Definition file_at (fd : Z) : M Filesystem CPFile := fun s => or_throw (files s !! fd) out_of_range s.
Definition path_at (fd : Z) : M Filesystem string := fun s =>
  or_throw (capio_files_descriptors s !! fd) out_of_range s.
Definition fds_at (path : string) : M Filesystem (gset Z) := fun s =>
  or_throw (capio_files_paths s !! path) out_of_range s.

(** ** The operations *)

(** [init_filesystem] *)
Definition init_filesystem (cwd : string) : Filesystem := {|
  offset_heap := ∅; next_offset := 0; files := ∅; capio_files_descriptors := ∅; capio_files_paths := ∅;
  current_dir := cwd |}.

Definition set_capio_fd_cloexec (fd : Z) (is_cloexec : bool) : M Filesystem unit :=
  let* f := file_at fd in
  modify (fun s => set_files (<[fd := {| cp_offset := cp_offset f; cp_size := cp_size f; cp_flags := cp_flags f;
                                         cp_cloexec := is_cloexec |}]> (files s)) s).
Definition set_capio_fd_flags (fd flags : Z) : M Filesystem unit :=
  let* f := file_at fd in
  modify (fun s => set_files (<[fd := {| cp_offset := cp_offset f; cp_size := cp_size f; cp_flags := flags;
                                         cp_cloexec := cp_cloexec f |}]> (files s)) s).
Definition set_capio_fd_offset (fd offset : Z) : M Filesystem unit :=
  let* f := file_at fd in
  modify (fun s => set_offset_heap (<[cp_offset f := offset]> (offset_heap s)) s).
Definition get_capio_fd_offset (fd : Z) : M Filesystem Z :=
  let* f := file_at fd in
  fun s => or_ub (offset_heap s !! cp_offset f) "offset freed" s.
Definition get_capio_fd_cloexec (fd : Z) : M Filesystem bool := let* f := file_at fd in ret (cp_cloexec f).
Definition get_capio_fd_flags (fd : Z) : M Filesystem Z := let* f := file_at fd in ret (cp_flags f).
Definition get_capio_fd_size (fd : Z) : M Filesystem Z := let* f := file_at fd in ret (cp_size f).
Definition get_capio_fd_path (fd : Z) : M Filesystem string := path_at fd.
Definition get_capio_fds : M Filesystem (list Z) := gets (fun s => (map_to_list (files s)).*1).
Definition exists_capio_fd (fd : Z) : M Filesystem bool := gets (fun s => bool_decide (is_Some (files s !! fd))).
Definition exists_capio_path (path : string) : M Filesystem bool :=
  gets (fun s => bool_decide (is_Some (capio_files_paths s !! path))).
Definition get_current_dir : M Filesystem string := gets current_dir.
Definition set_current_dir (cwd : string) : M Filesystem unit := modify (set_cwd cwd).

Definition add_capio_path (path : string) : M Filesystem unit :=
  modify (fun s => set_paths (insert_new path ∅ (capio_files_paths s)) s).

(** [capio_files_paths->at(path).insert(fd)] and [.erase(fd)] *)
Definition paths_insert (path : string) (fd : Z) : M Filesystem unit :=
  let* fds := fds_at path in
  modify (fun s => set_paths (<[path := fds ∪ {[fd]}]> (capio_files_paths s)) s).
Definition paths_erase (path : string) (fd : Z) : M Filesystem unit :=
  let* fds := fds_at path in
  modify (fun s => set_paths (<[path := fds ∖ {[fd]}]> (capio_files_paths s)) s).

Definition add_capio_fd (path : string) (fd offset init_size flags : Z) (is_cloexec : bool) : M Filesystem unit :=
  add_capio_path path ;;
  paths_insert path fd ;;
  modify (fun s => set_descriptors (insert_new fd path (capio_files_descriptors s)) s) ;;
  let* p := make_shared offset in
  modify (fun s => set_files (insert_new fd {| cp_offset := p; cp_size := init_size; cp_flags := flags;
                                               cp_cloexec := is_cloexec |} (files s)) s).

Definition delete_capio_fd (fd : Z) : M Filesystem unit :=
  let* path := path_at fd in
  paths_erase path fd ;;
  modify (fun s => set_descriptors (delete fd (capio_files_descriptors s)) s) ;;
  modify (fun s => set_files (delete fd (files s)) s).

(** Each descriptor of the path is read before it is erased from the set. *)
Definition delete_capio_path (path : string) : M Filesystem unit :=
  let* fds := fds_at path in
  for_each (elements fds) delete_capio_fd ;;
  modify (fun s => set_paths (delete path (capio_files_paths s)) s).

Definition dup_capio_fd (oldfd newfd : Z) (is_cloexec : bool) : M Filesystem unit :=
  let* path := path_at oldfd in
  paths_insert path newfd ;;
  let* f := file_at oldfd in
  modify (fun s => set_files (insert_new newfd f (files s)) s) ;;
  set_capio_fd_cloexec newfd is_cloexec ;;
  let* path' := path_at oldfd in
  modify (fun s => set_descriptors (insert_new newfd path' (capio_files_descriptors s)) s).

(** [extract] of a path that is not there gives an empty node, and [insert] of
    a node whose key is there already drops the node. *)
Definition rename_capio_path (oldpath newpath : string) : M Filesystem unit :=
  let* s := get in
  let* entry := or_ub (capio_files_paths s !! oldpath) "key of an empty node handle" in
  modify (fun s => set_paths (insert_new newpath entry (delete oldpath (capio_files_paths s))) s) ;;
  let* fds := fds_at newpath in
  for_each (elements fds) (fun fd =>
    let* _ := path_at fd in
    modify (fun s => set_descriptors (<[fd := newpath]> (capio_files_descriptors s)) s)).

Section Kernel.
Context `{Kernel}.

Definition capio_posix_realpath (capio_dir pathname : string) : M Filesystem string :=
  match realpath pathname with
  | Some p => ret p
  | None =>
      if is_absolute pathname then ret (capio_normal_path pathname)
      else
        let* cwd := get_current_dir in
        let new_path := capio_normal_path (path_append cwd pathname) in
        if is_capio_path capio_dir new_path then ret new_path else ret ""%string
  end.
Definition capio_absolute (capio_dir path : string) : M Filesystem string :=
  if is_absolute path then ret (capio_normal_path path) else capio_posix_realpath capio_dir path.

Definition AT_FDCWD : Z := -100.
Definition get_dir_path (dirfd : Z) : M Filesystem string :=
  if dirfd =? AT_FDCWD then get_current_dir
  else
    let* s := get in
    match capio_files_descriptors s !! dirfd with
    | Some p => ret p
    | None => match readlink_fd dirfd with Some p => ret p | None => ret ""%string end
    end.
End Kernel.

(** ** The tables agree *)

(** A descriptor has a path exactly when it has an entry in [files], it is one
    of the descriptors of its path and of no other, and its offset is live. *)
Record fs_wf (s : Filesystem) : Prop := {
  wf_dom : forall fd, is_Some (files s !! fd) <-> is_Some (capio_files_descriptors s !! fd);
  wf_paths : forall fd path, capio_files_descriptors s !! fd = Some path <->
    exists fds, capio_files_paths s !! path = Some fds /\ fd ∈ fds;
  wf_offsets : forall fd f, files s !! fd = Some f -> is_Some (offset_heap s !! cp_offset f);
  wf_next : forall p, is_Some (offset_heap s !! p) -> p < next_offset s
}.

Lemma fs_wf_init cwd : fs_wf (init_filesystem cwd).
Proof.
  split; simpl; intros *; rewrite ?lookup_empty; [done| |done|by intros []].
  split; [done|]. by intros (? & ? & _).
Qed.

(** The calls a handler makes on the tables. *)
Inductive fs_op : Type :=
| AddFd (path : string) (fd offset init_size flags : Z) (is_cloexec : bool)
| DeleteFd (fd : Z)
| DeletePath (path : string)
| DupFd (oldfd newfd : Z) (is_cloexec : bool)
| RenamePath (oldpath newpath : string)
| SetOffset (fd offset : Z)
| SetFlags (fd flags : Z)
| SetCloexec (fd : Z) (is_cloexec : bool)
| SetCwd (cwd : string).

Definition run_op (op : fs_op) : M Filesystem unit :=
  match op with
  | AddFd path fd offset init_size flags is_cloexec => add_capio_fd path fd offset init_size flags is_cloexec
  | DeleteFd fd => delete_capio_fd fd
  | DeletePath path => delete_capio_path path
  | DupFd oldfd newfd is_cloexec => dup_capio_fd oldfd newfd is_cloexec
  | RenamePath oldpath newpath => rename_capio_path oldpath newpath
  | SetOffset fd offset => set_capio_fd_offset fd offset
  | SetFlags fd flags => set_capio_fd_flags fd flags
  | SetCloexec fd is_cloexec => set_capio_fd_cloexec fd is_cloexec
  | SetCwd cwd => set_current_dir cwd
  end.

(** What the caller ensures: a new descriptor is one the kernel has just given
    out, the others are open; a path is renamed to one that is not known. *)
Definition op_ok (op : fs_op) (s : Filesystem) : Prop :=
  match op with
  | AddFd _ fd _ _ _ _ => files s !! fd = None
  | DeleteFd fd | SetOffset fd _ | SetFlags fd _ | SetCloexec fd _ => is_Some (files s !! fd)
  | DeletePath path => is_Some (capio_files_paths s !! path)
  | DupFd oldfd newfd _ => is_Some (files s !! oldfd) /\ files s !! newfd = None
  | RenamePath oldpath newpath => is_Some (capio_files_paths s !! oldpath) /\ capio_files_paths s !! newpath = None
  | SetCwd _ => True
  end.

(** [m] returns from [s] in a state with [Q]. *)
Definition ends {S} (m : M S unit) (s : S) (Q : S -> Prop) : Prop := exists s', m s = Done (tt, s') /\ Q s'.

Lemma wf_fd_path s fd f :
  fs_wf s -> files s !! fd = Some f ->
  exists path fds, capio_files_descriptors s !! fd = Some path /\
    capio_files_paths s !! path = Some fds /\ fd ∈ fds.
Proof.
  intros Hwf Hf. destruct (proj1 (wf_dom s Hwf fd)) as [path Hp]; [by eexists|].
  destruct (proj1 (wf_paths s Hwf fd path) Hp) as (fds & ? & ?). naive_solver.
Qed.

Lemma wf_fd_none s fd : fs_wf s -> files s !! fd = None -> capio_files_descriptors s !! fd = None.
Proof.
  intros Hwf Hf. destruct (capio_files_descriptors s !! fd) eqn:E; [|done].
  destruct (proj2 (wf_dom s Hwf fd)) as [? ?]; [by eexists|congruence].
Qed.

Lemma wf_not_in s fd path fds :
  fs_wf s -> files s !! fd = None -> capio_files_paths s !! path = Some fds -> fd ∉ fds.
Proof.
  intros Hwf Hf Hp Hin. pose proof (proj2 (wf_paths s Hwf fd path)) as H.
  rewrite (wf_fd_none s fd Hwf Hf) in H. discriminate H. eauto.
Qed.

(** Recording a new descriptor [fd] of [path] with the entry [f]. *)
Definition with_fd (fd : Z) (path : string) (f : CPFile) (s : Filesystem) : Filesystem := {|
  offset_heap := offset_heap s; next_offset := next_offset s;
  files := <[fd := f]> (files s);
  capio_files_descriptors := <[fd := path]> (capio_files_descriptors s);
  capio_files_paths := <[path := default ∅ (capio_files_paths s !! path) ∪ {[fd]}]> (capio_files_paths s);
  current_dir := current_dir s |}.
Lemma with_fd_wf s fd path f :
  fs_wf s -> files s !! fd = None -> is_Some (offset_heap s !! cp_offset f) -> fs_wf (with_fd fd path f s).
Proof.
  intros Hwf Hnew Hoff. pose proof (wf_fd_none s fd Hwf Hnew) as Hd. split; simpl.
  - intros fd'. destruct (decide (fd' = fd)) as [->|]; [by rewrite !lookup_insert_eq|].
    rewrite !lookup_insert_ne by done. apply (wf_dom s Hwf).
  - intros fd' path'. destruct (decide (fd' = fd)) as [->|Hne].
    + rewrite lookup_insert_eq. split.
      * intros [= <-]. rewrite lookup_insert_eq. eexists. split; [done|]. set_solver.
      * intros (fds & Hl & Hin). destruct (decide (path' = path)) as [->|]; [done|].
        rewrite lookup_insert_ne in Hl by done. by destruct (wf_not_in s fd path' fds).
    + rewrite lookup_insert_ne by done. rewrite (wf_paths s Hwf). destruct (decide (path' = path)) as [->|].
      * rewrite lookup_insert_eq. destruct (capio_files_paths s !! path) as [fds|]; simpl; split.
        -- intros (? & [= <-] & ?). eexists. split; [done|]. set_solver.
        -- intros (? & [= <-] & ?). eexists. split; [done|]. set_solver.
        -- intros (? & ? & ?). done.
        -- intros (? & [= <-] & ?). exfalso. set_solver.
      * by rewrite lookup_insert_ne.
  - intros fd' f'. destruct (decide (fd' = fd)) as [->|]; [rewrite lookup_insert_eq; by intros [= <-]|].
    rewrite lookup_insert_ne by done. apply (wf_offsets s Hwf).
  - apply (wf_next s Hwf).
Qed.

(** The new entry that [insert_new] makes is the one [insert] makes. *)
Lemma insert_new_none `{Countable K} {A} (k : K) (v : A) m : m !! k = None -> insert_new k v m = <[k := v]> m.
Proof. unfold insert_new. by intros ->. Qed.

Lemma add_capio_fd_eq s path fd offset init_size flags is_cloexec :
  fs_wf s -> files s !! fd = None ->
  add_capio_fd path fd offset init_size flags is_cloexec s = Done (tt,
    with_fd fd path {| cp_offset := next_offset s; cp_size := init_size; cp_flags := flags; cp_cloexec := is_cloexec |}
      {| offset_heap := <[next_offset s := offset]> (offset_heap s); next_offset := next_offset s + 1;
         files := files s; capio_files_descriptors := capio_files_descriptors s;
         capio_files_paths := capio_files_paths s; current_dir := current_dir s |}).
Proof.
  intros Hwf Hnew. pose proof (wf_fd_none s fd Hwf Hnew) as Hd.
  unfold add_capio_fd, add_capio_path, paths_insert, fds_at, bind, outcome_bind, modify, make_shared. simpl.
  assert (E : insert_new path ∅ (capio_files_paths s) !! path = Some (default ∅ (capio_files_paths s !! path))).
  { unfold insert_new. destruct (capio_files_paths s !! path) eqn:E; simpl; [done|by rewrite lookup_insert_eq]. }
  rewrite E. simpl. rewrite !insert_new_none by done. unfold with_fd, set_files, set_descriptors, set_paths. simpl.
  do 3 f_equal. unfold insert_new. case_match; [done|]. by rewrite insert_insert_eq.
Qed.

Lemma heap_alloc_wf s v :
  fs_wf s ->
  fs_wf {| offset_heap := <[next_offset s := v]> (offset_heap s); next_offset := next_offset s + 1;
           files := files s; capio_files_descriptors := capio_files_descriptors s;
           capio_files_paths := capio_files_paths s; current_dir := current_dir s |}.
Proof.
  intros Hwf. split; simpl; [apply (wf_dom s Hwf)|apply (wf_paths s Hwf)| |].
  - intros fd f Hf. rewrite lookup_insert_is_Some'. right. by eapply wf_offsets.
  - intros p. rewrite lookup_insert_is_Some'. intros [<-|Hp]; [lia|]. apply (wf_next s Hwf) in Hp. lia.
Qed.

Lemma add_capio_fd_wf s path fd offset init_size flags is_cloexec :
  fs_wf s -> files s !! fd = None -> ends (add_capio_fd path fd offset init_size flags is_cloexec) s fs_wf.
Proof.
  intros Hwf Hnew. eexists. split; [by apply add_capio_fd_eq|]. apply with_fd_wf; [by apply heap_alloc_wf|done|].
  simpl. by rewrite lookup_insert_eq.
Qed.

(** *** Deleting *)
Definition without_fd (fd : Z) (path : string) (fds : gset Z) (s : Filesystem) : Filesystem := {|
  offset_heap := offset_heap s; next_offset := next_offset s;
  files := delete fd (files s);
  capio_files_descriptors := delete fd (capio_files_descriptors s);
  capio_files_paths := <[path := fds ∖ {[fd]}]> (capio_files_paths s);
  current_dir := current_dir s |}.
Lemma delete_capio_fd_eq s fd path fds :
  capio_files_descriptors s !! fd = Some path -> capio_files_paths s !! path = Some fds ->
  delete_capio_fd fd s = Done (tt, without_fd fd path fds s).
Proof.
  intros Hd Hp. unfold delete_capio_fd, paths_erase, path_at, fds_at, bind, outcome_bind, modify.
  rewrite Hd. simpl. by rewrite Hp.
Qed.
Lemma without_fd_wf s fd path fds :
  fs_wf s -> capio_files_descriptors s !! fd = Some path -> capio_files_paths s !! path = Some fds ->
  fs_wf (without_fd fd path fds s).
Proof.
  intros Hwf Hd Hp. split; simpl.
  - intros fd'. destruct (decide (fd' = fd)) as [->|]; [by rewrite !lookup_delete_eq|].
    rewrite !lookup_delete_ne by done. apply (wf_dom s Hwf).
  - intros fd' path'. destruct (decide (fd' = fd)) as [->|Hne].
    + rewrite lookup_delete_eq. split; [done|]. intros (fds' & Hl & Hin).
      destruct (decide (path' = path)) as [->|Hpp].
      * rewrite lookup_insert_eq in Hl. injection Hl as <-. set_solver.
      * rewrite lookup_insert_ne in Hl by done.
        assert (capio_files_descriptors s !! fd = Some path') by (apply (wf_paths s Hwf); eauto). congruence.
    + rewrite lookup_delete_ne by done. rewrite (wf_paths s Hwf). destruct (decide (path' = path)) as [->|].
      * rewrite lookup_insert_eq, Hp. split; intros (? & [= <-] & ?); eexists; (split; [done|set_solver]).
      * by rewrite lookup_insert_ne.
  - intros fd' f'. rewrite lookup_delete_Some. intros [_ Hf]. by eapply wf_offsets.
  - apply (wf_next s Hwf).
Qed.

Lemma delete_capio_fd_wf s fd : fs_wf s -> is_Some (files s !! fd) -> ends (delete_capio_fd fd) s fs_wf.
Proof.
  intros Hwf [f Hf]. destruct (wf_fd_path s fd f Hwf Hf) as (path & fds & Hd & Hp & _).
  eexists. split; [by apply delete_capio_fd_eq|]. by eapply without_fd_wf.
Qed.

Lemma delete_loop l s path fds :
  fs_wf s -> capio_files_paths s !! path = Some fds -> NoDup l -> fds = list_to_set l ->
  ends (for_each l delete_capio_fd) s (fun s' => fs_wf s' /\ capio_files_paths s' !! path = Some ∅).
Proof.
  revert s fds. induction l as [|fd l IH]; intros s fds Hwf Hp Hnd ->.
  { exists s. by rewrite Hp. }
  apply NoDup_cons in Hnd as [Hfd Hnd].
  assert (Hd : capio_files_descriptors s !! fd = Some path).
  { apply (wf_paths s Hwf). eexists. split; [done|]. set_solver. }
  set (s' := without_fd fd path (list_to_set (fd :: l)) s).
  destruct (IH s' (list_to_set (fd :: l) ∖ {[fd]})) as (s2 & Hrun & HQ).
  - by apply without_fd_wf.
  - simpl. by rewrite lookup_insert_eq.
  - done.
  - set_solver.
  - exists s2. split; [|done]. simpl. unfold bind, outcome_bind. by rewrite (delete_capio_fd_eq s fd path _ Hd Hp).
Qed.

Lemma set_paths_delete_wf s path :
  fs_wf s -> capio_files_paths s !! path = Some ∅ -> fs_wf (set_paths (delete path (capio_files_paths s)) s).
Proof.
  intros Hwf Hp. split; simpl; [apply (wf_dom s Hwf)| |apply (wf_offsets s Hwf)|apply (wf_next s Hwf)].
  intros fd path'. rewrite (wf_paths s Hwf). destruct (decide (path' = path)) as [->|].
  - rewrite lookup_delete_eq, Hp. split; [intros (? & [= <-] & Hin); set_solver|by intros (? & ? & _)].
  - by rewrite lookup_delete_ne.
Qed.

Lemma delete_capio_path_wf s path :
  fs_wf s -> is_Some (capio_files_paths s !! path) -> ends (delete_capio_path path) s fs_wf.
Proof.
  intros Hwf [fds Hp].
  destruct (delete_loop (elements fds) s path fds Hwf Hp) as (s' & Hrun & Hwf' & Hp').
  { apply NoDup_elements. }
  { apply leibniz_equiv. by rewrite list_to_set_elements. }
  eexists. split; [|by apply set_paths_delete_wf].
  unfold delete_capio_path, fds_at, bind, outcome_bind. rewrite Hp. simpl. by rewrite Hrun.
Qed.

(** *** Duplicating: the copy shares the offset *)
Lemma dup_capio_fd_eq s oldfd newfd is_cloexec path fds f :
  fs_wf s -> files s !! oldfd = Some f -> files s !! newfd = None ->
  capio_files_descriptors s !! oldfd = Some path -> capio_files_paths s !! path = Some fds ->
  dup_capio_fd oldfd newfd is_cloexec s = Done (tt,
    with_fd newfd path {| cp_offset := cp_offset f; cp_size := cp_size f; cp_flags := cp_flags f;
                          cp_cloexec := is_cloexec |} s).
Proof.
  intros Hwf Hf Hnew Hd Hp. pose proof (wf_fd_none s newfd Hwf Hnew) as Hdn.
  unfold dup_capio_fd, set_capio_fd_cloexec, paths_insert, path_at, fds_at, file_at, bind, outcome_bind, modify.
  rewrite Hd. simpl. rewrite Hp. simpl. rewrite Hf. simpl. rewrite insert_new_none by done. rewrite lookup_insert_eq.
  simpl. rewrite Hd. simpl. rewrite insert_new_none by done. unfold with_fd, set_files, set_descriptors, set_paths.
  simpl. rewrite insert_insert_eq, Hp. done.
Qed.
Lemma dup_capio_fd_wf s oldfd newfd is_cloexec :
  fs_wf s -> is_Some (files s !! oldfd) -> files s !! newfd = None ->
  ends (dup_capio_fd oldfd newfd is_cloexec) s fs_wf.
Proof.
  intros Hwf [f Hf] Hnew. destruct (wf_fd_path s oldfd f Hwf Hf) as (path & fds & Hd & Hp & _).
  eexists. split; [by eapply dup_capio_fd_eq|]. apply with_fd_wf; [done..|]. simpl. by eapply wf_offsets.
Qed.

(** *** Renaming *)
Lemma rename_loop l s newpath :
  (forall fd, fd ∈ l -> is_Some (capio_files_descriptors s !! fd)) ->
  exists ds, for_each l (fun fd => let* _ := path_at fd in
      modify (fun s => set_descriptors (<[fd := newpath]> (capio_files_descriptors s)) s)) s
    = Done (tt, set_descriptors ds s) /\
    forall fd, ds !! fd = if decide (fd ∈ l) then Some newpath else capio_files_descriptors s !! fd.
Proof.
  revert s. induction l as [|fd l IH]; intros s Hl.
  { exists (capio_files_descriptors s). split; [by destruct s|]. done. }
  destruct (Hl fd) as [p Hp]; [by left|].
  destruct (IH (set_descriptors (<[fd := newpath]> (capio_files_descriptors s)) s)) as (ds & Hrun & Hds).
  { intros fd' Hin. simpl. rewrite lookup_insert_is_Some'. right. apply Hl. by right. }
  exists ds. split.
  - cbn [for_each]. unfold bind at 1. unfold bind at 1, path_at at 1. rewrite Hp. exact Hrun.
  - intros fd'. rewrite Hds. simpl. destruct (decide (fd' = fd)) as [->|Hne].
    + rewrite lookup_insert_eq, (decide_True (P := fd ∈ fd :: l)) by by left. by case_decide.
    + rewrite lookup_insert_ne by done. apply decide_ext. rewrite elem_of_cons. naive_solver.
Qed.

(** The descriptors of [oldpath] now have [newpath]. *)
Lemma renamed_wf s oldpath newpath fds ds :
  fs_wf s -> capio_files_paths s !! oldpath = Some fds -> capio_files_paths s !! newpath = None ->
  (forall fd, ds !! fd = if decide (fd ∈ elements fds) then Some newpath else capio_files_descriptors s !! fd) ->
  fs_wf (set_descriptors ds (set_paths (<[newpath := fds]> (delete oldpath (capio_files_paths s))) s)).
Proof.
  intros Hwf Hp Hn Hds. assert (Hne : newpath <> oldpath) by congruence.
  assert (Hdesc : forall fd, fd ∈ fds <-> capio_files_descriptors s !! fd = Some oldpath).
  { intros fd. rewrite (wf_paths s Hwf), Hp. naive_solver. }
  assert (Hnone : forall fd, capio_files_descriptors s !! fd <> Some newpath).
  { intros fd. rewrite (wf_paths s Hwf), Hn. by intros (? & ? & _). }
  split; simpl; [| |apply (wf_offsets s Hwf)|apply (wf_next s Hwf)].
  - intros fd. rewrite Hds, (wf_dom s Hwf). case_decide as Hin; [|done].
    rewrite elem_of_elements, Hdesc in Hin. rewrite Hin. split; by eexists.
  - intros fd path. rewrite Hds. destruct (decide (path = newpath)) as [->|Hp1].
    + rewrite lookup_insert_eq. case_decide as Hin; rewrite elem_of_elements in Hin; [naive_solver|].
      split; [intros H; by apply Hnone in H|naive_solver].
    + rewrite lookup_insert_ne by done. destruct (decide (path = oldpath)) as [->|Hp2].
      * rewrite lookup_delete_eq. case_decide as Hin; rewrite elem_of_elements, Hdesc in Hin; naive_solver.
      * rewrite lookup_delete_ne, <- (wf_paths s Hwf) by done.
        case_decide as Hin; [rewrite elem_of_elements, Hdesc in Hin; naive_solver|done].
Qed.

Lemma rename_capio_path_wf s oldpath newpath :
  fs_wf s -> is_Some (capio_files_paths s !! oldpath) -> capio_files_paths s !! newpath = None ->
  ends (rename_capio_path oldpath newpath) s fs_wf.
Proof.
  intros Hwf [fds Hp] Hn. assert (Hne : oldpath <> newpath) by congruence.
  set (s1 := set_paths (<[newpath := fds]> (delete oldpath (capio_files_paths s))) s).
  destruct (rename_loop (elements fds) s1 newpath) as (ds & Hrun & Hds).
  { intros fd Hin%elem_of_elements. exists oldpath. apply (wf_paths s Hwf). eauto. }
  exists (set_descriptors ds s1). split; [|by apply (renamed_wf s)].
  unfold rename_capio_path, bind at 1, get; simpl. unfold bind at 1. rewrite Hp. simpl.
  unfold bind at 1, modify at 1. simpl. rewrite insert_new_none by by rewrite lookup_delete_ne.
  unfold bind at 1, fds_at. simpl. rewrite lookup_insert_eq. exact Hrun.
Qed.

(** *** The invariant *)
Lemma set_offset_heap_wf s p v :
  fs_wf s -> is_Some (offset_heap s !! p) -> fs_wf (set_offset_heap (<[p := v]> (offset_heap s)) s).
Proof.
  intros Hwf Hp. split; simpl; [apply (wf_dom s Hwf)|apply (wf_paths s Hwf)| |].
  - intros fd f Hf. rewrite lookup_insert_is_Some'. right. by eapply wf_offsets.
  - intros p'. rewrite lookup_insert_is_Some'. intros [<-|Hp']; by apply (wf_next s Hwf).
Qed.
Lemma set_files_wf s fd f f' :
  fs_wf s -> files s !! fd = Some f -> cp_offset f' = cp_offset f ->
  fs_wf (set_files (<[fd := f']> (files s)) s).
Proof.
  intros Hwf Hf Ho. split; simpl; [|apply (wf_paths s Hwf)| |apply (wf_next s Hwf)].
  - intros fd'. rewrite lookup_insert_is_Some', <- (wf_dom s Hwf). split; [|naive_solver].
    intros [<-|]; [by eexists|done].
  - intros fd' g. destruct (decide (fd' = fd)) as [->|].
    + rewrite lookup_insert_eq. intros [= <-]. rewrite Ho. by eapply wf_offsets.
    + rewrite lookup_insert_ne by done. by apply wf_offsets.
Qed.

Lemma run_op_wf op s : fs_wf s -> op_ok op s -> ends (run_op op) s fs_wf.
Proof.
  intros Hwf Hok. destruct op; simpl in Hok; cbn [run_op].
  - by apply add_capio_fd_wf.
  - by apply delete_capio_fd_wf.
  - by apply delete_capio_path_wf.
  - destruct Hok. by apply dup_capio_fd_wf.
  - destruct Hok. by apply rename_capio_path_wf.
  - destruct Hok as [f Hf]. eexists. split.
    + unfold set_capio_fd_offset, bind, file_at. rewrite Hf. done.
    + apply set_offset_heap_wf; [done|]. by eapply wf_offsets.
  - destruct Hok as [f Hf]. eexists. split.
    + unfold set_capio_fd_flags, bind, file_at. rewrite Hf. done.
    + by eapply set_files_wf.
  - destruct Hok as [f Hf]. eexists. split.
    + unfold set_capio_fd_cloexec, bind, file_at. rewrite Hf. done.
    + by eapply set_files_wf.
  - eexists. split; [done|]. by destruct s, Hwf.
Qed.

(** A run of calls, each made where its precondition holds. *)
Inductive fs_reachable (cwd : string) : Filesystem -> Prop :=
| fs_start : fs_reachable cwd (init_filesystem cwd)
| fs_call op s s' : fs_reachable cwd s -> op_ok op s -> run_op op s = Done (tt, s') -> fs_reachable cwd s'.

Lemma fs_reachable_wf cwd s : fs_reachable cwd s -> fs_wf s.
Proof.
  induction 1 as [|op s s' _ IH Hok Hrun]; [apply fs_wf_init|].
  destruct (run_op_wf op s IH Hok) as (s2 & Hrun2 & Hwf). congruence.
Qed.

(** C32. The tables of the client stay consistent: after any sequence of calls,
    each made on open descriptors and known paths, with a new descriptor that was
    free and a new path that was unknown, a descriptor has a path exactly when it has an entry,
    is among the descriptors of that path and of no other, and its offset is
    live; and the next call returns, it does not throw [out_of_range]. *)
Theorem tables_invariant cwd s op :
  fs_reachable cwd s -> op_ok op s ->
  fs_wf s /\ exists s', run_op op s = Done (tt, s') /\ fs_wf s'.
Proof. intros Hr Hok. pose proof (fs_reachable_wf cwd s Hr) as Hwf. split; [done|]. by apply run_op_wf. Qed.

(** Two files open, one with a duplicate. *)
Definition demo_tables : option Filesystem :=
  result_of (outcome_bind (add_capio_fd "/c/a" 3 0 0 0 false (init_filesystem "/")) (fun '(_, s1) =>
    outcome_bind (add_capio_fd "/c/b" 4 0 0 0 false s1) (fun '(_, s2) => Done s2))).
Definition demo_fs : Filesystem := default (init_filesystem "") demo_tables.

Lemma demo_fs_reachable : fs_reachable "/" demo_fs.
Proof.
  eapply (fs_call _ (AddFd "/c/b" 4 0 0 0 false)); [eapply (fs_call _ (AddFd "/c/a" 3 0 0 0 false)); [constructor|..]|..].
  all: vm_compute; reflexivity.
Qed.

Lemma tables_invariant_witness :
  fs_wf demo_fs /\ exists s', run_op (DupFd 3 5 true) demo_fs = Done (tt, s') /\ fs_wf s'.
Proof.
  apply (tables_invariant "/" demo_fs (DupFd 3 5 true)); [exact demo_fs_reachable|].
  vm_compute. split; [by eexists|reflexivity].
Defined.

(** Duplicates share the offset. *)
Lemma dup_shares_offset s oldfd newfd is_cloexec o :
  fs_wf s -> is_Some (files s !! oldfd) -> files s !! newfd = None ->
  exists s1 s2, dup_capio_fd oldfd newfd is_cloexec s = Done (tt, s1) /\
    set_capio_fd_offset newfd o s1 = Done (tt, s2) /\ get_capio_fd_offset oldfd s2 = Done (o, s2).
Proof.
  intros Hwf [f Hf] Hnew. destruct (wf_fd_path s oldfd f Hwf Hf) as (path & fds & Hd & Hp & _).
  assert (oldfd <> newfd) by congruence.
  eexists _, _. split; [by eapply dup_capio_fd_eq|].
  unfold set_capio_fd_offset, get_capio_fd_offset, bind, file_at. simpl. rewrite lookup_insert_eq. split; [done|].
  simpl. rewrite lookup_insert_ne, Hf by done. simpl. by rewrite lookup_insert_eq.
Qed.

(** [dup2] onto a descriptor that is an open CAPIO file does not close it
    first: the descriptor keeps the path and the offset of the file it had, it is
    listed under both paths, and the tables disagree from then on. *)
Theorem dup_onto_open_fd_keeps_old_file s oldfd newfd is_cloexec f f' path path' :
  fs_wf s -> files s !! oldfd = Some f -> files s !! newfd = Some f' ->
  capio_files_descriptors s !! oldfd = Some path -> capio_files_descriptors s !! newfd = Some path' ->
  path <> path' ->
  exists s', dup_capio_fd oldfd newfd is_cloexec s = Done (tt, s') /\
    get_capio_fd_path newfd s' = Done (path', s') /\
    (cp_offset <$> files s' !! newfd) = Some (cp_offset f') /\
    (exists fds, capio_files_paths s' !! path = Some fds /\ newfd ∈ fds) /\ ~ fs_wf s'.
Proof.
  intros Hwf Hf Hf' Hd Hd' Hne.
  destruct (proj1 (wf_paths s Hwf oldfd path) Hd) as (fds & Hp & _).
  eexists. split; [|split; [|split; [|split]]].
  - unfold dup_capio_fd, set_capio_fd_cloexec, paths_insert, path_at, fds_at, file_at, bind, outcome_bind, modify.
    rewrite Hd. simpl. rewrite Hp. simpl. rewrite Hf. simpl. unfold insert_new at 1 2. rewrite Hf'. simpl.
    unfold insert_new at 1. rewrite Hf'. simpl. rewrite Hd. reflexivity.
  - unfold get_capio_fd_path, path_at. simpl. unfold insert_new. by rewrite Hd', Hd'.
  - simpl. by rewrite lookup_insert_eq.
  - simpl. rewrite lookup_insert_eq. eexists. split; [done|]. set_solver.
  - intros Hwf'. assert (Hbad : capio_files_descriptors s !! newfd = Some path).
    { transitivity (insert_new newfd path (capio_files_descriptors s) !! newfd); [unfold insert_new; by rewrite Hd'|].
      apply (wf_paths _ Hwf'). simpl. rewrite lookup_insert_eq. eexists. split; [done|]. set_solver. }
    congruence.
Qed.

Lemma dup_onto_open_fd_keeps_old_file_witness :
  exists s', dup_capio_fd 3 4 false demo_fs = Done (tt, s') /\ get_capio_fd_path 4 s' = Done ("/c/b"%string, s').
Proof.
  destruct (dup_onto_open_fd_keeps_old_file demo_fs 3 4 false
    {| cp_offset := 0; cp_size := 0; cp_flags := 0; cp_cloexec := false |}
    {| cp_offset := 1; cp_size := 0; cp_flags := 0; cp_cloexec := false |} "/c/a" "/c/b")
    as (s' & H1 & H2 & _).
  - exact (fs_reachable_wf "/" demo_fs demo_fs_reachable).
  - reflexivity.
  - reflexivity.
  - reflexivity.
  - reflexivity.
  - discriminate.
  - exists s'. split; [exact H1|exact H2].
Defined.
