(* ===== verification/PosixCache.v ===== *)
(** * The caches and the data calls of the client library

    [posix/utils/cache.hpp] and [posix/utils/data.hpp]: the read and the write
    cache of a thread, which stand between the system calls of the application
    and the requests to the server, and the system calls on an open descriptor,
    [posix/handlers/read.hpp], [write.hpp], [lseek.hpp], [dup.hpp] and
    [close.hpp].

    A request goes into the request queue, and the server takes the requests in
    order while the client goes on; a client that waits for a reply waits for
    the server to have served all of them.  The two data queues are seen as
    the orders of slots they refine ([Queue]); the wait of a producer for a free
    slot, which lasts until the server has taken one, is part of that refinement
    and not of this file.  [fetch] gives the slot back before its bytes are used;
    they stay because the server fills slots only for requests of the thread,
    which makes none while it has bytes left there.  The text of a request and
    the size of its array are in [Requests]. *)
From S2P Require Import Prelude Text Memory Queue Server StorageManager Requests PosixPath PosixFs.

(** ** The server, seen from a client *)

(** [serve] runs the handler of a request; [next_reply] takes a value from
    [buff_response]; the data queues of the thread are shared. *)
Class Peer (P : Type) := {
  serve : call -> P -> outcome P;
  next_reply : P -> option (Z * P);
  to_server : P -> Fifo;
  set_to_server : Fifo -> P -> P;
  from_server : P -> Fifo;
  set_from_server : Fifo -> P -> P
}.

(** [_cache] is the place of a slot in its queue. *)
Record ReadCache : Type := {
  rc_cache : nat; rc_last_fd : Z; rc_actual_size : Z; rc_cache_offset : Z }.
Record WriteCache : Type := { wc_cache : option nat; wc_fd : Z; wc_actual_size : Z }.
Definition ReadCache_new : ReadCache :=
  {| rc_cache := 0; rc_last_fd := -1; rc_actual_size := 0; rc_cache_offset := 0 |}.
Definition WriteCache_new : WriteCache := {| wc_cache := None; wc_fd := -1; wc_actual_size := 0 |}.

Record Client (P : Type) : Type := {
  tables : Filesystem;
  read_cache : ReadCache;
  write_cache : WriteCache;
  outbox : list call;
  server : P
}.
Arguments tables {P}. Arguments read_cache {P}. Arguments write_cache {P}.
Arguments outbox {P}. Arguments server {P}.

(** The thread id and the size of a line of its queues. *)
Class Thread := { tid : Z; _max_line_size : Z }.

Section Client.
Context {P : Type} `{Peer P} `{Thread}.

Definition set_tables t (s : Client P) : Client P := {|
  tables := t; read_cache := read_cache s; write_cache := write_cache s; outbox := outbox s; server := server s |}.
Definition set_read_cache c (s : Client P) : Client P := {|
  tables := tables s; read_cache := c; write_cache := write_cache s; outbox := outbox s; server := server s |}.
Definition set_write_cache c (s : Client P) : Client P := {|
  tables := tables s; read_cache := read_cache s; write_cache := c; outbox := outbox s; server := server s |}.
Definition set_outbox o (s : Client P) : Client P := {|
  tables := tables s; read_cache := read_cache s; write_cache := write_cache s; outbox := o; server := server s |}.
Definition set_server p (s : Client P) : Client P := {|
  tables := tables s; read_cache := read_cache s; write_cache := write_cache s; outbox := outbox s; server := p |}.

Definition on_tables {A} (m : M Filesystem A) : M (Client P) A := zoom tables set_tables m.

(** ** Requests and replies *)

(** [buf_requests->write(req, CAPIO_REQ_MAX_SIZE)] *)
Definition send (c : call) : M (Client P) unit := modify (fun s => set_outbox (outbox s ++ [c]) s).

(** The server serves what is in the request queue. *)
Fixpoint serve_all (cs : list call) (p : P) : outcome P :=
  match cs with [] => Done p | c :: cs' => outcome_bind (serve c p) (serve_all cs') end.

(** [buff_response->read(&res)] *)
Definition wait_reply : M (Client P) Z := fun s =>
  outcome_bind (serve_all (outbox s) (server s)) (fun p =>
  match next_reply p with
  | Some (v, p') => Done (v, set_server p' (set_outbox [] s))
  | None => Blocks "buff_response"
  end).

(** A request function of [requests.hpp] that reads one value. *)
Definition ask (c : call) : M (Client P) Z := send c ;; wait_reply.
(** One that reads two and returns the first. *)
Definition ask2 (c : call) : M (Client P) Z := send c ;; let* res := wait_reply in let* _ := wait_reply in ret res.

(** ** [class ReadCache] *)

Definition slot_at (f : Fifo) (i : nat) : list cell := default [] (f_slots f !! i).

(** [_read]: the bytes that [memcpy] puts in the buffer. *)
Definition ReadCache__read (count : Z) : M (Client P) (list cell) :=
  if 0 <? count then
    let* s := get in
    let c := read_cache s in
    let data := slot_bytes (drop (Z.to_nat (rc_cache_offset c)) (slot_at (from_server (server s)) (rc_cache c))) count in
    modify (set_read_cache {| rc_cache := rc_cache c; rc_last_fd := rc_last_fd c;
      rc_actual_size := rc_actual_size c; rc_cache_offset := rc_cache_offset c + count |}) ;;
    ret data
  else ret [].

Definition ReadCache_flush : M (Client P) unit :=
  let* s := get in
  let c := read_cache s in
  when (negb (rc_cache_offset c =? rc_actual_size c)) (
    modify (set_read_cache {| rc_cache := rc_cache c; rc_last_fd := rc_last_fd c;
      rc_actual_size := 0; rc_cache_offset := 0 |}) ;;
    let* offset := on_tables (get_capio_fd_offset (rc_last_fd c)) in
    let* _ := ask (seek_request (rc_last_fd c) offset tid) in ret tt).

Definition ReadCache_cachesFileOf (fd : Z) : M (Client P) bool :=
  let* s := get in
  let last_fd := rc_last_fd (read_cache s) in
  if fd =? last_fd then ret true
  else
    let* ex := on_tables (exists_capio_fd last_fd) in
    if ex then
      let* p := on_tables (get_capio_fd_path fd) in
      let* p' := on_tables (get_capio_fd_path last_fd) in
      ret (String.eqb p p')
    else ret false.

(** [_queue.read] and [_queue.fetch] *)
Definition queue_read (num_bytes : Z) : M (Client P) (list cell) := fun s =>
  if num_bytes <? 0 then UB "negative size"
  else outcome_bind (fifo_read _max_line_size num_bytes (from_server (server s))) (fun '(d, q) =>
       Done (d, set_server (set_from_server q (server s)) s)).
Definition queue_fetch : M (Client P) nat := fun s =>
  let q := from_server (server s) in
  match fifo_pop q with
  | Some (_, q') => Done (f_next q, set_server (set_from_server q' (server s)) s)
  | None => Blocks "sem_num_elems"
  end.

Definition set_last_fd (fd : Z) : M (Client P) unit :=
  modify (fun s => set_read_cache {| rc_cache := rc_cache (read_cache s); rc_last_fd := fd;
    rc_actual_size := rc_actual_size (read_cache s); rc_cache_offset := rc_cache_offset (read_cache s) |} s).
Definition set_line (actual_size cache_offset : Z) : M (Client P) unit :=
  modify (fun s => set_read_cache {| rc_cache := rc_cache (read_cache s); rc_last_fd := rc_last_fd (read_cache s);
    rc_actual_size := actual_size; rc_cache_offset := cache_offset |} s).
Definition set_cache_slot (i : nat) : M (Client P) unit :=
  modify (fun s => set_read_cache {| rc_cache := i; rc_last_fd := rc_last_fd (read_cache s);
    rc_actual_size := rc_actual_size (read_cache s); rc_cache_offset := rc_cache_offset (read_cache s) |} s).

(** The request for more data. *)
Definition fetch_request (fd count : Z) (is_getdents is64bit : bool) : M (Client P) Z :=
  ask (if is_getdents then getdents_request fd count is64bit tid else read_request fd count tid).

(** [read]: the number of bytes read and what is put in the buffer. *)
Definition ReadCache_read (fd count : Z) (is_getdents is64bit : bool) : M (Client P) (Z * list cell) :=
  let* s := get in
  when (negb (rc_last_fd (read_cache s) =? fd)) (ReadCache_flush ;; set_last_fd fd) ;;
  let* s := get in
  let remaining_bytes := rc_actual_size (read_cache s) - rc_cache_offset (read_cache s) in
  let* file_offset := on_tables (get_capio_fd_offset fd) in
  let count := if is_getdents then Z.quot count sizeof_linux_dirent64 * sizeof_linux_dirent64 else count in
  let read_size := count - remaining_bytes in
  let* (bytes_read, data) :=
    if count <=? remaining_bytes then
      let* d := ReadCache__read count in ret (count, d)
    else
      let* d := ReadCache__read remaining_bytes in
      if (_max_line_size <? read_size) || is_getdents then
        let* end_of_read := fetch_request fd read_size is_getdents is64bit in
        let bytes_read := end_of_read - file_offset in
        let* d' := queue_read bytes_read in
        ret (bytes_read, d ++ d')
      else
        let* end_of_read := fetch_request fd _max_line_size is_getdents is64bit in
        let actual_size := end_of_read - file_offset - remaining_bytes in
        set_line actual_size 0 ;;
        when (0 <? actual_size) (let* i := queue_fetch in set_cache_slot i) ;;
        if read_size <? actual_size then
          let* d' := ReadCache__read read_size in ret (count, d ++ d')
        else
          let* d' := ReadCache__read actual_size in ret (remaining_bytes + actual_size, d ++ d')
  in
  on_tables (set_capio_fd_offset fd (file_offset + bytes_read)) ;;
  ret (bytes_read, data).

(** ** [class WriteCache] *)

Definition WriteCache_flush : M (Client P) unit :=
  let* s := get in
  let c := write_cache s in
  when (negb (wc_actual_size c =? 0)) (
    send (write_request (wc_fd c) (wc_actual_size c) tid) ;;
    modify (set_write_cache {| wc_cache := None; wc_fd := wc_fd c; wc_actual_size := 0 |})).

(** [_queue.reserve], and the [memcpy] to the line it returned. *)
Definition queue_reserve : M (Client P) nat := fun s =>
  let q := to_server (server s) in
  Done (length (f_slots q), set_server (set_to_server (fifo_push [] q) (server s)) s).
Definition store (d : list cell) (off : nat) (data : list cell) : list cell :=
  take off (d ++ replicate (off - length d) None) ++ data ++ drop (off + length data) d.
Definition poke_slot (i off : nat) (data : list cell) : M (Client P) unit :=
  modify (fun s => let q := to_server (server s) in
    set_server (set_to_server {| f_slots := alter (fun d => store d off data) i (f_slots q); f_next := f_next q |}
                  (server s)) s).
Definition queue_write (data : list cell) : M (Client P) unit :=
  modify (fun s => set_server (set_to_server (fifo_write _max_line_size data (to_server (server s))) (server s)) s).

Definition WriteCache__write (buffer : list cell) : M (Client P) unit :=
  let count := Z.of_nat (length buffer) in
  when (0 <? count) (
    let* s := get in
    let c := write_cache s in
    let* i := match wc_cache c with Some i => ret i | None => queue_reserve end in
    poke_slot i (Z.to_nat (wc_actual_size c)) buffer ;;
    let actual_size := wc_actual_size c + count in
    modify (set_write_cache {| wc_cache := Some i; wc_fd := wc_fd c; wc_actual_size := actual_size |}) ;;
    when (actual_size =? _max_line_size) WriteCache_flush).

Definition WriteCache_write (fd : Z) (buffer : list cell) : M (Client P) unit :=
  let count := Z.of_nat (length buffer) in
  let* s := get in
  when (negb (wc_fd (write_cache s) =? fd)) (
    WriteCache_flush ;;
    modify (fun s => set_write_cache {| wc_cache := wc_cache (write_cache s); wc_fd := fd;
                                        wc_actual_size := wc_actual_size (write_cache s) |} s)) ;;
  let* s := get in
  (if count <=? _max_line_size - wc_actual_size (write_cache s) then WriteCache__write buffer
   else
     WriteCache_flush ;;
     let* s := get in
     if _max_line_size <? count - wc_actual_size (write_cache s) then
       send (write_request (wc_fd (write_cache s)) count tid) ;;
       queue_write buffer
     else WriteCache__write buffer) ;;
  let* offset := on_tables (get_capio_fd_offset fd) in
  on_tables (set_capio_fd_offset fd (offset + count)).

(** ** [data.hpp] *)

Definition capio_cached_read (fd count : Z) : M (Client P) (Z * list cell) :=
  WriteCache_flush ;; ReadCache_read fd count false false.
Definition capio_cached_write (fd : Z) (buffer : list cell) : M (Client P) unit :=
  let* b := ReadCache_cachesFileOf fd in
  when b ReadCache_flush ;;
  WriteCache_write fd buffer.
Definition capio_set_fd_offset (fd offset : Z) : M (Client P) unit :=
  ReadCache_flush ;; WriteCache_flush ;;
  on_tables (set_capio_fd_offset fd offset) ;;
  let* _ := ask (seek_request fd offset tid) in ret tt.

(** ** The system calls *)

(** What a handler decides: a value, an error it has put in [errno], or that the
    kernel does the call. *)
Inductive answer : Type := Ret (v : Z) | Err (errno : Z) | Skip.
Definition EINVAL : Z := 22.
Definition EEXIST : Z := 17.
Definition ENOENT : Z := 2.
Definition SSIZE_MAX : Z := 2 ^ 63 - 1.

(** [posix_return_value]: the return value of the handler and [*result], for the
    [errno] that was there before the call. *)
Definition posix_return_value (errno : Z) (a : answer) : Z * option Z :=
  match a with
  | Skip => (1, None)
  | Err e => (0, Some (- e))
  | Ret v => if v =? CAPIO_POSIX_SYSCALL_REQUEST_SKIP then (1, None)
             else (0, Some (if v <? 0 then - errno else v))
  end.

Definition capio_read (fd count : Z) : M (Client P) (answer * list cell) :=
  let* ex := on_tables (exists_capio_fd fd) in
  if ex then
    if SSIZE_MAX <=? count then err_exit "CAPIO does not support read bigger than SSIZE_MAX yet"
    else let* (n, d) := capio_cached_read fd count in ret (Ret n, d)
  else ret (Skip, []).
Definition capio_write (fd : Z) (buffer : list cell) : M (Client P) answer :=
  let* ex := on_tables (exists_capio_fd fd) in
  if ex then
    if SSIZE_MAX <? Z.of_nat (length buffer) then err_exit "Capio does not support writes bigger than SSIZE_MAX yet"
    else capio_cached_write fd buffer ;; ret (Ret (Z.of_nat (length buffer)))
  else ret Skip.

(** The loops of [capio_readv] and [capio_writev]: [res] is the result of the
    last call. *)
Fixpoint readv_loop (fd : Z) (iov : list Z) (res tot_bytes : Z) (data : list (list cell))
    : M (Client P) (answer * list (list cell)) :=
  match iov with
  | [] => ret (Ret tot_bytes, data)
  | iov_len :: iov' =>
      if res <? 0 then ret (Ret tot_bytes, data)
      else if iov_len =? 0 then readv_loop fd iov' res tot_bytes (data ++ [[]])
      else
        let* (a, d) := capio_read fd iov_len in
        let res := match a with Ret v => v | Err _ => -1 | Skip => CAPIO_POSIX_SYSCALL_REQUEST_SKIP end in
        if res =? -1 then ret (a, data)
        else readv_loop fd iov' res (tot_bytes + res) (data ++ [d])
  end.
Definition capio_readv (fd : Z) (iov : list Z) : M (Client P) (answer * list (list cell)) :=
  let* ex := on_tables (exists_capio_fd fd) in
  if ex then readv_loop fd iov 0 0 [] else ret (Skip, []).

Fixpoint writev_loop (fd : Z) (iov : list (list cell)) (res tot_bytes : Z) : M (Client P) answer :=
  match iov with
  | [] => ret (Ret tot_bytes)
  | buffer :: iov' =>
      if res <? 0 then ret (Ret tot_bytes)
      else if Z.of_nat (length buffer) =? 0 then writev_loop fd iov' res tot_bytes
      else
        let* a := capio_write fd buffer in
        let res := match a with Ret v => v | Err _ => -1 | Skip => CAPIO_POSIX_SYSCALL_REQUEST_SKIP end in
        if res =? -1 then ret a
        else writev_loop fd iov' res (tot_bytes + res)
  end.
Definition capio_writev (fd : Z) (iov : list (list cell)) : M (Client P) answer :=
  let* ex := on_tables (exists_capio_fd fd) in
  if ex then writev_loop fd iov 0 0 else ret Skip.

Definition SEEK_SET : Z := 0.
Definition SEEK_CUR : Z := 1.
Definition SEEK_END : Z := 2.
Definition SEEK_DATA : Z := 3.
Definition SEEK_HOLE : Z := 4.

Definition capio_lseek (fd offset whence : Z) : M (Client P) answer :=
  let* ex := on_tables (exists_capio_fd fd) in
  if negb ex then ret Skip
  else
    ReadCache_flush ;; WriteCache_flush ;;
    let* file_offset := on_tables (get_capio_fd_offset fd) in
    if whence =? SEEK_SET then
      if 0 <=? offset then capio_set_fd_offset fd offset ;; ret (Ret offset) else ret (Err EINVAL)
    else if whence =? SEEK_CUR then
      let new_offset := file_offset + offset in
      if 0 <=? new_offset then capio_set_fd_offset fd new_offset ;; ret (Ret new_offset) else ret (Err EINVAL)
    else if whence =? SEEK_END then
      let* _ := ask2 (seek_end_request fd tid) in
      let new_offset := file_offset + offset in
      on_tables (set_capio_fd_offset fd new_offset) ;; ret (Ret new_offset)
    else if whence =? SEEK_DATA then
      let* new_offset := ask (seek_data_request fd file_offset tid) in
      on_tables (set_capio_fd_offset fd new_offset) ;; ret (Ret new_offset)
    else if whence =? SEEK_HOLE then
      let* new_offset := ask (seek_hole_request fd file_offset tid) in
      on_tables (set_capio_fd_offset fd new_offset) ;; ret (Ret new_offset)
    else ret (Err EINVAL).

(** [getdents_handler_impl] *)
Definition getdents_handler_impl (fd count : Z) (is64bit : bool) : M (Client P) (answer * list cell) :=
  let* ex := on_tables (exists_capio_fd fd) in
  if ex then
    if SSIZE_MAX <=? count then err_exit "src does not support read bigger than SSIZE_MAX yet"
    else WriteCache_flush ;; let* (n, d) := ReadCache_read fd count true is64bit in ret (Ret n, d)
  else ret (Skip, []).

(** [dup_handler], [dup2_handler] and [dup3_handler]; [res] and [errno] are what
    the system call they make returns and sets. *)
Definition dup_handler (fd res errno : Z) : M (Client P) answer :=
  let* ex := on_tables (exists_capio_fd fd) in
  if ex then
    if res =? -1 then ret (Err errno)
    else send (dup_request fd res tid) ;; on_tables (dup_capio_fd fd res false) ;; ret (Ret res)
  else ret Skip.
Definition dup2_handler (fd res errno : Z) : M (Client P) answer :=
  let* ex := on_tables (exists_capio_fd fd) in
  if ex then
    if res =? -1 then ret (Err errno)
    else
      when (negb (fd =? res)) (send (dup_request fd res tid) ;; on_tables (dup_capio_fd fd res false)) ;;
      ret (Ret res)
  else ret Skip.
Definition O_CLOEXEC : Z := 524288.
Definition dup3_handler (fd fd2 flags res errno : Z) : M (Client P) answer :=
  let* ex := on_tables (exists_capio_fd fd) in
  if ex then
    if fd =? fd2 then ret (Err EINVAL)
    else if res =? -1 then ret (Err errno)
    else
      send (dup_request fd res tid) ;;
      on_tables (dup_capio_fd fd res (Z.land flags O_CLOEXEC =? O_CLOEXEC)) ;;
      ret (Ret res)
  else ret Skip.

(** The kernel closes the descriptor after the handler. *)
Definition close_handler (fd : Z) : M (Client P) answer :=
  let* ex := on_tables (exists_capio_fd fd) in
  when ex (
    WriteCache_flush ;; ReadCache_flush ;;
    send (close_request fd tid) ;;
    on_tables (delete_capio_fd fd)) ;;
  ret Skip.
End Client.
