(* ===== verification/PosixCacheProps.v ===== *)
(** * The caches are transparent

    What the server gets through the write cache is what the application wrote,
    and what the application gets through the read cache is what the server
    sent: nothing is lost, repeated, reordered or given to another descriptor. *)
From S2P Require Import Prelude Text Memory Queue Server StorageManager Requests PosixPath PosixFs PosixCache.

(** The queues of a client are two cells of the state of its server. *)
Class PeerLaws (P : Type) `{Peer P} : Prop := {
  to_server_set p q : to_server (set_to_server q p) = q;
  set_to_server_twice p q q' : set_to_server q (set_to_server q' p) = set_to_server q p;
  from_server_set p q : from_server (set_from_server q p) = q
}.

(** ** What the operations of the caches preserve *)

Section Preserves.
Context {P : Type} `{Peer P} `{Thread} (I : Client P -> Prop).

Lemma preserves_on_tables {A} (m : M Filesystem A) :
  (forall t s, I s -> I (set_tables t s)) -> preserves I (on_tables m).
Proof using.
  intros Hf s a s' HI. unfold on_tables, zoom. destruct (m (tables s)) as [[? ?]| | | |]; try done. intros [= <- <-]. by apply Hf.
Qed.
Lemma preserves_ask c :
  (forall o s, I s -> I (set_outbox o s)) -> (forall p s, I s -> I (set_server p s)) -> preserves I (ask c).
Proof using.
  intros Ho Hs s a s' HI. unfold ask, bind, send, modify, wait_reply. simpl.
  destruct (serve_all _ _) as [p| | | |]; try done. simpl. destruct (next_reply p) as [[v p']|]; try done.
  intros [= <- <-]. by apply Hs, Ho, Ho.
Qed.
Lemma preserves_queue_read n :
  (forall q s, I s -> I (set_server (set_from_server q (server s)) s)) -> preserves I (queue_read n).
Proof using.
  intros Hf s a s' HI. unfold queue_read. case_match; [done|]. destruct (fifo_read _ _ _) as [[d q]| | | |]; try done.
  intros [= <- <-]. by apply Hf.
Qed.
Lemma preserves_queue_fetch :
  (forall q s, I s -> I (set_server (set_from_server q (server s)) s)) -> preserves I queue_fetch.
Proof using.
  intros Hf s a s' HI. unfold queue_fetch. destruct (fifo_pop _) as [[d q]|]; try done. intros [= <- <-]. by apply Hf.
Qed.
Lemma preserves_queue_reserve :
  (forall q s, I s -> I (set_server (set_to_server q (server s)) s)) -> preserves I queue_reserve.
Proof using. intros Hf s a s' HI [= <- <-]. by apply Hf. Qed.
End Preserves.

(** The operations of the caches are made of these; [tac] proves that the property
    does not depend on the part of the client that one of them changes. *)
Ltac preserves_caches tac := repeat first
  [ apply preserves_ask; tac | apply preserves_bind; [|intros] | apply preserves_if | apply preserves_when
  | apply preserves_ret | apply preserves_get | apply preserves_on_tables; tac | apply preserves_queue_read; tac
  | apply preserves_queue_fetch; tac | apply preserves_queue_reserve; tac | apply preserves_modify; tac
  | progress (unfold ReadCache_flush, set_last_fd, ReadCache__read, fetch_request, set_line, set_cache_slot,
      WriteCache_flush, send, WriteCache__write, WriteCache_write, ReadCache_read, poke_slot, queue_write) | case_match ].

(** ** Programs that return *)

Lemma ends_bind {S} (m k : M S unit) s Q R :
  ends m s Q -> (forall s', Q s' -> ends k s' R) -> ends (m ;; k) s R.
Proof. intros (s1 & E1 & HQ) Hk. destruct (Hk s1 HQ) as (s2 & E2 & HR). exists s2. unfold bind. by rewrite E1. Qed.
Lemma ends_get {S} (k : S -> M S unit) s R : ends (k s) s R -> ends (bind get k) s R.
Proof. done. Qed.
Lemma ends_when {S} (b : bool) (m : M S unit) s (Q : S -> Prop) :
  (b = true -> ends m s Q) -> (b = false -> Q s) -> ends (when b m) s Q.
Proof. intros H1 H2. destruct b; simpl; [by apply H1|]. exists s. split; [done|by apply H2]. Qed.
Lemma ends_weaken {S} (m : M S unit) s (Q R : S -> Prop) : ends m s Q -> (forall s', Q s' -> R s') -> ends m s R.
Proof. intros (s' & E & HQ) HR. exists s'. auto. Qed.
Lemma ends_modify {S} (f : S -> S) s (Q : S -> Prop) : Q (f s) -> ends (modify f) s Q.
Proof. intros HQ. by eexists. Qed.

(** A message of at most a line is one slot. *)
Lemma write_chunks_line es d :
  0 < es -> (0 < length d)%nat -> Z.of_nat (length d) <= es -> write_chunks es d = [d].
Proof.
  intros He Hd Hle. unfold write_chunks. destruct (decide (Z.of_nat (length d) = es)) as [<-|Hne].
  - rewrite Z.div_same, Z.mod_same by lia. simpl. by rewrite Nat2Z.id, firstn_all.
  - rewrite Z.div_small, Z.mod_small by lia. simpl. by rewrite (proj2 (Z.eqb_neq _ _)) by lia.
Qed.

Section WriteCache.
Context {P : Type} `{PeerLaws P} `{Thread}.
Hypothesis line_pos : 0 < _max_line_size.

(** A write request and the bytes that belong to it. *)
Definition wreq (w : Z * list cell) : call := write_request w.1 (Z.of_nat (length w.2)) tid.
Definition wchunks (w : Z * list cell) : list (list cell) := write_chunks _max_line_size w.2.
(** The bytes, each with the descriptor it was written to. *)
Definition tagged (ws : list (Z * list cell)) : list (Z * cell) := 
  concat ((fun w : Z * list cell => pair w.1 <$> w.2) <$> ws).

(** The requests sent are those of [ws], whose bytes the server has not taken
    yet, and the line being filled holds [d]. *)
Record wc_inv (ws : list (Z * list cell)) (d : list cell) (s : Client P) : Prop := {
  wi_out : outbox s = wreq <$> ws;
  wi_size : wc_actual_size (write_cache s) = Z.of_nat (length d);
  wi_lt : Z.of_nat (length d) < _max_line_size;
  wi_slots : exists full, f_slots (to_server (server s)) = full ++ (if decide (d = []) then [] else [d]) /\
    (f_next (to_server (server s)) <= length full)%nat /\
    drop (f_next (to_server (server s))) full = concat (wchunks <$> ws) /\
    wc_cache (write_cache s) = (if decide (d = []) then None else Some (length full));
  wi_data : Forall (fun w => w.2 <> []) ws
}.
(** The same, when the tables are [t] and the cache is on the descriptor [fd]. *)
Definition wc_at (t : Filesystem) (fd : Z) ws d (s : Client P) : Prop :=
  wc_inv ws d s /\ tables s = t /\ wc_fd (write_cache s) = fd.

Lemma tagged_snoc ws fd d : tagged (ws ++ [(fd, d)]) = tagged ws ++ (pair fd <$> d).
Proof. unfold tagged. rewrite fmap_app, concat_app. simpl. by rewrite app_nil_r. Qed.

(** The requests sent after the line was given away. *)
Definition close_line (fd : Z) (ws : list (Z * list cell)) (d : list cell) : list (Z * list cell) :=
  if decide (d = []) then ws else ws ++ [(fd, d)].
Lemma tagged_close_line fd ws d : tagged (close_line fd ws d) = tagged ws ++ (pair fd <$> d).
Proof. unfold close_line. case_decide; [subst; by rewrite app_nil_r|apply tagged_snoc]. Qed.

(** Sending the request of a slot that is full to [d]. *)
Lemma wc_flush_full t fd ws d (s : Client P) full :
  outbox s = wreq <$> ws -> tables s = t -> wc_fd (write_cache s) = fd ->
  d <> [] -> Z.of_nat (length d) <= _max_line_size ->
  wc_actual_size (write_cache s) = Z.of_nat (length d) ->
  f_slots (to_server (server s)) = full ++ [d] ->
  (f_next (to_server (server s)) <= length full)%nat ->
  drop (f_next (to_server (server s))) full = concat (wchunks <$> ws) -> Forall (fun w => w.2 <> []) ws ->
  ends WriteCache_flush s (wc_at t fd (ws ++ [(fd, d)]) []).
Proof.
  intros Ho Ht Hfd Hd Hle Hsz Hsl Hn Hdrop Hwne. assert (Hlen : (0 < length d)%nat) by (destruct d; [done|simpl; lia]).
  unfold WriteCache_flush. apply ends_get. apply ends_when; rewrite Hsz, ?negb_true_iff, ?negb_false_iff.
  2: { rewrite Z.eqb_eq. lia. }
  intros _. eexists. split; [reflexivity|]. split; [|done]. split; simpl.
  - by rewrite Ho, fmap_app, Hfd.
  - done.
  - lia.
  - exists (full ++ [d]). rewrite app_nil_r, Hsl, length_app. simpl. split_and!; [done|lia| |done].
    rewrite drop_app_le, Hdrop, fmap_app, concat_app by done. simpl. unfold wchunks at 3. simpl.
    by rewrite write_chunks_line by (done || lia).
  - apply Forall_app. split; [done|]. by apply Forall_singleton.
Qed.

Lemma wc_flush t fd ws d s :
  wc_at t fd ws d s -> ends WriteCache_flush s (wc_at t fd (close_line fd ws d) []).
Proof.
  intros ([Ho Hsz Hlt (full & Hsl & Hn & Hdrop & Hc) Hwne] & Ht & Hfd). unfold close_line. destruct (decide (d = [])) as [->|Hd].
  - exists s. split; [|split; [|done]].
    + unfold WriteCache_flush, bind, get. simpl. by rewrite Hsz.
    + split; try done. exists full. by rewrite decide_True.
  - eapply wc_flush_full; try done. lia.
Qed.

Lemma store_app d b : store d (length d) b = d ++ b.
Proof.
  unfold store. rewrite Nat.sub_diag, app_nil_r, firstn_all, drop_ge by lia. by rewrite app_nil_r.
Qed.

Lemma alter_snoc (full : list (list cell)) d (g : list cell -> list cell) :
  alter g (length full) (full ++ [d]) = full ++ [g d].
Proof. induction full as [|x full IH]; simpl; [done|]. f_equal. exact IH. Qed.

(** Adding to the line, which is reserved first when there is none. *)
Lemma wc_write_line t fd ws d b s :
  wc_at t fd ws d s -> Z.of_nat (length d) + Z.of_nat (length b) <= _max_line_size ->
  ends (WriteCache__write b) s (fun s' => exists ws' d', wc_at t fd ws' d' s' /\
    tagged ws' ++ (pair fd <$> d') = tagged ws ++ (pair fd <$> d) ++ (pair fd <$> b)).
Proof.
  intros ([Ho Hsz Hlt (full & Hsl & Hn & Hdrop & Hc) Hwne] & Ht & Hfd) Hle.
  unfold WriteCache__write. apply ends_when.
  2: { intros Hb%Z.ltb_ge. assert (b = []) as -> by (destruct b; [done|simpl in Hb; lia]).
       exists ws, d. rewrite app_nil_r. split; [|done]. split; [split|]; try done. by exists full. }
  intros Hb%Z.ltb_lt. apply ends_get.
  assert (Hne : d ++ b <> []) by (destruct d; [destruct b|]; done).
  set (s1 := set_write_cache {| wc_cache := Some (length full); wc_fd := wc_fd (write_cache s);
               wc_actual_size := wc_actual_size (write_cache s) + Z.of_nat (length b) |}
              (set_server (set_to_server {| f_slots := full ++ [d ++ b];
                 f_next := f_next (to_server (server s)) |} (server s)) s)).
  assert (Hq : to_server (server s1) = {| f_slots := full ++ [d ++ b]; f_next := f_next (to_server (server s)) |})
    by apply to_server_set.
  assert (Hs1 : wc_actual_size (write_cache s1) = Z.of_nat (length (d ++ b))).
  { simpl. rewrite Hsz, length_app. lia. }
  enough (Hrun : ends (when (wc_actual_size (write_cache s) + Z.of_nat (length b) =? _max_line_size) WriteCache_flush) s1
            (fun s' => exists ws' d', wc_at t fd ws' d' s' /\
               tagged ws' ++ (pair fd <$> d') = tagged ws ++ (pair fd <$> d) ++ (pair fd <$> b))).
  { destruct Hrun as (s' & Hrun & HQ). exists s'. split; [|exact HQ]. rewrite <- Hrun, Hc.
    assert (Hz : Z.to_nat (wc_actual_size (write_cache s)) = length d) by lia.
    destruct (decide (d = [])) as [->|Hd]; unfold bind, queue_reserve, poke_slot, modify, ret; simpl.
    - rewrite app_nil_r in Hsl. unfold s1. rewrite Hz, to_server_set, set_to_server_twice. simpl.
      rewrite Hsl, alter_snoc. by rewrite (store_app [] b : store [] 0 b = b).
    - unfold s1. rewrite Hz, Hsl, alter_snoc, store_app. done. }
  rewrite <- fmap_app. apply ends_when; intros Hm.
  - apply Z.eqb_eq in Hm. eapply ends_weaken.
    + apply (wc_flush_full t fd ws (d ++ b) s1 full); try done; try (rewrite Hq; done). rewrite length_app. lia.
    + intros s' Hs'. exists (ws ++ [(fd, d ++ b)]), []. split; [done|]. by rewrite tagged_snoc, app_nil_r.
  - apply Z.eqb_neq in Hm. exists ws, (d ++ b). split; [|done]. split; [|done]. split; try done.
    + rewrite length_app. lia.
    + exists full. rewrite Hq. simpl. rewrite !decide_False by done. done.
Qed.

(** The state after the stream [x], when the tables are [t] and the cache on [fd]. *)
Definition wc_stream (t : Filesystem) (fd : Z) (x : list (Z * cell)) (s : Client P) : Prop :=
  exists ws d, wc_at t fd ws d s /\ tagged ws ++ (pair fd <$> d) = x.

Lemma wc_switch fd fd' t x s :
  wc_stream t fd' x s ->
  ends (when (negb (wc_fd (write_cache s) =? fd)) (
    WriteCache_flush ;;
    modify (fun s => set_write_cache {| wc_cache := wc_cache (write_cache s); wc_fd := fd;
                                        wc_actual_size := wc_actual_size (write_cache s) |} s))) s
    (wc_stream t fd x).
Proof.
  intros (ws & d & Hat & Hx). assert (Hfd : wc_fd (write_cache s) = fd') by apply Hat. rewrite Hfd.
  apply ends_when; intros Hb.
  - eapply ends_bind; [by apply wc_flush|]. intros s1 ([Ho Hsz Hlt Hsl Hwne] & Ht & _). apply ends_modify.
    exists (close_line fd' ws d), []. split; [|by rewrite tagged_close_line, app_nil_r]. by split; [split|].
  - apply negb_false_iff, Z.eqb_eq in Hb as ->. by exists ws, d.
Qed.

(** A message of more than a line goes after its request, in lines of its own. *)
Lemma wc_write_long t fd ws b s :
  wc_at t fd ws [] s -> b <> [] ->
  ends (send (write_request (wc_fd (write_cache s)) (Z.of_nat (length b)) tid) ;; queue_write b) s
    (wc_at t fd (ws ++ [(fd, b)]) []).
Proof.
  intros ([Ho Hsz Hlt (full & Hsl & Hn & Hdrop & Hc) Hwne] & Ht & Hfd) Hb. simpl in Hsl. rewrite app_nil_r in Hsl.
  eexists. split; [reflexivity|]. split; [|done]. split; simpl; try done.
  - by rewrite Ho, fmap_app, Hfd.
  - rewrite to_server_set. simpl. exists (full ++ wchunks (fd, b)).
    rewrite app_nil_r, Hsl, length_app, drop_app_le, Hdrop, fmap_app, concat_app by done. simpl.
    rewrite app_nil_r. split_and!; [done|lia|done|done].
  - apply Forall_app. split; [done|]. by apply Forall_singleton.
Qed.

Lemma wc_write_body t fd x b s :
  wc_stream t fd x s ->
  ends (if Z.of_nat (length b) <=? _max_line_size - wc_actual_size (write_cache s) then WriteCache__write b
        else
          WriteCache_flush ;;
          let* s := get in
          if _max_line_size <? Z.of_nat (length b) - wc_actual_size (write_cache s) then
            send (write_request (wc_fd (write_cache s)) (Z.of_nat (length b)) tid) ;; queue_write b
          else WriteCache__write b) s
    (wc_stream t fd (x ++ (pair fd <$> b))).
Proof.
  intros (ws & d & Hat & Hx). assert (Hsz : wc_actual_size (write_cache s) = Z.of_nat (length d)) by apply Hat.
  rewrite Hsz. case_match eqn:Hle.
  - apply Z.leb_le in Hle. eapply ends_weaken; [apply (wc_write_line t fd ws d b s Hat); lia|].
    intros s' (ws' & d' & Hat' & Hx'). exists ws', d'. split; [done|]. by rewrite Hx', <- Hx, app_assoc.
  - apply Z.leb_gt in Hle. eapply ends_bind; [by apply wc_flush|]. intros s1 Hat1.
    assert (Hsz1 : wc_actual_size (write_cache s1) = 0) by apply Hat1.
    assert (Hx1 : tagged (close_line fd ws d) = x) by by rewrite tagged_close_line.
    apply ends_get. rewrite Hsz1. case_match eqn:Hlong.
    + apply Z.ltb_lt in Hlong.
      eapply ends_weaken; [apply (wc_write_long _ _ _ _ _ Hat1); intros ->; simpl in Hlong; lia|]. intros s2 Hat2. eexists _, _. split; [done|].
      by rewrite tagged_snoc, Hx1, app_nil_r.
    + apply Z.ltb_ge in Hlong. eapply ends_weaken; [apply (wc_write_line _ _ _ _ b _ Hat1); simpl; lia|].
      intros s2 (ws' & d' & Hat' & Hx'). exists ws', d'. split; [done|]. by rewrite Hx', Hx1.
Qed.

(** The tables after the offset of [fd] moved by [n]. *)
Definition advanced (fd n : Z) (t t' : Filesystem) : Prop :=
  exists f o, files t !! fd = Some f /\ offset_heap t !! cp_offset f = Some o /\
    t' = set_offset_heap (<[cp_offset f := o + n]> (offset_heap t)) t.

Lemma wc_stream_tables t t' fd x s : wc_stream t fd x s -> wc_stream t' fd x (set_tables t' s).
Proof. intros (ws & d & ([Ho Hsz Hlt Hsl Hwne] & _ & Hfd) & Hx). exists ws, d. split; [|done]. by split; [split|]. Qed.

Lemma wc_write t fd fd' x b s :
  fs_wf t -> is_Some (files t !! fd) -> wc_stream t fd' x s ->
  ends (WriteCache_write fd b) s
    (fun s' => exists t', advanced fd (Z.of_nat (length b)) t t' /\ wc_stream t' fd (x ++ (pair fd <$> b)) s').
Proof.
  intros Hwf [f Hf] Hs. destruct (wf_offsets t Hwf fd f Hf) as [o Ho].
  unfold WriteCache_write. apply ends_get. eapply ends_bind; [by eapply wc_switch|]. intros s1 Hs1. apply ends_get.
  eapply ends_bind; [by apply wc_write_body|]. intros s2 Hs2.
  assert (Ht : tables s2 = t) by by destruct Hs2 as (? & ? & (_ & ? & _) & _).
  set (t' := set_offset_heap (<[cp_offset f := o + Z.of_nat (length b)]> (offset_heap t)) t).
  exists (set_tables t' s2). split.
  - unfold bind, on_tables, zoom. rewrite Ht.
    assert (get_capio_fd_offset fd t = Done (o, t)) as Hg.
    { unfold get_capio_fd_offset, bind, file_at. rewrite Hf. simpl. by rewrite Ho. }
    rewrite Hg. simpl. unfold set_capio_fd_offset, bind, file_at. by rewrite Hf.
  - exists t'. split; [by exists f, o|]. by eapply wc_stream_tables.
Qed.

(** ** The whole run *)

(** The application's writes, and the flush that ends them. *)
Fixpoint write_all (writes : list (Z * list cell)) : M (Client P) unit :=
  match writes with
  | [] => WriteCache_flush
  | (fd, b) :: writes' => WriteCache_write fd b ;; write_all writes'
  end.
(** What the server takes from the data queue for the requests it finds: for
    each in order, as many bytes as it announces. *)
Fixpoint deliver (reqs : list (Z * Z)) : M Fifo (list (Z * cell)) :=
  match reqs with
  | [] => ret []
  | (fd, count) :: reqs' =>
      let* d := fifo_read _max_line_size count in
      let* rest := deliver reqs' in
      ret ((pair fd <$> d) ++ rest)
  end.
Definition announced (ws : list (Z * list cell)) : list (Z * Z) :=
  (fun w => (w.1, Z.of_nat (length w.2))) <$> ws.

Lemma deliver_spec ws f :
  fifo_pending f = concat (wchunks <$> ws) ->
  exists f', deliver (announced ws) f = Done (tagged ws, f') /\ fifo_pending f' = [].
Proof.
  revert f. induction ws as [|[fd d] ws IH]; intros f Hp; [by exists f|]. simpl in Hp.
  pose proof (fifo_read_spec _ d f _ line_pos Hp) as Hr.
  destruct (IH (fifo_skip (length (wchunks (fd, d))) f)) as (f' & Hd & Hf').
  { by eapply fifo_skip_pending. }
  exists f'. split; [|done]. simpl. unfold bind. rewrite Hr. simpl. unfold wchunks in Hd; simpl in Hd.
  by rewrite Hd.
Qed.

(** The offsets of the tables after some writes. *)
Fixpoint all_advanced (writes : list (Z * list cell)) (t t' : Filesystem) : Prop :=
  match writes with
  | [] => t' = t
  | (fd, b) :: writes' => exists t1, advanced fd (Z.of_nat (length b)) t t1 /\ all_advanced writes' t1 t'
  end.
Lemma advanced_wf fd n t t' : fs_wf t -> advanced fd n t t' -> fs_wf t' /\ files t' = files t.
Proof. intros Hwf (f & o & Hf & Ho & ->). split; [|done]. apply set_offset_heap_wf; [done|by eexists]. Qed.

Lemma write_all_stream writes t fd x s :
  fs_wf t -> Forall (fun w => is_Some (files t !! w.1)) writes -> wc_stream t fd x s ->
  ends (write_all writes) s (fun s' => exists t' fd' ws, all_advanced writes t t' /\
    wc_at t' fd' ws [] s' /\ tagged ws = x ++ tagged writes).
Proof.
  revert t fd x s. induction writes as [|[fd1 b] writes IH]; intros t fd x s Hwf Hopen Hs; simpl.
  - destruct Hs as (ws & d & Hat & Hx). eapply ends_weaken; [by apply wc_flush|]. intros s' Hs'.
    exists t, fd, (close_line fd ws d). split_and!; [done..|]. by rewrite tagged_close_line, Hx, app_nil_r.
  - apply Forall_cons in Hopen as [Hfd Hopen]. eapply ends_bind; [by eapply wc_write|].
    intros s1 (t1 & Hadv & Hs1). destruct (advanced_wf _ _ _ _ Hwf Hadv) as [Hwf1 Hfiles].
    rewrite <- Hfiles in Hopen.
    eapply ends_weaken; [exact (IH t1 fd1 _ s1 Hwf1 Hopen Hs1)|].
    intros s2 (t2 & fd2 & ws & Hall & Hat & Htag). exists t2, fd2, ws. split_and!; [by exists t1|done|].
    rewrite Htag, <- app_assoc. done.
Qed.
End WriteCache.

(** C16. The write cache is transparent: whatever the application writes, to
    whatever open descriptors and in whatever sizes, the write requests the
    client sends until the flush and the slots it fills are such that the
    server, taking for each request the bytes it announces, gets the bytes of
    the application in order, each with the descriptor it was written to, and
    leaves the data queue empty; and each write moved the offset of its
    descriptor by its size. *)
Theorem write_cache_transparent {P} `{PeerLaws P} `{Thread} writes (s : Client P) :
  0 < _max_line_size -> fs_wf (tables s) -> Forall (fun w => is_Some (files (tables s) !! w.1)) writes ->
  write_cache s = WriteCache_new -> outbox s = [] -> fifo_pending (to_server (server s)) = [] ->
  (f_next (to_server (server s)) <= length (f_slots (to_server (server s))))%nat ->
  exists s' reqs q, write_all writes s = Done (tt, s') /\
    outbox s' = (fun r => write_request r.1 r.2 tid) <$> reqs /\
    deliver reqs (to_server (server s')) = Done (tagged writes, q) /\ fifo_pending q = [] /\
    all_advanced writes (tables s) (tables s').
Proof.
  intros Hline Hwf Hopen Hc Ho Hp Hn.
  destruct (write_all_stream Hline writes (tables s) (-1) [] s) as (s' & Hrun & t' & fd' & ws & Hall & Hat & Htag);
    [done..| |].
  { exists [], []. split; [|done]. split; [|by rewrite Hc]. split; rewrite ?Hc; try done.
    exists (f_slots (to_server (server s))). by rewrite app_nil_r. }
  destruct Hat as ([Ho' _ _ (full & Hsl & _ & Hdrop & _)] & Ht' & _). simpl in Hsl. rewrite app_nil_r in Hsl.
  destruct (deliver_spec Hline ws (to_server (server s'))) as (q & Hd & Hq).
  { unfold fifo_pending. by rewrite Hsl. }
  exists s', (announced ws), q. split_and!; [done| | |done|by rewrite Ht'].
  - rewrite Ho'. unfold announced. rewrite <- list_fmap_compose. done.
  - rewrite Hd, Htag. done.
Qed.

(** ** The read cache *)

(** What a client relies on when it reads: the server has, for each descriptor,
    an offset and the bytes from there on; with no reply on its way, it answers a read request with the
    end of the data it sends, which is at most what was asked for, is not empty
    unless there is no more, and is all it puts in the data queue. *)
Class ReadingPeer (P : Type) `{Peer P} `{Thread} := {
  ahead : P -> Z -> list cell;
  position : P -> Z -> Z;
  ready : P -> Z -> Prop;
  read_served p fd n : ready p fd -> 0 < n < 2 ^ 63 ->
    exists p1 p2 d, serve (read_request fd n tid) p = Done p1 /\
      next_reply p1 = Some (position p fd + Z.of_nat (length d), p2) /\
      Z.of_nat (length d) <= n /\ d `prefix_of` ahead p fd /\ (d = [] -> ahead p fd = []) /\
      from_server p2 = fifo_write _max_line_size d (from_server p) /\
      ahead p2 fd = drop (length d) (ahead p fd) /\ position p2 fd = position p fd + Z.of_nat (length d) /\
      ready p2 fd;
  ready_set_from p fd q : ready p fd -> ready (set_from_server q p) fd;
  ahead_set_from p fd q : ahead (set_from_server q p) fd = ahead p fd;
  position_set_from p fd q : position (set_from_server q p) fd = position p fd
}.

Section ReadCache.
Context {P : Type} `{PeerLaws P} `{Thread} `{!ReadingPeer P}.
Hypothesis line_pos : 0 < _max_line_size < 2 ^ 63.

(** The cache holds [c], the bytes between the offset of the client and that of
    the server, and [x] are all the bytes from the offset of the client on. *)
Record rc_inv (fd o : Z) (c x : list cell) (s : Client P) : Prop := {
  ri_out : outbox s = [];
  ri_ready : ready (server s) fd;
  ri_size : rc_actual_size (read_cache s) - rc_cache_offset (read_cache s) = Z.of_nat (length c);
  ri_pos : 0 <= rc_cache_offset (read_cache s);
  ri_fd : c = [] \/ rc_last_fd (read_cache s) = fd;
  ri_line : c `prefix_of` drop (Z.to_nat (rc_cache_offset (read_cache s)))
                               (slot_at (from_server (server s)) (rc_cache (read_cache s)));
  ri_next : f_next (from_server (server s)) = length (f_slots (from_server (server s)));
  ri_ahead : x = c ++ ahead (server s) fd;
  ri_server : position (server s) fd = o + Z.of_nat (length c)
}.

(** The client's own offset of [fd]. *)
Definition at_offset (fd o : Z) (t : Filesystem) : Prop :=
  exists f, files t !! fd = Some f /\ offset_heap t !! cp_offset f = Some o.

(** [m] returns [a] with [Q a]. *)
Definition gives {S A} (m : M S A) (s : S) (Q : A -> S -> Prop) : Prop := exists a s', m s = Done (a, s') /\ Q a s'.
Lemma gives_bind {S A B} (m : M S A) (k : A -> M S B) s Q R :
  gives m s Q -> (forall a s', Q a s' -> gives (k a) s' R) -> gives (bind m k) s R.
Proof.
  intros (a & s1 & E1 & HQ) Hk. destruct (Hk a s1 HQ) as (b & s2 & E2 & HR). exists b, s2. unfold bind. by rewrite E1.
Qed.
Lemma gives_ret {S A} (a : A) (s : S) (Q : A -> S -> Prop) : Q a s -> gives (ret a) s Q.
Proof. intros HQ. by exists a, s. Qed.

Lemma slot_bytes_prefix (c d : list cell) n :
  c `prefix_of` d -> 0 <= n <= Z.of_nat (length c) -> slot_bytes d n = take (Z.to_nat n) c.
Proof.
  intros [e ->] Hn. unfold slot_bytes. rewrite <- app_assoc, take_app_le by lia. done.
Qed.

(** Taking [n] bytes from the line. *)
Lemma rc_take fd o c x n s :
  rc_inv fd o c x s -> 0 <= n <= Z.of_nat (length c) ->
  gives (ReadCache__read n) s (fun d s' => d = take (Z.to_nat n) c /\
    tables s' = tables s /\ server s' = server s /\ outbox s' = [] /\
    rc_cache (read_cache s') = rc_cache (read_cache s) /\ rc_last_fd (read_cache s') = rc_last_fd (read_cache s) /\
    rc_actual_size (read_cache s') = rc_actual_size (read_cache s) /\
    rc_cache_offset (read_cache s') = rc_cache_offset (read_cache s) + n).
Proof.
  intros Hi Hn. unfold ReadCache__read. destruct (Z.ltb_spec 0 n) as [Hp|Hz].
  - eexists _, _. split; [reflexivity|]. cbn -[slot_bytes]. split_and!; try done.
    + apply slot_bytes_prefix; [apply Hi|done].
    + apply Hi.
  - assert (n = 0) as -> by lia. apply gives_ret. split_and!; try done; [apply Hi|lia].
Qed.

(** Asking for [n] more bytes of [fd]. *)
Lemma rc_ask fd n (s : Client P) is64bit :
  outbox s = [] -> ready (server s) fd -> 0 < n < 2 ^ 63 ->
  gives (fetch_request fd n false is64bit) s (fun e s' => exists d,
    e = position (server s) fd + Z.of_nat (length d) /\ Z.of_nat (length d) <= n /\
    d `prefix_of` ahead (server s) fd /\ (d = [] -> ahead (server s) fd = []) /\
    from_server (server s') = fifo_write _max_line_size d (from_server (server s)) /\
    ahead (server s') fd = drop (length d) (ahead (server s) fd) /\
    position (server s') fd = position (server s) fd + Z.of_nat (length d) /\ ready (server s') fd /\
    outbox s' = [] /\ tables s' = tables s /\ read_cache s' = read_cache s).
Proof.
  intros Ho Hready Hn. destruct (read_served (server s) fd n Hready Hn) as (p1 & p2 & d & E1 & E2 & Hd).
  exists (position (server s) fd + Z.of_nat (length d)), (set_server p2 (set_outbox [] s)). split.
  - unfold fetch_request, ask, bind, send, modify, wait_reply. simpl. rewrite Ho. simpl. rewrite E1. simpl. by rewrite E2.
  - exists d. naive_solver.
Qed.

(** What a read of at most [count] bytes gives when [x] are the next ones, of which
    the line has [c]; a read of more than a line leaves an empty line empty. *)
Definition reads (fd o : Z) (c : list cell) (count : Z) (x : list cell) (t : Filesystem) (r : Z * list cell) (s : Client P) : Prop :=
  r.1 = Z.of_nat (length r.2) /\ r.1 <= count /\ r.2 `prefix_of` x /\ (r.1 = 0 -> x = []) /\
  tables s = t /\ exists c', (c = [] -> _max_line_size < count -> c' = []) /\ rc_inv fd (o + r.1) c' (drop (length r.2) x) s.

Lemma prefix_take {A} n (l : list A) : take n l `prefix_of` l.
Proof. exists (drop n l). by rewrite take_drop. Qed.

Lemma drop_prefix {A} n (c l : list A) : c `prefix_of` l -> drop n c `prefix_of` drop n l.
Proof.
  intros [e ->]. destruct (decide (n <= length c)%nat).
  - rewrite drop_app_le by done. by eexists.
  - rewrite (drop_ge c) by lia. apply prefix_nil.
Qed.

(** *** The line has enough *)
Lemma rc_take_inv fd o c x n s :
  rc_inv fd o c x s -> 0 <= n <= Z.of_nat (length c) ->
  gives (ReadCache__read n) s (fun d s' => d = take (Z.to_nat n) c /\ tables s' = tables s /\
    rc_inv fd (o + n) (drop (Z.to_nat n) c) (drop (Z.to_nat n) x) s').
Proof.
  intros Hi Hn. destruct (rc_take _ _ _ _ n _ Hi Hn) as (d & s' & E & -> & Ht & Hs & Ho & Hc & Hl & Ha & Hoff).
  exists (take (Z.to_nat n) c), s'. split; [done|]. split; [done|]. split; [done|].
  pose proof Hi as [Hi1 Hi0 Hi2 Hi3 Hi4 Hi5 Hi6 Hi7 Hi8].
  assert (Hd : Z.of_nat (length (drop (Z.to_nat n) c)) = Z.of_nat (length c) - n) by (rewrite length_drop; lia).
  split; rewrite ?Hs, ?Hc, ?Hl, ?Ha, ?Hoff, ?Hd; try done; try lia.
  - destruct Hi4 as [->|]; [left; by rewrite drop_nil|by right].
  - rewrite Z2Nat.inj_add, <- drop_drop by lia. by apply drop_prefix.
  - subst x. by rewrite drop_app_le by lia.
Qed.

Lemma rc_hit fd o c x count s :
  rc_inv fd o c x s -> 0 < count <= Z.of_nat (length c) ->
  gives (let* d := ReadCache__read count in ret (count, d)) s (reads fd o c count x (tables s)).
Proof.
  intros Hi Hn. eapply gives_bind; [apply (rc_take_inv _ _ _ _ count _ Hi); lia|].
  intros d s' (-> & Ht & Hi'). apply gives_ret. unfold reads; cbn [fst snd].
  assert (Hlen : length (take (Z.to_nat count) c) = Z.to_nat count) by (rewrite length_take; lia).
  rewrite Hlen. split_and!; [lia|lia| |lia|done|].
  - rewrite (ri_ahead _ _ _ _ _ Hi). apply prefix_app_r, prefix_take.
  - eexists. split; [|done]. intros ->. simpl in Hn. lia.
Qed.

(** *** A long read, with nothing in the line *)
Lemma rc_long fd o x count s is64bit :
  rc_inv fd o [] x s -> 0 < count < 2 ^ 63 ->
  gives (let* end_of_read := fetch_request fd count false is64bit in
         let bytes_read := end_of_read - o in
         let* d' := queue_read bytes_read in ret (bytes_read, [] ++ d')) s (reads fd o [] count x (tables s)).
Proof.
  intros Hi Hn. pose proof Hi as [Hi1 Hi0 Hi2 Hi3 Hi4 Hi5 Hi6 Hi7 Hi8]. simpl in Hi7, Hi8. rewrite Z.add_0_r in Hi8.
  eapply gives_bind; [by apply rc_ask|].
  intros e s1 (d & -> & Hle & Hpre & Hz & Hfrom & Hah & Hpos & Hready & Ho & Ht & Hrc).
  replace (position (server s) fd + Z.of_nat (length d) - o) with (Z.of_nat (length d)) by lia.
  assert (Hp : fifo_pending (from_server (server s1)) = write_chunks _max_line_size d ++ []).
  { rewrite Hfrom, app_nil_r. unfold fifo_pending, fifo_write, fifo_pushes. simpl. rewrite Hi6.
    by rewrite drop_app_length. }
  pose proof (fifo_read_spec _ d _ _ (proj1 line_pos) Hp) as Hr.
  eexists _, _. split.
  { unfold bind, queue_read. rewrite (proj2 (Z.ltb_ge _ _)) by lia. rewrite Hr. simpl. reflexivity. }
  unfold reads; simpl. split_and!; [done|done|by rewrite Hi7| |done|].
  { intros Hd. rewrite Hi7. apply Hz. by destruct d. }
  exists []. split; [done|]. split; simpl; rewrite ?Hrc, ?from_server_set; try done.
  - by apply ready_set_from.
  - apply prefix_nil.
  - rewrite Hfrom. simpl. rewrite length_app. lia.
  - rewrite ahead_set_from, Hah. by subst x.
  - rewrite position_set_from, Hpos. lia.
Qed.

(** *** A short read, which fetches a line *)
Lemma gives_bind2 {S B} (m1 m2 : M S unit) (k : M S B) s (Q : unit -> S -> Prop) R :
  gives (m1 ;; m2) s Q -> (forall s', Q tt s' -> gives k s' R) -> gives (m1 ;; m2 ;; k) s R.
Proof.
  intros ([] & s1 & E & HQ) Hk. destruct (Hk s1 HQ) as (b & s2 & E2 & HR). exists b, s2. split; [|done].
  unfold bind in *. destruct (m1 s) as [[[] s']| | | |]; try done. simpl in *. by rewrite E.
Qed.

(** The cache after the server sent [d] as a new line. *)
Lemma rc_new_line fd o c x s s1 d :
  rc_inv fd o c x s -> outbox s1 = [] -> ready (server s1) fd -> rc_last_fd (read_cache s1) = fd ->
  Z.of_nat (length d) <= _max_line_size ->
  from_server (server s1) = fifo_write _max_line_size d (from_server (server s)) ->
  ahead (server s1) fd = drop (length d) (ahead (server s) fd) -> d `prefix_of` ahead (server s) fd ->
  position (server s1) fd = position (server s) fd + Z.of_nat (length d) ->
  gives (set_line (Z.of_nat (length d)) 0 ;;
         when (0 <? Z.of_nat (length d)) (let* i := queue_fetch in set_cache_slot i)) s1
    (fun _ s2 => rc_inv fd (o + Z.of_nat (length c)) d (ahead (server s) fd) s2 /\
       tables s2 = tables s1 /\ rc_last_fd (read_cache s2) = fd).
Proof.
  intros Hi Ho Hready Hl Hle Hfrom Hah [e He] Hpos. pose proof Hi as [Hi1 Hi0 Hi2 Hi3 Hi4 Hi5 Hi6 Hi7 Hi8].
  assert (Hrest : ahead (server s) fd = d ++ ahead (server s1) fd) by by rewrite Hah, He, drop_app_length.
  destruct d as [|b d'].
  - eexists _, _. split; [reflexivity|]. split; [|done].
    simpl in Hpos. split; simpl; [done|done|lia|lia|by left|apply prefix_nil| |done|lia].
    rewrite Hfrom. simpl. by rewrite app_nil_r.
  - assert (Hc : write_chunks _max_line_size (b :: d') = [b :: d']) by (apply write_chunks_line; [lia|simpl; lia|done]).
    set (d := b :: d') in *.
    assert (Hq : from_server (server s1) = fifo_push d (from_server (server s))) by by rewrite Hfrom; unfold fifo_write; rewrite Hc.
    assert (Hpop : fifo_pop (from_server (server s1)) = Some (d, {| f_slots := f_slots (from_server (server s)) ++ [d];
               f_next := S (length (f_slots (from_server (server s)))) |})).
    { rewrite Hq. unfold fifo_pop. simpl. rewrite Hi6. by rewrite lookup_app_r, Nat.sub_diag by done. }
    eexists _, _. split.
    { unfold bind, set_line, modify, queue_fetch. simpl. rewrite Hpop. simpl. reflexivity. }
    split; [|done]. split; simpl; rewrite ?from_server_set; try done.
    + by apply ready_set_from.
    + lia.
    + unfold slot_at. simpl. rewrite Hq. simpl. rewrite Hi6, lookup_app_r, Nat.sub_diag by done. done.
    + simpl. rewrite length_app. simpl. lia.
    + by rewrite ahead_set_from.
    + by rewrite position_set_from, Hpos, Hi8.
Qed.

Lemma rc_short fd o c x count s is64bit :
  rc_inv fd o c x s -> rc_last_fd (read_cache s) = fd -> Z.of_nat (length c) < count ->
  count - Z.of_nat (length c) <= _max_line_size ->
  gives (let* d := ReadCache__read (Z.of_nat (length c)) in
         let* end_of_read := fetch_request fd _max_line_size false is64bit in
         let actual_size := end_of_read - o - Z.of_nat (length c) in
         set_line actual_size 0 ;;
         when (0 <? actual_size) (let* i := queue_fetch in set_cache_slot i) ;;
         if count - Z.of_nat (length c) <? actual_size then
           let* d' := ReadCache__read (count - Z.of_nat (length c)) in ret (count, d ++ d')
         else
           let* d' := ReadCache__read actual_size in ret (Z.of_nat (length c) + actual_size, d ++ d')) s
    (reads fd o c count x (tables s)).
Proof.
  intros Hi Hl Hn Hline. pose proof Hi as [Hi1 Hi0 Hi2 Hi3 Hi4 Hi5 Hi6 Hi7 Hi8].
  eapply gives_bind; [apply (rc_take _ _ _ _ _ _ Hi); lia|]. rewrite Nat2Z.id, firstn_all.
  intros d0 s0 (-> & Ht0 & Hs0 & Ho0 & _ & Hl0 & _).
  eapply gives_bind; [apply rc_ask; [done|by rewrite Hs0|done]|]. rewrite Hs0.
  intros e s1 (d & -> & Hle & Hpre & Hz & Hfrom & Hah & Hpos & Hready & Ho & Ht & Hrc).
  replace (position (server s) fd + Z.of_nat (length d) - o - Z.of_nat (length c)) with (Z.of_nat (length d)) by lia.
  eapply gives_bind2; [eapply (rc_new_line fd o c x s s1 d); try done; by rewrite Hrc, Hl0|].
  intros s2 (Hi' & Ht2 & _). rewrite Ht, Ht0 in Ht2. set (n := Z.min (count - Z.of_nat (length c)) (Z.of_nat (length d))).
  assert (Hgoal : gives (let* d' := ReadCache__read n in ret (Z.of_nat (length c) + n, c ++ d')) s2
                    (reads fd o c count x (tables s))).
  { eapply gives_bind; [apply (rc_take_inv _ _ _ _ n _ Hi'); lia|]. intros d' s3 (-> & Ht3 & Hi3'). apply gives_ret.
    assert (Hlen : length (c ++ take (Z.to_nat n) d) = (length c + Z.to_nat n)%nat) by (rewrite length_app, length_take; lia).
    unfold reads; cbn [fst snd]. rewrite Hlen, Hi7. split_and!; [lia|lia| | |congruence|].
    - apply prefix_app. etrans; [apply prefix_take|done].
    - intros Hzero. assert (c = []) as -> by (destruct c; [done|simpl in Hzero; lia]). apply Hz. destruct d; [done|simpl in *; lia].
    - eexists. split; [intros ->; simpl in Hline; lia|]. rewrite <- drop_drop, drop_app_length, Z.add_assoc. exact Hi3'. }
  case_match eqn:Hlt.
  - apply Z.ltb_lt in Hlt. replace (count - Z.of_nat (length c)) with n by lia.
    assert (Hcount : Z.of_nat (length c) + n = count) by lia. rewrite Hcount in Hgoal. exact Hgoal.
  - apply Z.ltb_ge in Hlt. replace (Z.of_nat (length d)) with n by lia. exact Hgoal.
Qed.

(** ** A read *)

(** Changing to another descriptor with an empty cache asks the server for nothing. *)
Lemma rc_switch fd o c x s :
  rc_inv fd o c x s ->
  gives (when (negb (rc_last_fd (read_cache s) =? fd)) (ReadCache_flush ;; set_last_fd fd)) s
    (fun _ s' => rc_inv fd o c x s' /\ rc_last_fd (read_cache s') = fd /\ tables s' = tables s).
Proof.
  intros Hi. destruct (Z.eqb_spec (rc_last_fd (read_cache s)) fd) as [E|E]; simpl; [by exists tt, s|].
  pose proof Hi as [Hi1 Hi0 Hi2 Hi3 [->|Hi4] Hi5 Hi6 Hi7 Hi8]; [|done].
  simpl in Hi2. eexists _, _. split.
  - unfold ReadCache_flush, bind, get. simpl. rewrite (proj2 (Z.eqb_eq _ _)) by lia. simpl. reflexivity.
  - split; [|done]. split; simpl; try done. by left.
Qed.

Lemma at_offset_get fd o t : at_offset fd o t -> get_capio_fd_offset fd t = Done (o, t).
Proof. intros (f & Hf & Ho). unfold get_capio_fd_offset, bind, file_at. rewrite Hf. simpl. by rewrite Ho. Qed.
Lemma at_offset_set fd o o' t :
  at_offset fd o t -> exists t', set_capio_fd_offset fd o' t = Done (tt, t') /\ at_offset fd o' t'.
Proof.
  intros (f & Hf & _). eexists. split.
  - unfold set_capio_fd_offset, bind, file_at. rewrite Hf. reflexivity.
  - exists f. split; [done|]. simpl. by rewrite lookup_insert_eq.
Qed.

Lemma gives_get {S A} (k : S -> M S A) s R : gives (k s) s R -> gives (bind get k) s R.
Proof. done. Qed.
Lemma gives_offset fd o (s : Client P) :
  at_offset fd o (tables s) -> gives (on_tables (get_capio_fd_offset fd)) s (fun a s' => a = o /\ s' = s).
Proof.
  intros Ho. exists o, s. split; [|done]. unfold on_tables, zoom. rewrite (at_offset_get _ _ _ Ho). by destruct s.
Qed.

Lemma rc_inv_tables fd o c x t s : rc_inv fd o c x s -> rc_inv fd o c x (set_tables t s).
Proof. intros [Hi1 Hi0 Hi2 Hi3 Hi4 Hi5 Hi6 Hi7 Hi8]. by split. Qed.

Lemma rc_read fd o c x count s :
  rc_inv fd o c x s -> at_offset fd o (tables s) -> 0 < count ->
  c = [] /\ count < 2 ^ 63 \/ count - Z.of_nat (length c) <= _max_line_size ->
  gives (ReadCache_read fd count false false) s (fun r s' =>
    r.1 = Z.of_nat (length r.2) /\ r.1 <= count /\ r.2 `prefix_of` x /\ (r.1 = 0 -> x = []) /\
    at_offset fd (o + r.1) (tables s') /\
    exists c', (c = [] -> _max_line_size < count -> c' = []) /\ rc_inv fd (o + r.1) c' (drop (length r.2) x) s').
Proof.
  intros Hi Hoff Hn Hside. unfold ReadCache_read. apply gives_get.
  eapply gives_bind; [by apply rc_switch|]. intros [] s1 (Hi1 & Hl1 & Ht1). apply gives_get.
  rewrite <- Ht1 in Hoff. eapply gives_bind; [by apply gives_offset|]. intros ? s1' (-> & ->).
  rewrite (ri_size _ _ _ _ _ Hi1). eapply gives_bind with (Q := reads fd o c count x (tables s1)).
  - destruct (Z.leb_spec count (Z.of_nat (length c))) as [Hle|Hgt].
    + by apply (rc_hit fd o c).
    + destruct (Z.ltb_spec _max_line_size (count - Z.of_nat (length c))) as [Hlong|Hshort]; simpl.
      * destruct Hside as [[-> ?]|]; [|lia]. simpl. rewrite Z.sub_0_r in *. by apply (rc_long fd o x count s1).
      * by apply (rc_short fd o c x count s1).
  - intros [n d] s2 (Hnd & Hcount & Hpre & Hz & Ht2 & c' & Hc' & Hi2). simpl in *.
    rewrite <- Ht2 in Hoff. destruct (at_offset_set fd o (o + n) (tables s2) Hoff) as (t' & Et & Hoff').
    exists (n, d), (set_tables t' s2). split; [unfold bind, on_tables, zoom; by rewrite Et|].
    simpl. split_and!; [done..|]. exists c'. split; [done|]. by apply rc_inv_tables.
Qed.

(** A sequence of reads, and what each returned. *)
Fixpoint read_all (fd : Z) (counts : list Z) : M (Client P) (list (list cell)) :=
  match counts with
  | [] => ret []
  | n :: counts' =>
      let* (_, d) := ReadCache_read fd n false false in
      let* ds := read_all fd counts' in ret (d :: ds)
  end.

(** Each read got the next bytes of [x], no more than its count, and none only when
    there is no more. *)
Fixpoint in_order (counts : list Z) (ds : list (list cell)) (x : list cell) : Prop :=
  match counts, ds with
  | [], [] => True
  | n :: counts', d :: ds' => Z.of_nat (length d) <= n /\ d `prefix_of` x /\ (d = [] -> x = []) /\ in_order counts' ds' (drop (length d) x)
  | _, _ => False
  end.
(** The sizes of reads that the cache serves rightly: reads of more than a line, then
    reads of at most a line. *)
Definition sizes_ok (counts : list Z) : Prop :=
  exists long short, counts = long ++ short /\ Forall (fun n => _max_line_size < n < 2 ^ 63) long /\
    Forall (fun n => 0 < n <= _max_line_size) short.

Lemma in_order_prefix counts ds x : in_order counts ds x -> concat ds `prefix_of` x.
Proof.
  revert ds x. induction counts as [|n counts IH]; intros [|d ds] x; simpl; try done; [intros; apply prefix_nil|].
  intros (_ & [e ->] & _ & Hin%IH). rewrite drop_app_length in Hin. by apply prefix_app.
Qed.

Lemma rc_read_all fd counts o c x s :
  rc_inv fd o c x s -> at_offset fd o (tables s) ->
  c = [] /\ sizes_ok counts \/ Forall (fun n => 0 < n <= _max_line_size) counts ->
  gives (read_all fd counts) s (fun ds s' => in_order counts ds x /\
    at_offset fd (o + Z.of_nat (length (concat ds))) (tables s')).
Proof.
  revert o c x s. induction counts as [|n counts IH]; intros o c x s Hi Hoff Hc; simpl.
  { apply gives_ret. by rewrite Z.add_0_r. }
  assert (Hn : 0 < n /\ (c = [] /\ n < 2 ^ 63 \/ n - Z.of_nat (length c) <= _max_line_size) /\
    (forall c' : list cell, (c = [] -> _max_line_size < n -> c' = []) ->
       c' = [] /\ sizes_ok counts \/ Forall (fun n => 0 < n <= _max_line_size) counts)).
  { destruct Hc as [[-> (long & short & E & Hl & Hs)]|[Hn Hc]%Forall_cons].
    - destruct long as [|m long]; simpl in E; [subst short|injection E as <- ->]; [apply Forall_cons in Hs as [Hn Hs]|apply Forall_cons in Hl as [Hn Hl]].
      + split; [lia|]. split; [right; simpl; lia|]. intros c' _. by right.
      + split; [lia|]. split; [left; split; [done|lia]|]. intros c' ->; [|done|lia]. left. split; [done|]. by exists long, short.
    - split; [lia|]. split; [right; lia|]. intros c' _. by right. }
  destruct Hn as (Hpos & Hside & Hnext).
  eapply gives_bind; [by apply (rc_read fd o c x n s Hi Hoff)|].
  intros [k d] s1 (Hk & Hle & Hpre & Hz & Hoff1 & c1 & Hc1 & Hi1). simpl in *. subst k.
  eapply gives_bind; [eapply IH; [done|done|by apply Hnext]|]. intros ds s2 (Hin & Hoff2). apply gives_ret. split_and!; try done.
  - intros ->. by apply Hz.
  - simpl. rewrite length_app, Nat2Z.inj_add, Z.add_assoc. exact Hoff2.
Qed.
End ReadCache.

(** C17. The read cache is transparent. From an empty cache, with no request waiting to be sent, over any sequence
    of reads of more than a line and then of reads of at most a line, each read of the application
    gets, prefetched or not, the next bytes the server has for the descriptor,
    from its offset on, no more than its count, and none only when there is no
    more; the offset ends after them. (A read of more than a line that finds
    a part of a line prefetched goes wrong, [long_read_after_prefetch_misreads].) *)
Theorem read_cache_transparent {P} `{PeerLaws P} `{Thread} `{!ReadingPeer P} fd counts o (s : Client P) :
  0 < _max_line_size < 2 ^ 63 -> sizes_ok counts ->
  read_cache s = ReadCache_new -> outbox s = [] -> ready (server s) fd -> at_offset fd o (tables s) -> position (server s) fd = o ->
  f_next (from_server (server s)) = length (f_slots (from_server (server s))) ->
  exists ds s', read_all fd counts s = Done (ds, s') /\ in_order counts ds (ahead (server s) fd) /\
    at_offset fd (o + Z.of_nat (length (concat ds))) (tables s').
Proof.
  intros Hline Hc Hrc Ho Hready Hoff Hpos Hn. apply (rc_read_all Hline fd counts o []); [|done|by left].
  split; rewrite ?Hrc; try done; [by left|apply prefix_nil|]. rewrite Hpos. simpl. lia.
Qed.

(** ** A small server *)

(** One file, read through any descriptor at one offset. *)
Record FileServer : Type := {
  fsv_to : Fifo; fsv_from : Fifo; fsv_replies : list Z; fsv_file : list cell; fsv_offset : Z }.

#[export] Instance file_server_thread : Thread := {| tid := 4242; _max_line_size := 4 |}.

Definition fsv_serve (c : call) (p : FileServer) : outcome FileServer :=
  match c_code c, c_fields c with
  | 14, [_; _; F_ld n] =>
      let d := take (Z.to_nat n) (drop (Z.to_nat (fsv_offset p)) (fsv_file p)) in
      let o := fsv_offset p + Z.of_nat (length d) in
      Done {| fsv_to := fsv_to p; fsv_from := fifo_write 4 d (fsv_from p); fsv_replies := fsv_replies p ++ [o];
              fsv_file := fsv_file p; fsv_offset := o |}
  | 16, [_; _; F_zu n] =>
      Done {| fsv_to := fsv_to p; fsv_from := fsv_from p; fsv_replies := fsv_replies p ++ [n];
              fsv_file := fsv_file p; fsv_offset := n |}
  | _, _ => Done p
  end.
#[export] Instance file_server : Peer FileServer := {|
  serve := fsv_serve;
  next_reply p := match fsv_replies p with
    | v :: r => Some (v, {| fsv_to := fsv_to p; fsv_from := fsv_from p; fsv_replies := r;
                            fsv_file := fsv_file p; fsv_offset := fsv_offset p |})
    | [] => None
    end;
  to_server := fsv_to;
  set_to_server q p := {| fsv_to := q; fsv_from := fsv_from p; fsv_replies := fsv_replies p;
                          fsv_file := fsv_file p; fsv_offset := fsv_offset p |};
  from_server := fsv_from;
  set_from_server q p := {| fsv_to := fsv_to p; fsv_from := q; fsv_replies := fsv_replies p;
                            fsv_file := fsv_file p; fsv_offset := fsv_offset p |} |}.
#[export] Instance file_server_laws : PeerLaws FileServer.
Proof. by split. Qed.
#[export] Instance file_server_reads : ReadingPeer FileServer.
Proof.
  refine {| ahead p _ := drop (Z.to_nat (fsv_offset p)) (fsv_file p); position p _ := fsv_offset p;
            ready p _ := fsv_replies p = [] /\ 0 <= fsv_offset p |}; [|done..].
  intros p fd n [Hr Ho] Hn. set (d := take (Z.to_nat n) (drop (Z.to_nat (fsv_offset p)) (fsv_file p))).
  eexists _, _, d. split; [reflexivity|]. simpl. rewrite Hr. fold d. split; [reflexivity|].
  assert (Hd : (length d <= Z.to_nat n)%nat) by (unfold d; rewrite length_take; lia). split_and!; try done; simpl.
  - lia.
  - apply prefix_take.
  - intros E. unfold d in E. destruct (drop _ _); [done|]. destruct (Z.to_nat n) eqn:En; [lia|done].
  - rewrite drop_drop. f_equal. lia.
  - lia.
Defined.

(** A client of the small server, with the file [demo_file] open. *)
Definition demo_file : list cell := Some <$> [x61; x62; x63; x64; x65; x66; x67; x68; x69; x6a; x6b; x6c].
Definition demo_client : Client FileServer := {|
  tables := demo_fs; read_cache := ReadCache_new; write_cache := WriteCache_new; outbox := [];
  server := {| fsv_to := fifo_new; fsv_from := fifo_new; fsv_replies := []; fsv_file := demo_file; fsv_offset := 0 |} |}.

Lemma write_cache_transparent_witness :
  let writes := [(3, [Some x61; Some x62]); (3, [Some x63; Some x64; Some x65]); (4, demo_file); (3, [Some x66])] in
  exists s' reqs q, write_all writes demo_client = Done (tt, s') /\
    deliver reqs (to_server (server s')) = Done (tagged writes, q) /\ fifo_pending q = [].
Proof.
  intros writes.
  destruct (write_cache_transparent writes demo_client) as (s' & reqs & q & E & _ & Hd & Hq & _).
  - vm_compute; reflexivity.
  - exact (fs_reachable_wf "/" demo_fs demo_fs_reachable).
  - repeat constructor; by eexists.
  - reflexivity.
  - reflexivity.
  - reflexivity.
  - vm_compute; lia.
  - exists s', reqs, q. split; [exact E|]. split; [exact Hd|exact Hq].
Defined.

Lemma read_cache_transparent_witness :
  exists ds s', read_all 3 [5; 2; 3; 1; 4] demo_client = Done (ds, s') /\ in_order [5; 2; 3; 1; 4] ds demo_file /\
    at_offset 3 (0 + Z.of_nat (length (concat ds))) (tables s').
Proof.
  destruct (read_cache_transparent 3 [5; 2; 3; 1; 4] 0 demo_client) as (ds & s' & E & Hd & Ho).
  - vm_compute; split; reflexivity.
  - exists [5], [2; 3; 1; 4]. split; [reflexivity|]. split; repeat constructor; simpl; lia.
  - reflexivity.
  - reflexivity.
  - split; [reflexivity|simpl; lia].
  - eexists. split; reflexivity.
  - reflexivity.
  - reflexivity.
  - exists ds, s'. split; [exact E|]. split; [exact Hd|exact Ho].
Defined.

(** A read of more than a line that finds data in the cache asks the data
    queue for the cached bytes a second time.  After a read of 2 bytes has left
    2 in the cache, a read of 7 stores 9 bytes in the buffer of 7, and one of 10
    waits for a slot that the server has no reason to fill. *)
Theorem long_read_after_prefetch_misreads :
  match ReadCache_read 3 2 false false demo_client with
  | Done ((n, d), s) =>
      n = 2 /\ d = [Some x61; Some x62] /\
      (exists d' s', ReadCache_read 3 7 false false s = Done ((7, d'), s') /\ length d' = 9%nat) /\
      ReadCache_read 3 10 false false s = Blocks "sem_num_elems"
  | _ => False
  end.
Proof. vm_compute. split_and!; try reflexivity. eexists _, _. split; reflexivity. Qed.
