(* ===== verification/PosixCalls.v ===== *)
(** * The system calls on paths

    [posix/handlers/open.hpp], [mkdir.hpp], [unlink.hpp], [access.hpp],
    [chdir.hpp], [getcwd.hpp] and [rename.hpp]: each resolves its path, decides
    whether it is in the CAPIO directory, asks the server and updates the tables.
    What the kernel answers to the calls they make is in [Kernel] and in the
    arguments; the flags are those of Linux on x86-64. *)
From S2P Require Import Prelude Text Memory Queue Server StorageManager Requests PosixPath PosixFs PosixCache PosixCacheProps.

Definition O_CREAT : Z := 64.
Definition O_EXCL : Z := 128.
Definition O_APPEND : Z := 1024.
Definition O_LARGEFILE : Z := 0.
Definition O_DIRECTORY : Z := 65536.
Definition AT_REMOVEDIR : Z := 512.
Definition ENONET : Z := 64.
Definition ERANGE : Z := 34.
Definition has_flag (flags f : Z) : bool := Z.land flags f =? f.

(** [std::filesystem::copy] of a file of the kernel, and [errno] after it.  It makes
    system calls that are intercepted again, so that it may change the client; a
    [filesystem_error] is an exception. *)
Class FilesystemCopy (P : Type) : Type := { filesystem_copy : string -> string -> Z -> M (Client P) Z }.

Section Calls.
Context {P : Type} `{Peer P} `{Thread} `{Kernel} `{FilesystemCopy P} (capio_dir : string).

(** [is_directory] calls the [fstat] of libc, whose system call is intercepted again:
    on a descriptor of CAPIO the handler of [fstat] answers it ([fstat_of_handler] in
    [PosixStat]), on another one the kernel.  A failed [fstat] returns -1 from a
    function of type [bool]. *)
Definition is_directory (dirfd : Z) : M (Client P) bool :=
  let* ex := on_tables (exists_capio_fd dirfd) in
  if ex then
    WriteCache_flush ;;
    PosixCache.send (fstat_request dirfd tid) ;;
    let* file_size := wait_reply in
    let* dir := wait_reply in
    if file_size =? -1 then ret true
    else let* _ := on_tables (get_capio_fd_path dirfd) in ret (negb (dir =? 0))
  else ret (default true (fstat_isdir dirfd)).

(** A relative path under the directory of [dirfd], or nothing when the call is
    left to the kernel. *)
Definition under_dirfd (dirfd : Z) (path : string) : M (Client P) (option string) :=
  let* dir := is_directory dirfd in
  if negb dir then ret None
  else
    let* dir_path := on_tables (get_dir_path dirfd) in
    if String.eqb dir_path "" then ret None else ret (Some (path_append dir_path path)).

(** ** [open.hpp] *)

(** The request of [capio_openat] and the error when the server replies 1. *)
Definition open_call (fd flags : Z) (path : string) : call * Z :=
  if has_flag flags O_EXCL then (create_exclusive_request fd path tid, EEXIST)
  else if has_flag flags O_CREAT then (create_request fd path tid, ENOENT)
  else (open_request fd path tid, ENOENT).

(** [fd] is what opening /dev/null returns. *)
Definition capio_openat (dirfd : Z) (pathname : string) (flags fd : Z) : M (Client P) answer :=
  if is_forbidden_path pathname then ret Skip
  else
    let* path :=
      if is_absolute pathname then ret (Some pathname)
      else if dirfd =? AT_FDCWD then
        let* p := on_tables (capio_posix_realpath capio_dir pathname) in
        ret (if String.eqb p "" then None else Some p)
      else under_dirfd dirfd pathname in
    match path with
    | None => ret Skip
    | Some path =>
        let path := capio_normal_path path in
        if is_capio_path capio_dir path then
          if fd =? -1 then err_exit "capio_open, /dev/null opening"
          else
            let '(c, errno) := open_call fd flags path in
            let* return_code := ask c in
            if return_code =? 1 then ret (Err errno)
            else
              let actual_flags := Z.land flags (Z.lnot O_CLOEXEC) in
              let actual_flags := if has_flag flags O_DIRECTORY then Z.lor actual_flags O_LARGEFILE else actual_flags in
              on_tables (add_capio_fd path fd 0 CAPIO_DEFAULT_FILE_INITIAL_SIZE actual_flags (has_flag flags O_CLOEXEC)) ;;
              when (has_flag flags O_APPEND) (let* _ := capio_lseek fd 0 SEEK_END in ret tt) ;;
              ret (Ret fd)
        else ret Skip
    end.

(** ** [mkdir.hpp] *)

(** The path of [capio_mkdirat] and [capio_unlinkat]; an absolute one is taken
    as it is written. *)
Definition resolve_normal (dirfd : Z) (pathname : string) : M (Client P) (option string) :=
  if is_absolute pathname then ret (Some pathname)
  else if dirfd =? AT_FDCWD then
    let* p := on_tables (capio_posix_realpath capio_dir pathname) in
    ret (if String.eqb p "" then None else Some p)
  else
    let* p := under_dirfd dirfd pathname in ret (lexically_normal <$> p).

(** [errno] is what it was before the call. *)
Definition capio_mkdirat (dirfd : Z) (pathname : string) (errno : Z) : M (Client P) answer :=
  if is_forbidden_path pathname then ret Skip
  else
    let* path := resolve_normal dirfd pathname in
    match path with
    | None => ret Skip
    | Some path =>
        if is_capio_path capio_dir path then
          let* ex := on_tables (exists_capio_path path) in
          if ex then ret (Err EEXIST)
          else
            let* res := ask (mkdir_request path tid) in
            if res =? 1 then ret (Err errno)
            else on_tables (add_capio_path path) ;; ret (Ret res)
        else ret Skip
    end.

Definition capio_rmdir (pathname : string) : M (Client P) answer :=
  if is_forbidden_path pathname then ret Skip
  else
    let* path :=
      if is_absolute pathname then ret pathname else on_tables (capio_posix_realpath capio_dir pathname) in
    if negb (is_absolute pathname) && String.eqb path "" then ret Skip
    else if is_capio_path capio_dir path then
      let* ex := on_tables (exists_capio_path path) in
      if negb ex then ret (Err ENOENT)
      else
        let* res := ask (rmdir_request path tid) in
        if res =? CAPIO_POSIX_SYSCALL_REQUEST_SKIP then ret (Ret res)
        else if res =? 2 then ret (Err ENOENT)
        else on_tables (delete_capio_path path) ;; ret (Ret 0)
    else ret Skip.

(** ** [unlink.hpp] *)

Definition capio_unlink_abs (abs_path : string) (is_dir : bool) : M (Client P) answer :=
  if is_capio_path capio_dir abs_path then
    if is_capio_dir capio_dir abs_path then err_exit "ERROR: unlink to the capio_dir"
    else
      let* res :=
        if is_dir then
          let* res := ask (rmdir_request abs_path tid) in
          ret (if res =? 2 then -1 else if res =? CAPIO_POSIX_SYSCALL_REQUEST_SKIP then res else 0)
        else ask (unlink_request abs_path tid) in
      if res =? -1 then ret (Err ENOENT)
      else on_tables (delete_capio_path abs_path) ;; ret (Ret res)
  else ret Skip.

Definition capio_unlinkat (dirfd : Z) (pathname : string) (flags : Z) : M (Client P) answer :=
  if is_forbidden_path pathname then ret Skip
  else
    let is_dir := negb (Z.land flags AT_REMOVEDIR =? 0) in
    let* path := resolve_normal dirfd pathname in
    match path with None => ret Skip | Some path => capio_unlink_abs path is_dir end.

(** ** [access.hpp] *)

Definition capio_faccessat (dirfd : Z) (pathname : string) : M (Client P) answer :=
  if is_forbidden_path pathname then ret Skip
  else if negb (is_absolute pathname) && negb (dirfd =? AT_FDCWD) then
    let* path := under_dirfd dirfd pathname in
    match lexically_normal <$> path with
    | None => ret Skip
    | Some path =>
        if is_capio_path capio_dir path then let* v := ask (access_request path tid) in ret (Ret v) else ret Skip
    end
  else
    let* path :=
      if is_absolute pathname then ret pathname else on_tables (capio_posix_realpath capio_dir pathname) in
    if negb (is_absolute pathname) && String.eqb path "" then ret (Err ENONET)
    else if is_capio_path capio_dir path then let* v := ask (access_request path tid) in ret (Ret v)
    else ret Skip.

(** ** [chdir.hpp] and [getcwd.hpp] *)

Definition chdir_handler (pathname : string) (errno : Z) : M (Client P) answer :=
  if is_forbidden_path pathname then ret Skip
  else
    let* path :=
      if is_absolute pathname then ret pathname else on_tables (capio_posix_realpath capio_dir pathname) in
    if negb (is_absolute pathname) && String.eqb path "" then ret (Err errno)
    else if is_capio_path capio_dir path then on_tables (set_current_dir path) ;; ret (Ret 0)
    else ret Skip.

(** The answer and what is put in the buffer. *)
Definition getcwd_handler (size : Z) : M (Client P) (answer * string) :=
  let* cwd := on_tables get_current_dir in
  if negb (is_capio_path capio_dir cwd) then ret (Skip, ""%string)
  else
    let length := Z.of_nat (String.length cwd) in
    if size <? length + 1 then ret (Err ERANGE, ""%string) else ret (Ret (length + 1), cwd).

(** ** [rename.hpp] *)

(** [errno] is what it was before the call. *)
Definition renameat2_handler (old_dirfd : Z) (old_path : string) (new_dirfd : Z) (new_path : string) (errno : Z)
    : M (Client P) answer :=
  let* old_dir_fd_path := on_tables (get_dir_path old_dirfd) in
  let* new_dir_fd_path := on_tables (get_dir_path new_dirfd) in
  let* old_path_abs :=
    if is_absolute old_path then ret old_path
    else on_tables (capio_absolute capio_dir (path_append old_dir_fd_path old_path)) in
  let* new_path_abs :=
    if is_absolute new_path then ret new_path
    else on_tables (capio_absolute capio_dir (path_append new_dir_fd_path new_path)) in
  if is_prefix old_path_abs new_path_abs then ret (Err EINVAL)
  else if is_capio_path capio_dir old_path_abs then
    on_tables (rename_capio_path old_path_abs new_path_abs) ;;
    let* res := ask (rename_request tid old_path_abs new_path_abs) in
    ret (if res <? 0 then Err errno else Ret res)
  else if is_capio_path capio_dir new_path_abs then
    let* errno := filesystem_copy old_path_abs new_path_abs errno in ret (Err errno)
  else ret Skip.

(** ** What they do to the tables *)

(** Opening a file of the CAPIO directory registers the descriptor under the
    normal form of its path, or leaves the tables as they were. *)
Lemma ask_tables c s v s' : @ask P _ c s = Done (v, s') -> tables s' = tables s.
Proof.
  unfold ask, bind, send, modify, wait_reply. simpl. destruct (serve_all _ _); simpl; try done.
  destruct (next_reply _) as [[? ?]|]; [|done]. by intros [= <- <-].
Qed.

Lemma open_absolute_tables pathname flags fd dirfd s a s' :
  is_absolute pathname = true -> has_flag flags O_APPEND = false ->
  fs_wf (tables s) -> files (tables s) !! fd = None -> 0 <= fd ->
  capio_openat dirfd pathname flags fd s = Done (a, s') ->
  match a with
  | Ret v => v = fd /\ fs_wf (tables s') /\
      capio_files_descriptors (tables s') !! fd = Some (capio_normal_path pathname)
  | _ => tables s' = tables s
  end.
Proof.
  intros Habs Happ Hwf Hnew Hfd. unfold capio_openat. destruct (is_forbidden_path pathname); [by intros [= <- <-]|].
  rewrite Habs. unfold bind at 1; simpl. destruct (is_capio_path capio_dir (capio_normal_path pathname)); [|by intros [= <- <-]].
  destruct (Z.eqb_spec fd (-1)); [done|]. destruct (open_call _ _ _) as [c errno].
  unfold bind at 1. destruct (ask c s) as [[v s1]| | | |] eqn:E; simpl; try done. apply ask_tables in E.
  destruct (v =? 1); [by intros [= <- <-]|]. rewrite <- E in Hwf, Hnew.
  unfold on_tables at 1, zoom at 1, bind at 1. rewrite add_capio_fd_eq by done. simpl.
  rewrite Happ. simpl. intros [= <- <-]. simpl. split; [done|]. split; [|by rewrite lookup_insert_eq].
  apply with_fd_wf; [by apply heap_alloc_wf|done|]. simpl. by rewrite lookup_insert_eq.
Qed.

(** Renaming a CAPIO file that this process has not opened uses the key of an
    empty node of the map. *)
Lemma rename_unknown_path_undefined old_path new_path dirfd errno s :
  is_absolute old_path = true -> is_absolute new_path = true -> dirfd = AT_FDCWD ->
  is_prefix old_path new_path = false -> is_capio_path capio_dir old_path = true ->
  capio_files_paths (tables s) !! old_path = None ->
  renameat2_handler dirfd old_path dirfd new_path errno s = UB "key of an empty node handle".
Proof.
  intros Ho Hn -> Hp Hc Hu. unfold renameat2_handler. rewrite Ho, Hn. unfold get_dir_path. simpl.
  unfold on_tables, zoom, bind; simpl. rewrite Hp, Hc. unfold rename_capio_path, bind; simpl. by rewrite Hu.
Qed.

(** Renaming a file of the kernel into the CAPIO directory copies it, and the answer
    is the error number that the copy leaves, also when it succeeded. *)
Lemma rename_into_capio_answers old_path new_path errno e s s' :
  is_absolute old_path = true -> is_absolute new_path = true -> is_prefix old_path new_path = false ->
  is_capio_path capio_dir old_path = false -> is_capio_path capio_dir new_path = true ->
  filesystem_copy old_path new_path errno s = Done (e, s') ->
  renameat2_handler AT_FDCWD old_path AT_FDCWD new_path errno s = Done (Err e, s').
Proof.
  intros Ho Hn Hp Hc Hd E. unfold renameat2_handler. rewrite Ho, Hn. unfold get_dir_path. simpl.
  unfold on_tables, zoom, bind; simpl. rewrite Hp, Hc, Hd.
  match goal with |- outcome_bind (filesystem_copy _ _ _ ?t) _ = _ => replace t with s by by destruct s end. by rewrite E.
Qed.
End Calls.
