(* ===== verification/PosixStat.v ===== *)
(** * [stat], [statx] and the calls that take no data

    [posix/handlers/stat.hpp] and [statx.hpp], and the handlers of the calls on a
    descriptor that CAPIO answers itself: [fchmod.hpp], [fchown.hpp], [ioctl.hpp],
    [fgetxattr.hpp], [statfs.hpp], [splice.hpp].  [std::hash], the user and the
    group are parameters; the mode bits and flags are those of Linux. *)
From S2P Require Import Prelude Text Memory Queue Server StorageManager Requests PosixPath PosixFs PosixCache PosixCacheProps PosixCalls.

(** ** [struct stat] and [struct statx] *)

Class Process : Type := { path_hash : string -> Z; uid : Z; gid : Z }.

Definition S_IFDIR : Z := 16384.
Definition S_IFREG : Z := 32768.
(** [S_IRWXU | S_IRGRP | S_IXGRP | S_IROTH | S_IXOTH] and
    [S_IRUSR | S_IWUSR | S_IRGRP | S_IROTH] *)
Definition dir_permissions : Z := 493.
Definition file_permissions : Z := 420.
Definition AT_EMPTY_PATH : Z := 4096.
Definition STATX_BASIC_STATS : Z := 2047.
Definition STATX_BTIME : Z := 2048.
Definition ENOTDIR : Z := 20.
Definition ENODATA : Z := 61.
Definition ENOTTY : Z := 25.

(** A time is its seconds and nanoseconds. *)
Record stat : Type := {
  st_dev : Z; st_ino : Z; st_mode : Z; st_nlink : Z; st_uid : Z; st_gid : Z; st_rdev : Z; st_size : Z;
  st_blksize : Z; st_blocks : Z; st_atim : Z * Z; st_mtim : Z * Z; st_ctim : Z * Z
}.
Record statx : Type := {
  stx_mask : Z; stx_attributes_mask : Z; stx_blksize : Z; stx_nlink : Z; stx_uid : Z; stx_gid : Z; stx_mode : Z;
  stx_ino : Z; stx_size : Z; stx_blocks : Z; stx_atime : Z * Z; stx_btime : Z * Z; stx_ctime : Z * Z; stx_mtime : Z * Z
}.

(** [/] and [%] of C++ round to zero. *)
Definition get_nblocks (file_size : Z) : Z :=
  if Z.rem file_size 4096 =? 0 then Z.quot file_size 512 else Z.quot file_size 512 + 8.

Definition fill_statbuf `{Process} (file_size : Z) (is_dir : bool) (inode : Z) : stat :=
  let '(mode, file_size) :=
    if is_dir then (Z.lor S_IFDIR dir_permissions, 4096) else (Z.lor S_IFREG file_permissions, file_size) in
  {| st_dev := 100; st_ino := inode; st_mode := mode; st_nlink := 1; st_uid := uid; st_gid := gid; st_rdev := 0;
     st_size := file_size; st_blksize := 4096;
     st_blocks := if file_size <? 4096 then 8 else get_nblocks file_size;
     st_atim := (1, 1); st_mtim := (1, 1); st_ctim := (1, 1) |}.

Definition fill_statxbuf `{Process} (file_size : Z) (is_dir : bool) (inode mask : Z) : statx :=
  let '(mode, file_size) :=
    if is_dir then (Z.lor S_IFDIR dir_permissions, 4096) else (Z.lor S_IFREG file_permissions, file_size) in
  {| stx_mask := Z.lor STATX_BASIC_STATS STATX_BTIME; stx_attributes_mask := 0; stx_blksize := 4096; stx_nlink := 1;
     stx_uid := uid; stx_gid := gid; stx_mode := mode; stx_ino := inode; stx_size := file_size;
     stx_blocks := if file_size <? 4096 then 8 else get_nblocks file_size;
     stx_atime := (1, 1); stx_btime := (1, 1); stx_ctime := (1, 1); stx_mtime := (1, 1) |}.

Section Stat.
Context {P : Type} `{Peer P} `{Thread} `{Kernel} `{Process} (capio_dir : string).

(** [fstat_request] and [stat_request]: the two values they return. *)
Definition fstat_values (fd : Z) : M (Client P) (Z * Z) :=
  PosixCache.send (fstat_request fd tid) ;; let* v := wait_reply in let* w := wait_reply in ret (v, w).
Definition stat_values (path : string) : M (Client P) (Z * Z) :=
  PosixCache.send (stat_request path tid) ;;
  let* v := wait_reply in
  if v =? CAPIO_POSIX_SYSCALL_REQUEST_SKIP then ret (CAPIO_POSIX_SYSCALL_REQUEST_SKIP, -1)
  else let* w := wait_reply in ret (v, w).

(** The answer, and the structure when it was filled. *)
Definition capio_fstat (fd : Z) : M (Client P) (answer * option stat) :=
  let* ex := on_tables (exists_capio_fd fd) in
  if ex then
    WriteCache_flush ;;
    let* (file_size, dir) := fstat_values fd in
    if file_size =? -1 then ret (Err ENOENT, None)
    else
      let* path := on_tables (get_capio_fd_path fd) in
      ret (Ret 0, Some (fill_statbuf file_size (negb (dir =? 0)) (path_hash path)))
  else ret (Skip, None).

Definition capio_lstat (pathname : string) : M (Client P) (answer * option stat) :=
  if is_forbidden_path pathname then ret (Skip, None)
  else if is_capio_path capio_dir pathname then
    WriteCache_flush ;;
    let* (file_size, dir) := stat_values pathname in
    if file_size =? -1 then ret (Err ENOENT, None)
    else if file_size =? CAPIO_POSIX_SYSCALL_REQUEST_SKIP then ret (Skip, None)
    else ret (Ret 0, Some (fill_statbuf file_size (negb (dir =? 0)) (path_hash pathname)))
  else ret (Skip, None).

Definition capio_lstat_wrapper (pathname : string) : M (Client P) (answer * option stat) :=
  if is_forbidden_path pathname then ret (Skip, None)
  else
    let* absolute_path := on_tables (capio_posix_realpath capio_dir pathname) in
    if String.eqb absolute_path "" then ret (Err ENOENT, None) else capio_lstat absolute_path.

Definition capio_fstatat (dirfd : Z) (pathname : string) (flags : Z) : M (Client P) (answer * option stat) :=
  if is_forbidden_path pathname then ret (Skip, None)
  else if String.eqb pathname "" && has_flag flags AT_EMPTY_PATH then
    if dirfd =? AT_FDCWD then let* cwd := on_tables get_current_dir in capio_lstat cwd else capio_fstat dirfd
  else if negb (is_absolute pathname) then
    if dirfd =? AT_FDCWD then capio_lstat_wrapper pathname
    else
      let* dir := is_directory dirfd in
      if negb dir then ret (Err ENOTDIR, None)
      else
        let* dir_path := on_tables (get_dir_path dirfd) in
        if String.eqb dir_path "" then ret (Skip, None)
        else capio_lstat (lexically_normal (path_append dir_path pathname))
  else capio_lstat pathname.

(** The path [capio_statx] asks for, or the answer when it does not ask. *)
Definition statx_path (dirfd : Z) (pathname : string) (flags : Z) : M (Client P) (answer + string) :=
  if String.eqb pathname "" && has_flag flags AT_EMPTY_PATH then
    if dirfd =? AT_FDCWD then let* cwd := on_tables get_current_dir in ret (inr cwd)
    else
      let* ex := on_tables (exists_capio_fd dirfd) in
      if ex then let* path := on_tables (get_capio_fd_path dirfd) in ret (inr path) else ret (inl Skip)
  else
    let* path :=
      if negb (is_absolute pathname) then
        if dirfd =? AT_FDCWD then
          let* p := on_tables (capio_posix_realpath capio_dir pathname) in
          if String.eqb p "" then ret (inl (Err ENOENT)) else ret (inr p)
        else
          let* dir := is_directory dirfd in
          if negb dir then ret (inl (Err ENOTDIR))
          else
            let* dir_path := on_tables (get_dir_path dirfd) in
            if String.eqb dir_path "" then ret (inl Skip)
            else ret (inr (lexically_normal (path_append dir_path pathname)))
      else ret (inr pathname) in
    match path with
    | inl a => ret (inl a)
    | inr path => if is_capio_path capio_dir path then ret (inr path) else ret (inl Skip)
    end.

Definition capio_statx (dirfd : Z) (pathname : string) (flags mask : Z) : M (Client P) (answer * option statx) :=
  if is_forbidden_path pathname then ret (Skip, None)
  else
    let* path := statx_path dirfd pathname flags in
    match path with
    | inl a => ret (a, None)
    | inr path =>
        WriteCache_flush ;;
        let* (file_size, dir) := stat_values path in
        if file_size =? -1 then ret (Err ENOENT, None)
        else if file_size =? CAPIO_POSIX_SYSCALL_REQUEST_SKIP then ret (Skip, None)
        else ret (Ret 0, Some (fill_statxbuf file_size (negb (dir =? 0)) (path_hash path) mask))
    end.

(** ** Calls that CAPIO answers *)

(** The return value of the handler and [*result]; not 0 leaves the call to the
    kernel. *)
Definition handled (fd : Z) (result : Z) (skip : Z) : M (Client P) (Z * option Z) :=
  let* ex := on_tables (exists_capio_fd fd) in
  if ex then ret (0, Some result) else ret (skip, None).
Definition CAPIO_POSIX_SYSCALL_SKIP : Z := 1.

Definition fchmod_handler (arg0 : Z) : M (Client P) (Z * option Z) := handled (s32 arg0) 0 CAPIO_POSIX_SYSCALL_SKIP.
Definition fchown_handler (arg0 : Z) : M (Client P) (Z * option Z) := handled (s32 arg0) 0 CAPIO_POSIX_SYSCALL_SKIP.
Definition ioctl_handler (arg0 : Z) : M (Client P) (Z * option Z) :=
  handled (s32 arg0) (- ENOTTY) CAPIO_POSIX_SYSCALL_REQUEST_SKIP.
(** [statfs] is the result of the system call on the CAPIO directory. *)
Definition fstatfs_handler (arg0 statfs : Z) : M (Client P) (Z * option Z) :=
  handled (s32 arg0) (s32 statfs) CAPIO_POSIX_SYSCALL_SKIP.

Definition acl_name : string := "system.posix_acl_access".
(** [std::equal(name.begin(), name.end(), literal)] compares as many characters as
    [name] has; a C string longer than the literal differs at its NUL. *)
Definition equal_to_literal (name literal : string) : bool := String.prefix name literal.
Definition fgetxattr_handler (arg0 : Z) (name : string) : M (Client P) (Z * option Z) :=
  let* ex := on_tables (exists_capio_fd (s32 arg0)) in
  if ex then
    if equal_to_literal name acl_name then ret (0, Some (- ENODATA)) else err_exit "fgetxattr is not yet supported in CAPIO"
  else ret (CAPIO_POSIX_SYSCALL_SKIP, None).

Definition capio_refuse_in_kernel_copy (fd_in fd_out : Z) : M (Client P) (Z * option Z) :=
  let* ex_in := on_tables (exists_capio_fd fd_in) in
  let* ex_out := on_tables (exists_capio_fd fd_out) in
  if ex_in || ex_out then ret (0, Some (- EINVAL)) else ret (CAPIO_POSIX_SYSCALL_SKIP, None).
Definition splice_handler (arg0 arg2 : Z) : M (Client P) (Z * option Z) :=
  capio_refuse_in_kernel_copy (s32 arg0) (s32 arg2).
Definition sendfile_handler (arg0 arg1 : Z) : M (Client P) (Z * option Z) :=
  capio_refuse_in_kernel_copy (s32 arg1) (s32 arg0).
End Stat.

(** ** The number of blocks *)

(** The blocks of a file cover its size and at most a page more, for every size.
    They are whole pages of 8 blocks, as a file system reports them, exactly when
    the last page holds nothing or less than one block: a file of 8191 bytes gets
    23 blocks where two pages are 16. *)
Theorem blocks_cover_size `{Process} (file_size inode : Z) :
  0 <= file_size ->
  let blocks := st_blocks (fill_statbuf file_size false inode) in
  file_size <= 512 * blocks <= file_size + 4096
  /\ (4096 <= file_size -> blocks = 8 * ((file_size + 4095) / 4096) <-> file_size mod 4096 < 512).
Proof.
  intros Hs blocks. unfold blocks, fill_statbuf, get_nblocks. cbn [st_blocks].
  rewrite (Z.rem_mod_nonneg file_size) by lia. rewrite !Z.quot_div_nonneg by lia.
  pose proof (Z.div_mod file_size 4096 ltac:(lia)) as Hd. pose proof (Z.mod_pos_bound file_size 4096 ltac:(lia)) as Hm.
  set (q := file_size / 4096) in *. set (r := file_size mod 4096) in *.
  assert (H512 : file_size / 512 = 8 * q + r / 512).
  { rewrite Hd. replace (4096 * q + r) with (8 * q * 512 + r) by lia. rewrite Z.div_add_l by lia. lia. }
  assert (Hup : (file_size + 4095) / 4096 = if r =? 0 then q else q + 1).
  { rewrite Hd. replace (4096 * q + r + 4095) with (q * 4096 + (r + 4095)) by lia. rewrite Z.div_add_l by lia.
    destruct (Z.eqb_spec r 0) as [->|]; [rewrite Z.div_small by lia; lia|].
    replace (r + 4095) with (1 * 4096 + (r - 1)) by lia. rewrite Z.div_add_l, Z.div_small by lia. lia. }
  rewrite Hup, H512. pose proof (Z.div_mod r 512 ltac:(lia)) as Hr. pose proof (Z.mod_pos_bound r 512 ltac:(lia)).
  destruct (Z.ltb_spec file_size 4096), (Z.eqb_spec r 0); split; lia.
Qed.

(** ** [stat] on every branch *)

Lemma flush_outbox {P} `{Peer P} `{Thread} (s : Client P) :
  exists s', WriteCache_flush s = Done (tt, s') /\ tables s' = tables s /\ server s' = server s
    /\ outbox s' = outbox s ++ (if wc_actual_size (write_cache s) =? 0 then []
                                else [write_request (wc_fd (write_cache s)) (wc_actual_size (write_cache s)) tid]).
Proof.
  unfold WriteCache_flush, bind, get. cbn [outcome_bind]. destruct (wc_actual_size (write_cache s) =? 0); simpl.
  - exists s. by rewrite app_nil_r.
  - by eexists.
Qed.

(** What [fstat] reports is what the server has after every earlier request and
    after the data still in the write cache.  The requests before it are served in
    order, then the write of the cached data, then its own; a file that is gone is
    [ENOENT], a directory has the size of a page, a file the size the server
    replies; the inode is the hash of the path. *)
Theorem fstat_after_writes {P} `{Peer P} `{Thread} `{Process} (fd : Z) (path : string) (s : Client P) (p p1 p2 : P) (v w : Z) :
  is_Some (files (tables s) !! fd) -> capio_files_descriptors (tables s) !! fd = Some path ->
  let cached := if wc_actual_size (write_cache s) =? 0 then []
                else [write_request (wc_fd (write_cache s)) (wc_actual_size (write_cache s)) tid] in
  serve_all (outbox s ++ cached ++ [fstat_request fd tid]) (server s) = Done p ->
  next_reply p = Some (v, p1) -> next_reply p1 = Some (w, p2) ->
  exists s', capio_fstat fd s
    = Done (if v =? -1 then (Err ENOENT, None)
            else (Ret 0, Some (fill_statbuf v (negb (w =? 0)) (path_hash path))), s')
    /\ server s' = p2 /\ outbox s' = [] /\ tables s' = tables s.
Proof.
  intros Hfd Hpath cached Hs Hv Hw. destruct (flush_outbox s) as (s1 & Hf & Ht & Hsv & Ho). fold cached in Ho.
  unfold capio_fstat, bind at 1, on_tables at 1, zoom, exists_capio_fd, gets.
  rewrite bool_decide_eq_true_2 by done. cbn [outcome_bind].
  replace (set_tables (tables s) s) with s by by destruct s.
  unfold bind at 1. rewrite Hf. cbn [outcome_bind]. unfold fstat_values, bind, PosixCache.send, modify, wait_reply.
  cbn [outcome_bind outbox server set_outbox]. rewrite Ho, Hsv, <- app_assoc, Hs. cbn [outcome_bind]. rewrite Hv.
  cbn. rewrite Hw. cbn. destruct (v =? -1); [by eexists|].
  unfold on_tables, zoom, get_capio_fd_path, path_at. cbn. rewrite Ht, Hpath. cbn. by eexists.
Qed.

(** [is_directory] of a descriptor of CAPIO is what the intercepted [fstat] fills in. *)
Lemma fstat_of_handler {P} `{Peer P} `{Thread} `{Kernel} `{Process} (fd : Z) (s : Client P) :
  is_directory fd s = outcome_bind (capio_fstat fd s) (fun '((a, st), s') =>
    Done (match a, st with
          | Skip, _ => default true (fstat_isdir fd)
          | _, Some st => Z.land (st_mode st) (Z.lor S_IFDIR S_IFREG) =? S_IFDIR
          | _, None => true
          end, s')).
Proof.
  unfold is_directory, capio_fstat, fstat_values, bind. destruct (on_tables _ s) as [[ex s1]| | | |]; try done.
  cbn [outcome_bind]. destruct ex; [|done].
  destruct (WriteCache_flush s1) as [[[] s2]| | | |]; try done. cbn [outcome_bind].
  destruct (PosixCache.send _ s2) as [[[] s3]| | | |]; try done. cbn [outcome_bind].
  destruct (wait_reply s3) as [[v s4]| | | |]; try done. cbn [outcome_bind].
  destruct (wait_reply s4) as [[w s5]| | | |]; try done. cbn [outcome_bind ret].
  destruct (v =? -1); [done|]. destruct (on_tables _ s5) as [[q s6]| | | |]; try done. cbn [outcome_bind ret].
  by destruct (w =? 0).
Qed.

(** ** [statx] is [fstatat] *)

(** What [statx] fills for what [stat] fills. *)
Definition statx_of (st : stat) : statx := {|
  stx_mask := Z.lor STATX_BASIC_STATS STATX_BTIME; stx_attributes_mask := 0; stx_blksize := st_blksize st;
  stx_nlink := st_nlink st; stx_uid := st_uid st; stx_gid := st_gid st; stx_mode := st_mode st; stx_ino := st_ino st;
  stx_size := st_size st; stx_blocks := st_blocks st; stx_atime := st_atim st; stx_btime := (1, 1);
  stx_ctime := st_ctim st; stx_mtime := st_mtim st |}.
Definition outcome_map {A B} (f : A -> B) (m : outcome A) : outcome B := outcome_bind m (fun a => Done (f a)).
Definition to_statx {P} : (answer * option stat) * Client P -> (answer * option statx) * Client P :=
  fun '((a, st), s) => ((a, statx_of <$> st), s).

Lemma outcome_map_bind {S A B C} (f : B * S -> C) (m : M S A) (k : A -> M S B) s :
  outcome_map f (bind m k s) = outcome_bind (m s) (fun '(a, s') => outcome_map f (k a s')).
Proof. unfold bind. by destruct (m s) as [[a s1]| | | |]. Qed.

Lemma fill_statxbuf_of `{Process} size dir inode mask :
  fill_statxbuf size dir inode mask = statx_of (fill_statbuf size dir inode).
Proof. by destruct dir. Qed.

Section Agree.
Context {P : Type} `{Peer P} `{Thread} `{Kernel} `{Process} (capio_dir : string).

(** Once the path is known, the two calls do the same. *)
Lemma lstat_statx path mask (s : Client P) :
  is_forbidden_path path = false -> is_capio_path capio_dir path = true ->
  (WriteCache_flush ;;
   let* (file_size, dir) := stat_values path in
   if file_size =? -1 then ret (Err ENOENT, None)
   else if file_size =? CAPIO_POSIX_SYSCALL_REQUEST_SKIP then ret (Skip, None)
   else ret (Ret 0, Some (fill_statxbuf file_size (negb (dir =? 0)) (path_hash path) mask))) s
  = outcome_map to_statx (capio_lstat capio_dir path s).
Proof.
  intros Hf Hc. unfold capio_lstat. rewrite Hf, Hc, outcome_map_bind. unfold bind at 1.
  destruct (WriteCache_flush s) as [[[] s1]| | | |]; try done. cbn [outcome_bind]. rewrite outcome_map_bind. unfold bind.
  destruct (stat_values path s1) as [[[v w] s2]| | | |]; try done. cbn [outcome_bind].
  destruct (v =? -1); [done|]. destruct (v =? CAPIO_POSIX_SYSCALL_REQUEST_SKIP); [done|].
  by rewrite fill_statxbuf_of.
Qed.

Lemma lstat_elsewhere path (s : Client P) :
  is_capio_path capio_dir path = false -> capio_lstat capio_dir path s = Done ((Skip, None), s).
Proof. intros Hc. unfold capio_lstat. destruct (is_forbidden_path path); [done|]. by rewrite Hc. Qed.
End Agree.

(** C36. [statx] and [fstatat] agree.  For every directory descriptor, every path that
    is not empty and all flags, when the path they resolve to is not one of the
    forbidden ones, they ask the server the same requests, end in the same state
    with the same answer, and fill the same type, size, inode and blocks. *)
Theorem statx_agrees_with_fstatat {P} `{Peer P} `{Thread} `{Kernel} `{Process} (capio_dir : string)
    (dirfd : Z) (pathname : string) (flags mask : Z) (s : Client P) :
  pathname <> ""%string ->
  (forall path s', statx_path capio_dir dirfd pathname flags s = Done (inr path, s') -> is_forbidden_path path = false) ->
  capio_statx capio_dir dirfd pathname flags mask s
  = outcome_map to_statx (capio_fstatat capio_dir dirfd pathname flags s).
Proof.
  intros Hne Hok. unfold capio_statx, capio_fstatat. destruct (is_forbidden_path pathname) eqn:Hf; [done|].
  unfold statx_path in *. apply String.eqb_neq in Hne. rewrite Hne in *. cbn [andb] in *.
  (* the path is known: it is asked for or left to the kernel *)
  assert (Hend : forall path s', (is_capio_path capio_dir path = true -> is_forbidden_path path = false) ->
    bind (if is_capio_path capio_dir path then ret (inr path) else ret (inl Skip)) (fun r => match r with
      | inl a => ret (a, None)
      | inr path => WriteCache_flush ;;
          let* (file_size, dir) := stat_values path in
          if file_size =? -1 then ret (Err ENOENT, None)
          else if file_size =? CAPIO_POSIX_SYSCALL_REQUEST_SKIP then ret (Skip, None)
          else ret (Ret 0, Some (fill_statxbuf file_size (negb (dir =? 0)) (path_hash path) mask))
      end) s' = outcome_map to_statx (capio_lstat capio_dir path s')).
  { intros path s' Hp. destruct (is_capio_path capio_dir path) eqn:Hc.
    - apply lstat_statx; [by apply Hp|done].
    - rewrite lstat_elsewhere by done. done. }
  destruct (is_absolute pathname); cbn [negb] in *.
  { apply (Hend pathname s). intros Hc. apply (Hok pathname s). unfold bind. cbn. by rewrite Hc. }
  destruct (dirfd =? AT_FDCWD).
  { unfold capio_lstat_wrapper. rewrite Hf, outcome_map_bind.
    unfold bind at 1 2 3. unfold bind at 1 2 in Hok. destruct (on_tables _ s) as [[p s1]| | | |]; try done. cbn [outcome_bind] in *.
    destruct (String.eqb p ""); [done|]. apply (Hend p s1). intros Hc. apply (Hok p s1). cbn. by rewrite Hc. }
  rewrite outcome_map_bind. unfold bind at 1 2 3. unfold bind at 1 2 in Hok.
  destruct (is_directory dirfd s) as [[[] s0]| | | |]; try done. cbn [negb outcome_bind] in *.
  rewrite outcome_map_bind. unfold bind at 1. unfold bind at 1 in Hok.
  destruct (on_tables _ s0) as [[d s1]| | | |]; try done. cbn [outcome_bind] in *.
  destruct (String.eqb d ""); [done|]. apply (Hend _ s1). intros Hc. apply (Hok _ s1). cbn. by rewrite Hc.
Qed.

(** ** A server that only counts *)

(** The size of its one file and the values it has replied. *)
Record SizeServer : Type := { szs_size : Z; szs_replies : list Z; szs_to : Fifo; szs_from : Fifo }.
Definition szs_serve (c : call) (p : SizeServer) : outcome SizeServer :=
  match c_code c, c_fields c with
  | 22, [_; _; F_ld n] =>
      Done {| szs_size := szs_size p + n; szs_replies := szs_replies p; szs_to := szs_to p; szs_from := szs_from p |}
  | 7, _ | 20, _ =>
      Done {| szs_size := szs_size p; szs_replies := szs_replies p ++ [szs_size p; 0]; szs_to := szs_to p; szs_from := szs_from p |}
  | _, _ => Done p
  end.
#[export] Instance size_server : Peer SizeServer := {|
  serve := szs_serve;
  next_reply p := match szs_replies p with
    | v :: r => Some (v, {| szs_size := szs_size p; szs_replies := r; szs_to := szs_to p; szs_from := szs_from p |})
    | [] => None
    end;
  to_server := szs_to;
  set_to_server q p := {| szs_size := szs_size p; szs_replies := szs_replies p; szs_to := q; szs_from := szs_from p |};
  from_server := szs_from;
  set_from_server q p := {| szs_size := szs_size p; szs_replies := szs_replies p; szs_to := szs_to p; szs_from := q |} |}.
#[export] Instance demo_process : Process := {| path_hash path := Z.of_nat (String.length path); uid := 1000; gid := 1000 |}.
#[export] Instance demo_kernel : Kernel := {| realpath := Some; readlink_fd _ := Some "/c"%string; fstat_isdir _ := Some true |}.

(** One write is sent, another is in the cache. *)
Definition size_client : Client SizeServer := {|
  tables := demo_fs; read_cache := ReadCache_new;
  write_cache := {| wc_cache := Some 0%nat; wc_fd := 3; wc_actual_size := 2 |};
  outbox := [write_request 3 4 4242];
  server := {| szs_size := 10; szs_replies := []; szs_to := fifo_new; szs_from := fifo_new |} |}.

Lemma blocks_cover_size_witness :
  8191 <= 512 * st_blocks (fill_statbuf 8191 false 7) <= 8191 + 4096 /\ st_blocks (fill_statbuf 8191 false 7) = 23.
Proof. split; [apply (blocks_cover_size 8191 7); lia|reflexivity]. Defined.

Lemma fstat_after_writes_witness :
  exists s', capio_fstat 3 size_client = Done ((Ret 0, Some (fill_statbuf 16 false 4)), s').
Proof.
  edestruct (fstat_after_writes 3 "/c/a" size_client) as (s' & E & _).
  - vm_compute. by eexists.
  - vm_compute. reflexivity.
  - vm_compute. reflexivity.
  - vm_compute. reflexivity.
  - vm_compute. reflexivity.
  - exists s'. exact E.
Defined.

Lemma statx_agrees_with_fstatat_witness :
  capio_statx "/c" 9 "x" 0 0 size_client
  = outcome_map to_statx (capio_fstatat "/c" 9 "x" 0 size_client).
Proof.
  apply statx_agrees_with_fstatat; [done|]. intros path s' E. vm_compute in E. by simplify_eq.
Defined.
