(* ===== verification/PosixCopy.v ===== *)
(** * [copy_file_range]

    [posix/handlers/copy_file_range.hpp]: copies between a CAPIO descriptor and
    another one of CAPIO or of the kernel.  Between two CAPIO descriptors the server
    copies; otherwise the data goes through a buffer of one cache line.  The files
    of the kernel are the class [KernelFiles]: what its system calls answer and how
    they change it.  The offsets the caller passes are addresses in its memory, so
    that both may be one. *)
From S2P Require Import Prelude Text Memory Queue Server StorageManager Requests PosixPath PosixFs PosixCache PosixCacheProps PosixCalls.

(** ** The system calls on descriptors of the kernel *)

(** A negative result is [-errno].  [k_stat] tells whether the descriptor is a
    directory and whether it is a regular file, and its size. *)
Class KernelFiles (K : Type) : Type := {
  k_getfl : Z -> K -> Z;
  k_stat : Z -> K -> option (bool * bool * Z);
  k_tell : Z -> K -> Z;
  k_pread : forall (fd count position : Z), K -> Z * list cell;
  k_read : forall (fd count : Z), K -> (Z * list cell) * K;
  k_pwrite : forall (fd : Z) (data : list cell) (position : Z), K -> Z * K;
  k_write : forall (fd : Z) (data : list cell), K -> Z * K;
  k_seek_back : forall (fd count : Z), K -> K;
  k_mmap : forall (length : Z), K -> bool;
  k_page_size : Z
}.

Definition O_ACCMODE : Z := 3.
Definition O_RDONLY : Z := 0.
Definition O_WRONLY : Z := 1.
Definition O_RDWR : Z := 2.
Definition O_PATH : Z := 2097152.
Definition EIO : Z := 5.
Definition EBADF : Z := 9.
Definition ENOMEM : Z := 12.
Definition EISDIR : Z := 21.
Definition EOVERFLOW : Z := 75.
Definition INT_MAX : Z := 2 ^ 31 - 1.

(** [CPCopyFileRangeEnd_t]; [offset] is the address the caller passed. *)
Record CPCopyFileRangeEnd : Type := {
  e_fd : Z;
  e_offset : option Z;
  is_capio : bool;
  is_open : bool;
  e_flags : Z;
  is_dir : bool;
  is_regular : bool;
  e_size : Z;
  e_position : Z;
  saved_fd_offset : Z
}.
Definition isReadable (e : CPCopyFileRangeEnd) : bool :=
  let mode := Z.land (e_flags e) O_ACCMODE in
  (Z.land (e_flags e) O_PATH =? 0) && ((mode =? O_RDONLY) || (mode =? O_RDWR)).
Definition isWritable (e : CPCopyFileRangeEnd) : bool :=
  let mode := Z.land (e_flags e) O_ACCMODE in
  (Z.land (e_flags e) O_PATH =? 0) && ((mode =? O_WRONLY) || (mode =? O_RDWR)).
Definition at_position (p : Z) (e : CPCopyFileRangeEnd) : CPCopyFileRangeEnd := {|
  e_fd := e_fd e; e_offset := e_offset e; is_capio := is_capio e; is_open := is_open e; e_flags := e_flags e;
  is_dir := is_dir e; is_regular := is_regular e; e_size := e_size e; e_position := p;
  saved_fd_offset := saved_fd_offset e |}.
Definition closed_end (fd : Z) (offset : option Z) : CPCopyFileRangeEnd := {|
  e_fd := fd; e_offset := offset; is_capio := false; is_open := false; e_flags := 0;
  is_dir := false; is_regular := false; e_size := 0; e_position := 0; saved_fd_offset := 0 |}.

Section Copy.
Context {P K : Type} `{Peer P} `{Thread} `{KernelFiles K}.

(** The client, the kernel, and the offsets in the memory of the caller. *)
Record CopyState : Type := { client : Client P; kernel_files : K; user : gmap Z Z }.
Definition set_client c (s : CopyState) : CopyState :=
  {| client := c; kernel_files := kernel_files s; user := user s |}.
Definition set_kernel k (s : CopyState) : CopyState :=
  {| client := client s; kernel_files := k; user := user s |}.
Definition set_user u (s : CopyState) : CopyState :=
  {| client := client s; kernel_files := kernel_files s; user := u |}.
Definition on_client {A} (m : M (Client P) A) : M CopyState A := zoom client set_client m.
Definition on_kernel {A} (f : K -> A * K) : M CopyState A := fun s =>
  let '(a, k) := f (kernel_files s) in Done (a, set_kernel k s).

(** [*offset] *)
Definition load_offset (a : Z) : M CopyState Z := fun s =>
  match user s !! a with Some v => Done (v, s) | None => UB "bad address" end.
Definition add_offset (a n : Z) : M CopyState unit :=
  let* v := load_offset a in modify (fun s => set_user (<[a := v + n]> (user s)) s).

(** [fstat_request]: both values. *)
Definition ask_pair (c : call) : M (Client P) (Z * Z) :=
  PosixCache.send c ;; let* v := wait_reply in let* w := wait_reply in ret (v, w).

Definition capio_copy_file_range_end (fd : Z) (offset : option Z) : M CopyState CPCopyFileRangeEnd :=
  let* capio := on_client (on_tables (exists_capio_fd fd)) in
  if capio then
    on_client WriteCache_flush ;;
    let* (file_size, dir) := on_client (ask_pair (fstat_request fd tid)) in
    let* flags := on_client (on_tables (get_capio_fd_flags fd)) in
    let* saved := on_client (on_tables (get_capio_fd_offset fd)) in
    let* pos := match offset with Some a => load_offset a | None => ret saved end in
    let dir := negb (dir =? 0) in
    ret {| e_fd := fd; e_offset := offset; is_capio := true; is_open := true; e_flags := flags; is_dir := dir;
           is_regular := negb dir; e_size := (if file_size <? 0 then 0 else file_size); e_position := pos;
           saved_fd_offset := saved |}
  else
    let* k := gets kernel_files in
    let flags := k_getfl fd k in
    if flags <? 0 then ret (closed_end fd offset)
    else match k_stat fd k with
         | None => ret (closed_end fd offset)
         | Some (dir, regular, size) =>
             let* pos := match offset with Some a => load_offset a | None => ret (k_tell fd k) end in
             ret {| e_fd := fd; e_offset := offset; is_capio := false; is_open := true; e_flags := s32 flags;
                    is_dir := dir; is_regular := regular; e_size := size; e_position := pos; saved_fd_offset := 0 |}
         end.

Definition capio_copy_file_range_seek (e : CPCopyFileRangeEnd) : M CopyState unit :=
  let* offset := on_client (on_tables (get_capio_fd_offset (e_fd e))) in
  when (negb (offset =? e_position e)) (on_client (capio_set_fd_offset (e_fd e) (e_position e))).

(** The result, the bytes in the buffer, and the end. *)
Definition capio_copy_file_range_read (e : CPCopyFileRangeEnd) (count : Z)
  : M CopyState (Z * list cell * CPCopyFileRangeEnd) :=
  if is_capio e then
    capio_copy_file_range_seek e ;;
    let* (bytes_read, data) := on_client (capio_cached_read (e_fd e) count) in
    ret (bytes_read, data, at_position (e_position e + bytes_read) e)
  else match e_offset e with
       | Some _ =>
           let* (bytes_read, data) := on_kernel (fun k => (k_pread (e_fd e) count (e_position e) k, k)) in
           ret (bytes_read, data, if 0 <? bytes_read then at_position (e_position e + bytes_read) e else e)
       | None => let* (bytes_read, data) := on_kernel (k_read (e_fd e) count) in ret (bytes_read, data, e)
       end.

Definition capio_copy_file_range_write (e : CPCopyFileRangeEnd) (data : list cell)
  : M CopyState (Z * CPCopyFileRangeEnd) :=
  let count := Z.of_nat (length data) in
  if is_capio e then
    capio_copy_file_range_seek e ;;
    on_client (capio_cached_write (e_fd e) data) ;;
    ret (count, at_position (e_position e + count) e)
  else match e_offset e with
       | Some _ =>
           let* bytes_written := on_kernel (k_pwrite (e_fd e) data (e_position e)) in
           ret (bytes_written, if 0 <? bytes_written then at_position (e_position e + bytes_written) e else e)
       | None => let* bytes_written := on_kernel (k_write (e_fd e) data) in ret (bytes_written, e)
       end.

(** One turn writes at least a byte or ends the loop: [count] turns are enough.
    [data] is [buffer], [error] the value the caller passed. *)
Fixpoint write_all_loop (fuel : nat) (e : CPCopyFileRangeEnd) (data : list cell) (bytes_written error : Z)
  : M CopyState (Z * Z * CPCopyFileRangeEnd) :=
  if bytes_written <? Z.of_nat (length data) then
    match fuel with
    | O => blocks "while (bytes_written < count)"
    | S fuel' =>
        let* (res, e) := capio_copy_file_range_write e (drop (Z.to_nat bytes_written) data) in
        if res <=? 0 then ret (bytes_written, if res =? 0 then - EIO else res, e)
        else write_all_loop fuel' e data (bytes_written + res) error
    end
  else ret (bytes_written, error, e).
Definition capio_copy_file_range_write_all (e : CPCopyFileRangeEnd) (data : list cell) (error : Z)
  : M CopyState (Z * Z * CPCopyFileRangeEnd) := write_all_loop (length data) e data 0 error.

Definition capio_copy_file_range_unread (e : CPCopyFileRangeEnd) (count : Z) : M CopyState CPCopyFileRangeEnd :=
  if is_capio e || bool_decide (is_Some (e_offset e)) then ret (at_position (e_position e - count) e)
  else on_kernel (fun k => (tt, k_seek_back (e_fd e) count k)) ;; ret e.

Definition capio_copy_file_range_finish (e : CPCopyFileRangeEnd) (copied : Z) : M CopyState unit :=
  match e_offset e with
  | Some a =>
      add_offset a copied ;;
      when (is_capio e) (capio_copy_file_range_seek (at_position (saved_fd_offset e) e))
  | None => when (is_capio e) (capio_copy_file_range_seek e)
  end.

(** ** The two ways to copy *)

Fixpoint on_server_loop (fuel : nat) (ein eout : CPCopyFileRangeEnd) (count copied : Z)
  : M CopyState (Z * CPCopyFileRangeEnd * CPCopyFileRangeEnd) :=
  if copied <? count then
    match fuel with
    | O => blocks "while (copied < count)"
    | S fuel' =>
        let* bytes_copied := on_client (ask (copy_file_range_request (e_fd ein) (e_fd eout) (e_position ein)
                                               (e_position eout) (count - copied) tid)) in
        if bytes_copied =? 0 then ret (copied, ein, eout)
        else on_server_loop fuel' (at_position (e_position ein + bytes_copied) ein)
               (at_position (e_position eout + bytes_copied) eout) count (copied + bytes_copied)
    end
  else ret (copied, ein, eout).
Definition capio_copy_file_range_on_server (ein eout : CPCopyFileRangeEnd) (count : Z)
  : M CopyState (Z * CPCopyFileRangeEnd * CPCopyFileRangeEnd) :=
  on_client WriteCache_flush ;; on_client ReadCache_flush ;;
  on_server_loop (Z.to_nat count) ein eout count 0.

(** The bytes copied, the error and the two ends. *)
Fixpoint buffer_loop (fuel : nat) (ein eout : CPCopyFileRangeEnd) (count chunk_size copied error : Z)
  : M CopyState (Z * Z * CPCopyFileRangeEnd * CPCopyFileRangeEnd) :=
  if copied <? count then
    match fuel with
    | O => blocks "while (copied < count)"
    | S fuel' =>
        let* (bytes_read, data, ein) := capio_copy_file_range_read ein (Z.min (count - copied) chunk_size) in
        if bytes_read =? 0 then ret (copied, error, ein, eout)
        else if bytes_read <? 0 then ret (copied, bytes_read, ein, eout)
        else
          let* (bytes_written, error, eout) :=
            capio_copy_file_range_write_all eout (take (Z.to_nat bytes_read) data) error in
          if bytes_written <? bytes_read then
            let* ein := capio_copy_file_range_unread ein (bytes_read - bytes_written) in
            ret (copied + bytes_written, error, ein, eout)
          else buffer_loop fuel' ein eout count chunk_size (copied + bytes_written) error
    end
  else ret (copied, error, ein, eout).
Definition capio_copy_file_range_through_buffer (ein eout : CPCopyFileRangeEnd) (count error : Z)
  : M CopyState (Z * Z * CPCopyFileRangeEnd * CPCopyFileRangeEnd) :=
  let chunk_size := Z.min count _max_line_size in
  let* k := gets kernel_files in
  if negb (k_mmap chunk_size k) then ret (0, - ENOMEM, ein, eout)
  else buffer_loop (Z.to_nat count) ein eout count chunk_size 0 error.

(** ** The checks, in the order of the kernel *)

(** The error for two open ends, [None] when the copy may start. *)
Definition check_ends (ein eout : CPCopyFileRangeEnd) (len : Z) : option Z :=
  if is_dir ein || is_dir eout then Some EISDIR
  else if negb (is_regular ein) || negb (is_regular eout) then Some EINVAL
  else if negb (isReadable ein) then Some EBADF
  else if negb (isWritable eout) || negb (Z.land (e_flags eout) O_APPEND =? 0) then Some EBADF
  else if (u64 (u64 (e_position ein) + len) <? u64 (e_position ein)) || (u64 (u64 (e_position eout) + len) <? u64 (e_position eout))
  then Some EOVERFLOW
  else if (e_position ein <? 0) || (e_position eout <? 0) then Some EINVAL
  else None.

(** How much of the input exists when the copy starts. *)
Definition overlap_count (ein : CPCopyFileRangeEnd) (len : Z) : Z :=
  if e_size ein <=? e_position ein then 0 else s64 (Z.min len (u64 (e_size ein - e_position ein))).
(** Whether the ranges of one file overlap; a sum past [off64_t] is undefined. *)
Definition ranges_overlap (ein eout : CPCopyFileRangeEnd) (len : Z) : outcome bool :=
  let n := overlap_count ein len in
  if (2 ^ 63 <=? e_position eout + n) || (2 ^ 63 <=? e_position ein + n) then UB "off64_t overflow"
  else Done ((e_position ein <? e_position eout + n) && (e_position eout <? e_position ein + n)).

Definition same_file (ein eout : CPCopyFileRangeEnd) : M CopyState bool :=
  if is_capio ein && is_capio eout then
    let* p := on_client (on_tables (get_capio_fd_path (e_fd ein))) in
    let* p' := on_client (on_tables (get_capio_fd_path (e_fd eout))) in
    ret (String.eqb p p')
  else ret false.

(** [INT_MAX & ~(page_size - 1)] *)
Definition capio_max_rw_count : Z := Z.land INT_MAX (Z.lnot (k_page_size - 1)).

(** The copy and the offsets after it, once the checks passed. *)
Definition run_copy (ein eout : CPCopyFileRangeEnd) (len : Z) : M CopyState answer :=
  let count := Z.min len capio_max_rw_count in
  let* (copied, error, ein, eout) :=
    if is_capio ein && is_capio eout then
      let* (copied, ein, eout) := capio_copy_file_range_on_server ein eout count in ret (copied, 0, ein, eout)
    else capio_copy_file_range_through_buffer ein eout count 0 in
  (match e_offset ein with
   | None => capio_copy_file_range_finish eout copied ;; capio_copy_file_range_finish ein copied
   | Some _ => capio_copy_file_range_finish ein copied ;; capio_copy_file_range_finish eout copied
   end) ;;
  if (copied =? 0) && (error <? 0) then ret (Err (s32 (- error))) else ret (Ret copied).

Definition capio_copy_file_range (fd_in : Z) (off_in : option Z) (fd_out : Z) (off_out : option Z) (len flags : Z)
  : M CopyState answer :=
  let* ex_in := on_client (on_tables (exists_capio_fd fd_in)) in
  let* ex_out := on_client (on_tables (exists_capio_fd fd_out)) in
  if negb ex_in && negb ex_out then ret Skip
  else if negb (flags =? 0) then ret (Err EINVAL)
  else
    let* ein := capio_copy_file_range_end fd_in off_in in
    if negb (is_open ein) then ret (Err EBADF)
    else
      let* eout := capio_copy_file_range_end fd_out off_out in
      if negb (is_open eout) then ret (Err EBADF)
      else match check_ends ein eout len with
           | Some e => ret (Err e)
           | None =>
               if len =? 0 then ret (Ret 0)
               else
                 let* same := same_file ein eout in
                 let* overlap := if same then lift (ranges_overlap ein eout len) else ret false in
                 if overlap then ret (Err EINVAL) else run_copy ein eout len
           end.

(** The conversions of the handler: the descriptors to [int], the length to
    [size_t], the flags to [unsigned int]; [errno] is the one of before. *)
Definition copy_file_range_handler (errno arg0 : Z) (arg1 : option Z) (arg2 : Z) (arg3 : option Z) (arg4 arg5 : Z)
  : M CopyState (Z * option Z) :=
  let* a := capio_copy_file_range (s32 arg0) arg1 (s32 arg2) arg3 (u64 arg4) (u32 arg5) in
  ret (posix_return_value errno a).
End Copy.
Arguments CopyState : clear implicits.
