(* ===== verification/PosixCopyProps.v ===== *)
(** * Copies are right

    The checks of [copy_file_range] allow exactly the copies the kernel allows; a
    copy on the server and a copy through the buffer move the bytes of the input,
    in order, to the output, end, and leave both ends after the bytes copied.  The
    loop through the buffer is verified against what it needs of its two ends, which
    the read cache, the write cache and the files of the kernel then provide. *)
From S2P Require Import Prelude Text Memory Queue Server StorageManager Requests PosixPath PosixFs PosixCache PosixCacheProps PosixCalls PosixCopy.

(** ** The checks *)

Lemma u64_wraps x len :
  0 <= len < 2 ^ 64 -> 0 <= x < 2 ^ 63 -> (u64 (u64 x + len) <? u64 x) = negb (x + len <? 2 ^ 64).
Proof.
  intros Hl Hx. rewrite (u64_small x) by lia. unfold u64. destruct (Z.ltb_spec (x + len) (2 ^ 64)).
  - rewrite Z.mod_small by lia. apply Z.ltb_ge. lia.
  - rewrite <- (Z.mod_add _ (-1)) by lia. rewrite Z.mod_small by lia. apply Z.ltb_lt. lia.
Qed.

(** What a copy may start from. *)
Definition copy_allowed (ein eout : CPCopyFileRangeEnd) (len : Z) : Prop :=
  is_dir ein = false /\ is_dir eout = false /\ is_regular ein = true /\ is_regular eout = true
  /\ isReadable ein = true /\ isWritable eout = true /\ Z.land (e_flags eout) O_APPEND = 0
  /\ 0 <= e_position ein /\ 0 <= e_position eout
  /\ e_position ein + len < 2 ^ 64 /\ e_position eout + len < 2 ^ 64.

Lemma check_ends_none ein eout len :
  0 <= len < 2 ^ 64 -> e_position ein < 2 ^ 63 -> e_position eout < 2 ^ 63 ->
  check_ends ein eout len = None <-> copy_allowed ein eout len.
Proof.
  intros Hl Hi Ho. unfold check_ends, copy_allowed.
  destruct (is_dir ein), (is_dir eout), (is_regular ein), (is_regular eout); simpl; try naive_solver.
  destruct (isReadable ein); simpl; [|naive_solver]. destruct (isWritable eout); simpl; [|naive_solver].
  destruct (Z.eqb_spec (Z.land (e_flags eout) O_APPEND) 0); simpl; [|naive_solver].
  destruct (Z.ltb_spec (e_position ein) 0) as [Hin|Hin]; [simpl; case_match; split; (done || lia || naive_solver lia)|].
  destruct (Z.ltb_spec (e_position eout) 0) as [Hon|Hon]; [simpl; case_match; split; (done || lia || naive_solver lia)|].
  rewrite !u64_wraps by lia. simpl.
  destruct (Z.ltb_spec (e_position ein + len) (2 ^ 64)), (Z.ltb_spec (e_position eout + len) (2 ^ 64)); simpl;
    (split; [try done; intros _; split_and!; (done || lia)|try done; naive_solver lia]).
Qed.

(** A copy starts exactly when it may.  For ends with 64-bit offsets, the checks
    pass if and only if both are regular files, the input is open for reading, the
    output for writing and not in append mode, no offset is negative and no range
    wraps past 64 bits.  The range check of a copy within one file then refuses it
    exactly when some existing byte of the input range is also where a byte of the
    copy goes. *)
Theorem copy_checks_correct (ein eout : CPCopyFileRangeEnd) (len : Z) :
  0 <= len < 2 ^ 64 -> e_position ein < 2 ^ 63 -> e_position eout < 2 ^ 63 -> 0 <= e_size ein < 2 ^ 63 ->
  (check_ends ein eout len = None <-> copy_allowed ein eout len)
  /\ (copy_allowed ein eout len -> forall b, ranges_overlap ein eout len = Done b ->
      b = true <-> exists x, e_position ein <= x < e_position ein + len /\ x < e_size ein
        /\ e_position eout <= x < e_position eout + Z.min len (e_size ein - e_position ein)).
Proof.
  intros Hl Hi Ho Hs. split; [by apply check_ends_none|].
  intros (_ & _ & _ & _ & _ & _ & _ & Hin & Hon & _) b. unfold ranges_overlap, overlap_count.
  destruct (Z.leb_spec (e_size ein) (e_position ein)) as [Hend|Hend].
  - rewrite !Z.add_0_r. rewrite (proj2 (Z.leb_gt _ _)), (proj2 (Z.leb_gt _ _)) by lia. simpl. intros [= <-].
    split; [lia|]. intros (x & Hx). lia.
  - rewrite u64_small, s64_small by lia. case_match; [done|]. intros [= <-].
    set (n := Z.min len (e_size ein - e_position ein)) in *. rewrite andb_true_iff, !Z.ltb_lt. split.
    + intros [H1 H2]. exists (Z.max (e_position ein) (e_position eout)). lia.
    + intros (x & Hx). lia.
Qed.

(** ** Writing all of a buffer, and the loop through it *)

Section Loop.
Context {P K : Type} `{Peer P} `{Thread} `{KernelFiles K}.
Notation State := (CopyState P K).

(** What the loop needs of the two ends: [J x y ein eout s] when [x] is what the
    input has left and [y] what the output has got. *)
Variable J : list cell -> list cell -> CPCopyFileRangeEnd -> CPCopyFileRangeEnd -> State -> Prop.
Hypothesis J_read : forall x y ein eout s n, J x y ein eout s -> 0 < n <= _max_line_size ->
  gives (capio_copy_file_range_read ein n) s (fun '(r, d, ein') s' =>
    r = Z.of_nat (length d) /\ r <= n /\ d `prefix_of` x /\ (r = 0 -> x = []) /\ J (drop (length d) x) y ein' eout s').
Hypothesis J_write : forall x y ein eout s d, J x y ein eout s -> d <> [] ->
  gives (capio_copy_file_range_write eout d) s (fun '(r, eout') s' =>
    0 < r <= Z.of_nat (length d) /\ J x (y ++ take (Z.to_nat r) d) ein eout' s').

Lemma write_all_loop_ok fuel x y ein eout d n error s :
  J x (y ++ take n d) ein eout s -> (n <= length d)%nat -> (length d - n <= fuel)%nat ->
  gives (write_all_loop fuel eout d (Z.of_nat n) error) s (fun '(r, error', eout') s' =>
    r = Z.of_nat (length d) /\ error' = error /\ J x (y ++ d) ein eout' s').
Proof using J_write.
  revert eout n s; induction fuel as [|fuel IH]; intros eout n s HJ Hn Hfuel; cbn [write_all_loop].
  - assert (n = length d) as -> by lia. rewrite Z.ltb_irrefl. apply gives_ret. by rewrite firstn_all in HJ.
  - destruct (Z.ltb_spec (Z.of_nat n) (Z.of_nat (length d))) as [Hlt|Hge].
    + rewrite Nat2Z.id. eapply gives_bind.
      { apply (J_write _ _ _ _ _ (drop n d) HJ). intros Hnil. apply (f_equal length) in Hnil. rewrite length_drop in Hnil. simpl in Hnil. lia. }
      intros [r eout'] s1 [Hr HJ1]. rewrite length_drop in Hr. rewrite (proj2 (Z.leb_gt r 0)) by lia.
      replace (Z.of_nat n + r) with (Z.of_nat (n + Z.to_nat r)) by lia. apply IH; [|lia|lia].
      rewrite <- app_assoc in HJ1. rewrite take_take_drop in HJ1. done.
    + assert (n = length d) as -> by lia. apply gives_ret. by rewrite firstn_all in HJ.
Qed.

Lemma buffer_loop_ok fuel x y ein eout count chunk copied error s :
  J x y ein eout s -> 0 <= copied <= count -> 0 < chunk <= _max_line_size -> count - copied <= Z.of_nat fuel ->
  gives (buffer_loop fuel ein eout count chunk copied error) s (fun '(n, error', ein', eout') s' =>
    let m := Z.min (count - copied) (Z.of_nat (length x)) in
    n = copied + m /\ error' = error /\ J (drop (Z.to_nat m) x) (y ++ take (Z.to_nat m) x) ein' eout' s').
Proof using J_read J_write.
  revert x y ein eout copied s; induction fuel as [|fuel IH]; intros x y ein eout copied s HJ Hc Hch Hfuel; cbn [buffer_loop].
  { rewrite (proj2 (Z.ltb_ge copied count)) by lia. apply gives_ret. cbv zeta.
    replace (Z.min (count - copied) (Z.of_nat (length x))) with 0 by lia. simpl. rewrite app_nil_r. split_and!; (done || lia). }
  destruct (Z.ltb_spec copied count) as [Hlt|Hge].
  2: { apply gives_ret. cbv zeta. replace (Z.min (count - copied) (Z.of_nat (length x))) with 0 by lia. simpl.
       rewrite app_nil_r. split_and!; (done || lia). }
  eapply gives_bind; [apply (J_read _ _ _ _ _ (Z.min (count - copied) chunk) HJ); lia|].
  intros [[r d] ein1] s1 (Hr & Hrn & [rest ->] & Hz & HJ1). rewrite drop_app_length in HJ1.
  destruct (Z.eqb_spec r 0) as [Hr0|Hr0].
  { specialize (Hz Hr0). apply app_eq_nil in Hz as [-> ->]. apply gives_ret. cbv zeta. simpl.
    rewrite Z.min_r by lia. simpl. rewrite app_nil_r. split_and!; (done || lia). }
  rewrite (proj2 (Z.ltb_ge r 0)) by lia. rewrite (take_ge d) by lia.
  eapply gives_bind.
  { apply (write_all_loop_ok (length d) rest y ein1 eout d 0 error s1); [by rewrite app_nil_r|lia|lia]. }
  intros [[w error1] eout1] s2 (-> & -> & HJ2). rewrite Hr, Z.ltb_irrefl.
  destruct (IH rest (y ++ d) ein1 eout1 (copied + Z.of_nat (length d)) s2 HJ2) as ([[[n e] ein'] eout'] & s3 & Hrun & Hn & He & HJ3);
    [lia|lia|lia|].
  exists (n, e, ein', eout'), s3. split; [done|]. cbv zeta. rewrite length_app.
  replace (Z.min (count - copied) (Z.of_nat (length d + length rest)))
    with (Z.of_nat (length d) + Z.min (count - (copied + Z.of_nat (length d))) (Z.of_nat (length rest))) by lia.
  split_and!; [lia|done|].
  set (m := Z.min (count - (copied + Z.of_nat (length d))) (Z.of_nat (length rest))) in *. replace (Z.to_nat (Z.of_nat (length d) + m)) with (length d + Z.to_nat m)%nat by lia.
  rewrite drop_app_add, take_app_add, app_assoc. done.
Qed.

(** The copy ends, having moved the next [count] bytes of the input, or all that
    are left. *)
Lemma through_buffer_ok x y ein eout count s :
  J x y ein eout s -> 0 < count -> 0 < _max_line_size -> k_mmap (Z.min count _max_line_size) (kernel_files s) = true ->
  gives (capio_copy_file_range_through_buffer ein eout count 0) s (fun '(n, error', ein', eout') s' =>
    n = Z.min count (Z.of_nat (length x)) /\ error' = 0
    /\ J (drop (Z.to_nat n) x) (y ++ take (Z.to_nat n) x) ein' eout' s').
Proof using J_read J_write.
  intros HJ Hc Hline Hmap. unfold capio_copy_file_range_through_buffer.
  eapply (gives_bind _ _ _ (fun k s' => k = kernel_files s /\ s' = s)); [by exists (kernel_files s), s|].
  intros k s' [-> ->]. rewrite Hmap. cbn [negb].
  destruct (buffer_loop_ok (Z.to_nat count) x y ein eout count (Z.min count _max_line_size) 0 0 s HJ)
    as ([[[n e] ein'] eout'] & s1 & Hrun & Hn & He & HJ1); [lia|lia|lia|].
  exists (n, e, ein', eout'), s1. split; [done|]. rewrite Z.sub_0_r, Z.add_0_l in Hn. rewrite Z.sub_0_r in HJ1.
  rewrite Hn. by split_and!.
Qed.
End Loop.

(** ** Files of the kernel *)

(** [data] stored at [pos] of a file; a hole before it reads as zeros, and
    an empty write changes nothing. *)
Definition overwrite (file : list cell) (pos : Z) (data : list cell) : list cell :=
  let p := Z.to_nat pos in
  match data with
  | [] => file
  | _ => take p (file ++ replicate (p - length file) (Some x00)) ++ data ++ drop (p + length data) file
  end.

(** A regular file on a device with room: a read returns some of what was asked for
    and nothing only at the end, a write stores at least a byte; [write] does so at
    the offset of the descriptor and moves it. *)
Class RegularFiles (K : Type) `{KernelFiles K} : Type := {
  content : Z -> K -> list cell;
  pread_some fd n pos k : 0 < n -> 0 <= pos ->
    exists d, k_pread fd n pos k = (Z.of_nat (length d), d) /\ Z.of_nat (length d) <= n
      /\ d `prefix_of` drop (Z.to_nat pos) (content fd k) /\ (d = [] -> drop (Z.to_nat pos) (content fd k) = []);
  pwrite_some fd d pos k : d <> [] -> 0 <= pos ->
    exists r k', k_pwrite fd d pos k = (r, k') /\ 0 < r <= Z.of_nat (length d)
      /\ content fd k' = overwrite (content fd k) pos (take (Z.to_nat r) d);
  write_some fd d k : d <> [] -> 0 <= k_tell fd k ->
    exists r k', k_write fd d k = (r, k') /\ 0 < r <= Z.of_nat (length d)
      /\ content fd k' = overwrite (content fd k) (k_tell fd k) (take (Z.to_nat r) d)
      /\ k_tell fd k' = k_tell fd k + r
}.

Lemma overwrite_app file pos a b :
  0 <= pos -> overwrite (overwrite file pos a) (pos + Z.of_nat (length a)) b = overwrite file pos (a ++ b).
Proof.
  intros Hp. destruct a as [|a0 a1] eqn:Ha; [simpl; by rewrite Z.add_0_r|]. rewrite <- Ha.
  destruct b as [|b0 b1] eqn:Hb; [by rewrite app_nil_r|]. rewrite <- Hb.
  assert (Hne : forall (f : list cell) p (d : list cell), d <> [] -> overwrite f p d
    = take (Z.to_nat p) (f ++ replicate (Z.to_nat p - length f) (Some x00)) ++ d ++ drop (Z.to_nat p + length d) f).
  { intros f p [|? ?] ?; done. }
  rewrite !Hne by (subst; done). clear Hne Ha Hb. set (p := Z.to_nat pos). set (l := take p (file ++ replicate (p - length file) (Some x00))).
  assert (Hl : length l = p) by (unfold l; rewrite length_take, length_app, length_replicate; lia).
  replace (Z.to_nat (pos + Z.of_nat (length a))) with (p + length a)%nat by lia.
  rewrite !length_app, Hl, length_drop.
  replace (p + length a - (p + (length a + (length file - (p + length a)))))%nat with 0%nat by lia.
  simpl replicate. rewrite app_nil_r, !app_assoc.
  rewrite take_app_length' by (rewrite length_app; lia). f_equal. rewrite <- Hl at 1.
  replace (length l + length a + length b)%nat with (length (l ++ a) + length b)%nat by (rewrite length_app; lia).
  rewrite drop_app_add, drop_drop. f_equal. lia.
Qed.

(** ** Operations that leave a part of the client alone *)

Section Leaves.
Context {P : Type} `{Peer P} `{Thread}.

Lemma read_leaves_write_cache fd count g b s a s' :
  ReadCache_read fd count g b s = Done (a, s') -> write_cache s' = write_cache s.
Proof using. apply preserves_part. intros v. preserves_caches done. Qed.
Lemma write_leaves_read_cache fd d s a s' : WriteCache_write fd d s = Done (a, s') -> read_cache s' = read_cache s.
Proof using. apply preserves_part. intros v. preserves_caches done. Qed.
End Leaves.

(** ** From a CAPIO file to one of the kernel *)

Lemma gives_on_client {P K A} (m : M (Client P) A) (s : CopyState P K) Q R :
  gives m (client s) Q -> (forall a c, m (client s) = Done (a, c) -> Q a c -> R a (set_client c s)) ->
  gives (on_client m) s R.
Proof.
  intros (a & c & Hm & HQ) HR. exists a, (set_client c s). split; [|by apply HR].
  unfold on_client, zoom. by rewrite Hm.
Qed.

(** An offset where it should be is not moved. *)
Lemma seek_in_place {P K} `{Peer P} `{Thread} (e : CPCopyFileRangeEnd) (s : CopyState P K) :
  at_offset (e_fd e) (e_position e) (tables (client s)) ->
  capio_copy_file_range_seek e s = Done (tt, s).
Proof.
  intros Ho. unfold capio_copy_file_range_seek, bind, on_client, on_tables, zoom.
  rewrite (at_offset_get _ _ _ Ho). simpl. rewrite Z.eqb_refl. by destruct s as [[] ? ?].
Qed.

Section FromCapio.
Context {P K : Type} `{PeerLaws P} `{Thread} `{!ReadingPeer P} `{RegularFiles K}.
Hypothesis line_pos : 0 < _max_line_size < 2 ^ 63.

(** Where the next byte of an output of the kernel goes: the position of the end
    when the caller passed an offset, the offset of the descriptor otherwise. *)
Definition out_position (e : CPCopyFileRangeEnd) (k : K) : Z :=
  match e_offset e with Some _ => e_position e | None => k_tell (e_fd e) k end.

(** The input is at [x] of a CAPIO file, the output of the kernel has [y] on top of
    what it held, [file], at [pos]; the input ends at [fin]. *)
Record to_kernel (fd kfd pos fin : Z) (file x y : list cell) (ein eout : CPCopyFileRangeEnd) (s : CopyState P K) : Prop := {
  tk_in : is_capio ein = true /\ e_fd ein = fd;
  tk_ahead : e_position ein + Z.of_nat (length x) = fin;
  tk_cache : exists c, rc_inv fd (e_position ein) c x (client s);
  tk_offset : at_offset fd (e_position ein) (tables (client s));
  tk_clean : wc_actual_size (write_cache (client s)) = 0;
  tk_out : is_capio eout = false /\ e_fd eout = kfd;
  tk_position : out_position eout (kernel_files s) = pos + Z.of_nat (length y);
  tk_file : content kfd (kernel_files s) = overwrite file pos y
}.

Lemma to_kernel_read fd kfd pos fin file x y ein eout s n :
  to_kernel fd kfd pos fin file x y ein eout s -> 0 < n <= _max_line_size ->
  gives (capio_copy_file_range_read ein n) s (fun '(r, d, ein') s' =>
    r = Z.of_nat (length d) /\ r <= n /\ d `prefix_of` x /\ (r = 0 -> x = [])
    /\ to_kernel fd kfd pos fin file (drop (length d) x) y ein' eout s').
Proof.
  intros [[Hi Hfd] Hfin [c Hc] Hoff Hclean Hout Hpos Hfile] Hn. unfold capio_copy_file_range_read. rewrite Hi.
  eapply (gives_bind _ _ _ (fun _ s' => s' = s)).
  { exists tt, s. split; [apply seek_in_place; by rewrite Hfd|done]. }
  intros _ s' ->. rewrite Hfd. eapply gives_bind.
  - apply (gives_on_client _ s (fun r c' => r.1 = Z.of_nat (length r.2) /\ r.1 <= n /\ r.2 `prefix_of` x
      /\ (r.1 = 0 -> x = []) /\ at_offset fd (e_position ein + r.1) (tables c')
      /\ wc_actual_size (write_cache c') = 0
      /\ exists c1, rc_inv fd (e_position ein + r.1) c1 (drop (length r.2) x) c')
      (fun r s' => r.1 = Z.of_nat (length r.2) /\ r.1 <= n /\ r.2 `prefix_of` x
      /\ (r.1 = 0 -> x = []) /\ at_offset fd (e_position ein + r.1) (tables (client s'))
      /\ wc_actual_size (write_cache (client s')) = 0 /\ kernel_files s' = kernel_files s
      /\ exists c1, rc_inv fd (e_position ein + r.1) c1 (drop (length r.2) x) (client s')));
      [|intros a c' _ (?&?&?&?&?&?&?); by split_and!].
    unfold capio_cached_read. eapply (gives_bind _ _ _ (fun _ c' => c' = client s)).
    { exists tt, (client s). split; [|done]. unfold WriteCache_flush, bind, get. simpl. by rewrite Hclean. }
    intros _ c' ->. destruct (rc_read line_pos fd (e_position ein) c x n (client s) Hc Hoff) as (r & c1 & Hr & Hq); [lia|right; lia|].
    exists r, c1. split; [done|]. pose proof (read_leaves_write_cache _ _ _ _ _ _ _ Hr) as Hw.
    destruct Hq as (?&?&?&?&?&c2&_&?). rewrite Hw. split_and!; try done. by exists c2.
  - intros [r d] s1 (Hr & Hrn & Hpre & Hz & Ho1 & Hw1 & Hk1 & Hc1). simpl in *. apply gives_ret. split_and!; try done.
    split; simpl; try done; [|by rewrite Hk1..].
    destruct Hpre as [rest ->]. rewrite drop_app_length. rewrite length_app in Hfin. lia.
Qed.

Lemma to_kernel_write fd kfd pos fin file x y ein eout s d :
  0 <= pos -> to_kernel fd kfd pos fin file x y ein eout s -> d <> [] ->
  gives (capio_copy_file_range_write eout d) s (fun '(r, eout') s' =>
    0 < r <= Z.of_nat (length d) /\ to_kernel fd kfd pos fin file x (y ++ take (Z.to_nat r) d) ein eout' s').
Proof.
  intros Hpos0 [Hin Hfin Hc Hoff Hclean (Ho & Hkfd) Hpos Hfile] Hd. unfold capio_copy_file_range_write. rewrite Ho.
  unfold out_position in Hpos. destruct (e_offset eout) as [a|] eqn:Ha.
  - destruct (pwrite_some (e_fd eout) d (e_position eout) (kernel_files s) Hd) as (r & k' & Hw & Hr & Hcont); [lia|].
    exists (r, at_position (e_position eout + r) eout), (set_kernel k' s).
    split; [unfold bind, on_kernel; rewrite Hw; simpl; by rewrite (proj2 (Z.ltb_lt 0 r)) by lia|].
    split; [lia|]. split; simpl; try done.
    + unfold out_position. simpl. rewrite Ha, Hpos, length_app, length_take. lia.
    + rewrite <- Hkfd, Hcont, Hkfd, Hfile, Hpos. by apply overwrite_app.
  - destruct (write_some (e_fd eout) d (kernel_files s) Hd) as (r & k' & Hw & Hr & Hcont & Ht); [lia|].
    exists (r, eout), (set_kernel k' s). split; [unfold bind, on_kernel; by rewrite Hw|].
    split; [lia|]. split; simpl; try done.
    + unfold out_position. rewrite Ha, Ht, Hpos, length_app, length_take. lia.
    + rewrite <- Hkfd, Hcont, Hpos, Hkfd, Hfile. by apply overwrite_app.
Qed.

Lemma copy_to_kernel_ok fd kfd pos fin file x ein eout count s :
  0 <= pos -> to_kernel fd kfd pos fin file x [] ein eout s -> 0 < count ->
  k_mmap (Z.min count _max_line_size) (kernel_files s) = true ->
  gives (capio_copy_file_range_through_buffer ein eout count 0) s (fun '(n, error', ein', eout') s' =>
    n = Z.min count (Z.of_nat (length x)) /\ error' = 0
    /\ to_kernel fd kfd pos fin file (drop (Z.to_nat n) x) (take (Z.to_nat n) x) ein' eout' s').
Proof.
  intros Hpos HJ Hc Hm. apply (through_buffer_ok (to_kernel fd kfd pos fin file)) with (y := []); try done.
  - intros. by apply to_kernel_read.
  - intros. by apply to_kernel_write.
  - lia.
Qed.
End FromCapio.

(** C28. A copy from a CAPIO file to a file of the kernel is right.  With the CAPIO
    descriptor at its offset, its read cache in any state that agrees with the
    server and nothing left to write, and a kernel file whose writes may be short,
    the copy through the buffer, whose mapping succeeds, ends without an error; it
    copies [count] bytes or all that are left.  The kernel file holds exactly them
    from where the copy starts, the offset the caller passed or, with a null
    offset, the one of the descriptor, and is otherwise as it was; that offset and
    the position of the input are then after the bytes copied. *)
Theorem copy_to_kernel {P K} `{PeerLaws P} `{Thread} `{!ReadingPeer P} `{RegularFiles K}
    (fd kfd : Z) (c : list cell) (ein eout : CPCopyFileRangeEnd) (count : Z) (s : CopyState P K) :
  let o := e_position ein in let pos := out_position eout (kernel_files s) in
  let x := c ++ ahead (server (client s)) fd in
  let file := content kfd (kernel_files s) in
  0 < _max_line_size < 2 ^ 63 -> 0 < count -> 0 <= pos ->
  is_capio ein = true -> e_fd ein = fd -> is_capio eout = false -> e_fd eout = kfd ->
  rc_inv fd o c x (client s) -> at_offset fd o (tables (client s)) -> wc_actual_size (write_cache (client s)) = 0 ->
  k_mmap (Z.min count _max_line_size) (kernel_files s) = true ->
  exists ein' eout' s', let n := Z.min count (Z.of_nat (length x)) in
    capio_copy_file_range_through_buffer ein eout count 0 s = Done ((n, 0, ein', eout'), s')
    /\ content kfd (kernel_files s') = overwrite file pos (take (Z.to_nat n) x)
    /\ e_position ein' = o + n /\ out_position eout' (kernel_files s') = pos + n
    /\ at_offset fd (o + n) (tables (client s')).
Proof.
  intros o pos x file Hline Hc Hpos Hi Hfd Ho Hkfd Hinv Hoff Hclean Hm.
  destruct (copy_to_kernel_ok Hline fd kfd pos (o + Z.of_nat (length x)) file x ein eout count s)
    as ([[[n e] ein'] eout'] & s' & Hrun & -> & -> & [[_ Hfd'] Hfin _ Hoff' _ _ Hp Hf]); [done| |done|done|].
  { split; try done; [by eexists|simpl; unfold pos; lia]. }
  exists ein', eout', s'. set (n := Z.min count (Z.of_nat (length x))) in *. split_and!; [done|done| | |].
  - rewrite length_drop in Hfin. lia.
  - rewrite length_take in Hp. lia.
  - replace (o + n) with (e_position ein') by (rewrite length_drop in Hfin; lia). done.
Qed.

(** ** From a file of the kernel to a CAPIO file *)

Lemma surjective_tables {P} (s : Client P) : s = set_tables (tables s) s.
Proof. by destruct s. Qed.

Section FromKernel.
Context {P K : Type} `{PeerLaws P} `{Thread} `{RegularFiles K}.
Hypothesis line_pos : 0 < _max_line_size.

(** After a flush the server is sent the stream. *)
Lemma stream_delivered t fd x (s : Client P) :
  wc_stream t fd x s ->
  ends WriteCache_flush s (fun s' => exists reqs q, outbox s' = (fun r => write_request r.1 r.2 tid) <$> reqs
    /\ deliver reqs (to_server (server s')) = Done (x, q) /\ fifo_pending q = []).
Proof.
  intros (ws & d & Hat & <-). eapply ends_weaken; [by apply wc_flush|].
  intros s' ([Ho' _ _ (full & Hsl & _ & Hdrop & _)] & _ & _). simpl in Hsl. rewrite app_nil_r in Hsl.
  destruct (deliver_spec line_pos (close_line fd ws d) (to_server (server s'))) as (q & Hd & Hq).
  { unfold fifo_pending. by rewrite Hsl. }
  exists (announced (close_line fd ws d)), q. split_and!; [|by rewrite Hd, tagged_close_line|done].
  rewrite Ho'. unfold announced. by rewrite <- list_fmap_compose.
Qed.

(** The input of the kernel has [x] left, the output got [y] after the stream [x0]
    and is at the offset [pos] and what was written. *)
Record from_kernel (fd kfd pos fin : Z) (x0 : list (Z * cell)) (x y : list cell) (ein eout : CPCopyFileRangeEnd)
    (s : CopyState P K) : Prop := {
  fk_in : is_capio ein = false /\ is_Some (e_offset ein) /\ e_fd ein = kfd /\ 0 <= e_position ein;
  fk_ahead : e_position ein + Z.of_nat (length x) = fin;
  fk_file : x = drop (Z.to_nat (e_position ein)) (content kfd (kernel_files s));
  fk_out : is_capio eout = true /\ e_fd eout = fd;
  fk_position : e_position eout = pos + Z.of_nat (length y);
  fk_offset : at_offset fd (e_position eout) (tables (client s));
  fk_tables : fs_wf (tables (client s));
  fk_stream : exists fd', wc_stream (tables (client s)) fd' (x0 ++ (pair fd <$> y)) (client s);
  fk_clean : rc_cache_offset (read_cache (client s)) = rc_actual_size (read_cache (client s))
}.

Lemma from_kernel_read fd kfd pos fin x0 x y ein eout s n :
  from_kernel fd kfd pos fin x0 x y ein eout s -> 0 < n <= _max_line_size ->
  gives (capio_copy_file_range_read ein n) s (fun '(r, d, ein') s' =>
    r = Z.of_nat (length d) /\ r <= n /\ d `prefix_of` x /\ (r = 0 -> x = [])
    /\ from_kernel fd kfd pos fin x0 (drop (length d) x) y ein' eout s').
Proof.
  intros [(Hi & [a Ha] & Hkfd & Hp0) Hfin Hx Ho Hpos Hoff Hwf Hst Hcl] Hn.
  destruct (pread_some (e_fd ein) n (e_position ein) (kernel_files s)) as (d & Hr & Hle & Hpre & Hnil); [lia|done|].
  rewrite Hkfd in Hpre, Hnil. rewrite <- Hx in Hpre, Hnil.
  set (ein' := if 0 <? Z.of_nat (length d) then at_position (e_position ein + Z.of_nat (length d)) ein else ein).
  assert (Hep : e_position ein' = e_position ein + Z.of_nat (length d)).
  { unfold ein'. destruct (Z.ltb_spec 0 (Z.of_nat (length d))); simpl; lia. }
  assert (Hsame : is_capio ein' = false /\ is_Some (e_offset ein') /\ e_fd ein' = kfd).
  { unfold ein'. case_match; simpl; split_and!; try done; by eexists. }
  exists (Z.of_nat (length d), d, ein'), s. split.
  - unfold capio_copy_file_range_read, bind, on_kernel. rewrite Hi, Ha, Hr. cbn. by destruct s.
  - split_and!; [done|done|done|intros Hz; apply Hnil; by destruct d|]. destruct Hsame as (?&?&?). split; try done.
    + split_and!; (done || lia).
    + destruct Hpre as [rest ->]. rewrite drop_app_length, Hep. rewrite length_app in Hfin. lia.
    + rewrite Hx, drop_drop, Hep. f_equal. lia.
Qed.

(** Looking for the cached file changes nothing, and a clean cache is not flushed. *)
Lemma clean_cached_write fd d (s : Client P) :
  fs_wf (tables s) -> is_Some (files (tables s) !! fd) -> rc_cache_offset (read_cache s) = rc_actual_size (read_cache s) ->
  capio_cached_write fd d s = WriteCache_write fd d s.
Proof.
  intros Hwf Hfd Hcl. assert (Hb : exists b, ReadCache_cachesFileOf fd s = Done (b, s)).
  { unfold ReadCache_cachesFileOf, bind, get. simpl. case_match; [by eexists|].
    assert (Hpath : forall g, is_Some (files (tables s) !! g) -> exists p, path_at g (tables s) = Done (p, tables s)).
    { intros g [f Hg]. destruct (wf_fd_path _ _ _ Hwf Hg) as (p & ? & Hp & _). exists p. unfold path_at. by rewrite Hp. }
    unfold on_tables, zoom, exists_capio_fd, gets. cbn [outcome_bind]. rewrite <- (surjective_tables s).
    case_bool_decide as Hl; [|by eexists]. destruct (Hpath _ Hfd) as [p Hp], (Hpath _ Hl) as [p' Hp'].
    unfold get_capio_fd_path. rewrite Hp. cbn [outcome_bind]. rewrite <- (surjective_tables s).
    rewrite Hp'. cbn [outcome_bind]. rewrite <- (surjective_tables s). by eexists. }
  destruct Hb as [b Hb]. unfold capio_cached_write, bind at 1. rewrite Hb. cbn [outcome_bind].
  unfold bind. destruct b; cbn [when]; [|done]. unfold ReadCache_flush, bind, get. cbn [outcome_bind].
  by rewrite (proj2 (Z.eqb_eq _ _) Hcl).
Qed.

Lemma from_kernel_write fd kfd pos fin x0 x y ein eout s d :
  from_kernel fd kfd pos fin x0 x y ein eout s -> d <> [] ->
  gives (capio_copy_file_range_write eout d) s (fun '(r, eout') s' =>
    0 < r <= Z.of_nat (length d) /\ from_kernel fd kfd pos fin x0 x (y ++ take (Z.to_nat r) d) ein eout' s').
Proof.
  intros [Hin Hfin Hx (Ho & Hfd) Hpos Hoff Hwf [fd' Hst] Hcl] Hd. unfold capio_copy_file_range_write. rewrite Ho, Hfd.
  assert (Hlen : (0 < length d)%nat) by (destruct d; simpl; [done|lia]).
  assert (Hopen : is_Some (files (tables (client s)) !! fd)) by (destruct Hoff as (f & Hf & _); by eexists).
  eapply (gives_bind _ _ _ (fun _ s' => s' = s)).
  { exists tt, s. split; [apply seek_in_place; by rewrite Hfd|done]. }
  intros _ s' ->.
  destruct (wc_write line_pos (tables (client s)) fd fd' _ d (client s) Hwf Hopen Hst) as (c & Hw & t' & Hadv & Hst').
  destruct (advanced_wf _ _ _ _ Hwf Hadv) as [Hwf' Hfiles].
  assert (Ht : tables c = t') by by destruct Hst' as (? & ? & (_ & ? & _) & _).
  exists (Z.of_nat (length d), at_position (e_position eout + Z.of_nat (length d)) eout), (set_client c s). split.
  - unfold bind, on_client, zoom. rewrite clean_cached_write by done. by rewrite Hw.
  - split; [lia|]. rewrite (take_ge d) by lia. split; simpl; try done.
    + rewrite Hpos, length_app. lia.
    + rewrite Ht. destruct Hadv as (f & o & Hf & Ho' & ->), Hoff as (f' & Hf' & Hof). exists f. split; [done|]. simpl.
      rewrite lookup_insert_eq. f_equal. congruence.
    + by rewrite Ht.
    + exists fd. rewrite Ht, fmap_app, app_assoc. done.
    + by rewrite (write_leaves_read_cache _ _ _ _ _ Hw).
Qed.

Lemma copy_from_kernel_ok fd kfd pos fin x0 x ein eout count s :
  from_kernel fd kfd pos fin x0 x [] ein eout s -> 0 < count ->
  k_mmap (Z.min count _max_line_size) (kernel_files s) = true ->
  gives (capio_copy_file_range_through_buffer ein eout count 0) s (fun '(n, error', ein', eout') s' =>
    n = Z.min count (Z.of_nat (length x)) /\ error' = 0
    /\ from_kernel fd kfd pos fin x0 (drop (Z.to_nat n) x) (take (Z.to_nat n) x) ein' eout' s').
Proof.
  intros HJ Hc Hm. apply (through_buffer_ok (from_kernel fd kfd pos fin x0)) with (y := []); try done.
  - intros. by apply from_kernel_read.
  - intros. by apply from_kernel_write.
Qed.
End FromKernel.

(** A copy from a file of the kernel to a CAPIO file is right.  With nothing in
    the read cache and the CAPIO descriptor at its offset, the copy through the
    buffer ends without an error, having copied [count] bytes or all that are
    left; after the next flush, the write requests and the data the server finds
    are those of earlier writes followed by exactly the bytes of the kernel file,
    for that descriptor, whose offset is after them, as is the position of the
    input. *)
Theorem copy_from_kernel {P K} `{PeerLaws P} `{Thread} `{RegularFiles K} (fd fd' kfd : Z) (x0 : list (Z * cell))
    (ein eout : CPCopyFileRangeEnd) (count : Z) (s : CopyState P K) :
  let o := e_position ein in let pos := e_position eout in
  let x := drop (Z.to_nat o) (content kfd (kernel_files s)) in
  0 < _max_line_size -> 0 < count -> 0 <= o ->
  is_capio ein = false -> is_Some (e_offset ein) -> e_fd ein = kfd -> is_capio eout = true -> e_fd eout = fd ->
  fs_wf (tables (client s)) -> at_offset fd pos (tables (client s)) ->
  wc_stream (tables (client s)) fd' x0 (client s) ->
  rc_cache_offset (read_cache (client s)) = rc_actual_size (read_cache (client s)) ->
  k_mmap (Z.min count _max_line_size) (kernel_files s) = true ->
  exists ein' eout' s' c reqs q, let n := Z.min count (Z.of_nat (length x)) in
    capio_copy_file_range_through_buffer ein eout count 0 s = Done ((n, 0, ein', eout'), s')
    /\ e_position ein' = o + n /\ e_position eout' = pos + n /\ at_offset fd (pos + n) (tables (client s'))
    /\ WriteCache_flush (client s') = Done (tt, c)
    /\ outbox c = (fun r => write_request r.1 r.2 tid) <$> reqs
    /\ deliver reqs (to_server (server c)) = Done (x0 ++ (pair fd <$> take (Z.to_nat n) x), q) /\ fifo_pending q = [].
Proof.
  intros o pos x Hline Hc Hpos Hi Hio Hkfd Ho Hfd Hwf Hoff Hst Hcl Hm.
  destruct (copy_from_kernel_ok Hline fd kfd pos (o + Z.of_nat (length x)) x0 x ein eout count s)
    as ([[[n e] ein'] eout'] & s' & Hrun & -> & -> & [_ Hfin _ _ Hp Hoff' _ [fd1 Hst'] _]); [|done|done|].
  { split; try done; [simpl; unfold pos; lia|]. exists fd'. simpl. by rewrite app_nil_r. }
  destruct (stream_delivered Hline _ _ _ _ Hst') as (c & Hflush & reqs & q & Hout & Hdel & Hq).
  exists ein', eout', s', c, reqs, q. set (n := Z.min count (Z.of_nat (length x))) in *.
  assert (Hn : e_position eout' = pos + n) by (rewrite length_take in Hp; lia).
  split_and!; try done; [rewrite length_drop in Hfin; lia|by rewrite <- Hn].
Qed.

(** ** Copies on the server *)

(** What the client relies on: for two descriptors of different files, the server
    answers a copy request with the number of bytes it copied, as many as asked for
    and are in one piece at the input offset; the output then has these bytes, and
    the data it had elsewhere. *)
Class CopyingPeer (P : Type) `{Peer P} `{Thread} := {
  byte_of : Z -> Z -> P -> cell;
  has_byte : Z -> Z -> P -> Prop;
  in_one_piece : Z -> Z -> P -> Z;
  two_files : Z -> Z -> P -> Prop;
  copy_served fd_in fd_out oi oo n p :
    two_files fd_in fd_out p -> 0 < n -> 0 <= oi -> oi + n < 2 ^ 63 -> 0 <= oo -> oo + n < 2 ^ 63 ->
    exists p1 p2, serve (copy_file_range_request fd_in fd_out oi oo n tid) p = Done p1
      /\ let k := Z.min n (in_one_piece fd_in oi p) in
         next_reply p1 = Some (k, p2) /\ two_files fd_in fd_out p2
      /\ (forall x, oo <= x < oo + k -> has_byte fd_out x p2 /\ byte_of fd_out x p2 = byte_of fd_in (x - oo + oi) p)
      /\ (forall x, has_byte fd_out x p -> ~ oo <= x < oo + k -> has_byte fd_out x p2 /\ byte_of fd_out x p2 = byte_of fd_out x p)
      /\ (forall x, byte_of fd_in x p2 = byte_of fd_in x p)
      /\ (forall x, in_one_piece fd_in x p2 = in_one_piece fd_in x p);
  in_one_piece_nonneg fd x p : 0 <= in_one_piece fd x p
}.

Section OnServer.
Context {P K : Type} `{Peer P} `{Thread} `{!CopyingPeer P} `{KernelFiles K}.

(** What the server holds after [n] bytes were copied from [oi] to [oo]. *)
Record copied_bytes (fd_in fd_out oi oo n : Z) (p p' : P) : Prop := {
  cb_new x : oo <= x < oo + n -> has_byte fd_out x p' /\ byte_of fd_out x p' = byte_of fd_in (x - oo + oi) p;
  cb_old x : has_byte fd_out x p -> ~ oo <= x < oo + n -> has_byte fd_out x p' /\ byte_of fd_out x p' = byte_of fd_out x p;
  cb_in x : byte_of fd_in x p' = byte_of fd_in x p;
  cb_piece x : in_one_piece fd_in x p' = in_one_piece fd_in x p
}.

Lemma copied_bytes_refl fd_in fd_out oi oo p : copied_bytes fd_in fd_out oi oo 0 p p.
Proof. split; [|done..]. intros x Hx. lia. Qed.

Lemma copied_bytes_trans fd_in fd_out oi oo n k p p1 p2 :
  0 <= n -> 0 <= k -> copied_bytes fd_in fd_out oi oo n p p1 ->
  copied_bytes fd_in fd_out (oi + n) (oo + n) k p1 p2 -> copied_bytes fd_in fd_out oi oo (n + k) p p2.
Proof.
  intros Hn Hk [Hw1 Ho1 Hi1 Hp1] [Hw2 Ho2 Hi2 Hp2]. split; intros x; [| |by rewrite Hi2|by rewrite Hp2].
  - intros Hx. destruct (decide (oo + n <= x)).
    + destruct (Hw2 x) as [? ->]; [lia|]. rewrite Hi1. split; [done|]. f_equal. lia.
    + destruct (Hw1 x) as [? <-]; [lia|]. apply Ho2; [done|lia].
  - intros Hh Hx. destruct (Ho1 x Hh) as [? <-]; [lia|]. apply Ho2; [done|lia].
Qed.

(** The client is as it was, apart from the server. *)
Definition only_server (s s' : CopyState P K) : Prop :=
  tables (client s') = tables (client s) /\ read_cache (client s') = read_cache (client s) /\
  write_cache (client s') = write_cache (client s) /\ kernel_files s' = kernel_files s /\ user s' = user s.

Lemma on_server_loop_ok fuel ein eout count copied (s : CopyState P K) :
  outbox (client s) = [] -> two_files (e_fd ein) (e_fd eout) (server (client s)) ->
  0 <= copied <= count -> count - copied <= Z.of_nat fuel ->
  0 <= e_position ein -> e_position ein + (count - copied) < 2 ^ 63 ->
  0 <= e_position eout -> e_position eout + (count - copied) < 2 ^ 63 ->
  gives (on_server_loop fuel ein eout count copied) s (fun '(n, ein', eout') s' =>
    copied <= n <= count /\ ein' = at_position (e_position ein + (n - copied)) ein
    /\ eout' = at_position (e_position eout + (n - copied)) eout
    /\ copied_bytes (e_fd ein) (e_fd eout) (e_position ein) (e_position eout) (n - copied) (server (client s)) (server (client s'))
    /\ (n < count -> in_one_piece (e_fd ein) (e_position ein + (n - copied)) (server (client s)) = 0)
    /\ outbox (client s') = [] /\ two_files (e_fd ein) (e_fd eout) (server (client s')) /\ only_server s s').
Proof.
  assert (Hid : forall e, at_position (e_position e) e = e) by by intros [].
  revert ein eout copied s; induction fuel as [|fuel IH]; intros ein eout copied s Hout Htwo Hc Hfuel Hi0 Hi1 Ho0 Ho1; cbn [on_server_loop].
  { rewrite (proj2 (Z.ltb_ge copied count)) by lia. apply gives_ret. rewrite Z.sub_diag, !Z.add_0_r, !Hid.
    split_and!; try (done || lia). apply copied_bytes_refl. }
  destruct (Z.ltb_spec copied count) as [Hlt|Hge].
  2: { apply gives_ret. rewrite Z.sub_diag, !Z.add_0_r, !Hid. split_and!; try (done || lia). apply copied_bytes_refl. }
  destruct (copy_served (e_fd ein) (e_fd eout) (e_position ein) (e_position eout) (count - copied) (server (client s)) Htwo)
    as (p1 & p2 & Hs & Hr & Htwo2 & Hw & Hb & Hi & Hp); [lia..|].
  set (k := Z.min (count - copied) (in_one_piece (e_fd ein) (e_position ein) (server (client s)))) in *.
  pose proof (in_one_piece_nonneg (e_fd ein) (e_position ein) (server (client s))) as Hnn.
  set (s1 := set_client (set_server p2 (set_outbox [] (client s))) s).
  eapply (gives_bind _ _ _ (fun v s' => v = k /\ s' = s1)).
  { exists k, s1. split; [|done]. unfold on_client, zoom, ask, send, bind, modify, wait_reply. cbn [outcome_bind].
    simpl. rewrite Hout. simpl. rewrite Hs. simpl. rewrite Hr. by destruct s as [[] ? ?]. }
  intros v s' [-> ->]. destruct (Z.eqb_spec k 0) as [Hk0|Hk0].
  - apply gives_ret. rewrite Z.sub_diag, !Z.add_0_r, !Hid. split_and!; try (done || lia).
    split; [intros; lia| |done|done]. intros x Hh _. apply Hb; [done|lia].
  - destruct (IH (at_position (e_position ein + k) ein) (at_position (e_position eout + k) eout) (copied + k) s1)
      as ([[n ein'] eout'] & s2 & Hrun & Hn & -> & -> & Hcb & Hend & Hout2 & Htwo3 & Hsame); [done|done|simpl; lia..|].
    exists (n, at_position (e_position ein + (n - copied)) ein, at_position (e_position eout + (n - copied)) eout), s2.
    simpl in *. split.
    { rewrite Hrun. unfold at_position. simpl.
      by replace (e_position ein + (n - copied)) with (e_position ein + k + (n - (copied + k))) by lia;
      replace (e_position eout + (n - copied)) with (e_position eout + k + (n - (copied + k))) by lia. }
    split_and!; try (done || lia).
    + replace (n - copied) with (k + (n - (copied + k))) by lia. eapply copied_bytes_trans; [lia|lia| |exact Hcb].
      split; [exact Hw|exact Hb|exact Hi|exact Hp].
    + intros Hlt'. specialize (Hend Hlt'). rewrite Hp in Hend. rewrite <- Hend. f_equal. lia.
Qed.

(** With both caches empty there is nothing to flush. *)
Lemma on_server_loops ein eout count (s : CopyState P K) :
  wc_actual_size (write_cache (client s)) = 0 ->
  rc_cache_offset (read_cache (client s)) = rc_actual_size (read_cache (client s)) ->
  capio_copy_file_range_on_server ein eout count s = on_server_loop (Z.to_nat count) ein eout count 0 s.
Proof.
  intros Hw Hr. unfold capio_copy_file_range_on_server. unfold bind at 1, on_client at 1, zoom. unfold WriteCache_flush, bind, get.
  cbn [outcome_bind]. rewrite Hw. cbn. unfold on_client, zoom, ReadCache_flush, bind, get. cbn [outcome_bind].
  cbn [client set_client]. rewrite (proj2 (Z.eqb_eq _ _) Hr). cbn. by destruct s.
Qed.
End OnServer.

(** A copy between two CAPIO files is right and ends.  With both caches empty, the
    client asks the server until [count] bytes are copied or the input ends, at
    most [count] times; then the output holds the bytes of the input, from
    position to position, and its data elsewhere is as it was, the input is
    unchanged, and the positions of both ends are after the bytes copied.  A
    short result means that no data follows the input position. *)
Theorem copy_on_server {P K} `{Peer P} `{Thread} `{!CopyingPeer P} `{KernelFiles K}
    (ein eout : CPCopyFileRangeEnd) (count : Z) (s : CopyState P K) :
  let fd_in := e_fd ein in let fd_out := e_fd eout in let p := server (client s) in
  0 <= count -> 0 <= e_position ein -> e_position ein + count < 2 ^ 63 ->
  0 <= e_position eout -> e_position eout + count < 2 ^ 63 ->
  outbox (client s) = [] -> wc_actual_size (write_cache (client s)) = 0 ->
  rc_cache_offset (read_cache (client s)) = rc_actual_size (read_cache (client s)) ->
  two_files fd_in fd_out p ->
  exists n ein' eout' s', capio_copy_file_range_on_server ein eout count s = Done ((n, ein', eout'), s')
    /\ 0 <= n <= count /\ e_position ein' = e_position ein + n /\ e_position eout' = e_position eout + n
    /\ copied_bytes fd_in fd_out (e_position ein) (e_position eout) n p (server (client s'))
    /\ (n < count -> in_one_piece fd_in (e_position ein + n) p = 0).
Proof.
  intros fd_in fd_out p Hc Hi0 Hi1 Ho0 Ho1 Hout Hw Hr Htwo.
  destruct (on_server_loop_ok (Z.to_nat count) ein eout count 0 s Hout Htwo)
    as ([[n ein'] eout'] & s' & Hrun & Hn & -> & -> & Hcb & Hend & _); [lia..|].
  rewrite Z.sub_0_r in *. do 4 eexists. split.
  - rewrite on_server_loops by done. exact Hrun.
  - simpl. split_and!; try done; lia.
Qed.

(** ** Examples *)

(** A kernel with one file and an offset in it, which writes at most two bytes at a
    time. *)
Record OneFile : Type := { of_data : list cell; of_at : Z }.
Definition one_file_pread (fd count pos : Z) (k : OneFile) : Z * list cell :=
  let d := take (Z.to_nat count) (drop (Z.to_nat pos) (of_data k)) in (Z.of_nat (length d), d).
Definition one_file_pwrite (fd : Z) (d : list cell) (pos : Z) (k : OneFile) : Z * OneFile :=
  let d := take 2 d in (Z.of_nat (length d), {| of_data := overwrite (of_data k) pos d; of_at := of_at k |}).
Definition one_file_move (n : Z) (k : OneFile) : OneFile := {| of_data := of_data k; of_at := of_at k + n |}.
#[export] Instance one_file : KernelFiles OneFile := {|
  k_getfl _ _ := 2; k_stat _ k := Some (false, true, Z.of_nat (length (of_data k))); k_tell _ := of_at;
  k_pread := one_file_pread;
  k_read fd count k := let r := one_file_pread fd count (of_at k) k in (r, one_file_move r.1 k);
  k_pwrite := one_file_pwrite;
  k_write fd d k := let r := one_file_pwrite fd d (of_at k) k in (r.1, one_file_move r.1 r.2);
  k_seek_back _ n k := one_file_move (- n) k; k_mmap _ _ := true; k_page_size := 4096
|}.
Lemma one_file_pwrite_some fd d pos k :
  d <> [] -> exists r k', one_file_pwrite fd d pos k = (r, k') /\ 0 < r <= Z.of_nat (length d)
    /\ of_data k' = overwrite (of_data k) pos (take (Z.to_nat r) d) /\ of_at k' = of_at k.
Proof.
  intros Hd. eexists _, _. split; [reflexivity|]. rewrite length_take. destruct d as [|x d]; [done|].
  simpl length. split; [lia|]. rewrite Nat2Z.id. by destruct d.
Qed.
#[export] Instance one_file_regular : RegularFiles OneFile.
Proof.
  refine {| content _ := of_data |}.
  - intros fd n pos k Hn Hp. eexists. split; [reflexivity|]. rewrite length_take. split_and!; [lia|apply prefix_take|].
    intros Hnil. destruct (drop (Z.to_nat pos) (of_data k)); [done|]. destruct (Z.to_nat n) eqn:En; [lia|done].
  - intros fd d pos k Hd Hp. destruct (one_file_pwrite_some fd d pos k Hd) as (r & k' & ? & ? & ? & _). by exists r, k'.
  - intros fd d k Hd Hp. destruct (one_file_pwrite_some fd d (of_at k) k Hd) as (r & k' & E & Hr & Hc & Ha).
    exists r, (one_file_move r k'). unfold k_write, k_tell, one_file. rewrite E. simpl in *. by rewrite Ha.
Defined.

Definition demo_end (capio : bool) (fd : Z) (offset : option Z) (pos : Z) : CPCopyFileRangeEnd := {|
  e_fd := fd; e_offset := offset; is_capio := capio; is_open := true; e_flags := 2; is_dir := false;
  is_regular := true; e_size := 12; e_position := pos; saved_fd_offset := 0 |}.
Definition demo_copy : CopyState FileServer OneFile :=
  {| client := demo_client; kernel_files := {| of_data := [Some x30; Some x31; Some x32]; of_at := 2 |}; user := ∅ |}.

Lemma copy_checks_correct_witness :
  check_ends (demo_end true 3 None 0) (demo_end true 4 None 5) 6 = None
  /\ ranges_overlap (demo_end true 3 None 0) (demo_end true 4 None 5) 6 = Done true
  /\ exists x, 0 <= x < 0 + 6 /\ x < 12 /\ 5 <= x < 5 + Z.min 6 (12 - 0).
Proof.
  destruct (copy_checks_correct (demo_end true 3 None 0) (demo_end true 4 None 5) 6) as [H1 H2]; try (simpl; lia).
  assert (Hc : check_ends (demo_end true 3 None 0) (demo_end true 4 None 5) 6 = None) by (vm_compute; reflexivity).
  split; [exact Hc|]. split; [vm_compute; reflexivity|].
  exact (proj1 (H2 (proj1 H1 Hc) true ltac:(vm_compute; reflexivity)) eq_refl).
Defined.

Lemma copy_to_kernel_witness :
  exists ein' eout' s',
    capio_copy_file_range_through_buffer (demo_end true 3 None 0) (demo_end false 8 None 0) 7 0 demo_copy
    = Done ((7, 0, ein', eout'), s')
    /\ of_data (kernel_files s') = [Some x30; Some x31; Some x61; Some x62; Some x63; Some x64; Some x65; Some x66; Some x67].
Proof.
  destruct (copy_to_kernel 3 8 [] (demo_end true 3 None 0) (demo_end false 8 None 0) 7 demo_copy)
    as (ein' & eout' & s' & Hrun & Hf & _).
  - vm_compute; split; reflexivity.
  - lia.
  - vm_compute; discriminate.
  - reflexivity.
  - reflexivity.
  - reflexivity.
  - reflexivity.
  - split; try reflexivity; try (simpl; lia); [split; [reflexivity|simpl; lia]|by left].
  - eexists. split; reflexivity.
  - reflexivity.
  - reflexivity.
  - exists ein', eout', s'. split; [exact Hrun|exact Hf].
Defined.

Lemma copy_from_kernel_witness :
  exists ein' eout' s' c reqs q,
    capio_copy_file_range_through_buffer (demo_end false 8 (Some 1) 1) (demo_end true 3 None 0) 7 0 demo_copy
    = Done ((2, 0, ein', eout'), s')
    /\ WriteCache_flush (client s') = Done (tt, c)
    /\ deliver reqs (to_server (server c)) = Done ([(3, Some x31); (3, Some x32)], q).
Proof.
  destruct (copy_from_kernel 3 (-1) 8 [] (demo_end false 8 (Some 1) 1) (demo_end true 3 None 0) 7 demo_copy)
    as (ein' & eout' & s' & c & reqs & q & Hrun & _ & _ & _ & Hfl & _ & Hd & _).
  - vm_compute; reflexivity.
  - lia.
  - simpl; lia.
  - reflexivity.
  - by eexists.
  - reflexivity.
  - reflexivity.
  - reflexivity.
  - exact (fs_reachable_wf "/" demo_fs demo_fs_reachable).
  - eexists. split; reflexivity.
  - exists [], []. split; [|reflexivity]. split; [|split; reflexivity]. split; try reflexivity; [|constructor].
    exists []. split_and!; (reflexivity || simpl; lia).
  - reflexivity.
  - reflexivity.
  - exists ein', eout', s', c, reqs, q. split; [exact Hrun|]. split; [exact Hfl|exact Hd].
Defined.

(** A server with an input, 3, and an output, 4, that copies at most three bytes at
    a time. *)
Record TwoFiles : Type := { tf_in : list cell; tf_out : gmap Z cell; tf_replies : list Z }.
Definition tf_piece (off : Z) (p : TwoFiles) : Z :=
  if off <? 0 then 0 else Z.min 3 (Z.max 0 (Z.of_nat (length (tf_in p)) - off)).
Definition tf_at (off : Z) (p : TwoFiles) : cell := if off <? 0 then None else default None (tf_in p !! Z.to_nat off).
Fixpoint tf_copy (oi oo : Z) (k : nat) (p : TwoFiles) : gmap Z cell :=
  match k with
  | O => tf_out p
  | S k' => <[oo + Z.of_nat k' := tf_at (oi + Z.of_nat k') p]> (tf_copy oi oo k' p)
  end.
#[export] Instance two_files_server : Peer TwoFiles := {|
  serve c p := match c_fields c with
    | [_; F_ld 3; F_ld 4; F_ld oi; F_ld oo; F_ld n] =>
        let k := Z.min n (tf_piece oi p) in
        Done {| tf_in := tf_in p; tf_out := tf_copy oi oo (Z.to_nat k) p; tf_replies := tf_replies p ++ [k] |}
    | _ => Done p
    end;
  next_reply p := match tf_replies p with
    | v :: r => Some (v, {| tf_in := tf_in p; tf_out := tf_out p; tf_replies := r |})
    | [] => None
    end;
  to_server _ := fifo_new; set_to_server _ p := p; from_server _ := fifo_new; set_from_server _ p := p |}.

Lemma tf_copy_lookup oi oo k p x :
  tf_copy oi oo k p !! x = if decide (oo <= x < oo + Z.of_nat k) then Some (tf_at (x - oo + oi) p) else tf_out p !! x.
Proof.
  induction k as [|k IH]; cbn [tf_copy]; [by rewrite decide_False by lia|].
  destruct (decide (x = oo + Z.of_nat k)) as [->|Hne].
  - rewrite lookup_insert_eq, decide_True by lia. do 2 f_equal. lia.
  - rewrite lookup_insert_ne, IH by done. destruct (decide (oo <= x < oo + Z.of_nat k)).
    + by rewrite decide_True by lia.
    + by rewrite decide_False by lia.
Qed.
#[export] Instance two_files_copies : CopyingPeer TwoFiles.
Proof.
  refine {| byte_of fd x p := if fd =? 3 then tf_at x p else default None (tf_out p !! x);
            has_byte fd x p := fd = 4 -> is_Some (tf_out p !! x);
            in_one_piece _ := tf_piece;
            two_files fd_in fd_out p := fd_in = 3 /\ fd_out = 4 /\ tf_replies p = [] |}.
  - intros fd_in fd_out oi oo n p (-> & -> & Hr) Hn _ _ _ _. eexists _, _. split; [reflexivity|]. simpl. rewrite Hr. simpl.
    assert (Hk : 0 <= Z.min n (tf_piece oi p)) by (unfold tf_piece; case_match; lia).
    split_and!; try done; intros x; simpl; rewrite tf_copy_lookup, Z2Nat.id by done.
    + intros Hx. rewrite decide_True by done. by split; [eexists|].
    + intros Hh Hx. by rewrite decide_False by done.
  - intros fd x p. unfold tf_piece. case_match; lia.
Defined.

Lemma copy_on_server_witness :
  let p := {| tf_in := demo_file; tf_out := ∅; tf_replies := [] |} in
  let s := {| client := {| tables := demo_fs; read_cache := ReadCache_new; write_cache := WriteCache_new;
                           outbox := []; server := p |}; kernel_files := {| of_data := []; of_at := 0 |}; user := ∅ |} : CopyState TwoFiles OneFile in
  exists n ein' eout' s',
    capio_copy_file_range_on_server (demo_end true 3 None 2) (demo_end true 4 None 7) 20 s = Done ((n, ein', eout'), s')
    /\ e_position ein' = 2 + n /\ (n < 20 -> tf_piece (2 + n) p = 0).
Proof.
  intros p s. destruct (copy_on_server (demo_end true 3 None 2) (demo_end true 4 None 7) 20 s)
    as (n & ein' & eout' & s' & Hrun & _ & Hp & _ & _ & Hend); try reflexivity; try (simpl; lia); [split_and!; reflexivity|].
  exists n, ein', eout', s'. split; [exact Hrun|]. split; [exact Hp|exact Hend].
Defined.
