(* ===== verification/PosixFcntl.v ===== *)
(** * [fcntl]

    [posix/handlers/fcntl.hpp]: duplicates, descriptor and status flags, locks,
    leases, hints.  The commands, flags and errors are those of Linux on x86-64;
    what the kernel answers to the calls the handler makes on the descriptor of
    /dev/null is a parameter.  Pointers are addresses of the memory of the caller,
    0 is null. *)
From S2P Require Import Prelude Text Memory Queue Server StorageManager Requests PosixPath PosixFs PosixCache PosixCacheProps PosixCalls PosixStat PosixCopy.

Definition F_DUPFD : Z := 0.
Definition F_GETFD : Z := 1.
Definition F_SETFD : Z := 2.
Definition F_GETFL : Z := 3.
Definition F_SETFL : Z := 4.
Definition F_GETLK : Z := 5.
Definition F_SETLK : Z := 6.
Definition F_SETLKW : Z := 7.
Definition F_SETOWN : Z := 8.
Definition F_GETOWN : Z := 9.
Definition F_SETSIG : Z := 10.
Definition F_GETSIG : Z := 11.
Definition F_SETOWN_EX : Z := 15.
Definition F_GETOWN_EX : Z := 16.
Definition F_OFD_GETLK : Z := 36.
Definition F_OFD_SETLK : Z := 37.
Definition F_OFD_SETLKW : Z := 38.
Definition F_SETLEASE : Z := 1024.
Definition F_GETLEASE : Z := 1025.
Definition F_NOTIFY : Z := 1026.
Definition F_DUPFD_QUERY : Z := 1027.
Definition F_DUPFD_CLOEXEC : Z := 1030.
Definition F_SETPIPE_SZ : Z := 1031.
Definition F_GETPIPE_SZ : Z := 1032.
Definition F_ADD_SEALS : Z := 1033.
Definition F_GET_SEALS : Z := 1034.
Definition F_GET_RW_HINT : Z := 1035.
Definition F_SET_RW_HINT : Z := 1036.
Definition FD_CLOEXEC : Z := 1.
Definition F_RDLCK : Z := 0.
Definition F_WRLCK : Z := 1.
Definition F_UNLCK : Z := 2.
Definition RWH_WRITE_LIFE_NOT_SET : Z := 0.
Definition RWH_WRITE_LIFE_EXTREME : Z := 5.
Definition EAGAIN : Z := 11.
Definition EFAULT : Z := 14.
Definition O_NONBLOCK : Z := 2048.
Definition O_ASYNC : Z := 8192.
Definition O_DIRECT : Z := 16384.
Definition O_NOATIME : Z := 262144.

Definition CAPIO_FCNTL_SETFL_MASK : Z :=
  Z.lor (Z.lor (Z.lor (Z.lor O_APPEND O_ASYNC) O_DIRECT) O_NOATIME) O_NONBLOCK.

(** The fields of [struct flock] the handler uses. *)
Record flock : Type := { l_type : Z; l_pid : Z }.

(** The client, [capio_rw_hints], and the locks and words of the caller's memory. *)
Record FcntlState (P : Type) : Type := {
  fc_client : Client P;
  rw_hints : gmap string Z;
  flocks : gmap Z flock;
  words : gmap Z Z
}.
Arguments fc_client {P}. Arguments rw_hints {P}. Arguments flocks {P}. Arguments words {P}.

Section Fcntl.
Context {P : Type} `{Peer P} `{Thread}.
Notation State := (FcntlState P).

Definition set_fc_client c (s : State) : State :=
  {| fc_client := c; rw_hints := rw_hints s; flocks := flocks s; words := words s |}.
Definition set_rw_hints h (s : State) : State :=
  {| fc_client := fc_client s; rw_hints := h; flocks := flocks s; words := words s |}.
Definition set_flocks l (s : State) : State :=
  {| fc_client := fc_client s; rw_hints := rw_hints s; flocks := l; words := words s |}.
Definition set_words w (s : State) : State :=
  {| fc_client := fc_client s; rw_hints := rw_hints s; flocks := flocks s; words := w |}.
Definition with_client {A} (m : M (Client P) A) : M State A := zoom fc_client set_fc_client m.
Definition with_tables {A} (m : M Filesystem A) : M State A := with_client (on_tables m).

(** [syscall_no_intercept(SYS_fcntl, fd, cmd, arg)] *)
Variable sys_fcntl : Z -> Z -> Z -> Z.

Definition capio_fcntl_dupfd (fd min_fd : Z) (is_cloexec : bool) : M State Z :=
  let res := sys_fcntl fd (if is_cloexec then F_DUPFD_CLOEXEC else F_DUPFD) min_fd in
  if res <? 0 then ret res
  else
    with_tables (dup_capio_fd fd (s32 res) is_cloexec) ;;
    with_client (PosixCache.send (dup_request fd (s32 res) tid)) ;;
    ret res.

Definition capio_fcntl_lock (fd cmd lock : Z) : M State Z :=
  if lock =? 0 then ret (- EFAULT)
  else
    let get_lock := (cmd =? F_GETLK) || (cmd =? F_OFD_GETLK) in
    let ofd := (cmd =? F_OFD_GETLK) || (cmd =? F_OFD_SETLK) || (cmd =? F_OFD_SETLKW) in
    let* s := get in
    let* l := or_ub (flocks s !! lock) "bad address" in
    if ofd && negb (l_pid l =? 0) then ret (- EINVAL)
    else
      let* flags := with_tables (get_capio_fd_flags fd) in
      let access := Z.land flags O_ACCMODE in
      let granted :=
        if get_lock then modify (set_flocks (<[lock := {| l_type := F_UNLCK; l_pid := l_pid l |}]> (flocks s))) ;; ret 0
        else ret 0 in
      if l_type l =? F_RDLCK then if negb get_lock && (access =? O_WRONLY) then ret (- EBADF) else granted
      else if l_type l =? F_WRLCK then if negb get_lock && (access =? O_RDONLY) then ret (- EBADF) else granted
      else if l_type l =? F_UNLCK then if get_lock then ret (- EINVAL) else granted
      else ret (- EINVAL).

(** The case [F_DUPFD_QUERY]. *)
Definition dupfd_query (fd other : Z) : M State Z :=
  let* ex := with_tables (exists_capio_fd other) in
  if ex then
    let* f := with_tables (file_at fd) in
    let* g := with_tables (file_at other) in
    ret (if cp_offset f =? cp_offset g then 1 else 0)
  else if sys_fcntl other F_GETFD 0 <? 0 then ret (- EBADF)
  else ret 0.

(** The cases [F_GET_RW_HINT] and [F_SET_RW_HINT]. *)
Definition rw_hint (fd cmd hint : Z) : M State Z :=
  if hint =? 0 then ret (- EFAULT)
  else
    let* path := with_tables (get_capio_fd_path fd) in
    if cmd =? F_GET_RW_HINT then
      let* s := get in
      let* _ := or_ub (words s !! hint) "bad address" in
      modify (fun s => set_words (<[hint := default RWH_WRITE_LIFE_NOT_SET (rw_hints s !! path)]> (words s)) s) ;;
      ret 0
    else
      let* s := get in
      let* v := or_ub (words s !! hint) "bad address" in
      if RWH_WRITE_LIFE_EXTREME <? v then ret (- EINVAL)
      else modify (fun s => set_rw_hints (<[path := v]> (rw_hints s)) s) ;; ret 0.

(** The [switch] of [fcntl_handler]: the value of [*result]. *)
Definition fcntl_switch (fd cmd arg2 : Z) : M State Z :=
  if cmd =? F_DUPFD then capio_fcntl_dupfd fd (s32 arg2) false
  else if cmd =? F_DUPFD_CLOEXEC then capio_fcntl_dupfd fd (s32 arg2) true
  else if cmd =? F_GETFD then
    let* c := with_tables (get_capio_fd_cloexec fd) in ret (if c then FD_CLOEXEC else 0)
  else if cmd =? F_SETFD then
    with_tables (set_capio_fd_cloexec fd (Z.land arg2 FD_CLOEXEC =? FD_CLOEXEC)) ;; ret 0
  else if cmd =? F_GETFL then with_tables (get_capio_fd_flags fd)
  else if cmd =? F_SETFL then
    let* flags := with_tables (get_capio_fd_flags fd) in
    with_tables (set_capio_fd_flags fd
      (Z.lor (Z.land flags (Z.lnot CAPIO_FCNTL_SETFL_MASK)) (Z.land (s32 arg2) CAPIO_FCNTL_SETFL_MASK))) ;;
    ret 0
  else if (cmd =? F_GETLK) || (cmd =? F_SETLK) || (cmd =? F_SETLKW)
       || (cmd =? F_OFD_GETLK) || (cmd =? F_OFD_SETLK) || (cmd =? F_OFD_SETLKW) then capio_fcntl_lock fd cmd arg2
  else if (cmd =? F_GETOWN) || (cmd =? F_SETOWN) || (cmd =? F_GETSIG) || (cmd =? F_SETSIG)
       || (cmd =? F_GETOWN_EX) || (cmd =? F_SETOWN_EX) then ret (sys_fcntl fd cmd arg2)
  else if cmd =? F_GETLEASE then ret F_UNLCK
  else if cmd =? F_SETLEASE then
    ret (if arg2 =? F_UNLCK then 0
         else if (arg2 =? F_RDLCK) || (arg2 =? F_WRLCK) then - EAGAIN
         else - EINVAL)
  else if cmd =? F_NOTIFY then
    let* flags := with_tables (get_capio_fd_flags fd) in
    ret (if negb (has_flag flags O_DIRECTORY) then - ENOTDIR else if arg2 =? 0 then 0 else - EINVAL)
  else if cmd =? F_DUPFD_QUERY then dupfd_query fd (s32 arg2)
  else if (cmd =? F_GETPIPE_SZ) || (cmd =? F_SETPIPE_SZ) then ret (- EBADF)
  else if (cmd =? F_ADD_SEALS) || (cmd =? F_GET_SEALS) then ret (- EINVAL)
  else if (cmd =? F_GET_RW_HINT) || (cmd =? F_SET_RW_HINT) then rw_hint fd cmd arg2
  else ret (- EINVAL).

(** The return value of the handler and [*result]. *)
Definition fcntl_handler (arg0 arg1 arg2 : Z) : M State (Z * option Z) :=
  let fd := s32 arg0 in
  let cmd := s32 arg1 in
  let* ex := with_tables (exists_capio_fd fd) in
  if ex then let* r := fcntl_switch fd cmd arg2 in ret (0, Some r) else ret (CAPIO_POSIX_SYSCALL_SKIP, None).
End Fcntl.

(** ** What the commands do *)

Section Lemmas.
Context {P : Type} `{Peer P} `{Thread} (sys_fcntl : Z -> Z -> Z -> Z).
Notation State := (FcntlState P).
Notation tables_of := (fun s : State => tables (fc_client s)).

Definition set_tables_of (t : Filesystem) (s : State) : State := set_fc_client (set_tables t (fc_client s)) s.

Lemma set_tables_of_id (s : State) : set_tables_of (tables_of s) s = s.
Proof. by destruct s as [[]]. Qed.

Lemma with_tables_done {A} (m : M Filesystem A) (s : State) a t :
  m (tables_of s) = Done (a, t) -> with_tables m s = Done (a, set_tables_of t s).
Proof. intros E. unfold with_tables, with_client, on_tables, zoom. by rewrite E. Qed.

Lemma with_tables_read {A} (m : M Filesystem A) (s : State) a :
  m (tables_of s) = Done (a, tables_of s) -> with_tables m s = Done (a, s).
Proof. intros E. by rewrite (with_tables_done m s a _ E), set_tables_of_id. Qed.

Lemma file_at_eq fd f (s : State) : files (tables_of s) !! fd = Some f -> with_tables (file_at fd) s = Done (f, s).
Proof. intros E. apply with_tables_read. unfold file_at. by rewrite E. Qed.

Lemma get_flags_eq fd f (s : State) :
  files (tables_of s) !! fd = Some f -> with_tables (get_capio_fd_flags fd) s = Done (cp_flags f, s).
Proof. intros E. apply with_tables_read. unfold get_capio_fd_flags, bind, file_at. by rewrite E. Qed.

Lemma exists_fd_eq fd (s : State) :
  with_tables (exists_capio_fd fd) s = Done (bool_decide (is_Some (files (tables_of s) !! fd)), s).
Proof. by apply with_tables_read. Qed.

(** On an open descriptor the handler runs the [switch]. *)
Lemma fcntl_open fd cmd arg2 (s : State) f :
  - 2 ^ 31 <= fd < 2 ^ 31 -> - 2 ^ 31 <= cmd < 2 ^ 31 -> files (tables_of s) !! fd = Some f ->
  fcntl_handler sys_fcntl fd cmd arg2 s
  = outcome_bind (fcntl_switch sys_fcntl fd cmd arg2 s) (fun '(r, s') => Done ((0, Some r), s')).
Proof.
  intros Hfd Hcmd E. unfold fcntl_handler. rewrite !s32_small by lia. unfold bind. rewrite exists_fd_eq, E. simpl.
  by destruct (fcntl_switch _ _ _ _ _) as [[]| | | |].
Qed.
End Lemmas.

(** [F_SETFL] then [F_GETFL]: exactly the settable status flags are those that
    were asked for, every other bit is as [open] set it, so that the access mode
    cannot change; the close-on-exec flag, the offset and the path of the
    descriptor stay, and every other descriptor keeps its flags, a duplicate of
    this one too. *)
Theorem setfl_getfl {P} `{Peer P} `{Thread} sys_fcntl (fd arg2 ignored : Z) (f : CPFile) (s : FcntlState P) :
  - 2 ^ 31 <= fd < 2 ^ 31 -> files (tables (fc_client s)) !! fd = Some f ->
  exists s' flags, fcntl_handler sys_fcntl fd F_SETFL arg2 s = Done ((0, Some 0), s')
    /\ fcntl_handler sys_fcntl fd F_GETFL ignored s' = Done ((0, Some flags), s')
    /\ (forall i, 0 <= i -> Z.testbit flags i =
          if Z.testbit CAPIO_FCNTL_SETFL_MASK i then Z.testbit (s32 arg2) i else Z.testbit (cp_flags f) i)
    /\ Z.land flags O_ACCMODE = Z.land (cp_flags f) O_ACCMODE
    /\ fcntl_handler sys_fcntl fd F_GETFD ignored s' = Done ((0, Some (if cp_cloexec f then FD_CLOEXEC else 0)), s')
    /\ get_capio_fd_offset fd (tables (fc_client s')) = outcome_map (fun '(o, _) => (o, tables (fc_client s')))
         (get_capio_fd_offset fd (tables (fc_client s)))
    /\ (forall fd', fd' <> fd -> files (tables (fc_client s')) !! fd' = files (tables (fc_client s)) !! fd')
    /\ capio_files_descriptors (tables (fc_client s')) = capio_files_descriptors (tables (fc_client s)).
Proof.
  intros Hfd Hf.
  set (flags := Z.lor (Z.land (cp_flags f) (Z.lnot CAPIO_FCNTL_SETFL_MASK)) (Z.land (s32 arg2) CAPIO_FCNTL_SETFL_MASK)).
  assert (Hbits : forall i, 0 <= i -> Z.testbit flags i =
    if Z.testbit CAPIO_FCNTL_SETFL_MASK i then Z.testbit (s32 arg2) i else Z.testbit (cp_flags f) i).
  { intros i Hi. unfold flags. rewrite Z.lor_spec, !Z.land_spec, Z.lnot_spec by done.
    destruct (Z.testbit CAPIO_FCNTL_SETFL_MASK i), (Z.testbit (cp_flags f) i), (Z.testbit (s32 arg2) i); done. }
  set (f' := {| cp_offset := cp_offset f; cp_size := cp_size f; cp_flags := flags; cp_cloexec := cp_cloexec f |}).
  set (s' := set_tables_of (set_files (<[fd := f']> (files (tables (fc_client s)))) (tables (fc_client s))) s).
  assert (Hf' : files (tables (fc_client s')) !! fd = Some f') by apply lookup_insert_eq.
  exists s', flags. split_and!.
  - rewrite (fcntl_open sys_fcntl fd F_SETFL arg2 s f) by (done || lia). unfold fcntl_switch. simpl.
    unfold bind. rewrite (get_flags_eq fd f s Hf). cbn [outcome_bind]. fold flags.
    rewrite (with_tables_done (set_capio_fd_flags fd flags) s tt (tables (fc_client s'))); [done|].
    unfold set_capio_fd_flags, bind, file_at. by rewrite Hf.
  - rewrite (fcntl_open sys_fcntl fd F_GETFL ignored s' f') by (done || lia). unfold fcntl_switch. simpl.
    by rewrite (get_flags_eq fd f' s' Hf').
  - exact Hbits.
  - apply Z.bits_inj'. intros i Hi. rewrite !Z.land_spec, Hbits by done.
    destruct (Z.testbit CAPIO_FCNTL_SETFL_MASK i) eqn:Em; [|done].
    assert (Hz : Z.land CAPIO_FCNTL_SETFL_MASK O_ACCMODE = 0) by done.
    apply (f_equal (fun z => Z.testbit z i)) in Hz. rewrite Z.land_spec, Em, Z.bits_0 in Hz. simpl in Hz.
    by rewrite Hz, !andb_false_r.
  - rewrite (fcntl_open sys_fcntl fd F_GETFD ignored s' f') by (done || lia). unfold fcntl_switch. simpl.
    unfold bind. rewrite (with_tables_read (get_capio_fd_cloexec fd) s' (cp_cloexec f)); [done|].
    unfold get_capio_fd_cloexec, bind, file_at. by rewrite Hf'.
  - unfold get_capio_fd_offset, bind, file_at. rewrite Hf', Hf. cbn. by destruct (offset_heap _ !! cp_offset f).
  - intros fd' Hne. simpl. by rewrite lookup_insert_ne.
  - done.
Qed.

(** ** Every command answers *)

Section Answers.
Context {P : Type} `{Peer P} `{Thread} (sys_fcntl : Z -> Z -> Z -> Z).
Notation State := (FcntlState P).

(** A command asks the server for nothing, except that a duplicate is reported to it. *)
Definition answers (fd cmd : Z) (s : State) (r : Z) (s' : State) : Prop :=
  fs_wf (tables (fc_client s')) /\ server (fc_client s') = server (fc_client s)
  /\ outbox (fc_client s') = outbox (fc_client s)
       ++ (if ((cmd =? F_DUPFD) || (cmd =? F_DUPFD_CLOEXEC)) && (0 <=? r) then [dup_request fd (s32 r) tid] else []).

Definition is_dupfd (cmd : Z) : bool := (cmd =? F_DUPFD) || (cmd =? F_DUPFD_CLOEXEC).

Definition is_lock (cmd : Z) : bool :=
  (cmd =? F_GETLK) || (cmd =? F_SETLK) || (cmd =? F_SETLKW)
  || (cmd =? F_OFD_GETLK) || (cmd =? F_OFD_SETLK) || (cmd =? F_OFD_SETLKW).
Definition is_rw_hint (cmd : Z) : bool := (cmd =? F_GET_RW_HINT) || (cmd =? F_SET_RW_HINT).

Lemma gives_step {S A B} (m : M S A) (k : A -> M S B) (s s1 : S) a Q :
  m s = Done (a, s1) -> gives (k a) s1 Q -> gives (bind m k) s Q.
Proof. intros E (b & s2 & E2 & HQ). exists b, s2. unfold bind. by rewrite E. Qed.

Lemma answers_same fd cmd s r : is_dupfd cmd = false -> fs_wf (tables (fc_client s)) -> answers fd cmd s r s.
Proof. unfold answers, is_dupfd. intros -> Hwf. by rewrite app_nil_r. Qed.

Lemma answers_set fd cmd r t s :
  is_dupfd cmd = false -> fs_wf t -> answers fd cmd s r (set_tables_of t s).
Proof. unfold answers, is_dupfd. intros -> Hwf. by rewrite app_nil_r. Qed.

(** What the caller and the kernel provide: a new descriptor is free, and an
    address is null or mapped. *)
Record args_ok (fd cmd arg2 : Z) (s : State) : Prop := {
  dup_free : is_dupfd cmd = true ->
    let r := sys_fcntl fd cmd (s32 arg2) in r < 0 \/ files (tables (fc_client s)) !! s32 r = None;
  lock_mapped : is_lock cmd = true -> arg2 = 0 \/ is_Some (flocks s !! arg2);
  word_mapped : is_rw_hint cmd = true -> arg2 = 0 \/ is_Some (words s !! arg2)
}.

Context (fd : Z) (s : State) (f : CPFile).
Hypothesis Hwf : fs_wf (tables (fc_client s)).
Hypothesis Hf : files (tables (fc_client s)) !! fd = Some f.

Lemma dupfd_answers arg2 (is_cloexec : bool) :
  let cmd := if is_cloexec then F_DUPFD_CLOEXEC else F_DUPFD in
  args_ok fd cmd arg2 s -> gives (capio_fcntl_dupfd sys_fcntl fd (s32 arg2) is_cloexec) s (answers fd cmd s).
Proof.
  intros cmd Hok. assert (Hd : is_dupfd cmd = true) by by destruct is_cloexec.
  pose proof (dup_free _ _ _ _ Hok Hd) as Hr. unfold capio_fcntl_dupfd. fold cmd.
  set (r := sys_fcntl fd cmd (s32 arg2)) in *. destruct (Z.ltb_spec r 0) as [Hneg|Hpos].
  - apply gives_ret. unfold answers. fold (is_dupfd cmd). rewrite Hd, (proj2 (Z.leb_gt 0 r)) by done. by rewrite app_nil_r.
  - destruct Hr as [|Hfree]; [lia|].
    destruct (dup_capio_fd_wf (tables (fc_client s)) fd (s32 r) is_cloexec) as (t & E & Ht); [done|by eexists|done|].
    eapply gives_step; [by apply with_tables_done|]. eapply gives_step; [reflexivity|]. apply gives_ret. unfold answers. fold (is_dupfd cmd). rewrite Hd, (proj2 (Z.leb_le 0 r)) by done. done.
Qed.

Lemma lock_answers cmd arg2 :
  is_dupfd cmd = false -> arg2 = 0 \/ is_Some (flocks s !! arg2) -> gives (capio_fcntl_lock fd cmd arg2) s (answers fd cmd s).
Proof.
  intros Hd Hlock. unfold capio_fcntl_lock. destruct (Z.eqb_spec arg2 0); [by apply gives_ret, answers_same|].
  destruct Hlock as [|[l Hl]]; [done|]. eapply gives_step; [reflexivity|].
  eapply gives_step; [by rewrite Hl|]. destruct (_ && negb (l_pid l =? 0)); [by apply gives_ret, answers_same|].
  eapply gives_step; [by apply get_flags_eq|].
  repeat match goal with |- gives (if ?b then _ else _) _ _ => destruct b end;
    try (apply gives_ret; by apply answers_same).
  all: eexists _, _; (split; [reflexivity|]); unfold answers; fold (is_dupfd cmd); rewrite Hd; by rewrite app_nil_r.
Qed.

Lemma dupfd_query_answers cmd other :
  is_dupfd cmd = false -> gives (dupfd_query sys_fcntl fd other) s (answers fd cmd s).
Proof.
  intros Hd. unfold dupfd_query. eapply gives_step; [apply exists_fd_eq|].
  destruct (bool_decide_reflect (is_Some (files (tables (fc_client s)) !! other))) as [[g Hg]|].
  - eapply gives_step; [by apply file_at_eq|]. eapply gives_step; [by apply file_at_eq|]. by apply gives_ret, answers_same.
  - destruct (_ <? 0); by apply gives_ret, answers_same.
Qed.

Lemma rw_hint_answers cmd arg2 :
  is_dupfd cmd = false -> arg2 = 0 \/ is_Some (words s !! arg2) -> gives (rw_hint fd cmd arg2) s (answers fd cmd s).
Proof.
  intros Hd Hword. unfold rw_hint. destruct (Z.eqb_spec arg2 0); [by apply gives_ret, answers_same|].
  destruct Hword as [|[v Hv]]; [done|]. destruct (wf_fd_path _ fd f Hwf Hf) as (path & _ & Hp & _).
  eapply gives_step; [apply with_tables_read; unfold get_capio_fd_path, path_at; by rewrite Hp|].
  assert (Hset : forall s', fc_client s' = fc_client s -> answers fd cmd s 0 s').
  { intros s' E. unfold answers. fold (is_dupfd cmd). rewrite Hd, E. by rewrite app_nil_r. }
  destruct (cmd =? F_GET_RW_HINT); (eapply gives_step; [reflexivity|]); (eapply gives_step; [by rewrite Hv|]).
  - eapply gives_step; [reflexivity|]. by apply gives_ret, Hset.
  - destruct (_ <? v); [by apply gives_ret, answers_same|]. eapply gives_step; [reflexivity|]. by apply gives_ret, Hset.
Qed.

Lemma set_file_answers cmd m f' :
  is_dupfd cmd = false -> cp_offset f' = cp_offset f ->
  m (tables (fc_client s))
    = Done (tt, set_files (<[fd := f']> (files (tables (fc_client s)))) (tables (fc_client s))) ->
  gives (with_tables m ;; ret 0) s (answers fd cmd s).
Proof.
  intros Hd Ho E. eapply gives_step; [by apply with_tables_done|]. apply gives_ret, answers_set; [done|].
  by eapply set_files_wf.
Qed.

Lemma switch_answers cmd arg2 :
  args_ok fd cmd arg2 s -> gives (fcntl_switch sys_fcntl fd cmd arg2) s (answers fd cmd s).
Proof.
  intros Hok. unfold fcntl_switch.
  destruct (Z.eqb_spec cmd F_DUPFD) as [->|N1]; [by apply (dupfd_answers arg2 false)|].
  destruct (Z.eqb_spec cmd F_DUPFD_CLOEXEC) as [->|N2]; [by apply (dupfd_answers arg2 true)|].
  assert (Hd : is_dupfd cmd = false) by (unfold is_dupfd; by rewrite (proj2 (Z.eqb_neq _ _) N1), (proj2 (Z.eqb_neq _ _) N2)).
  destruct (cmd =? F_GETFD).
  { eapply gives_step; [|by apply gives_ret, answers_same].
    apply with_tables_read. unfold get_capio_fd_cloexec, bind, file_at. by rewrite Hf. }
  destruct (cmd =? F_SETFD).
  { eapply set_file_answers; [done| |unfold set_capio_fd_cloexec, bind, file_at; by rewrite Hf]. done. }
  destruct (cmd =? F_GETFL); [eexists _, s; split; [by apply get_flags_eq|by apply answers_same]|].
  destruct (cmd =? F_SETFL).
  { eapply gives_step; [by apply get_flags_eq|].
    eapply set_file_answers; [done| |unfold set_capio_fd_flags, bind, file_at; by rewrite Hf]. done. }
  fold (is_lock cmd) (is_rw_hint cmd).
  destruct (is_lock cmd) eqn:Hl; [by apply lock_answers; [|apply (lock_mapped _ _ _ _ Hok)]|].
  destruct (_ || (cmd =? F_SETOWN_EX)); [by apply gives_ret, answers_same|].
  destruct (cmd =? F_GETLEASE); [by apply gives_ret, answers_same|].
  destruct (cmd =? F_SETLEASE); [by apply gives_ret, answers_same|].
  destruct (cmd =? F_NOTIFY); [eapply gives_step; [by apply get_flags_eq|by apply gives_ret, answers_same]|].
  destruct (cmd =? F_DUPFD_QUERY); [by apply dupfd_query_answers|].
  destruct (_ || (cmd =? F_SETPIPE_SZ)); [by apply gives_ret, answers_same|].
  destruct (_ || (cmd =? F_GET_SEALS)); [by apply gives_ret, answers_same|].
  destruct (is_rw_hint cmd) eqn:Hh; [by apply rw_hint_answers; [|apply (word_mapped _ _ _ _ Hok)]|by apply gives_ret, answers_same].
Qed.
End Answers.

(** C38. [fcntl] answers every command.  On tables that agree, an open descriptor and
    any command, with arguments that are null or mapped addresses where the command
    takes one, and a duplicate that gets a free number: the handler returns with a result: it throws no exception and
    waits for nothing; the tables agree afterwards, the server is not asked for a
    reply, and the only request is the one that reports a duplicate.  A descriptor
    that is not of CAPIO is left to the kernel with nothing changed. *)
Theorem fcntl_answers {P} `{Peer P} `{Thread} sys_fcntl (fd cmd arg2 : Z) (s : FcntlState P) :
  - 2 ^ 31 <= fd < 2 ^ 31 -> - 2 ^ 31 <= cmd < 2 ^ 31 ->
  fs_wf (tables (fc_client s)) -> args_ok sys_fcntl fd cmd arg2 s ->
  match files (tables (fc_client s)) !! fd with
  | None => fcntl_handler sys_fcntl fd cmd arg2 s = Done ((CAPIO_POSIX_SYSCALL_SKIP, None), s)
  | Some _ => exists r s', fcntl_handler sys_fcntl fd cmd arg2 s = Done ((0, Some r), s') /\ answers fd cmd s r s'
  end.
Proof.
  intros Hfd Hcmd Hwf Hok. destruct (files (tables (fc_client s)) !! fd) as [f|] eqn:Hf.
  - destruct (switch_answers sys_fcntl fd s f Hwf Hf cmd arg2 Hok) as (r & s' & E & Ha).
    exists r, s'. rewrite (fcntl_open sys_fcntl fd cmd arg2 s f) by done. by rewrite E.
  - unfold fcntl_handler. rewrite !s32_small by lia. unfold bind. rewrite exists_fd_eq, Hf. done.
Qed.

(** Two descriptors have one offset exactly when they share it. *)
Lemma offset_shared_iff fd other f g (t : Filesystem) :
  files t !! fd = Some f -> files t !! other = Some g ->
  (if cp_offset f =? cp_offset g then 1 else 0) = 1
  <-> forall o, exists t', set_capio_fd_offset fd o t = Done (tt, t') /\ get_capio_fd_offset other t' = Done (o, t').
Proof.
  intros Hf Hg. unfold set_capio_fd_offset, get_capio_fd_offset, bind, file_at. rewrite Hf. simpl.
  destruct (Z.eqb_spec (cp_offset f) (cp_offset g)) as [E|E]; split; try done.
  - intros _ o. eexists. split; [reflexivity|]. simpl. rewrite Hg. simpl. by rewrite E, lookup_insert_eq.
  - intros Ho. exfalso. assert (Hold : forall o, offset_heap t !! cp_offset g = Some o).
    { intros o. destruct (Ho o) as (t' & [= <-] & Et). simpl in Et. rewrite Hg in Et. simpl in Et.
      rewrite lookup_insert_ne in Et by done. destruct (offset_heap t !! cp_offset g); simpl in Et; [|done]. by injection Et as ->. }
    pose proof (Hold 0). pose proof (Hold 1). congruence.
Qed.

(** A duplicate made by [fcntl] is the same open file.  When the kernel gives a
    free descriptor [r], [F_DUPFD] and [F_DUPFD_CLOEXEC] return it with the flags
    and the path of the original and the close-on-exec flag that was asked for;
    [F_DUPFD_QUERY] then answers 1 for the two, and for two descriptors of CAPIO
    answers 1 exactly when moving the offset of one moves the offset of the
    other. *)
Theorem dupfd_same_file {P} `{Peer P} `{Thread} sys_fcntl (fd arg2 ignored : Z) (is_cloexec : bool) (f : CPFile) (s : FcntlState P) :
  let cmd := if is_cloexec then F_DUPFD_CLOEXEC else F_DUPFD in
  let r := sys_fcntl fd cmd (s32 arg2) in
  - 2 ^ 31 <= fd < 2 ^ 31 -> 0 <= r < 2 ^ 31 ->
  fs_wf (tables (fc_client s)) -> files (tables (fc_client s)) !! fd = Some f -> files (tables (fc_client s)) !! r = None ->
  exists s', fcntl_handler sys_fcntl fd cmd arg2 s = Done ((0, Some r), s')
    /\ fcntl_handler sys_fcntl r F_GETFL ignored s' = Done ((0, Some (cp_flags f)), s')
    /\ fcntl_handler sys_fcntl r F_GETFD ignored s' = Done ((0, Some (if is_cloexec then FD_CLOEXEC else 0)), s')
    /\ capio_files_descriptors (tables (fc_client s')) !! r = capio_files_descriptors (tables (fc_client s)) !! fd
    /\ fcntl_handler sys_fcntl fd F_DUPFD_QUERY r s' = Done ((0, Some 1), s')
    /\ forall other g, - 2 ^ 31 <= other < 2 ^ 31 -> files (tables (fc_client s')) !! other = Some g ->
         exists v, fcntl_handler sys_fcntl fd F_DUPFD_QUERY other s' = Done ((0, Some v), s')
           /\ (v = 1 <-> forall o, exists t, set_capio_fd_offset fd o (tables (fc_client s')) = Done (tt, t)
                          /\ get_capio_fd_offset other t = Done (o, t)).
Proof.
  intros cmd r Hfd Hr Hwf Hf Hnew. set (t := tables (fc_client s)) in *.
  destruct (wf_fd_path t fd f Hwf Hf) as (path & fds & Hd & Hp & _). assert (Hne : fd <> r) by congruence.
  set (f' := {| cp_offset := cp_offset f; cp_size := cp_size f; cp_flags := cp_flags f; cp_cloexec := is_cloexec |}).
  set (s1 := set_tables_of (with_fd r path f' t) s).
  set (s' := set_fc_client (set_outbox (outbox (fc_client s1) ++ [dup_request fd r tid]) (fc_client s1)) s1).
  assert (Hf' : files (tables (fc_client s')) !! fd = Some f) by (simpl; by rewrite lookup_insert_ne).
  assert (Hr' : files (tables (fc_client s')) !! r = Some f') by (simpl; by rewrite lookup_insert_eq).
  assert (Hquery : forall other g, - 2 ^ 31 <= other < 2 ^ 31 -> files (tables (fc_client s')) !! other = Some g ->
    fcntl_handler sys_fcntl fd F_DUPFD_QUERY other s'
    = Done ((0, Some (if cp_offset f =? cp_offset g then 1 else 0)), s')).
  { intros other g Ho Hg. rewrite (fcntl_open sys_fcntl fd F_DUPFD_QUERY other s' f) by (done || lia).
    unfold fcntl_switch, dupfd_query. simpl. rewrite s32_small by lia. unfold bind at 1.
    rewrite exists_fd_eq, Hg, bool_decide_eq_true_2 by by eexists. cbn [outcome_bind]. unfold bind.
    rewrite (file_at_eq fd f s' Hf'). cbn [outcome_bind]. by rewrite (file_at_eq other g s' Hg). }
  exists s'. split_and!.
  - rewrite (fcntl_open sys_fcntl fd cmd arg2 s f) by (done || (destruct is_cloexec; vm_compute; intuition congruence)).
    assert (E : capio_fcntl_dupfd sys_fcntl fd (s32 arg2) is_cloexec s = Done (r, s')).
    { unfold capio_fcntl_dupfd. fold cmd r. rewrite (proj2 (Z.ltb_ge r 0)) by lia. rewrite !s32_small by lia.
      unfold bind at 1. by rewrite (with_tables_done _ s tt (with_fd r path f' t)) by by eapply dup_capio_fd_eq. }
    unfold cmd, fcntl_switch. destruct is_cloexec; cbn -[capio_fcntl_dupfd]; by rewrite E.
  - rewrite (fcntl_open sys_fcntl r F_GETFL ignored s' f') by (done || lia). unfold fcntl_switch. simpl.
    by rewrite (get_flags_eq r f' s' Hr').
  - rewrite (fcntl_open sys_fcntl r F_GETFD ignored s' f') by (done || lia). unfold fcntl_switch. simpl.
    unfold bind. rewrite (with_tables_read (get_capio_fd_cloexec r) s' is_cloexec); [done|].
    unfold get_capio_fd_cloexec, bind, file_at. by rewrite Hr'.
  - simpl. by rewrite lookup_insert_eq, Hd.
  - rewrite (Hquery r f') by (done || lia). by rewrite Z.eqb_refl.
  - intros other g Ho Hg. eexists. split; [by apply Hquery|]. by apply offset_shared_iff.
Qed.

(** Write hints belong to the file.  A hint set through one descriptor is read
    through every descriptor of the same path, whatever hint that file had; a
    value over the largest hint is refused with [EINVAL] and changes nothing, and
    a file whose hint was never set reads as not set. *)
Theorem rw_hint_roundtrip {P} `{Peer P} `{Thread} sys_fcntl (fd fd' a b v : Z) (path : string) (s : FcntlState P) :
  - 2 ^ 31 <= fd < 2 ^ 31 -> - 2 ^ 31 <= fd' < 2 ^ 31 -> a <> 0 -> b <> 0 ->
  is_Some (files (tables (fc_client s)) !! fd) -> is_Some (files (tables (fc_client s)) !! fd') ->
  capio_files_descriptors (tables (fc_client s)) !! fd = Some path ->
  capio_files_descriptors (tables (fc_client s)) !! fd' = Some path ->
  words s !! a = Some v -> is_Some (words s !! b) ->
  let hint := default RWH_WRITE_LIFE_NOT_SET (rw_hints s !! path) in
  exists s1 s2 r, fcntl_handler sys_fcntl fd F_SET_RW_HINT a s = Done ((0, Some r), s1)
    /\ fcntl_handler sys_fcntl fd' F_GET_RW_HINT b s1 = Done ((0, Some 0), s2)
    /\ (v <= RWH_WRITE_LIFE_EXTREME -> r = 0 /\ words s2 !! b = Some v)
    /\ (RWH_WRITE_LIFE_EXTREME < v -> r = - EINVAL /\ s1 = s /\ words s2 !! b = Some hint).
Proof.
  intros Hfd Hfd' Ha Hb [f Hf] [f' Hf'] Hp Hp' Hv [w Hw] hint.
  assert (Hset : rw_hint fd F_SET_RW_HINT a s
    = Done (if RWH_WRITE_LIFE_EXTREME <? v then (- EINVAL, s) else (0, set_rw_hints (<[path := v]> (rw_hints s)) s))).
  { unfold rw_hint. rewrite (proj2 (Z.eqb_neq a 0)) by done. unfold bind.
    rewrite (with_tables_read (get_capio_fd_path fd) s path) by (unfold get_capio_fd_path, path_at; by rewrite Hp).
    cbn. rewrite Hv. cbn. unfold RWH_WRITE_LIFE_EXTREME. by destruct (5 <? v). }
  assert (Hget : forall s1, fc_client s1 = fc_client s -> words s1 = words s ->
    fcntl_handler sys_fcntl fd' F_GET_RW_HINT b s1 = Done ((0, Some 0),
      set_words (<[b := default RWH_WRITE_LIFE_NOT_SET (rw_hints s1 !! path)]> (words s1)) s1)).
  { intros s1 Ec Ew. rewrite (fcntl_open sys_fcntl fd' F_GET_RW_HINT b s1 f') by (rewrite ?Ec; done || lia).
    unfold fcntl_switch. cbn -[rw_hint]. unfold rw_hint. rewrite (proj2 (Z.eqb_neq b 0)) by done. unfold bind.
    rewrite (with_tables_read (get_capio_fd_path fd') s1 path) by (unfold get_capio_fd_path, path_at; by rewrite Ec, Hp').
    rewrite <- Ew in Hw. cbn. by rewrite Hw. }
  rewrite (fcntl_open sys_fcntl fd F_SET_RW_HINT a s f) by (done || lia).
  unfold fcntl_switch. cbn -[rw_hint]. rewrite Hset. destruct (Z.ltb_spec RWH_WRITE_LIFE_EXTREME v).
  - eexists _, _, _. split; [reflexivity|]. split; [by apply Hget|]. split; [lia|]. intros _. split_and!; try done.
    simpl. by rewrite lookup_insert_eq.
  - eexists _, _, _. split; [reflexivity|]. split; [by apply Hget|]. split; [|lia]. intros _. split; [done|].
    simpl. by rewrite !lookup_insert_eq.
Qed.

(** ** Witnesses *)

Definition demo_fcntl : FcntlState SizeServer := {|
  fc_client := size_client; rw_hints := ∅; flocks := {[ 800 := {| l_type := F_RDLCK; l_pid := 0 |} ]};
  words := {[ 64 := 3; 72 := 0 ]} |}.
Definition demo_sys_fcntl (fd cmd arg : Z) : Z := if cmd =? F_GETFD then - EBADF else 7.

Lemma setfl_getfl_witness :
  exists s' flags, fcntl_handler demo_sys_fcntl 3 F_SETFL O_APPEND demo_fcntl = Done ((0, Some 0), s')
    /\ fcntl_handler demo_sys_fcntl 3 F_GETFL 0 s' = Done ((0, Some flags), s').
Proof.
  edestruct (setfl_getfl demo_sys_fcntl 3 O_APPEND 0) as (s' & flags & H1 & H2 & _); [lia| |exists s', flags; split; [exact H1|exact H2]].
  vm_compute. reflexivity.
Defined.

Lemma fcntl_answers_witness :
  exists r s', fcntl_handler demo_sys_fcntl 3 F_DUPFD 5 demo_fcntl = Done ((0, Some r), s') /\ answers 3 F_DUPFD demo_fcntl r s'.
Proof.
  refine (fcntl_answers demo_sys_fcntl 3 F_DUPFD 5 demo_fcntl _ _ _ _); [lia|vm_compute; split; congruence| |].
  - exact (fs_reachable_wf "/" demo_fs demo_fs_reachable).
  - by split; [intros _; right|..].
Defined.

Lemma dupfd_same_file_witness :
  exists s', fcntl_handler demo_sys_fcntl 3 F_DUPFD_CLOEXEC 5 demo_fcntl = Done ((0, Some 7), s')
    /\ fcntl_handler demo_sys_fcntl 3 F_DUPFD_QUERY 7 s' = Done ((0, Some 1), s').
Proof.
  edestruct (dupfd_same_file demo_sys_fcntl 3 5 0 true) as (s' & H1 & _ & _ & _ & H2 & _);
    [lia|vm_compute; split; congruence| | | |exists s'; split; [exact H1|exact H2]].
  - exact (fs_reachable_wf "/" demo_fs demo_fs_reachable).
  - vm_compute. reflexivity.
  - vm_compute. reflexivity.
Defined.

Lemma rw_hint_roundtrip_witness :
  exists s1 s2, fcntl_handler demo_sys_fcntl 3 F_SET_RW_HINT 64 demo_fcntl = Done ((0, Some 0), s1)
    /\ fcntl_handler demo_sys_fcntl 3 F_GET_RW_HINT 72 s1 = Done ((0, Some 0), s2) /\ words s2 !! 72 = Some 3.
Proof.
  edestruct (rw_hint_roundtrip demo_sys_fcntl 3 3 64 72 3 "/c/a" demo_fcntl) as (s1 & s2 & r & H1 & H2 & H3 & _);
    [lia|lia|done|done|vm_compute; by eexists|vm_compute; by eexists|done|done|done|vm_compute; by eexists|].
  destruct H3 as [-> H3]; [done|]. exists s1, s2. split; [exact H1|]. split; [exact H2|exact H3].
Defined.
