(* ===== verification/PosixProcess.v ===== *)
(** * Processes: [execve], [fork], [clone] and exit

    [posix/utils/snapshot.hpp] and [clone.hpp], and the handlers [execve.hpp],
    [fork.hpp] and [exit_group.hpp].  [execve] replaces the image of the process,
    so the open descriptors are put in shared memory, from which the library reads
    them when it starts in the new image.  Shared memory objects have names and
    contents, mappings have addresses; where [mmap] places a mapping is a
    parameter: [reuse] when it takes the hole the last [munmap] left. *)
From S2P Require Import Prelude Text Memory Queue Server StorageManager Requests PosixPath PosixFs PosixCache PosixCacheProps PosixStat.
#[local] Arguments String.append !_ _ /.

Definition PATH_MAX : Z := 4096.

(** ** Shared memory *)

(** What is stored in an object: an array of [int], one of [off64_t], a C string. *)
Inductive shm_object : Type := Ints (l : list Z) | Longs (l : list Z) | Chars (s : string).

Record Shm : Type := {
  objects : gmap string shm_object;
  maps : gmap Z shm_object;
  hole : option Z;
  next_map : Z
}.
Definition set_objects o (m : Shm) : Shm :=
  {| objects := o; maps := maps m; hole := hole m; next_map := next_map m |}.

(** The bytes of a little-endian integer of [width] bytes, and those before the
    first NUL. *)
Definition le_bytes (width : nat) (n : Z) : list Z := (fun i => (n / 256 ^ Z.of_nat i) mod 256) <$> seq 0 width.
Fixpoint until_nul (l : list Z) : string :=
  match l with
  | [] => EmptyString
  | b :: l' => if b =? 0 then EmptyString else String (ascii_of_N (Z.to_N b)) (until_nul l')
  end.
(** The object read as a C string. *)
Definition as_c_string (o : shm_object) : string :=
  match o with
  | Ints l => until_nul (concat (le_bytes 4 <$> l))
  | Longs l => until_nul (concat (le_bytes 8 <$> l))
  | Chars s => s
  end.

Section Snapshot.
Variable reuse : bool.

Definition create_shm (name : string) (o : shm_object) : M Shm unit :=
  modify (fun m => set_objects (<[name := o]> (objects m)) m).
(** [mmap] *)
Definition map_object (o : shm_object) : M Shm Z := fun m =>
  let p := match hole m with Some a => if reuse then a else next_map m | None => next_map m end in
  Done (p, {| objects := objects m; maps := <[p := o]> (maps m); hole := None; next_map := next_map m + 1 |}).
Definition get_shm (name : string) : M Shm Z :=
  let* m := get in let* o := or_exit (objects m !! name) "get_shm shm_open" in map_object o.
Definition get_shm_if_exist (name : string) : M Shm (option Z) :=
  let* m := get in
  match objects m !! name with Some o => let* p := map_object o in ret (Some p) | None => ret None end.
Definition munmap (p : Z) : M Shm unit :=
  modify (fun m => {| objects := objects m; maps := delete p (maps m); hole := Some p; next_map := next_map m |}).
Definition shm_unlink (name : string) : M Shm unit :=
  let* m := get in
  let* _ := or_exit (objects m !! name) "shm_unlink snapshot" in
  put (set_objects (delete name (objects m)) m).
(** What the pointer points to. *)
Definition deref (p : Z) : M Shm shm_object := fun m => or_ub (maps m !! p) "access to an unmapped page" m.
Definition long_at (p : Z) (i : nat) : M Shm Z :=
  let* o := deref p in
  match o with Longs l => or_ub (l !! i) "access past the end of an object" | _ => undefined "wrong type of object" end.

(** ** [snapshot.hpp] *)

(** The tables of the process and the shared memory. *)
Record SnapState : Type := { sn_tables : Filesystem; sn_shm : Shm }.
Definition set_sn_tables t (s : SnapState) : SnapState := {| sn_tables := t; sn_shm := sn_shm s |}.
Definition set_sn_shm m (s : SnapState) : SnapState := {| sn_tables := sn_tables s; sn_shm := m |}.
Definition in_tables {A} (m : M Filesystem A) : M SnapState A := zoom sn_tables set_sn_tables m.
Definition in_shm {A} (m : M Shm A) : M SnapState A := zoom sn_shm set_sn_shm m.

Definition snapshot_name (tid : Z) : string := "capio_snapshot_" ++ print_ld tid.
Definition snapshot_fd_name (tid fd : Z) : string := "capio_snapshot_" ++ print_ld tid ++ "_" ++ print_ld fd.
Definition snapshot_path_name (tid fd : Z) : string := "capio_snapshot_path_" ++ print_ld tid ++ "_" ++ print_ld fd.

Definition get_fd_snapshot (tid : Z) : M Shm (option Z) := get_shm_if_exist (snapshot_name tid).

(** [strcpy] of a path of [PATH_MAX] characters or more writes past the object. *)
Definition save_fd (tid fd : Z) : M SnapState unit :=
  let* offset := in_tables (get_capio_fd_offset fd) in
  let* size := in_tables (get_capio_fd_size fd) in
  let* flags := in_tables (get_capio_fd_flags fd) in
  let* is_cloexec := in_tables (get_capio_fd_cloexec fd) in
  in_shm (create_shm (snapshot_fd_name tid fd) (Longs [fd; offset; size; flags; if is_cloexec then 1 else 0])) ;;
  let* path := in_tables (get_capio_fd_path fd) in
  if PATH_MAX <=? Z.of_nat (String.length path) then undefined "strcpy past the end of an object"
  else in_shm (create_shm (snapshot_path_name tid fd) (Chars path)).

Definition create_snapshot (tid : Z) : M SnapState unit :=
  let* fds := in_tables get_capio_fds in
  match fds with
  | [] => ret tt
  | _ => in_shm (create_shm (snapshot_name tid) (Ints (fds ++ [-1]))) ;; for_each fds (save_fd tid)
  end.

(** The body of the loop of [initialize_from_snapshot]. *)
Definition restore_fd (tid fd : Z) : M SnapState unit :=
  let* path_shm := in_shm (get_shm (snapshot_path_name tid fd)) in
  in_shm (munmap path_shm) ;;
  in_shm (shm_unlink (snapshot_path_name tid fd)) ;;
  let* p_shm := in_shm (get_shm (snapshot_fd_name tid fd)) in
  let* o := in_shm (deref path_shm) in
  let* offset := in_shm (long_at p_shm 1) in
  let* size := in_shm (long_at p_shm 2) in
  let* flags := in_shm (long_at p_shm 3) in
  let* is_cloexec := in_shm (long_at p_shm 4) in
  in_tables (add_capio_fd (as_c_string o) fd offset size (s32 flags) (negb (is_cloexec =? 0))) ;;
  in_shm (munmap p_shm) ;;
  in_shm (shm_unlink (snapshot_fd_name tid fd)).
Fixpoint restore_loop (tid : Z) (fd_shm : list Z) : M SnapState unit :=
  match fd_shm with
  | [] => undefined "access past the end of an object"
  | fd :: fd_shm' => if fd =? -1 then ret tt else restore_fd tid fd ;; restore_loop tid fd_shm'
  end.
Definition initialize_from_snapshot (fd_shm tid : Z) : M SnapState unit :=
  let* o := in_shm (deref fd_shm) in
  match o with Ints l => restore_loop tid l | _ => undefined "wrong type of object" end ;;
  in_shm (shm_unlink (snapshot_name tid)).

(** What [init] does with a snapshot. *)
Definition restore (tid : Z) : M SnapState unit :=
  let* fd_shm := in_shm (get_fd_snapshot tid) in
  match fd_shm with Some p => initialize_from_snapshot p tid | None => ret tt end.
End Snapshot.

(** ** [clone.hpp], [fork.hpp], [exit_group.hpp] *)

Section Threads.
Context {P : Type} `{Peer P} `{Thread} (pid : Z) (capio_app_name : string).

(** New queues and caches for the thread that runs it. *)
Definition initialize_data_queues : M (Client P) unit :=
  modify (fun s => {| tables := tables s; read_cache := ReadCache_new; write_cache := WriteCache_new; outbox := outbox s;
                      server := set_from_server fifo_new (set_to_server fifo_new (server s)) |}).
Definition initialize_new_thread (wait : bool) : M (Client P) unit :=
  initialize_data_queues ;;
  let c := handshake_named_request tid pid capio_app_name wait in
  if wait then let* _ := ask c in ret tt else PosixCache.send c.
Definition hook_clone_parent (child_tid : Z) : M (Client P) unit := PosixCache.send (clone_request tid child_tid).
Definition hook_clone_child : M (Client P) unit := initialize_new_thread true.

(** [child] is what the system call returns; the thread is the one it returns in. *)
Definition fork_handler (child : Z) : M (Client P) (Z * option Z) :=
  if s32 child =? 0 then initialize_new_thread false ;; ret (0, Some 0) else ret (0, Some (s32 child)).
Definition exit_handler : M (Client P) (Z * option Z) :=
  ReadCache_flush ;; WriteCache_flush ;; PosixCache.send (exit_group_request tid) ;; ret (CAPIO_POSIX_SYSCALL_SKIP, None).
End Threads.

(** [execve_handler] *)
Definition execve_handler `{Thread} : M SnapState (Z * option Z) :=
  create_snapshot tid ;; ret (CAPIO_POSIX_SYSCALL_SKIP, None).

(** ** The names of the objects *)

Lemma snapshot_fd_name_inj tid fd fd' :
  int64 fd -> int64 fd' -> snapshot_fd_name tid fd = snapshot_fd_name tid fd' -> fd = fd'.
Proof. intros H H' E. apply print_ld_inj; try done. by repeat apply string_app_inj in E. Qed.
Lemma snapshot_path_name_inj tid fd fd' :
  int64 fd -> int64 fd' -> snapshot_path_name tid fd = snapshot_path_name tid fd' -> fd = fd'.
Proof. intros H H' E. apply print_ld_inj; try done. by repeat apply string_app_inj in E. Qed.

Lemma print_ld_head n rest : exists c s, (print_ld n ++ rest)%string = String c s /\ c <> "p"%char.
Proof.
  unfold print_ld. destruct (Z.ltb_spec n 0) as [|Hn]; [by eexists "-"%char, _|].
  assert (Hs : starts_with_digit (print_nonneg n) = true) by (apply print_digits_starts; [done|right; lia]).
  destruct (print_nonneg n) as [|c s]; [done|]. exists c, (s ++ rest)%string. split; [done|].
  intros ->. done.
Qed.

Lemma snapshot_names_differ tid fd fd' : snapshot_path_name tid fd <> snapshot_fd_name tid fd'.
Proof.
  unfold snapshot_path_name, snapshot_fd_name. intros E.
  change "capio_snapshot_path_"%string with ("capio_snapshot_" ++ "path_")%string in E. rewrite string_app_assoc in E.
  apply string_app_inj in E. destruct (print_ld_head tid ("_" ++ print_ld fd')%string) as (c & s & Ec & Hc).
  rewrite Ec in E. simpl in E. congruence.
Qed.

Lemma snapshot_name_fd tid fd : snapshot_name tid <> snapshot_fd_name tid fd.
Proof.
  unfold snapshot_name, snapshot_fd_name. intros E. apply string_app_inj in E.
  rewrite <- (string_app_nil (print_ld tid)) in E at 1. by apply string_app_inj in E.
Qed.
Lemma snapshot_name_path tid fd : snapshot_name tid <> snapshot_path_name tid fd.
Proof.
  unfold snapshot_name, snapshot_path_name. intros E.
  change "capio_snapshot_path_"%string with ("capio_snapshot_" ++ "path_")%string in E. rewrite string_app_assoc in E.
  apply string_app_inj in E. destruct (print_ld_head tid "") as (c & s & Ec & Hc). rewrite string_app_nil in Ec.
  rewrite Ec in E. simpl in E. congruence.
Qed.
#[local] Hint Resolve snapshot_names_differ snapshot_name_fd snapshot_name_path not_eq_sym : capio.

(** The objects of a snapshot of [fds]. *)
Definition snapshot_names (tid : Z) (fds : list Z) : list string :=
  fds ≫= fun fd => [snapshot_fd_name tid fd; snapshot_path_name tid fd].

(** ** Saving *)

(** A descriptor: its offset, size, flags, close-on-exec flag and path. *)
Definition fd_view (t : Filesystem) (fd : Z) : option (Z * Z * Z * bool * string) :=
  f ← files t !! fd; o ← offset_heap t !! cp_offset f; p ← capio_files_descriptors t !! fd;
  Some (o, cp_size f, cp_flags f, cp_cloexec f, p).

Definition fd_longs (fd o size flags : Z) (c : bool) : shm_object := Longs [fd; o; size; flags; if c then 1 else 0].

(** The objects of [fds] are there. *)
Definition saved (tid : Z) (t : Filesystem) (fds : list Z) (m : gmap string shm_object) : Prop :=
  forall fd, fd ∈ fds -> exists o size flags c p, fd_view t fd = Some (o, size, flags, c, p)
    /\ m !! snapshot_fd_name tid fd = Some (fd_longs fd o size flags c)
    /\ m !! snapshot_path_name tid fd = Some (Chars p).

Lemma save_fd_eq tid fd t m o size flags c p :
  fd_view t fd = Some (o, size, flags, c, p) -> Z.of_nat (String.length p) < PATH_MAX ->
  save_fd tid fd {| sn_tables := t; sn_shm := m |} = Done (tt, {| sn_tables := t; sn_shm :=
    set_objects (<[snapshot_path_name tid fd := Chars p]> (<[snapshot_fd_name tid fd := fd_longs fd o size flags c]> (objects m))) m |}).
Proof.
  unfold fd_view. destruct (files t !! fd) as [f|] eqn:Ef; [|done]. simpl.
  destruct (offset_heap t !! cp_offset f) as [o'|] eqn:Eo; [|done]. simpl.
  destruct (capio_files_descriptors t !! fd) as [p'|] eqn:Ep; [|done]. simpl. intros [= <- <- <- <- <-] Hp.
  unfold save_fd, get_capio_fd_offset, get_capio_fd_size, get_capio_fd_flags, get_capio_fd_cloexec, get_capio_fd_path,
    file_at, path_at, in_tables, in_shm, zoom, bind. cbn -[snapshot_path_name snapshot_fd_name String.length].
  repeat (rewrite ?Ef, ?Eo, ?Ep; cbn -[snapshot_path_name snapshot_fd_name String.length]).
  rewrite (proj2 (Z.leb_gt _ _)) by exact Hp. done.
Qed.

Lemma in_snapshot_names tid fds name :
  name ∈ snapshot_names tid fds <-> exists fd, fd ∈ fds /\ (name = snapshot_fd_name tid fd \/ name = snapshot_path_name tid fd).
Proof.
  unfold snapshot_names. rewrite list_elem_of_bind. setoid_rewrite elem_of_cons. setoid_rewrite list_elem_of_singleton.
  naive_solver.
Qed.

Lemma for_each_app {S A} (l l' : list A) (f : A -> M S unit) s :
  for_each (l ++ l') f s = bind (for_each l f) (fun _ => for_each l' f) s.
Proof.
  revert s. induction l as [|x l IH]; intros s; [done|]. simpl. unfold bind. destruct (f x s) as [[[] s1]| | | |]; try done.
  simpl. rewrite IH. done.
Qed.

Lemma save_loop tid t fds m :
  (forall fd, fd ∈ fds -> int64 fd /\ exists o size flags c p,
     fd_view t fd = Some (o, size, flags, c, p) /\ Z.of_nat (String.length p) < PATH_MAX) ->
  exists ob, for_each fds (save_fd tid) {| sn_tables := t; sn_shm := m |}
      = Done (tt, {| sn_tables := t; sn_shm := set_objects ob m |})
    /\ saved tid t fds ob /\ forall name, name ∉ snapshot_names tid fds -> ob !! name = objects m !! name.
Proof.
  revert m. induction fds as [|fd fds IH] using rev_ind; intros m Hok.
  { exists (objects m). split; [by destruct m|]. split; [by intros fd ?%elem_of_nil|done]. }
  destruct (IH m) as (ob & E & Hs & Hrest); [intros; apply Hok; set_solver|]. clear IH.
  destruct (Hok fd) as (Hfd & o & size & flags & c & p & Hv & Hp); [set_solver|].
  eexists. split; [rewrite for_each_app; unfold bind; rewrite E; cbn [outcome_bind for_each]; unfold bind;
    by rewrite (save_fd_eq _ _ _ _ _ _ _ _ _ Hv Hp)|]. split.
  - intros fd' Hin. destruct (decide (fd' = fd)) as [->|Hne].
    + exists o, size, flags, c, p. split; [done|]. simpl. rewrite lookup_insert_eq.
      rewrite lookup_insert_ne by auto with capio. by rewrite lookup_insert_eq.
    + assert (Hin' : fd' ∈ fds) by set_solver. destruct (Hok fd') as [Hfd' _]; [set_solver|].
      destruct (Hs fd' Hin') as (o' & size' & flags' & c' & p' & Hv' & H1 & H2). exists o', size', flags', c', p'.
      split; [done|]. simpl. split.
      * rewrite lookup_insert_ne by auto with capio. rewrite lookup_insert_ne; [done|].
        intros Heq. by apply snapshot_fd_name_inj in Heq.
      * rewrite lookup_insert_ne; [|intros Heq; by apply snapshot_path_name_inj in Heq].
        by rewrite lookup_insert_ne by auto with capio.
  - intros name Hn. rewrite in_snapshot_names in Hn. simpl. rewrite !lookup_insert_ne.
    + apply Hrest. rewrite in_snapshot_names. set_solver.
    + intros <-. apply Hn. exists fd. split; [set_solver|by left].
    + intros <-. apply Hn. exists fd. split; [set_solver|by right].
Qed.

(** ** Restoring *)

#[local] Opaque snapshot_path_name snapshot_fd_name snapshot_name.

(** Where the next mapping goes. *)
Definition next_place (m : Shm) : Z := default (next_map m) (hole m).

(** The bytes of a descriptor before the first NUL. *)
Definition fd_chars (fd : Z) : string := until_nul (le_bytes 8 fd).

Lemma until_nul_app l l' : 0 ∈ l -> until_nul (l ++ l') = until_nul l.
Proof.
  induction l as [|b l IH]; [by intros ?%elem_of_nil|]. intros Hin. simpl. destruct (Z.eqb_spec b 0); [done|].
  f_equal. apply IH. by apply elem_of_cons in Hin as [|].
Qed.

Lemma fd_longs_chars fd o size flags c : 0 <= fd < 2 ^ 31 -> as_c_string (fd_longs fd o size flags c) = fd_chars fd.
Proof.
  intros Hfd. unfold as_c_string, fd_longs. rewrite fmap_cons. cbn [concat]. apply until_nul_app.
  unfold le_bytes. apply list_elem_of_fmap. exists 7%nat. split; [|apply elem_of_seq; lia].
  rewrite Z.div_small; [done|]. change (256 ^ Z.of_nat 7) with (2 ^ 56). lia.
Qed.

(** What [add_capio_fd] makes of free tables entries. *)
Definition added (t : Filesystem) (path : string) (fd o size flags : Z) (c : bool) : Filesystem :=
  with_fd fd path {| cp_offset := next_offset t; cp_size := size; cp_flags := flags; cp_cloexec := c |}
    {| offset_heap := <[next_offset t := o]> (offset_heap t); next_offset := next_offset t + 1; files := files t;
       capio_files_descriptors := capio_files_descriptors t; capio_files_paths := capio_files_paths t;
       current_dir := current_dir t |}.

Lemma get_shm_eq reuse name o m : objects m !! name = Some o ->
  get_shm reuse name m = map_object reuse o m.
Proof. intros E. unfold get_shm, bind, get. cbn [outcome_bind]. rewrite E. done. Qed.
Lemma shm_unlink_eq name o m : objects m !! name = Some o ->
  shm_unlink name m = Done (tt, set_objects (delete name (objects m)) m).
Proof. intros E. unfold shm_unlink, bind, get. cbn [outcome_bind]. rewrite E. done. Qed.

Section Restore.
Context (tid fd : Z) (t : Filesystem) (m : Shm) (o size flags : Z) (c : bool) (p : string).
Hypothesis Hfd : objects m !! snapshot_fd_name tid fd = Some (fd_longs fd o size flags c).
Hypothesis Hpath : objects m !! snapshot_path_name tid fd = Some (Chars p).

(** The pages of the path are gone when its bytes are read. *)
Lemma restore_fd_elsewhere :
  restore_fd false tid fd {| sn_tables := t; sn_shm := m |} = UB "access to an unmapped page".
Proof.
  unfold restore_fd, in_shm, zoom, bind. cbn -[get_shm shm_unlink]. rewrite (get_shm_eq _ _ _ _ Hpath).
  cbn -[get_shm shm_unlink]. erewrite shm_unlink_eq by exact Hpath. cbn -[get_shm shm_unlink].
  erewrite get_shm_eq by (cbn; rewrite lookup_delete_ne by auto with capio; exact Hfd).
  cbn. unfold deref. cbn. rewrite lookup_insert_ne by (destruct (hole m); lia). by destruct (hole m); rewrite lookup_delete_eq.
Qed.

(** In the hole it left, the bytes of the descriptor are read instead. *)
Lemma restore_fd_reused :
  fs_wf t -> files t !! fd = None -> 0 <= fd < 2 ^ 31 -> int32 flags ->
  exists m', restore_fd true tid fd {| sn_tables := t; sn_shm := m |}
      = Done (tt, {| sn_tables := added t (fd_chars fd) fd o size flags c; sn_shm := m' |})
    /\ objects m' = delete (snapshot_fd_name tid fd) (delete (snapshot_path_name tid fd) (objects m)).
Proof.
  intros Hwf Hnew Hr Hflags. unfold restore_fd, in_shm, in_tables, zoom, bind.
  cbn -[get_shm shm_unlink add_capio_fd as_c_string]. rewrite (get_shm_eq _ _ _ _ Hpath).
  cbn -[get_shm shm_unlink add_capio_fd as_c_string]. erewrite shm_unlink_eq by exact Hpath.
  cbn -[get_shm shm_unlink add_capio_fd as_c_string].
  erewrite get_shm_eq by (cbn; rewrite lookup_delete_ne by auto with capio; exact Hfd).
  cbn -[shm_unlink add_capio_fd as_c_string]. unfold deref, long_at, deref, bind.
  cbn -[shm_unlink add_capio_fd as_c_string].
  repeat (rewrite lookup_insert_eq; cbn -[shm_unlink add_capio_fd as_c_string]).
  rewrite fd_longs_chars, s32_small by done. rewrite add_capio_fd_eq by done. cbn -[shm_unlink].
  erewrite shm_unlink_eq by (cbn; rewrite lookup_delete_ne by auto with capio; exact Hfd). cbn.
  eexists. split; [unfold added; destruct c; reflexivity|done].
Qed.
End Restore.

(** What the loop makes of the tables: the old entries stay, the new descriptors
    have offsets of their own. *)
Record restored (t0 : Filesystem) (fds : list Z) (t t' : Filesystem) : Prop := {
  rs_wf : fs_wf t';
  rs_next : next_offset t <= next_offset t';
  rs_heap : forall a, a < next_offset t -> offset_heap t' !! a = offset_heap t !! a;
  rs_old : forall fd, fd ∉ fds -> files t' !! fd = files t !! fd
    /\ capio_files_descriptors t' !! fd = capio_files_descriptors t !! fd;
  rs_new : forall fd, fd ∈ fds -> exists o size flags c p f, fd_view t0 fd = Some (o, size, flags, c, p)
    /\ fd_view t' fd = Some (o, size, flags, c, fd_chars fd)
    /\ files t' !! fd = Some f /\ next_offset t <= cp_offset f;
  rs_apart : forall fd fd' f f', fd ∈ fds -> fd' ∈ fds -> files t' !! fd = Some f -> files t' !! fd' = Some f' ->
    cp_offset f = cp_offset f' -> fd = fd'
}.

(** The descriptors that can be saved and restored. *)
Definition savable (t : Filesystem) (fd : Z) : Prop :=
  0 <= fd < 2 ^ 31 /\ exists o size flags c p, fd_view t fd = Some (o, size, flags, c, p)
    /\ int32 flags /\ Z.of_nat (String.length p) < PATH_MAX.

Lemma restored_nil t0 t : fs_wf t -> restored t0 [] t t.
Proof. intros Hwf. split; try done; [by intros fd ?%elem_of_nil|by intros fd fd' f f' ?%elem_of_nil]. Qed.

Lemma added_wf t path fd o size flags c : fs_wf t -> files t !! fd = None -> fs_wf (added t path fd o size flags c).
Proof.
  intros Hwf Hnew. apply with_fd_wf; [by apply heap_alloc_wf|done|]. simpl. by rewrite lookup_insert_eq.
Qed.

Lemma restored_cons t0 fd fds t t' o size flags c p :
  fd_view t0 fd = Some (o, size, flags, c, p) -> fd ∉ fds -> files t !! fd = None -> fs_wf t ->
  restored t0 fds (added t (fd_chars fd) fd o size flags c) t' -> restored t0 (fd :: fds) t t'.
Proof.
  intros Hv Hfd Hnew Hwf [Rwf Rnext Rheap Rold Rnew Rapart]. simpl in Rnext.
  destruct (Rold fd Hfd) as [Ef Ed]. simpl in Ef, Ed. rewrite lookup_insert_eq in Ef. rewrite lookup_insert_eq in Ed.
  assert (Eo : offset_heap t' !! next_offset t = Some o) by (rewrite Rheap by (simpl; lia); simpl; by rewrite lookup_insert_eq).
  split; [done|lia| | | |].
  - intros a Ha. rewrite Rheap by (simpl; lia). simpl. by rewrite lookup_insert_ne by lia.
  - intros fd' Hfd'. destruct (Rold fd') as [-> ->]; [set_solver|]. simpl. by rewrite !lookup_insert_ne by set_solver.
  - intros fd' [->|Hin]%elem_of_cons.
    + eexists o, size, flags, c, p, _. split; [done|]. split; [|split; [exact Ef|simpl; lia]].
      unfold fd_view. rewrite Ef. simpl. rewrite Eo. simpl. by rewrite Ed.
    + destruct (Rnew fd' Hin) as (o' & sz & fl & c' & p' & f & H1 & H2 & H3 & H4). exists o', sz, fl, c', p', f.
      simpl in H4. split_and!; (done || lia).
  - assert (Hlate : forall fd' f, fd' ∈ fds -> files t' !! fd' = Some f -> cp_offset f <> next_offset t).
    { intros fd' f Hin E. destruct (Rnew fd' Hin) as (? & ? & ? & ? & ? & f' & _ & _ & E' & Hle). simpl in Hle.
      assert (f = f') as -> by congruence. lia. }
    intros fd1 fd2 f1 f2 [->|H1]%elem_of_cons [->|H2]%elem_of_cons E1 E2 Heq; [done| | |by eapply Rapart].
    + exfalso. apply (Hlate fd2 f2 H2 E2). by simplify_eq.
    + exfalso. apply (Hlate fd1 f1 H1 E1). by simplify_eq.
Qed.

Lemma restore_loop_ok tid t0 fds t m :
  NoDup fds -> Forall (savable t0) fds -> saved tid t0 fds (objects m) ->
  fs_wf t -> (forall fd, fd ∈ fds -> files t !! fd = None) ->
  exists t' m', restore_loop true tid (fds ++ [-1]) {| sn_tables := t; sn_shm := m |}
      = Done (tt, {| sn_tables := t'; sn_shm := m' |})
    /\ restored t0 fds t t'
    /\ forall name, objects m' !! name = if decide (name ∈ snapshot_names tid fds) then None else objects m !! name.
Proof.
  revert t m. induction fds as [|fd fds IH]; intros t m Hnd Hsv Hob Hwf Hnew.
  { exists t, m. split; [done|]. split; [by apply restored_nil|]. intros name. by rewrite decide_False by by intros ?%elem_of_nil. }
  apply NoDup_cons in Hnd as [Hfd Hnd]. apply Forall_cons in Hsv as [(Hr & o & size & flags & c & p & Hv & Hfl & _) Hsv].
  destruct (Hob fd) as (? & ? & ? & ? & ? & Hv' & Hl & Hp); [set_solver|]. rewrite Hv in Hv'. simplify_eq.
  destruct (restore_fd_reused tid fd t m _ _ _ _ _ Hl Hp Hwf (Hnew fd ltac:(set_solver)) Hr Hfl) as (m1 & E1 & Ho1).
  set (t1 := added t (fd_chars fd) fd _ _ _ _) in *.
  destruct (IH t1 m1) as (t' & m' & E & Hres & Hobj); [done|done| |apply added_wf; [done|set_solver]| |].
  - intros fd' Hin. destruct (Hob fd') as (o' & sz & fl & c' & p' & Hv' & Hl' & Hp'); [set_solver|].
    assert (Hne : fd' <> fd) by set_solver.
    assert (Hr' : 0 <= fd' < 2 ^ 31) by by apply (Forall_forall (savable t0) fds); [|].
    exists o', sz, fl, c', p'. split; [done|]. rewrite Ho1. split.
    + rewrite lookup_delete_ne by (intros Heq; apply snapshot_fd_name_inj in Heq; [done|unfold int64; lia..]).
      by rewrite lookup_delete_ne by auto with capio.
    + rewrite lookup_delete_ne by auto with capio.
      by rewrite lookup_delete_ne by (intros Heq; apply snapshot_path_name_inj in Heq; [done|unfold int64; lia..]).
  - intros fd' Hin. simpl. rewrite lookup_insert_ne by set_solver. apply Hnew. set_solver.
  - exists t', m'. split.
    + simpl. rewrite (proj2 (Z.eqb_neq fd (-1))) by lia. unfold bind. rewrite E1. done.
    + split; [eapply restored_cons; [exact Hv|done|apply Hnew; set_solver|done|exact Hres]|].
      intros name. rewrite Hobj, Ho1. unfold snapshot_names in *. simpl.
      destruct (decide (name ∈ _)) as [Hi|Hi]; [by rewrite decide_True by set_solver|].
      destruct (decide (name = snapshot_fd_name tid fd)) as [->|N1]; [by rewrite lookup_delete_eq, decide_True by set_solver|].
      rewrite lookup_delete_ne by done.
      destruct (decide (name = snapshot_path_name tid fd)) as [->|N2]; [by rewrite lookup_delete_eq, decide_True by set_solver|].
      rewrite lookup_delete_ne by done. by rewrite decide_False by set_solver.
Qed.

(** The descriptors of [get_capio_fds]. *)
Definition open_fds (t : Filesystem) : list Z := (map_to_list (files t)).*1.
Lemma open_fds_in t fd : fd ∈ open_fds t <-> is_Some (files t !! fd).
Proof.
  unfold open_fds. rewrite list_elem_of_fmap. split.
  - intros ([fd' f] & -> & Hf). apply elem_of_map_to_list in Hf. by eexists.
  - intros [f Hf]. exists (fd, f). split; [done|]. by apply elem_of_map_to_list.
Qed.

Lemma open_fds_nil t : open_fds t = [] -> files t = ∅.
Proof.
  intros El. apply map_eq. intros fd. rewrite lookup_empty. apply eq_None_not_Some.
  rewrite <- open_fds_in, El. apply not_elem_of_nil.
Qed.

Lemma snapshot_name_other tid fds : snapshot_name tid ∉ snapshot_names tid fds.
Proof. rewrite in_snapshot_names. intros (fd & _ & [E|E]); [by eapply snapshot_name_fd|by eapply snapshot_name_path]. Qed.

Lemma create_snapshot_ok tid t m :
  files t <> ∅ -> (forall fd, is_Some (files t !! fd) -> savable t fd) ->
  exists ob, create_snapshot tid {| sn_tables := t; sn_shm := m |} = Done (tt, {| sn_tables := t; sn_shm := set_objects ob m |})
    /\ saved tid t (open_fds t) ob /\ ob !! snapshot_name tid = Some (Ints (open_fds t ++ [-1]))
    /\ forall name, name ∉ snapshot_names tid (open_fds t) -> name <> snapshot_name tid -> ob !! name = objects m !! name.
Proof.
  intros Hne Hsv. set (m0 := set_objects (<[snapshot_name tid := Ints (open_fds t ++ [-1])]> (objects m)) m).
  destruct (save_loop tid t (open_fds t) m0) as (ob & E & Hs & Hrest).
  { intros fd Hin. destruct (Hsv fd) as (Hr & o & size & flags & c & p & Hv & _ & Hp); [by apply open_fds_in|].
    split; [unfold int64; lia|]. by exists o, size, flags, c, p. }
  exists ob. split_and!; [|done| |].
  - unfold create_snapshot, bind at 1, in_tables, zoom, get_capio_fds, gets. cbn [outcome_bind].
    cbn [sn_tables]. fold (open_fds t). destruct (open_fds t) as [|fd fds] eqn:El; [by apply open_fds_nil in El|exact E].
  - rewrite Hrest by apply snapshot_name_other. apply lookup_insert_eq.
  - intros name Hn Hn'. rewrite Hrest by done. by apply lookup_insert_ne.
Qed.

(** The start of [restore] on a snapshot. *)
Lemma restore_start reuse tid t m l :
  objects m !! snapshot_name tid = Some (Ints l) ->
  exists m', objects m' = objects m /\ restore reuse tid {| sn_tables := t; sn_shm := m |}
    = bind (restore_loop reuse tid l) (fun _ => in_shm (shm_unlink (snapshot_name tid))) {| sn_tables := t; sn_shm := m' |}.
Proof.
  intros E. unfold restore, bind at 1, in_shm at 1, zoom, get_fd_snapshot, get_shm_if_exist, bind at 1, get.
  cbn [outcome_bind sn_shm]. rewrite E. cbn -[initialize_from_snapshot].
  eexists. split; [|unfold initialize_from_snapshot, bind at 1, in_shm at 1, zoom, deref; cbn -[restore_loop];
    rewrite lookup_insert_eq; reflexivity]. done.
Qed.

(** C33. [execve] and the descriptors.  The process saves every open descriptor, with
    paths shorter than PATH_MAX and no snapshot of the thread left over, and
    the library of the new image then reads the snapshot, in the same thread.  If the object with the
    numbers is mapped elsewhere than the path was, the path is read from a page
    that is unmapped.  If it takes its place, as it does when the kernel gives out
    the same hole, the new image has exactly the same descriptors, each with its
    offset, size, flags and close-on-exec flag, the ones to close included; no two
    share an offset any more; every path is lost: it is the bytes of the
    descriptor; and the snapshot is removed from shared memory. *)
Theorem snapshot_roundtrip (tid : Z) (cwd : string) (t : Filesystem) (m : Shm) :
  files t <> ∅ -> (forall fd, is_Some (files t !! fd) -> savable t fd) ->
  (forall fd, objects m !! snapshot_fd_name tid fd = None /\ objects m !! snapshot_path_name tid fd = None) ->
  objects m !! snapshot_name tid = None ->
  exists m1, create_snapshot tid {| sn_tables := t; sn_shm := m |} = Done (tt, {| sn_tables := t; sn_shm := m1 |})
  /\ restore false tid {| sn_tables := init_filesystem cwd; sn_shm := m1 |} = UB "access to an unmapped page"
  /\ exists t2 m2, restore true tid {| sn_tables := init_filesystem cwd; sn_shm := m1 |}
       = Done (tt, {| sn_tables := t2; sn_shm := m2 |})
     /\ fs_wf t2 /\ objects m2 = objects m
     /\ (forall fd, fd_view t2 fd = (fun '(o, size, flags, c, _) => (o, size, flags, c, fd_chars fd)) <$> fd_view t fd)
     /\ (forall fd fd' f f', files t2 !! fd = Some f -> files t2 !! fd' = Some f' -> cp_offset f = cp_offset f' -> fd = fd').
Proof.
  intros Hne Hsv Hfree Hfree'. destruct (create_snapshot_ok tid t m Hne Hsv) as (ob & E & Hs & Hname & Hrest).
  exists (set_objects ob m). split; [done|].
  assert (Hsv' : Forall (savable t) (open_fds t)) by (apply Forall_forall; intros fd Hin; by apply Hsv, open_fds_in).
  split.
  { destruct (restore_start false tid (init_filesystem cwd) (set_objects ob m) _ Hname) as (m' & Ho & ->).
    destruct (open_fds t) as [|fd fds] eqn:El.
    - by apply open_fds_nil in El.
    - destruct (Hs fd) as (o & size & flags & c & p & _ & Hl & Hp); [set_solver|].
      apply Forall_cons in Hsv' as [[Hr _] _]. simpl. rewrite (proj2 (Z.eqb_neq fd (-1))) by lia.
      unfold bind. by rewrite (restore_fd_elsewhere tid fd _ m' o size flags c p) by by rewrite Ho. }
  destruct (restore_start true tid (init_filesystem cwd) (set_objects ob m) _ Hname) as (m' & Ho & ->).
  destruct (restore_loop_ok tid t (open_fds t) (init_filesystem cwd) m') as (t2 & m2 & E2 & [Rwf _ _ Rold Rnew Rapart] & Hob);
    [apply NoDup_fst_map_to_list|done|by rewrite Ho|apply fs_wf_init|done|].
  assert (Hname2 : objects m2 !! snapshot_name tid = Some (Ints (open_fds t ++ [-1])))
    by (rewrite Hob, decide_False by apply snapshot_name_other; by rewrite Ho).
  exists t2, (set_objects (delete (snapshot_name tid) (objects m2)) m2). split_and!.
  - unfold bind. rewrite E2. cbn [outcome_bind]. unfold in_shm, zoom. cbn [sn_shm].
    by rewrite (shm_unlink_eq _ _ _ Hname2).
  - done.
  - simpl. apply map_eq. intros name. destruct (decide (name = snapshot_name tid)) as [->|N]; [by rewrite lookup_delete_eq|].
    rewrite lookup_delete_ne, Hob, Ho by done. simpl. case_decide as Hi; [|by apply Hrest].
    apply in_snapshot_names in Hi as (fd & _ & [->| ->]); destruct (Hfree fd) as [H1 H2]; [by rewrite H1|by rewrite H2].
  - intros fd. destruct (decide (fd ∈ open_fds t)) as [Hi|Hi].
    + destruct (Rnew fd Hi) as (o & size & flags & c & p & f & -> & -> & _). done.
    + unfold fd_view. destruct (Rold fd Hi) as [-> _]. rewrite open_fds_in in Hi. simpl. rewrite lookup_empty.
      apply eq_None_not_Some in Hi. by rewrite Hi.
  - intros fd fd' f f' Hf Hf'. assert (Hin : forall x g, files t2 !! x = Some g -> x ∈ open_fds t).
    { intros x g Hx. destruct (decide (x ∈ open_fds t)) as [|Hi]; [done|]. destruct (Rold x Hi) as [Ho' _].
      rewrite Ho' in Hx. simpl in Hx. by rewrite lookup_empty in Hx. }
    apply (Rapart fd fd'); [by eapply Hin|by eapply Hin|done..].
Qed.

Definition no_shm : Shm := {| objects := ∅; maps := ∅; hole := None; next_map := 1 |}.

Lemma snapshot_roundtrip_witness :
  exists m1 t2 m2, create_snapshot 77 {| sn_tables := demo_fs; sn_shm := no_shm |} = Done (tt, {| sn_tables := demo_fs; sn_shm := m1 |})
    /\ restore true 77 {| sn_tables := init_filesystem "/"; sn_shm := m1 |} = Done (tt, {| sn_tables := t2; sn_shm := m2 |})
    /\ objects m2 = ∅ /\ fd_view t2 3 = Some (0, 0, 0, false, String "003" "").
Proof.
  destruct (snapshot_roundtrip 77 "/" demo_fs no_shm) as (m1 & E & _ & t2 & m2 & E2 & _ & Ho & Hv & _).
  - discriminate.
  - intros fd Hfd. assert (Hc : fd = 3 \/ fd = 4).
    { destruct Hfd as [f Hf]. apply elem_of_map_to_list in Hf. vm_compute in Hf.
      repeat (apply elem_of_cons in Hf as [Hf|Hf]; [injection Hf as -> _; auto|]). by apply elem_of_nil in Hf. }
    split; [lia|]. destruct Hc as [->| ->]; eexists _, _, _, _, _; (split; [vm_compute; reflexivity|]); by split.
  - intros fd. split; apply lookup_empty.
  - apply lookup_empty.
  - exists m1, t2, m2. split; [exact E|]. split; [exact E2|]. split; [exact Ho|]. rewrite Hv. vm_compute. reflexivity.
Defined.
