(* ===== verification/PosixHook.v ===== *)
(** * The interception of system calls

    [posix/libcapio_posix.cpp] and the handlers it dispatches to: the table from
    system call numbers to handlers, [hook], and what each handler makes of the six
    registers, the memory of the process and [errno].  The numbers are those of
    x86-64.  A handler returns 0 and a result when CAPIO has done the call, and
    anything else to leave it to the kernel. *)
From S2P Require Import Prelude Text Memory Queue Server StorageManager Requests PosixPath PosixFs PosixCache PosixCacheProps PosixCalls PosixStat PosixCopy PosixFcntl PosixProcess.

Record args : Type := { a0 : Z; a1 : Z; a2 : Z; a3 : Z; a4 : Z; a5 : Z }.

(** What the process has in its memory, by address: C strings, bytes, structures.
    The words are in [user]. *)
Record UserMemory : Type := {
  strings : gmap Z string;
  bytes : gmap Z cell;
  stats : gmap Z stat;
  statxs : gmap Z statx
}.

(** What the kernel answers to the calls the handlers make, and the environment. *)
Class System : Type := {
  sys_fcntl : Z -> Z -> Z -> Z;
  sys_dup2 : Z -> Z -> Z;
  sys_dup3 : Z -> Z -> Z -> Z;
  open_null : Z;
  sys_statfs : Z;
  sys_fork : Z;
  getpid : Z;
  capio_app_name : string;
  env_capio_dir : option string
}.

Record Proc (P K : Type) : Type := {
  pc_copy : CopyState P K;
  pc_hints : gmap string Z;
  pc_flocks : gmap Z flock;
  pc_memory : UserMemory;
  pc_shm : Shm;
  pc_errno : Z;
  syscall_no_intercept_flag : bool
}.
Arguments pc_copy {P K}. Arguments pc_hints {P K}. Arguments pc_flocks {P K}. Arguments pc_memory {P K}.
Arguments pc_shm {P K}. Arguments pc_errno {P K}. Arguments syscall_no_intercept_flag {P K}.

Section Hook.
Context {P K : Type} `{Peer P} `{Thread} `{KernelFiles K} `{Kernel} `{Process} `{System} `{FilesystemCopy P}.
Notation State := (Proc P K).

Definition set_copy c (s : State) : State := {|
  pc_copy := c; pc_hints := pc_hints s; pc_flocks := pc_flocks s; pc_memory := pc_memory s; pc_shm := pc_shm s;
  pc_errno := pc_errno s; syscall_no_intercept_flag := syscall_no_intercept_flag s |}.
Definition set_memory m (s : State) : State := {|
  pc_copy := pc_copy s; pc_hints := pc_hints s; pc_flocks := pc_flocks s; pc_memory := m; pc_shm := pc_shm s;
  pc_errno := pc_errno s; syscall_no_intercept_flag := syscall_no_intercept_flag s |}.
Definition set_errno e (s : State) : State := {|
  pc_copy := pc_copy s; pc_hints := pc_hints s; pc_flocks := pc_flocks s; pc_memory := pc_memory s; pc_shm := pc_shm s;
  pc_errno := e; syscall_no_intercept_flag := syscall_no_intercept_flag s |}.
Definition cl {A} (m : M (Client P) A) : M State A := zoom pc_copy set_copy (on_client m).

(** The state [fcntl] works on, and the one of the snapshots. *)
Definition fcntl_part (s : State) : FcntlState P := {|
  fc_client := client (pc_copy s); rw_hints := pc_hints s; flocks := pc_flocks s; words := user (pc_copy s) |}.
Definition set_fcntl_part (f : FcntlState P) (s : State) : State := {|
  pc_copy := {| client := fc_client f; kernel_files := kernel_files (pc_copy s); user := words f |};
  pc_hints := rw_hints f; pc_flocks := flocks f; pc_memory := pc_memory s; pc_shm := pc_shm s;
  pc_errno := pc_errno s; syscall_no_intercept_flag := syscall_no_intercept_flag s |}.
Definition snap_part (s : State) : SnapState := {| sn_tables := tables (client (pc_copy s)); sn_shm := pc_shm s |}.
Definition set_snap_part (n : SnapState) (s : State) : State := {|
  pc_copy := set_client (set_tables (sn_tables n) (client (pc_copy s))) (pc_copy s); pc_hints := pc_hints s;
  pc_flocks := pc_flocks s; pc_memory := pc_memory s; pc_shm := sn_shm n;
  pc_errno := pc_errno s; syscall_no_intercept_flag := syscall_no_intercept_flag s |}.

(** ** Arguments and results *)

Definition CPHandler : Type := args -> M State (Z * option Z).

(** The C string at an address. *)
Definition c_string (a : Z) : M State string := fun s => or_ub (strings (pc_memory s) !! a) "bad address" s.
Definition load_bytes (a : Z) (n : nat) : M State (list cell) := fun s =>
  or_ub (mapM (fun i => bytes (pc_memory s) !! (a + Z.of_nat i)) (seq 0 n)) "bad address" s.
Definition store_bytes (a : Z) (d : list cell) : M State unit :=
  modify (fun s => set_memory {| strings := strings (pc_memory s); stats := stats (pc_memory s); statxs := statxs (pc_memory s);
    bytes := list_to_map (imap (fun i b => (a + Z.of_nat i, b)) d) ∪ bytes (pc_memory s) |} s).
Definition store_string (a : Z) (v : string) : M State unit :=
  modify (fun s => set_memory {| strings := <[a := v]> (strings (pc_memory s)); stats := stats (pc_memory s);
    statxs := statxs (pc_memory s); bytes := bytes (pc_memory s) |} s).
Definition store_stat (a : Z) (v : option stat) : M State unit :=
  match v with
  | None => ret tt
  | Some v => modify (fun s => set_memory {| strings := strings (pc_memory s); stats := <[a := v]> (stats (pc_memory s));
      statxs := statxs (pc_memory s); bytes := bytes (pc_memory s) |} s)
  end.
Definition store_statx (a : Z) (v : option statx) : M State unit :=
  match v with
  | None => ret tt
  | Some v => modify (fun s => set_memory {| strings := strings (pc_memory s); stats := stats (pc_memory s);
      statxs := <[a := v]> (statxs (pc_memory s)); bytes := bytes (pc_memory s) |} s)
  end.
(** [iov[0]], ..., [iov[n-1]]: base and length. *)
Definition load_iov (a : Z) (n : nat) : M State (list (Z * Z)) := fun s =>
  or_ub (mapM (fun i => base ← user (pc_copy s) !! (a + 16 * Z.of_nat i);
                        len ← user (pc_copy s) !! (a + 16 * Z.of_nat i + 8); Some (base, u64 len)) (seq 0 n)) "bad address" s.

(** [posix_return_value], with the [errno] the call has set. *)
Definition finish (a : answer) : M State (Z * option Z) :=
  let* s := get in
  (match a with Err e => modify (set_errno e) | _ => ret tt end) ;;
  ret (posix_return_value (pc_errno s) a).
Definition answer_of (m : M (Client P) answer) : M State (Z * option Z) := let* a := cl m in finish a.
(** [errno] is also set to the error the handler has put in [*result]. *)
Definition with_errno (m : M State (Z * option Z)) : M State (Z * option Z) :=
  let* r := m in
  (match r with (0, Some v) => modify (set_errno (- v)) | _ => ret tt end) ;;
  ret r.

(** ** Handlers on descriptors *)

Definition close_handler : CPHandler := fun a => answer_of (PosixCache.close_handler (s32 (a0 a))).
Definition dup_handler : CPHandler := fun a =>
  let* s := get in answer_of (PosixCache.dup_handler (s32 (a0 a)) open_null (pc_errno s)).
Definition dup2_handler : CPHandler := fun a =>
  let* s := get in
  answer_of (PosixCache.dup2_handler (s32 (a0 a)) (s32 (sys_dup2 (s32 (a0 a)) (s32 (a1 a)))) (pc_errno s)).
Definition dup3_handler : CPHandler := fun a =>
  let* s := get in
  answer_of (PosixCache.dup3_handler (s32 (a0 a)) (s32 (a1 a)) (s32 (a2 a))
    (s32 (sys_dup3 (s32 (a0 a)) (s32 (a1 a)) (s32 (a2 a)))) (pc_errno s)).
Definition lseek_handler : CPHandler := fun a => answer_of (capio_lseek (s32 (a0 a)) (a1 a) (s32 (a2 a))).
Definition read_handler : CPHandler := fun a =>
  let* (r, d) := cl (capio_read (s32 (a0 a)) (a2 a)) in store_bytes (a1 a) d ;; finish r.

(** The vectors are looked at only for a descriptor of CAPIO. *)
Fixpoint store_vectors (iov : list (Z * Z)) (d : list (list cell)) : M State unit :=
  match iov, d with
  | (base, _) :: iov', b :: d' => store_bytes base b ;; store_vectors iov' d'
  | _, _ => ret tt
  end.
Definition readv_handler : CPHandler := fun a =>
  let fd := s32 (a0 a) in
  let* ex := cl (on_tables (exists_capio_fd fd)) in
  if negb ex then finish Skip
  else
    let* iov := load_iov (a1 a) (Z.to_nat (s32 (a2 a))) in
    let* (r, d) := cl (capio_readv fd ((fun '(_, len) => s64 len) <$> iov)) in
    store_vectors iov d ;; finish r.

(** [capio_write] with a negative count: [_write] stores nothing, the offset moves
    back. *)
Definition capio_write_negative (fd count : Z) : M (Client P) answer :=
  let* b := ReadCache_cachesFileOf fd in
  when b ReadCache_flush ;;
  let* s := get in
  when (negb (wc_fd (write_cache s) =? fd)) (
    WriteCache_flush ;;
    modify (fun s => set_write_cache {| wc_cache := wc_cache (write_cache s); wc_fd := fd;
                                        wc_actual_size := wc_actual_size (write_cache s) |} s)) ;;
  let* offset := on_tables (get_capio_fd_offset fd) in
  on_tables (set_capio_fd_offset fd (offset + count)) ;;
  ret (Ret count).
Definition write_handler : CPHandler := fun a =>
  let fd := s32 (a0 a) in
  let count := a2 a in
  let* ex := cl (on_tables (exists_capio_fd fd)) in
  if negb ex then finish Skip
  else if count <? 0 then answer_of (capio_write_negative fd count)
  else let* d := load_bytes (a1 a) (Z.to_nat count) in answer_of (capio_write fd d).
(** The lengths are below 2^63. *)
Fixpoint load_vectors (iov : list (Z * Z)) : M State (list (list cell)) :=
  match iov with
  | [] => ret []
  | (base, len) :: iov' => let* d := load_bytes base (Z.to_nat len) in let* ds := load_vectors iov' in ret (d :: ds)
  end.
Definition writev_handler : CPHandler := fun a =>
  let fd := s32 (a0 a) in
  let* ex := cl (on_tables (exists_capio_fd fd)) in
  if negb ex then finish Skip
  else
    let* iov := load_iov (a1 a) (Z.to_nat (s32 (a2 a))) in
    let* d := load_vectors iov in
    answer_of (capio_writev fd d).
Definition getdents_of (is64bit : bool) : CPHandler := fun a =>
  let* (r, d) := cl (getdents_handler_impl (s32 (a0 a)) (a2 a) is64bit) in
  store_bytes (a1 a) d ;;
  match r with Ret v => ret (0, Some v) | _ => ret (CAPIO_POSIX_SYSCALL_SKIP, None) end.
Definition getdents_handler : CPHandler := getdents_of false.
Definition getdents64_handler : CPHandler := getdents_of true.
Definition fchmod_handler : CPHandler := fun a => cl (PosixStat.fchmod_handler (a0 a)).
Definition fchown_handler : CPHandler := fun a => cl (PosixStat.fchown_handler (a0 a)).
Definition ioctl_handler : CPHandler := fun a => with_errno (cl (PosixStat.ioctl_handler (a0 a))).
Definition fstatfs_handler : CPHandler := fun a => cl (PosixStat.fstatfs_handler (a0 a) sys_statfs).
Definition fgetxattr_handler : CPHandler := fun a =>
  let* name := c_string (a1 a) in with_errno (cl (PosixStat.fgetxattr_handler (a0 a) name)).
Definition splice_handler : CPHandler := fun a => cl (PosixStat.splice_handler (a0 a) (a2 a)).
Definition sendfile_handler : CPHandler := fun a => cl (PosixStat.sendfile_handler (a0 a) (a1 a)).
Definition fcntl_handler : CPHandler := fun a =>
  zoom fcntl_part set_fcntl_part (PosixFcntl.fcntl_handler sys_fcntl (a0 a) (a1 a) (a2 a)).
Definition pointer (p : Z) : option Z := if p =? 0 then None else Some p.
Definition copy_file_range_handler : CPHandler := fun a =>
  let* r := zoom pc_copy set_copy (capio_copy_file_range (s32 (a0 a)) (pointer (a1 a)) (s32 (a2 a)) (pointer (a3 a))
              (u64 (a4 a)) (u32 (a5 a))) in
  finish r.
Definition fstat_handler : CPHandler := fun a =>
  let* (r, st) := cl (capio_fstat (s32 (a0 a))) in store_stat (a1 a) st ;; finish r.

(** ** Handlers on paths *)

Section Paths.
Variable capio_dir : string.

Definition O_TRUNC : Z := 512.
Definition at_cwd (call : Z -> string -> M (Client P) answer) : CPHandler := fun a =>
  let* pathname := c_string (a0 a) in answer_of (call AT_FDCWD pathname).
Definition at_dirfd (call : Z -> string -> M (Client P) answer) : CPHandler := fun a =>
  let* pathname := c_string (a1 a) in answer_of (call (s32 (a0 a)) pathname).

Definition access_handler : CPHandler := at_cwd (capio_faccessat capio_dir).
Definition faccessat_handler : CPHandler := at_dirfd (capio_faccessat capio_dir).
Definition creat_handler : CPHandler :=
  at_cwd (fun dirfd p => capio_openat capio_dir dirfd p (Z.lor (Z.lor O_CREAT O_WRONLY) O_TRUNC) open_null).
Definition open_handler : CPHandler := fun a =>
  at_cwd (fun dirfd p => capio_openat capio_dir dirfd p (s32 (a1 a)) open_null) a.
Definition openat_handler : CPHandler := fun a =>
  at_dirfd (fun dirfd p => capio_openat capio_dir dirfd p (s32 (a2 a)) open_null) a.
Definition mkdir_handler : CPHandler := fun a =>
  let* s := get in at_cwd (fun dirfd p => capio_mkdirat capio_dir dirfd p (pc_errno s)) a.
Definition mkdirat_handler : CPHandler := fun a =>
  let* s := get in at_dirfd (fun dirfd p => capio_mkdirat capio_dir dirfd p (pc_errno s)) a.
Definition rmdir_handler : CPHandler := at_cwd (fun _ p => capio_rmdir capio_dir p).
Definition unlink_handler : CPHandler := at_cwd (fun dirfd p => capio_unlinkat capio_dir dirfd p 0).
Definition unlinkat_handler : CPHandler := fun a =>
  at_dirfd (fun dirfd p => capio_unlinkat capio_dir dirfd p (s32 (a2 a))) a.
Definition lstat_handler : CPHandler := fun a =>
  let* pathname := c_string (a0 a) in
  let* (r, st) := cl (capio_lstat_wrapper capio_dir pathname) in store_stat (a1 a) st ;; finish r.
Definition stat_handler : CPHandler := lstat_handler.
Definition fstatat_handler : CPHandler := fun a =>
  let* pathname := c_string (a1 a) in
  let* (r, st) := cl (capio_fstatat capio_dir (s32 (a0 a)) pathname (s32 (a3 a))) in store_stat (a2 a) st ;; finish r.
Definition statx_handler : CPHandler := fun a =>
  let* pathname := c_string (a1 a) in
  let* (r, st) := cl (capio_statx capio_dir (s32 (a0 a)) pathname (s32 (a2 a)) (s32 (a3 a))) in
  store_statx (a4 a) st ;; finish r.
(** A success clears [errno]. *)
Definition chdir_handler : CPHandler := fun a =>
  let* pathname := c_string (a0 a) in
  let* s := get in
  let* r := cl (PosixCalls.chdir_handler capio_dir pathname (pc_errno s)) in
  (match r with Ret _ => modify (set_errno 0) | _ => ret tt end) ;;
  finish r.
Definition getcwd_handler : CPHandler := fun a =>
  let* (r, cwd) := cl (PosixCalls.getcwd_handler capio_dir (u64 (a1 a))) in
  match r with
  | Ret v => store_string (a0 a) cwd ;; ret (0, Some v)
  | Err e => ret (0, Some (- e))
  | Skip => ret (CAPIO_POSIX_SYSCALL_SKIP, None)
  end.
(** [get_dir_path] comes before the string in the source; neither changes anything. *)
Definition renameat2_handler : CPHandler := fun a =>
  let* old_path := c_string (a1 a) in
  let* new_path := c_string (a3 a) in
  let* s := get in
  let* r := cl (PosixCalls.renameat2_handler capio_dir (s32 (a0 a)) old_path (s32 (a2 a)) new_path (pc_errno s)) in
  finish r.
Definition rename_handler : CPHandler := fun a =>
  renameat2_handler {| a0 := AT_FDCWD; a1 := a0 a; a2 := AT_FDCWD; a3 := a1 a; a4 := 0; a5 := 0 |}.
Definition renameat_handler : CPHandler := fun a =>
  renameat2_handler {| a0 := a0 a; a1 := a1 a; a2 := a2 a; a3 := a3 a; a4 := 0; a5 := a5 a |}.

(** ** Handlers on processes *)

Definition fork_handler : CPHandler := fun _ => cl (PosixProcess.fork_handler getpid capio_app_name sys_fork).
Definition exit_handler : CPHandler := fun _ => cl PosixProcess.exit_handler.
Definition execve_handler : CPHandler := fun _ => zoom snap_part set_snap_part PosixProcess.execve_handler.

(** ** The table *)

Definition ENOTSUP : Z := 95.
Definition not_handled_handler : CPHandler := fun _ => ret (1, None).
Definition not_implemented_handler : CPHandler := fun _ => modify (set_errno ENOTSUP) ;; ret (0, Some (- ENOTSUP)).

(** Each [SYS_] of x86-64 with its handler, in the order of the source. *)
Definition captured : list (Z * CPHandler) := [
  (21, access_handler); (80, chdir_handler); (90, fchmod_handler); (91, fchmod_handler); (268, fchmod_handler);
  (92, fchown_handler); (93, fchown_handler); (260, fchown_handler); (3, close_handler); (326, copy_file_range_handler);
  (85, creat_handler); (32, dup_handler); (33, dup2_handler); (292, dup3_handler); (59, execve_handler); (60, exit_handler);
  (231, exit_handler); (269, faccessat_handler); (439, faccessat_handler); (72, fcntl_handler); (193, fgetxattr_handler);
  (196, not_implemented_handler); (57, fork_handler); (5, fstat_handler); (138, fstatfs_handler); (79, getcwd_handler);
  (78, getdents_handler); (217, getdents64_handler); (191, not_implemented_handler); (16, ioctl_handler);
  (192, not_implemented_handler); (8, lseek_handler); (6, lstat_handler); (83, mkdir_handler); (258, mkdirat_handler);
  (262, fstatat_handler); (2, open_handler); (257, openat_handler); (0, read_handler); (19, readv_handler);
  (82, rename_handler); (264, renameat_handler); (316, renameat2_handler); (84, rmdir_handler); (40, sendfile_handler);
  (275, splice_handler); (4, stat_handler); (332, statx_handler); (87, unlink_handler); (263, unlinkat_handler);
  (1, write_handler); (20, writev_handler)].
(** The numbers the size of the table is computed from: [fchmod], [fchmodat],
    [fchown], [fchownat], [renameat] and [renameat2] are not among them. *)
Definition sized : list Z := [
  21; 80; 90; 92; 3; 326; 85; 32; 33; 292; 59; 60; 231; 269; 439; 72; 193; 196; 57; 5; 138; 79; 78; 217; 191; 16; 192; 8; 6;
  83; 258; 262; 2; 257; 0; 19; 82; 84; 40; 275; 4; 332; 87; 263; 1; 20].
Definition CAPIO_NR_SYSCALLS : Z := 1 + foldr Z.max 0 sized.

(** The loop that fills the table, then the assignments. *)
Definition build_syscall_table : list CPHandler :=
  foldl (fun t '(n, h) => <[Z.to_nat n := h]> t) (replicate (Z.to_nat CAPIO_NR_SYSCALLS) not_handled_handler) captured.
End Paths.

Definition SYS_futex : Z := 202.

(** [CAPIO_DIR] is looked at for its presence; an exception ends the process, and
    [operator[]] of the table does not check its argument. *)
Definition hook (capio_dir : string) (syscall_number : Z) (a : args) : M State (Z * option Z) :=
  if syscall_number =? SYS_futex then ret (1, None)
  else
    let* s := get in
    if syscall_no_intercept_flag s then ret (1, None)
    else if CAPIO_NR_SYSCALLS <=? syscall_number then ret (1, None)
    else match env_capio_dir with
         | None => ret (1, None)
         | Some _ =>
             if syscall_number <? 0 then undefined "index out of the table"
             else
               let* h := or_ub (build_syscall_table capio_dir !! Z.to_nat syscall_number) "index out of the table" in
               fun s => match h a s with Throw _ => Exit "FATAL EXCEPTION" | o => o end
         end.
(** The constructor of the library: [cwd] is the working directory of the process,
    [reuse] where [mmap] places a mapping. *)
Definition init (reuse : bool) (cwd : string) : M State unit :=
  cl (on_tables (put (init_filesystem cwd))) ;;
  cl (initialize_new_thread getpid capio_app_name false) ;;
  zoom snap_part set_snap_part (restore reuse tid).
End Hook.
