(* ===== verification/PosixHookProps.v ===== *)
(** * The interception is right

    Every handler of the table of [libcapio_posix.cpp] is reached by its own system
    call and by no other; and calls that have nothing to do with CAPIO are left to
    the kernel, with nothing changed in the process. *)
From S2P Require Import Prelude Text Memory Queue Server StorageManager Requests PosixPath PosixFs PosixCache PosixCacheProps PosixCalls PosixStat PosixCopy PosixCopyProps PosixFcntl PosixProcess PosixHook.

(** ** The table *)

(** Assignments to different places of an array. *)
Lemma assign_all {A} (l : list (Z * A)) (t : list A) (n : Z) :
  NoDup l.*1 -> (forall k, k ∈ l.*1 -> 0 <= k < Z.of_nat (length t)) -> 0 <= n ->
  foldl (fun t '(k, h) => <[Z.to_nat k := h]> t) t l !! Z.to_nat n
  = match (list_to_map l : gmap Z A) !! n with Some h => Some h | None => t !! Z.to_nat n end.
Proof.
  revert t. induction l as [|[k h] l IH]; intros t Hnd Hk Hn; simpl; [by rewrite lookup_empty|].
  simpl in Hnd. apply NoDup_cons in Hnd as [Hnot Hnd].
  assert (Hkr : 0 <= k < Z.of_nat (length t)) by (apply Hk; simpl; set_solver).
  rewrite IH; [|done|intros k' Hk'; rewrite length_insert; apply Hk; simpl; set_solver|done].
  destruct (decide (n = k)) as [->|Hne].
  - rewrite lookup_insert_eq. rewrite (not_elem_of_list_to_map_1 l k Hnot). apply list_lookup_insert_eq. lia.
  - rewrite lookup_insert_ne by done. destruct (list_to_map l !! n); [done|]. apply list_lookup_insert_ne. lia.
Qed.

(** The handler that the system call of number [n] of x86-64 should reach, by the
    name of the call. *)
Definition handler_of {P K} `{Peer P} `{Thread} `{KernelFiles K} `{Kernel} `{Process} `{System} `{FilesystemCopy P} (capio_dir : string) (n : Z)
  : option (CPHandler (P := P) (K := K)) :=
  match n with
  | 0 => Some read_handler | 1 => Some write_handler | 2 => Some (open_handler capio_dir) | 3 => Some close_handler
  | 4 => Some (stat_handler capio_dir) | 5 => Some fstat_handler | 6 => Some (lstat_handler capio_dir) | 8 => Some lseek_handler
  | 16 => Some ioctl_handler | 19 => Some readv_handler | 20 => Some writev_handler | 21 => Some (access_handler capio_dir)
  | 32 => Some dup_handler | 33 => Some dup2_handler | 292 => Some dup3_handler | 40 => Some sendfile_handler
  | 57 => Some fork_handler | 59 => Some execve_handler | 60 | 231 => Some exit_handler | 72 => Some fcntl_handler
  | 78 => Some getdents_handler | 217 => Some getdents64_handler | 79 => Some (getcwd_handler capio_dir)
  | 80 => Some (chdir_handler capio_dir) | 82 => Some (rename_handler capio_dir) | 264 => Some (renameat_handler capio_dir)
  | 316 => Some (renameat2_handler capio_dir) | 83 => Some (mkdir_handler capio_dir) | 258 => Some (mkdirat_handler capio_dir)
  | 84 => Some (rmdir_handler capio_dir) | 85 => Some (creat_handler capio_dir) | 87 => Some (unlink_handler capio_dir)
  | 263 => Some (unlinkat_handler capio_dir) | 90 | 91 | 268 => Some fchmod_handler | 92 | 93 | 260 => Some fchown_handler
  | 138 => Some fstatfs_handler | 191 | 192 | 196 => Some not_implemented_handler | 193 => Some fgetxattr_handler
  | 257 => Some (openat_handler capio_dir) | 262 => Some (fstatat_handler capio_dir)
  | 269 | 439 => Some (faccessat_handler capio_dir) | 275 => Some splice_handler | 326 => Some copy_file_range_handler
  | 332 => Some (statx_handler capio_dir)
  | _ => None
  end.

Section Table.
Context {P K : Type} `{Peer P} `{Thread} `{KernelFiles K} `{Kernel} `{Process} `{System} `{FilesystemCopy P} (capio_dir : string).

Lemma captured_numbers : (captured (K := K) capio_dir).*1 = [
  21; 80; 90; 91; 268; 92; 93; 260; 3; 326; 85; 32; 33; 292; 59; 60; 231; 269; 439; 72; 193; 196; 57; 5; 138; 79;
  78; 217; 191; 16; 192; 8; 6; 83; 258; 262; 2; 257; 0; 19; 82; 264; 316; 84; 40; 275; 4; 332; 87; 263; 1; 20].
Proof. reflexivity. Qed.

Lemma captured_apart : NoDup (captured (K := K) capio_dir).*1.
Proof. rewrite captured_numbers. apply (bool_decide_unpack _). vm_compute. exact I. Qed.

(** The assignments of the source are those. *)
Lemma assigned n : (list_to_map (captured (P := P) (K := K) capio_dir) : gmap Z CPHandler) !! n = handler_of capio_dir n.
Proof.
  assert (Hin : Forall (fun p : Z * CPHandler => handler_of capio_dir p.1 = Some p.2) (captured (P := P) (K := K) capio_dir)).
  { repeat (apply Forall_cons_2; [reflexivity|]). apply Forall_nil_2. }
  destruct (list_to_map (captured capio_dir) !! n) as [h|] eqn:E.
  - apply elem_of_list_to_map in E; [|exact captured_apart]. rewrite Forall_forall in Hin. symmetry. exact (Hin _ E).
  - apply not_elem_of_list_to_map_2 in E. rewrite captured_numbers in E.
    assert (Hout : handler_of (P := P) (K := K) capio_dir n = None \/ bool_decide (n ∈ [
      21; 80; 90; 91; 268; 92; 93; 260; 3; 326; 85; 32; 33; 292; 59; 60; 231; 269; 439; 72; 193; 196; 57; 5; 138; 79;
      78; 217; 191; 16; 192; 8; 6; 83; 258; 262; 2; 257; 0; 19; 82; 264; 316; 84; 40; 275; 4; 332; 87; 263; 1; 20]) = true).
    { unfold handler_of. repeat case_match; subst; first [by left|right; vm_compute; reflexivity]. }
    destruct Hout as [->|Hout]; [done|]. by apply bool_decide_eq_true_1 in Hout.
Qed.

Lemma captured_fits k : k ∈ (captured (K := K) capio_dir).*1 -> 0 <= k < CAPIO_NR_SYSCALLS.
Proof.
  rewrite captured_numbers. intros Hk. change CAPIO_NR_SYSCALLS with 440.
  refine (proj1 (Forall_forall (fun k => 0 <= k < 440) _) _ k Hk). clear Hk. repeat constructor; lia.
Qed.

Lemma table_lookup n : 0 <= n < CAPIO_NR_SYSCALLS ->
  build_syscall_table (K := K) capio_dir !! Z.to_nat n
  = Some (default not_handled_handler (handler_of capio_dir n)).
Proof.
  intros Hn. unfold build_syscall_table. rewrite assign_all; [|exact captured_apart| |lia].
  - rewrite assigned. destruct (handler_of capio_dir n); [reflexivity|]. apply lookup_replicate_2. lia.
  - intros k Hk. rewrite length_replicate. pose proof (captured_fits k Hk). lia.
Qed.

(** What the hook does with the call of number [n] once it intercepts. *)
Lemma hook_eq n (a : args) (s : Proc P K) :
  0 <= n -> n <> SYS_futex -> syscall_no_intercept_flag s = false -> is_Some env_capio_dir ->
  hook capio_dir n a s
  = match handler_of capio_dir n with
    | Some h => match h a s with Throw _ => Exit "FATAL EXCEPTION" | o => o end
    | None => Done ((1, None), s)
    end.
Proof.
  intros Hn Hf Hflag [d Hd]. unfold hook. rewrite (proj2 (Z.eqb_neq n SYS_futex)) by done.
  unfold bind at 1, get. cbn [outcome_bind]. rewrite Hflag, Hd. destruct (Z.leb_spec CAPIO_NR_SYSCALLS n) as [Hbig|Hsmall].
  - destruct (handler_of capio_dir n) as [h|] eqn:E; [|done].
    rewrite <- assigned in E. apply elem_of_list_to_map in E; [|exact captured_apart].
    assert (Hin : n ∈ (captured capio_dir).*1) by (apply list_elem_of_fmap; by exists (n, h)).
    pose proof (captured_fits n Hin). lia.
  - rewrite (proj2 (Z.ltb_ge n 0)) by lia. rewrite table_lookup by lia. cbn.
    by destruct (handler_of capio_dir n).
Qed.
End Table.

(** C20. The table dispatches every system call to its handler.  When the interception
    is on, the call of number [n] runs the handler of the system call that has this number on
    x86-64 (the one of [fchmod] also for [chmod] and [fchmodat], of [fchown] for [chown] and [fchownat],
    one handler for [exit] and [exit_group], the refusal for [getxattr], [lgetxattr] and
    [flistxattr]), and
    the numbers with no handler, however large, go to the kernel: the size of the
    table, computed from some of the numbers only, has room for all, and no
    assignment overwrites another.  [futex], a thread that turned the interception
    off and a process without CAPIO_DIR are left to the kernel; an exception of a
    handler ends the process; a negative number indexes before the table. *)
Theorem hook_dispatches {P K} `{Peer P} `{Thread} `{KernelFiles K} `{Kernel} `{Process} `{System} `{FilesystemCopy P}
    (capio_dir : string) (n : Z) (a : args) (s : Proc P K) :
  let intercepted := negb (n =? SYS_futex) && negb (syscall_no_intercept_flag s) && bool_decide (is_Some env_capio_dir) in
  hook capio_dir n a s
  = if negb intercepted then Done ((1, None), s)
    else if n <? 0 then UB "index out of the table"
    else match handler_of capio_dir n with
         | Some h => match h a s with Throw _ => Exit "FATAL EXCEPTION" | o => o end
         | None => Done ((1, None), s)
         end.
Proof.
  intros intercepted. unfold intercepted. destruct (Z.eqb_spec n SYS_futex) as [->|Hf]; [done|]. cbn [negb andb].
  destruct (syscall_no_intercept_flag s) eqn:Hflag.
  { unfold hook. rewrite (proj2 (Z.eqb_neq n SYS_futex)) by done. unfold bind at 1, get. cbn [outcome_bind]. by rewrite Hflag. }
  cbn [negb andb]. destruct (bool_decide_reflect (is_Some env_capio_dir)) as [Hd|Hd]; cbn [negb].
  - destruct (Z.ltb_spec n 0) as [Hneg|Hpos]; [|by apply hook_eq].
    destruct Hd as [d Hd]. unfold hook. rewrite (proj2 (Z.eqb_neq n SYS_futex)) by done. unfold bind at 1, get.
    cbn [outcome_bind]. rewrite Hflag, Hd, (proj2 (Z.leb_gt _ n)) by (change CAPIO_NR_SYSCALLS with 440; lia).
    by rewrite (proj2 (Z.ltb_lt n 0)).
  - unfold hook. rewrite (proj2 (Z.eqb_neq n SYS_futex)) by done. unfold bind at 1, get. cbn [outcome_bind].
    rewrite Hflag. destruct (_ <=? n); [done|]. by destruct env_capio_dir; [destruct Hd; eexists|].
Qed.

(** ** Calls that CAPIO does not touch *)

Section Elsewhere.
Context {P K : Type} `{Peer P} `{Thread} `{KernelFiles K} `{Kernel} `{Process} `{System} `{FilesystemCopy P} (capio_dir : string).
Notation State := (Proc P K).

(** The argument, as an [int], is no descriptor of CAPIO. *)
Definition not_capio_fd (s : State) (arg : Z) : Prop := files (tables (client (pc_copy s))) !! s32 arg = None.

Definition outside (p : string) : Prop := p <> ""%string /\ is_capio_path capio_dir p = false.
(** The path is one of the forbidden ones, or an absolute one that is not under the
    CAPIO directory as it stands, in normal form or with its links resolved, or one
    that the kernel resolves, from the working directory, to a path outside, or one relative
    to a directory that is not of CAPIO and outside there. *)
Definition path_outside (t : Filesystem) (dirfd : Z) (path : string) : Prop :=
  is_forbidden_path path = true
  \/ is_absolute path = true /\ outside path /\ outside (capio_normal_path path)
     /\ (forall p, realpath path = Some p -> outside p)
  \/ is_absolute path = false /\ dirfd = AT_FDCWD
     /\ (exists p, realpath path = Some p /\ outside p /\ outside (capio_normal_path p))
  \/ is_absolute path = false /\ dirfd <> AT_FDCWD /\ files t !! dirfd = None /\ capio_files_descriptors t !! dirfd = None
     /\ fstat_isdir dirfd <> Some false
     /\ (forall d, readlink_fd dirfd = Some d -> d <> ""%string ->
           outside (lexically_normal (path_append d path)) /\ outside (capio_normal_path (path_append d path))).

(** Two absolute paths outside, the new one not under the old one. *)
Definition renames_outside (old new : string) : Prop :=
  is_absolute old = true /\ is_absolute new = true /\ is_prefix old new = false
  /\ is_capio_path capio_dir old = false /\ is_capio_path capio_dir new = false.

Definition string_at (s : State) (a : Z) (v : string) : Prop := strings (pc_memory s) !! a = Some v.

(** A system call and its arguments, none of which is of CAPIO. *)
Inductive elsewhere (s : State) : Z -> args -> Prop :=
| on_fd n a : n ∈ [0; 1; 3; 5; 8; 16; 19; 20; 32; 33; 72; 78; 90; 91; 92; 93; 138; 217; 260; 268; 292] ->
    not_capio_fd s (a0 a) -> elsewhere s n a
| on_attribute a name : not_capio_fd s (a0 a) -> string_at s (a1 a) name -> elsewhere s 193 a
| on_copy n a : n ∈ [275; 326] -> not_capio_fd s (a0 a) -> not_capio_fd s (a2 a) -> elsewhere s n a
| on_sendfile a : not_capio_fd s (a0 a) -> not_capio_fd s (a1 a) -> elsewhere s 40 a
| on_path n a path : n ∈ [2; 4; 6; 21; 80; 83; 84; 85; 87] -> string_at s (a0 a) path -> path_outside (tables (client (pc_copy s))) AT_FDCWD path ->
    elsewhere s n a
| on_path_at n a path : n ∈ [257; 258; 262; 263; 269; 332; 439] -> string_at s (a1 a) path ->
    path <> ""%string -> path_outside (tables (client (pc_copy s))) (s32 (a0 a)) path -> elsewhere s n a
| on_rename a old new : string_at s (a0 a) old -> string_at s (a1 a) new -> renames_outside old new -> elsewhere s 82 a
| on_rename_at n a old new : n ∈ [264; 316] -> string_at s (a1 a) old -> string_at s (a3 a) new -> renames_outside old new ->
    elsewhere s n a
| on_cwd a : is_capio_path capio_dir (current_dir (tables (client (pc_copy s)))) = false -> elsewhere s 79 a.

(** The handler leaves the call to the kernel, with nothing changed. *)
Definition passes (h : CPHandler) (a : args) (s : State) : Prop := exists r, r <> 0 /\ h a s = Done ((r, None), s).

Lemma cl_eq {A} (m : M (Client P) A) (s : State) x :
  m (client (pc_copy s)) = Done (x, client (pc_copy s)) -> cl m s = Done (x, s).
Proof. intros E. unfold cl, zoom, on_client, zoom. rewrite E. by destruct s as [[]]. Qed.

Lemma fd_missing fd (c : Client P) :
  files (tables c) !! fd = None -> on_tables (exists_capio_fd fd) c = Done (false, c).
Proof.
  intros Hf. unfold on_tables, zoom, exists_capio_fd, gets. rewrite Hf. rewrite bool_decide_eq_false_2 by by intros [].
  by destruct c.
Qed.

(** A call that first asks whether the descriptor is of CAPIO. *)
Lemma cl_missing {A} fd (k : bool -> M (Client P) A) (s : State) x :
  files (tables (client (pc_copy s))) !! fd = None -> k false (client (pc_copy s)) = Done (x, client (pc_copy s)) ->
  cl (bind (on_tables (exists_capio_fd fd)) k) s = Done (x, s).
Proof. intros Hf Hk. apply cl_eq. unfold bind. by rewrite (fd_missing fd _ Hf). Qed.

Lemma finish_skip (s : State) : finish Skip s = Done ((1, None), s).
Proof. reflexivity. Qed.
Lemma store_nothing a (s : State) : store_bytes a [] s = Done (tt, s).
Proof.
  unfold store_bytes, modify. do 2 f_equal. simpl. rewrite (left_id_L ∅ (∪)). by destruct s as [? ? ? []].
Qed.

Lemma answer_skip (m : M (Client P) answer) (s : State) : cl m s = Done (Skip, s) -> answer_of m s = Done ((1, None), s).
Proof. intros E. unfold answer_of, bind. by rewrite E. Qed.

(** A handler that asks [m] of the client and stores what it got. *)
Lemma passes_intro h a (s : State) r : r <> 0 -> h a s = Done ((r, None), s) -> passes h a s.
Proof. by exists r. Qed.

(** The calls on one descriptor. *)
Lemma fd_passes a (s : State) : not_capio_fd s (a0 a) ->
  Forall (fun h => passes h a s) [read_handler; write_handler; close_handler; fstat_handler; lseek_handler; ioctl_handler;
    readv_handler; writev_handler; dup_handler; dup2_handler; fcntl_handler; getdents_handler; fchmod_handler;
    fchown_handler; fstatfs_handler; getdents64_handler; dup3_handler].
Proof.
  intros Hf. unfold not_capio_fd in Hf.
  assert (Hcl : forall A (k : bool -> M (Client P) A) x, k false (client (pc_copy s)) = Done (x, client (pc_copy s)) ->
    cl (bind (on_tables (exists_capio_fd (s32 (a0 a)))) k) s = Done (x, s)) by (intros; by apply cl_missing).
  assert (Hex : cl (on_tables (exists_capio_fd (s32 (a0 a)))) s = Done (false, s)) by by apply cl_eq, fd_missing.
  assert (Hwrite : forall h, h = write_handler \/ h = readv_handler \/ h = writev_handler -> passes h a s).
  { intros h [->|[->| ->]]; (eapply passes_intro; [|eapply bind_done; [exact Hex|reflexivity]]); done. }
  assert (Hdents : forall is64bit, passes (getdents_of is64bit) a s).
  { intros is64bit. eapply passes_intro; [|eapply bind_done; [by apply Hcl|]; eapply bind_done; [apply store_nothing|reflexivity]].
    done. }
  assert (Hanswer : forall m : M (Client P) answer, cl m s = Done (Skip, s) -> passes (fun _ => answer_of m) a s).
  { intros m E. by eapply passes_intro, answer_skip. }
  repeat apply Forall_cons_2; try apply Forall_nil_2; try (by apply Hwrite; auto); try apply Hdents;
    try (by apply Hanswer, Hcl); try (eapply passes_intro; [|by apply Hcl]; done).
  all: try (eapply passes_intro; [|eapply bind_done; [by apply Hcl|reflexivity]]; done).
  all: try (eapply passes_intro; [|eapply bind_done; [reflexivity|by apply answer_skip, Hcl]]; done).
  - eapply passes_intro; [|eapply bind_done; [by apply Hcl|]; eapply bind_done; [apply store_nothing|reflexivity]]. done.
  - exists 1. split; [done|]. unfold fcntl_handler, zoom, PosixFcntl.fcntl_handler, bind.
    rewrite exists_fd_eq, bool_decide_eq_false_2 by (simpl; rewrite Hf; by intros []). by destruct s as [[]].
Qed.

(** The calls on two. *)
Lemma two_fds_pass a (s : State) : not_capio_fd s (a0 a) ->
  (not_capio_fd s (a2 a) -> passes copy_file_range_handler a s /\ passes splice_handler a s)
  /\ (not_capio_fd s (a1 a) -> passes sendfile_handler a s).
Proof.
  unfold not_capio_fd. intros Hf0. split; [intros Hf2; split|intros Hf1].
  - exists 1. split; [done|]. apply (bind_done _ _ _ Skip s); [|reflexivity]. unfold zoom at 1, capio_copy_file_range.
    unfold bind, on_client at 1, zoom at 1. rewrite (fd_missing _ _ Hf0). cbn [outcome_bind client set_client].
    unfold on_client at 1, zoom at 1. cbn [client set_client]. rewrite (fd_missing _ _ Hf2). by destruct s as [[]].
  - exists 1. split; [done|]. apply cl_missing; [done|]. unfold bind. by rewrite (fd_missing _ _ Hf2).
  - exists 1. split; [done|]. apply cl_missing; [done|]. unfold bind. by rewrite (fd_missing _ _ Hf0).
Qed.

Lemma attribute_passes a name (s : State) :
  not_capio_fd s (a0 a) -> string_at s (a1 a) name -> passes fgetxattr_handler a s.
Proof.
  intros Hf Hn. exists 1. split; [done|]. eapply bind_done; [unfold c_string; by rewrite Hn|].
  eapply bind_done; [by apply cl_missing|reflexivity].
Qed.

(** The calls on paths. *)
Lemma realpath_known path p (c : Client P) : realpath path = Some p -> on_tables (capio_posix_realpath capio_dir path) c = Done (p, c).
Proof. intros E. unfold on_tables, zoom, capio_posix_realpath. rewrite E. by destruct c. Qed.

Lemma lstat_outside p (c : Client P) : is_capio_path capio_dir p = false -> capio_lstat capio_dir p c = Done ((Skip, None), c).
Proof. apply lstat_elsewhere. Qed.

(** A directory that is not of CAPIO. *)
Lemma directory_outside dirfd (c : Client P) :
  dirfd <> AT_FDCWD -> files (tables c) !! dirfd = None -> capio_files_descriptors (tables c) !! dirfd = None ->
  fstat_isdir dirfd <> Some false ->
  is_directory dirfd c = Done (true, c) /\ on_tables (get_dir_path dirfd) c = Done (default ""%string (readlink_fd dirfd), c).
Proof.
  intros Hcwd Hf Hd Hdir. split.
  - unfold is_directory, bind. rewrite (fd_missing dirfd c Hf). cbn. by destruct (fstat_isdir dirfd) as [[]|].
  - unfold on_tables, zoom, get_dir_path. rewrite (proj2 (Z.eqb_neq _ _) Hcwd). unfold bind, get. cbn. rewrite Hd.
    destruct c. by destruct (readlink_fd dirfd).
Qed.

Lemma under_outside dirfd path (c : Client P) :
  dirfd <> AT_FDCWD -> files (tables c) !! dirfd = None -> capio_files_descriptors (tables c) !! dirfd = None ->
  fstat_isdir dirfd <> Some false ->
  under_dirfd dirfd path c =
    Done (match readlink_fd dirfd with Some d => if String.eqb d "" then None else Some (path_append d path) | None => None end, c).
Proof.
  intros Hcwd Hf Hd Hdir. destruct (directory_outside dirfd c Hcwd Hf Hd Hdir) as [E1 E2].
  unfold under_dirfd, bind. rewrite E1. cbn. rewrite E2. cbn. destruct (readlink_fd dirfd) as [d|]; cbn; [|done].
  by destruct (String.eqb d "").
Qed.

(** Case analysis on a path outside: forbidden, absolute, relative to the working
    directory, relative to another one. *)
Ltac outside_cases Hout path c :=
  destruct Hout as [->|[(Ha & [Hne Ho] & [Hnn Hno] & Hlink)|[(Ha & Hcwd & p & Hr & [Hne Ho] & [Hnn Hno])
    |(Ha & Hcwd & Hfd & Hdesc & Hdir & Hlink)]]]; [done|..];
  (destruct (is_forbidden_path path); [done|]); rewrite ?Ha; cbn [negb andb];
  [|try rewrite (proj2 (Z.eqb_eq _ _) Hcwd); cbn [negb andb]; unfold bind;
    rewrite (realpath_known path p c Hr); cbn [outcome_bind];
    rewrite ?(proj2 (String.eqb_neq p "") Hne); cbn [negb andb]
   |try done; rewrite ?(proj2 (Z.eqb_neq _ _) Hcwd); cbn [negb andb]; unfold bind;
    rewrite ?(under_outside _ path c Hcwd Hfd Hdesc Hdir); cbn [outcome_bind];
    try (destruct (readlink_fd _) as [d|]; [|done]; destruct (String.eqb_spec d "") as [|Hd]; [done|];
         destruct (Hlink d eq_refl Hd) as [[_ Ho] [_ Hno]]; cbn)].

Lemma faccessat_skips dirfd path (c : Client P) :
  path_outside (tables c) dirfd path -> capio_faccessat capio_dir dirfd path c = Done (Skip, c).
Proof. intros Hout. unfold capio_faccessat. outside_cases Hout path c; cbn; by rewrite Ho. Qed.

Lemma openat_skips dirfd path flags fd (c : Client P) :
  path_outside (tables c) dirfd path -> capio_openat capio_dir dirfd path flags fd c = Done (Skip, c).
Proof. intros Hout. unfold capio_openat. outside_cases Hout path c; cbn; by rewrite Hno. Qed.

Lemma mkdirat_skips dirfd path errno (c : Client P) :
  path_outside (tables c) dirfd path -> capio_mkdirat capio_dir dirfd path errno c = Done (Skip, c).
Proof. intros Hout. unfold capio_mkdirat, resolve_normal. outside_cases Hout path c; cbn; by rewrite Ho. Qed.

Lemma unlinkat_skips dirfd path flags (c : Client P) :
  path_outside (tables c) dirfd path -> capio_unlinkat capio_dir dirfd path flags c = Done (Skip, c).
Proof. intros Hout. unfold capio_unlinkat, resolve_normal, capio_unlink_abs. outside_cases Hout path c; cbn; by rewrite Ho. Qed.

Lemma rmdir_skips path (c : Client P) : path_outside (tables c) AT_FDCWD path -> capio_rmdir capio_dir path c = Done (Skip, c).
Proof. intros Hout. unfold capio_rmdir. outside_cases Hout path c; cbn; by rewrite Ho. Qed.

Lemma chdir_skips path errno (c : Client P) :
  path_outside (tables c) AT_FDCWD path -> PosixCalls.chdir_handler capio_dir path errno c = Done (Skip, c).
Proof. intros Hout. unfold PosixCalls.chdir_handler. outside_cases Hout path c; cbn; by rewrite Ho. Qed.

Lemma lstat_skips path (c : Client P) :
  path_outside (tables c) AT_FDCWD path -> capio_lstat_wrapper capio_dir path c = Done ((Skip, None), c).
Proof.
  intros Hout. unfold capio_lstat_wrapper. outside_cases Hout path c; [|by apply lstat_elsewhere].
  unfold bind, on_tables, zoom, capio_posix_realpath. rewrite Ha. destruct (realpath path) as [q|] eqn:Hr; cbn.
  - destruct (Hlink q eq_refl) as [Hq Hoq]. rewrite (proj2 (String.eqb_neq q "") Hq). destruct c; by apply lstat_elsewhere.
  - rewrite (proj2 (String.eqb_neq _ "") Hnn). destruct c; by apply lstat_elsewhere.
Qed.

Lemma fstatat_skips dirfd path flags (c : Client P) :
  path_outside (tables c) dirfd path -> path <> ""%string -> capio_fstatat capio_dir dirfd path flags c = Done ((Skip, None), c).
Proof.
  intros Hout Hp. unfold capio_fstatat. rewrite (proj2 (String.eqb_neq path "") Hp). cbn [andb].
  destruct (is_forbidden_path path) eqn:Hf; [done|].
  destruct Hout as [Hb|[(Ha & [_ Ho] & _)|[(Ha & -> & Hp')|(Ha & Hcwd & Hfd & Hdesc & Hdir & Hlink)]]]; [congruence|..].
  - rewrite Ha. cbn [negb]. by apply lstat_elsewhere.
  - rewrite Ha. cbn. apply lstat_skips. right. right. left. done.
  - rewrite Ha, (proj2 (Z.eqb_neq _ _) Hcwd). destruct (directory_outside dirfd c Hcwd Hfd Hdesc Hdir) as [E1 E2].
    cbn [negb]. unfold bind. rewrite E1. cbn. rewrite E2. cbn. destruct (readlink_fd dirfd) as [d|]; cbn; [|done].
    destruct (String.eqb_spec d "") as [|Hd]; [done|]. by apply lstat_elsewhere, (Hlink d eq_refl Hd).
Qed.

Lemma statx_skips dirfd path flags mask (c : Client P) :
  path_outside (tables c) dirfd path -> path <> ""%string -> capio_statx capio_dir dirfd path flags mask c = Done ((Skip, None), c).
Proof.
  intros Hout Hp. unfold capio_statx, statx_path. rewrite (proj2 (String.eqb_neq path "") Hp). cbn [andb].
  outside_cases Hout path c; [unfold bind; cbn; by rewrite Ho..|].
  destruct (directory_outside dirfd c Hcwd Hfd Hdesc Hdir) as [E1 E2]. unfold bind. rewrite E1. cbn. rewrite E2. cbn.
  destruct (readlink_fd dirfd) as [d|]; cbn; [|done].
  destruct (String.eqb_spec d "") as [|Hd]; [done|]. cbn. by rewrite (proj2 (proj1 (Hlink d eq_refl Hd))).
Qed.

Lemma get_dir_path_reads dirfd (c : Client P) : exists d, on_tables (get_dir_path dirfd) c = Done (d, c).
Proof.
  unfold on_tables, zoom, get_dir_path, bind, get. destruct c as [t ? ? ? ?]. cbn.
  destruct (dirfd =? AT_FDCWD); [by eexists|]. cbn. destruct (capio_files_descriptors t !! dirfd); [by eexists|].
  destruct (readlink_fd dirfd); by eexists.
Qed.
Lemma rename_skips old_dirfd old new_dirfd new errno (c : Client P) :
  renames_outside old new -> PosixCalls.renameat2_handler capio_dir old_dirfd old new_dirfd new errno c = Done (Skip, c).
Proof.
  intros (Ho & Hn & Hp & Hoc & Hnc). unfold PosixCalls.renameat2_handler.
  destruct (get_dir_path_reads old_dirfd c) as [d1 E1], (get_dir_path_reads new_dirfd c) as [d2 E2].
  unfold bind. rewrite E1. cbn. rewrite E2. cbn. rewrite Ho, Hn. cbn. by rewrite Hp, Hoc, Hnc.
Qed.

(** From a call of the client to its handler. *)
Lemma at_cwd_passes (call : Z -> string -> M (Client P) answer) a path (s : State) :
  string_at s (a0 a) path -> call AT_FDCWD path (client (pc_copy s)) = Done (Skip, client (pc_copy s)) ->
  passes (at_cwd call) a s.
Proof.
  intros Hs E. exists 1. split; [done|]. eapply bind_done; [unfold c_string; by rewrite Hs|]. by apply answer_skip, cl_eq.
Qed.
Lemma at_dirfd_passes (call : Z -> string -> M (Client P) answer) a path (s : State) :
  string_at s (a1 a) path -> call (s32 (a0 a)) path (client (pc_copy s)) = Done (Skip, client (pc_copy s)) ->
  passes (at_dirfd call) a s.
Proof.
  intros Hs E. exists 1. split; [done|]. eapply bind_done; [unfold c_string; by rewrite Hs|]. by apply answer_skip, cl_eq.
Qed.

Lemma cwd_paths_pass a path (s : State) :
  string_at s (a0 a) path -> path_outside (tables (client (pc_copy s))) AT_FDCWD path ->
  Forall (fun h => passes h a s) [open_handler capio_dir; stat_handler capio_dir; lstat_handler capio_dir;
    access_handler capio_dir; chdir_handler capio_dir; mkdir_handler capio_dir; rmdir_handler capio_dir;
    creat_handler capio_dir; unlink_handler capio_dir].
Proof.
  intros Hs Hout. assert (Hc : c_string (a0 a) s = Done (path, s)) by (unfold c_string; by rewrite Hs).
  assert (Hstat : passes (lstat_handler capio_dir) a s).
  { exists 1. split; [done|]. eapply bind_done; [exact Hc|]. eapply bind_done; [by apply cl_eq, lstat_skips|reflexivity]. }
  repeat apply Forall_cons_2; try apply Forall_nil_2; try exact Hstat.
  - by apply (at_cwd_passes _ a path s Hs), openat_skips.
  - by apply (at_cwd_passes _ a path s Hs), faccessat_skips.
  - exists 1. split; [done|]. eapply bind_done; [exact Hc|]. eapply bind_done; [reflexivity|].
    eapply bind_done; [by apply cl_eq, chdir_skips|reflexivity].
  - destruct (at_cwd_passes (fun dirfd p => capio_mkdirat capio_dir dirfd p (pc_errno s)) a path s Hs) as (r & Hr & E);
      [by apply mkdirat_skips|]. exists r. split; [done|]. eapply bind_done; [reflexivity|exact E].
  - by apply (at_cwd_passes _ a path s Hs), rmdir_skips.
  - by apply (at_cwd_passes _ a path s Hs), openat_skips.
  - by apply (at_cwd_passes _ a path s Hs), unlinkat_skips.
Qed.

Lemma dirfd_paths_pass a path (s : State) :
  string_at s (a1 a) path -> path <> ""%string -> path_outside (tables (client (pc_copy s))) (s32 (a0 a)) path ->
  Forall (fun h => passes h a s) [openat_handler capio_dir; mkdirat_handler capio_dir; fstatat_handler capio_dir;
    unlinkat_handler capio_dir; faccessat_handler capio_dir; statx_handler capio_dir].
Proof.
  intros Hs Hne Hout. assert (Hc : c_string (a1 a) s = Done (path, s)) by (unfold c_string; by rewrite Hs).
  repeat apply Forall_cons_2; try apply Forall_nil_2.
  - by apply (at_dirfd_passes _ a path s Hs), openat_skips.
  - destruct (at_dirfd_passes (fun dirfd p => capio_mkdirat capio_dir dirfd p (pc_errno s)) a path s Hs) as (r & Hr & E);
      [by apply mkdirat_skips|]. exists r. split; [done|]. eapply bind_done; [reflexivity|exact E].
  - exists 1. split; [done|]. eapply bind_done; [exact Hc|]. eapply bind_done; [by apply cl_eq, fstatat_skips|reflexivity].
  - by apply (at_dirfd_passes _ a path s Hs), unlinkat_skips.
  - by apply (at_dirfd_passes _ a path s Hs), faccessat_skips.
  - exists 1. split; [done|]. eapply bind_done; [exact Hc|]. eapply bind_done; [by apply cl_eq, statx_skips|reflexivity].
Qed.

Lemma getcwd_passes a (s : State) :
  is_capio_path capio_dir (current_dir (tables (client (pc_copy s)))) = false -> passes (getcwd_handler capio_dir) a s.
Proof.
  intros Ho. exists 1. split; [done|]. apply (bind_done _ _ _ (Skip, ""%string) s); [apply cl_eq|reflexivity].
  unfold PosixCalls.getcwd_handler, bind, on_tables, zoom, get_current_dir, gets. cbn. rewrite Ho. by destruct (client _).
Qed.

Lemma rename_passes b old new (s : State) : string_at s (a1 b) old -> string_at s (a3 b) new -> renames_outside old new ->
  passes (renameat2_handler capio_dir) b s.
Proof.
  intros Ho Hn Hout. exists 1. split; [done|]. eapply bind_done; [unfold c_string; by rewrite Ho|].
  eapply bind_done; [unfold c_string; by rewrite Hn|]. eapply bind_done; [reflexivity|].
  eapply bind_done; [by apply cl_eq, rename_skips|reflexivity].
Qed.

(** The handler of a number among those that pass the call on. *)
Ltac passed_by Hall Hat := rewrite ?Forall_cons in Hall; decompose [and] Hall; split; [lia|]; split; [done|];
  eapply Hat; [repeat first [apply list_elem_of_here|apply list_elem_of_further]|];
  match goal with Hp : passes ?h ?a ?s |- passes ?h ?a ?s => exact Hp end.

(** Every such call has a handler that passes it on. *)
Lemma elsewhere_passes n a (s : State) : elsewhere s n a ->
  0 <= n /\ n <> SYS_futex /\ exists h, handler_of capio_dir n = Some h /\ passes h a s.
Proof.
  assert (Hat : forall n h, (n, h) ∈ captured capio_dir -> passes h a s ->
    exists h, handler_of capio_dir n = Some h /\ passes h a s).
  { intros m h Hin Hp. exists h. split; [|done]. rewrite <- assigned. apply elem_of_list_to_map; [apply captured_apart|done]. }
  intros Hn. inversion Hn as [m b Hm Hf|b name Hf Hs|m b Hm Hf Hf'|b Hf Hf'|m b path Hm Hs Hout|m b path Hm Hs Hne Hout
    |b old new Hs Hs' Hout|m b old new Hm Hs Hs' Hout|b Ho]; subst.
  - pose proof (fd_passes a s Hf) as Hall.
    repeat (apply elem_of_cons in Hm as [->|Hm]; [passed_by Hall Hat|]). by apply elem_of_nil in Hm.
  - pose proof (attribute_passes a name s Hf Hs) as Hall. passed_by Hall Hat.
  - pose proof (proj1 (two_fds_pass a s Hf) Hf') as Hall.
    repeat (apply elem_of_cons in Hm as [->|Hm]; [passed_by Hall Hat|]). by apply elem_of_nil in Hm.
  - pose proof (proj2 (two_fds_pass a s Hf) Hf') as Hall. passed_by Hall Hat.
  - pose proof (cwd_paths_pass a path s Hs Hout) as Hall.
    repeat (apply elem_of_cons in Hm as [->|Hm]; [passed_by Hall Hat|]). by apply elem_of_nil in Hm.
  - pose proof (dirfd_paths_pass a path s Hs Hne Hout) as Hall.
    repeat (apply elem_of_cons in Hm as [->|Hm]; [passed_by Hall Hat|]). by apply elem_of_nil in Hm.
  - assert (passes (rename_handler capio_dir) a s) as Hall by by eapply (rename_passes {| a1 := a0 a; a3 := a1 a |}).
    passed_by Hall Hat.
  - assert (passes (renameat_handler capio_dir) a s /\ passes (renameat2_handler capio_dir) a s) as Hall.
    { split; [by eapply (rename_passes {| a1 := a1 a; a3 := a3 a |})|by eapply rename_passes]. }
    repeat (apply elem_of_cons in Hm as [->|Hm]; [passed_by Hall Hat|]). by apply elem_of_nil in Hm.
  - pose proof (getcwd_passes a s Ho) as Hall. passed_by Hall Hat.
Qed.
End Elsewhere.


(** A relative path that neither the kernel nor the CAPIO directory has is answered by
    CAPIO: [access] and [stat] fail with an error of their own, and [chdir] with what
    [errno] was. *)
Lemma unresolved_path_answered {P} `{Peer P} `{Thread} `{Kernel} `{Process} (capio_dir path : string) (errno : Z) (c : Client P) :
  is_forbidden_path path = false -> is_absolute path = false -> realpath path = None ->
  is_capio_path capio_dir (capio_normal_path (path_append (current_dir (tables c)) path)) = false ->
  capio_faccessat capio_dir AT_FDCWD path c = Done (Err ENONET, c) /\
  capio_lstat_wrapper capio_dir path c = Done ((Err ENOENT, None), c) /\
  PosixCalls.chdir_handler capio_dir path errno c = Done (Err errno, c).
Proof.
  intros Hf Ha Hr Hc.
  assert (E : on_tables (capio_posix_realpath capio_dir path) c = Done (""%string, c)).
  { unfold on_tables, zoom, capio_posix_realpath. rewrite Hr, Ha. unfold bind, get_current_dir, gets. cbn. rewrite Hc. by destruct c. }
  unfold capio_faccessat, capio_lstat_wrapper, PosixCalls.chdir_handler. rewrite Hf, Ha. rewrite Z.eqb_refl. cbn [negb andb].
  unfold bind. rewrite E. cbn [outcome_bind String.eqb]. by split_and!.
Qed.

(** ** Witnesses *)

#[export] Instance no_copy P : FilesystemCopy P := {| filesystem_copy _ _ errno := ret errno |}.
#[export] Instance demo_system : System := {|
  PosixHook.sys_fcntl := demo_sys_fcntl; sys_dup2 _ fd := fd; sys_dup3 _ fd _ := fd; open_null := 9; sys_statfs := 0;
  sys_fork := 0; getpid := 4242; capio_app_name := "app"; env_capio_dir := Some "/c"%string |}.
Definition demo_proc : Proc SizeServer OneFile := {|
  pc_copy := {| client := size_client; kernel_files := {| of_data := []; of_at := 0 |}; user := ∅ |}; pc_hints := ∅; pc_flocks := ∅;
  pc_memory := {| strings := {[ 500 := "/home/x"%string ]}; bytes := ∅; stats := ∅; statxs := ∅ |};
  pc_shm := no_shm; pc_errno := 0; syscall_no_intercept_flag := false |}.
Definition demo_args : args := {| a0 := 500; a1 := 0; a2 := 0; a3 := 0; a4 := 0; a5 := 0 |}.

