(* ===== verification/EndToEnd.v ===== *)
(** * The client and the server together

    The server of [Server], seen by one of its clients, is a [Peer]: a request goes
    through its text, the handler the server's table has for it runs, replies and
    data come back through the queues of the thread.  It keeps what [ReadingPeer]
    promises, so what is proved of the caches of the client holds of the files of
    the server. *)
From S2P Require Import Prelude Text Sectors Memory Queue FileBuffer CapioFile ClientManager Locations Server StorageManager Handlers RemoteHandlers ServerInv ServerProps Requests PosixPath PosixFs PosixCache PosixCacheProps PosixStat.

(** ** The bytes from an offset to the next hole *)

(** How many bytes a sector has from [v] on. *)
Definition run_length (ss : sectors) (v : Z) : Z := Z.max 0 (getSectorEnd ss v - v).

Lemma run_holds ss v y : sectors_wf ss -> 0 <= v -> v <= y < v + run_length ss v -> holds ss y.
Proof. intros Hwf Hv Hy. apply (getSectorEnd_holds ss v y); [done| |done]. unfold run_length in Hy. lia. Qed.

Lemma run_ends ss v : sectors_wf ss -> 0 <= v -> ~ holds ss (v + run_length ss v).
Proof.
  intros Hwf Hv Hh. unfold run_length in Hh. destruct (decide (covers ss v)) as [Hc|Hc].
  - pose proof (getSectorEnd_maximal ss v Hwf Hc) as Hmax.
    destruct (getSectorEnd_spec ss v Hwf) as [(s & _ & ? & E)|[? _]]; [|done].
    rewrite Z.max_r in Hh by lia. by replace (v + (getSectorEnd ss v - v)) with (getSectorEnd ss v) in Hh by lia.
  - destruct (getSectorEnd_spec ss v Hwf) as [(s & Hs & ? & _)|[_ E]]; [destruct Hc; apply Exists_exists; eauto|].
    rewrite E in Hh. unfold CAPIO_SECTOR_NOT_FOUND in Hh. rewrite Z.max_l, Z.add_0_r in Hh by lia. by apply Hc, holds_covers.
Qed.

(** It is determined by where the data stops. *)
Lemma run_unique ss v n :
  sectors_wf ss -> 0 <= v -> 0 <= n -> (forall y, v <= y < v + n -> holds ss y) -> ~ holds ss (v + n) -> run_length ss v = n.
Proof.
  intros Hwf Hv Hn Hall Hnot. assert (0 <= run_length ss v) by (unfold run_length; lia).
  destruct (Z.lt_trichotomy (run_length ss v) n) as [Hlt|[|Hgt]]; [|done|].
  - destruct (run_ends ss v Hwf Hv). apply Hall. lia.
  - destruct Hnot. apply (run_holds ss v); [done..|]. lia.
Qed.

Lemma run_rest ss v n : sectors_wf ss -> 0 <= v -> 0 <= n <= run_length ss v -> run_length ss (v + n) = run_length ss v - n.
Proof.
  intros Hwf Hv Hn. apply run_unique; [done|lia|lia| |].
  - intros y Hy. apply (run_holds ss v); [done..|lia].
  - replace (v + n + (run_length ss v - n)) with (v + run_length ss v) by lia. by apply run_ends.
Qed.

Lemma seqZ_take v m n : 0 <= m -> 0 <= n -> seqZ v (Z.min n m) = take (Z.to_nat n) (seqZ v m).
Proof.
  intros Hm Hn. destruct (decide (n <= m)).
  - rewrite Z.min_l by done. replace m with (n + (m - n)) at 1 by lia. rewrite seqZ_app by lia. symmetry.
    apply take_app_length'. by rewrite length_seqZ.
  - rewrite Z.min_r, take_ge by (rewrite ?length_seqZ; lia). done.
Qed.

(** The data of a file from [v] on. *)
Definition data_from (f : CapioFile) (v : Z) : list cell := file_data f <$> seqZ v (run_length (_sectors f) v).

Lemma seqZ_drop v m n : 0 <= n <= m -> drop (Z.to_nat n) (seqZ v m) = seqZ (v + n) (m - n).
Proof.
  intros Hn. replace m with (n + (m - n)) at 1 by lia. rewrite seqZ_app by lia. apply drop_app_length'. rewrite length_seqZ. done.
Qed.

Lemma data_from_drop f v n : sectors_wf (_sectors f) -> 0 <= v -> 0 <= n <= run_length (_sectors f) v ->
  drop (Z.to_nat n) (data_from f v) = data_from f (v + n).
Proof. intros Hwf Hv Hn. unfold data_from. rewrite <- fmap_drop, seqZ_drop, run_rest by done. done. Qed.

Lemma data_from_prefix f v n : 0 <= n <= run_length (_sectors f) v ->
  file_data f <$> seqZ v n `prefix_of` data_from f v.
Proof.
  intros Hn. unfold data_from. exists (file_data f <$> seqZ (v + n) (run_length (_sectors f) v - n)).
  rewrite <- fmap_app, <- seqZ_app by lia. do 2 f_equal. lia.
Qed.

(** ** The text of a request fits *)

Lemma fields_fit code fs reps :
  Forall (fun f => String.length (print_field f) <= 20)%nat fs -> (length fs <= 8)%nat ->
  (String.length (print_code code) <= 10)%nat ->
  let call := mk_call code fs reps in send_call call = Done (req_text call).
Proof.
  intros Hfs Hn Hcode call. unfold send_call. rewrite (proj2 (Nat.ltb_lt _ _)); [done|].
  assert (Hall : (String.length (print_fields fs) <= 21 * length fs)%nat).
  { clear Hn call. induction Hfs as [|f fs Hf Hfs IH]; simpl; [lia|]. rewrite length_append. lia. }
  unfold req_text, call. cbn [c_code c_fields mk_call]. rewrite length_append. unfold CAPIO_REQ_MAX_SIZE. lia.
Qed.

(** The fields of a request are numbers in the range of their types. *)
Ltac fits_tac :=
  apply fields_fit;
  [repeat (apply Forall_cons_2; [simpl; first [apply length_print_zu|apply length_print_ld; unfold int32, int64 in *; lia]|]);
   apply Forall_nil_2
  |simpl; lia|vm_compute; lia].

(** ** The server as a peer *)

Section Peer.
Context `{Config} `{Thread}.

Definition buffers (p : Server) : ClientDataBuffers :=
  default {| ClientToServer := fifo_new; ServerToClient := fifo_new |} (data_buffers (client_manager p) !! tid).
Definition set_buffers (b : ClientDataBuffers) (p : Server) : Server :=
  set_client_manager (set_data_buffers (<[tid := b]> (data_buffers (client_manager p))) (client_manager p)) p.

#[export] Instance server_peer : Peer Server := {|
  serve c p := outcome_bind (send_call c) (fun text => outcome_bind (serve_request text p) (fun '(_, p') => Done p'));
  next_reply p := match responses (client_manager p) !! tid with
    | Some (v :: r) =>
        Some (v, set_client_manager (set_responses (<[tid := r]> (responses (client_manager p))) (client_manager p)) p)
    | _ => None
    end;
  to_server p := ClientToServer (buffers p);
  set_to_server q p := set_buffers {| ClientToServer := q; ServerToClient := ServerToClient (buffers p) |} p;
  from_server p := ServerToClient (buffers p);
  set_from_server q p := set_buffers {| ClientToServer := ClientToServer (buffers p); ServerToClient := q |} p
|}.

#[export] Instance server_peer_laws : PeerLaws Server.
Proof.
  split.
  - intros p q. simpl. unfold buffers, set_buffers. simpl. by rewrite lookup_insert_eq.
  - intros p q q'. simpl. unfold buffers, set_buffers. simpl. rewrite lookup_insert_eq. simpl. destruct p as [? ? ? ? ? ? [] ? ? ? ? ?]. simpl.
    unfold set_client_manager, set_data_buffers. simpl. by rewrite insert_insert_eq.
  - intros p q. simpl. unfold buffers, set_buffers. simpl. by rewrite lookup_insert_eq.
Qed.

(** *** Reads *)

Hypothesis os_succeeds : forall n, fst (os n) = kernel_ok /\ 0 <= snd (os n).
Hypothesis same_line : getCacheLineSize = _max_line_size.
Hypothesis tid_int : int32 tid.

(** The thread produced the file. *)
Definition produces (p : Server) (path : string) : bool :=
  cl_isProducer path (getAppName (client_manager p) tid) || isProducer (client_manager p) tid path.
(** The file is complete for the thread and on this node. *)
Definition complete_here (p : Server) (path : string) (f : CapioFile) : Prop :=
  produces p path = true
  \/ _committed f = true /\ exists n z, get_file_location_opt (locations p) path = Some (n, z) /\ node_is_backend n = true.

(** The descriptor is open at [v] on [f]. *)
Record readable (p : Server) (fd v : Z) (path : string) (f : CapioFile) : Prop := {
  rd_int : int32 fd;
  rd_open : exists id o, opened p tid fd path id o v f;
  rd_inv : file_inv f;
  rd_offset : 0 <= v;
  rd_complete : complete_here p path f;
  rd_client : ServerProps.replies p tid = Some [] /\ is_Some (data_buffers (client_manager p) !! tid)
}.

(** What the server has for the descriptor. *)
Definition open_view (p : Server) (fd : Z) : option (Z * CapioFile) :=
  match descriptor_at p tid fd with
  | Some {| _pointer := Some id; _offset := Some o |} => v ← offsets p !! o; f ← heap p !! id; Some (v, f)
  | _ => None
  end.
Lemma opened_view p fd path id o v f : opened p tid fd path id o v f -> open_view p fd = Some (v, f).
Proof. intros [Hd _ Hf Ho]. unfold open_view. rewrite Hd. simpl. rewrite Ho. simpl. by rewrite Hf. Qed.

Lemma handle_read_local p fd v path f n :
  readable p fd v path f -> handle_read tid fd n p = handle_local_read tid fd n (produces p path) p.
Proof.
  intros [_ (id & o & Hop) _ _ Hc _]. unfold handle_read, bind at 1, getPath, bind at 1.
  rewrite (descriptor_known _ _ _ _ (op_descriptor _ _ _ _ _ _ _ _ Hop)). simpl.
  unfold bind, gets, location_opt. simpl. fold (produces p path).
  destruct Hc as [->|(_ & m & z & -> & Hm)]; [|rewrite Hm, orb_true_r; done].
  by destruct (get_file_location_opt (locations p) path) as [[m z]|].
Qed.

(** Whatever is asked for, all the data up to a hole or less. *)
Lemma read_is_served p fd v path f n :
  readable p fd v path f -> 0 < n -> exists p' f' k id o b,
    handle_read tid fd n p = Done (tt, p') /\ data_buffers (client_manager p) !! tid = Some b
    /\ served p p' tid o id v k f [] (ServerToClient b) /\ k = Z.min n (run_length (_sectors f) v)
    /\ opened p tid fd path id o v f /\ opened p' tid fd path id o (v + k) f'
    /\ _sectors f' = _sectors f /\ (forall x, file_data f' x = file_data f x)
    /\ file_inv f' /\ _committed f' = _committed f.
Proof.
  intros Hr Hn. rewrite (handle_read_local p fd v path f n Hr).
  destruct Hr as [_ (id & o & Hop) Hinv Hv Hc [Hrep [b Hb]]].
  destruct (handle_local_read_spec os_succeeds p tid fd path id o v f n (produces p path) [] b Hop Hinv Hv Hn Hrep Hb)
    as (p' & E & Hcase).
  assert (Hcomplete : _committed f || produces p path = true) by (destruct Hc as [->|[-> _]]; [apply orb_true_r|done]).
  rewrite Hcomplete in Hcase. simpl in Hcase. destruct Hcase as (k & Hs & Hk & Hall & Hmax & _).
  destruct (sv_file _ _ _ _ _ _ _ _ _ _ Hs) as (f' & Hf' & Hsec & Hdata & Hinv' & _ & Hcom).
  exists p', f', k, id, o, b. split_and!; try done.
  - pose proof (fi_wf f Hinv) as Hwf. destruct Hmax as [->|Hnot].
    + rewrite Z.min_l; [done|]. destruct (decide (n <= run_length (_sectors f) v)); [done|].
      destruct (run_ends (_sectors f) v Hwf Hv). apply Hall. assert (0 <= run_length (_sectors f) v) by (unfold run_length; lia). lia.
    + rewrite (run_unique (_sectors f) v k) by (done || lia). lia.
  - destruct Hop as [Hd Hst _ _]. destruct (sv_storage _ _ _ _ _ _ _ _ _ _ Hs) as [Es Eo].
    split; [unfold descriptor_at in *; by rewrite Eo|by rewrite Es|done|by apply Hs].
Qed.

(** Taking the reply off the queue. *)
Definition pop_reply (p : Server) : Server :=
  set_client_manager (set_responses (<[tid := []]> (responses (client_manager p))) (client_manager p)) p.

Lemma complete_here_same p p' path f f' :
  locations p' = locations p -> app_names (client_manager p') = app_names (client_manager p) ->
  files_created_by_producer (client_manager p') = files_created_by_producer (client_manager p) ->
  files_created_by_app_name (client_manager p') = files_created_by_app_name (client_manager p) ->
  _committed f' = _committed f -> complete_here p path f -> complete_here p' path f'.
Proof.
  unfold complete_here, produces, isProducer, getAppName. intros -> -> -> -> ->. done.
Qed.

Lemma serve_handled r p p' :
  request_wf r -> send_call (call_of false r) = Done (req_text (call_of false r)) -> handle_request r p = Done (tt, p') ->
  serve (call_of false r) p = Done p'.
Proof.
  intros Hwf Hs E. simpl. rewrite Hs. cbn [outcome_bind]. rewrite request_roundtrip_run by done. by rewrite E.
Qed.

Lemma int32_64 x : int32 x -> int64 x.
Proof. unfold int32, int64. lia. Qed.

Lemma serve_read p fd n p' :
  int32 fd -> 0 < n < 2 ^ 63 -> handle_read tid fd n p = Done (tt, p') -> serve (read_request fd n tid) p = Done p'.
Proof.
  intros Hfd Hn E. apply (serve_handled (Read tid fd n)); [|fits_tac|done].
  split; [done|split; [done|unfold int64; lia]].
Qed.

Lemma readable_served p fd v path f n :
  readable p fd v path f -> 0 < n < 2 ^ 63 -> exists p1 p2 f' d,
    serve (read_request fd n tid) p = Done p1 /\ next_reply p1 = Some (v + Z.of_nat (length d), p2)
    /\ d = take (Z.to_nat n) (data_from f v)
    /\ from_server p2 = fifo_write _max_line_size d (from_server p)
    /\ readable p2 fd (v + Z.of_nat (length d)) path f'
    /\ data_from f' (v + Z.of_nat (length d)) = drop (length d) (data_from f v).
Proof.
  intros Hr Hn. destruct (read_is_served p fd v path f n Hr) as
    (p1 & f' & k & id & o & b & E & Hb & Hs & -> & Hop & Hop1 & Hsec & Hdata & Hinv' & Hcom); [lia|].
  pose proof (fi_wf f (rd_inv _ _ _ _ _ Hr)) as Hwf. pose proof (rd_offset _ _ _ _ _ Hr) as Hv.
  set (k := Z.min n (run_length (_sectors f) v)) in *. assert (Hk : 0 <= k <= run_length (_sectors f) v) by (unfold k, run_length; lia).
  set (d := file_data f <$> seqZ v k).
  assert (Hlen : Z.of_nat (length d) = k) by (unfold d; rewrite length_fmap, length_seqZ; lia).
  exists p1, (pop_reply p1), f', d. rewrite Hlen. destruct Hs as [Hrep Hsent Hoff _ _ [Est Eop] Eloc (Ea & Ep & Eap) _].
  split_and!.
  - apply serve_read; [apply Hr|done|done].
  - simpl. unfold ServerProps.replies in Hrep. by rewrite Hrep.
  - unfold d, data_from. rewrite <- fmap_take. f_equal. apply seqZ_take; [unfold run_length; lia|lia].
  - simpl. unfold buffers, pop_reply. simpl. unfold sent_data in Hsent.
    destruct (data_buffers (client_manager p1) !! tid) as [b1|]; [|done]. injection Hsent as Hsent. simpl. rewrite Hsent.
    rewrite Hb. simpl. by rewrite same_line.
  - destruct Hop1 as [H1 H2 H3 H4]. split; [apply Hr|by exists id, o|done|lia| |].
    + apply (complete_here_same p _ path f); [done|done|done|done|done|apply Hr].
    + split; [unfold ServerProps.replies; simpl; by rewrite lookup_insert_eq|]. simpl.
      unfold sent_data in Hsent. by destruct (data_buffers (client_manager p1) !! tid).
  - replace (length d) with (Z.to_nat k) by lia. rewrite data_from_drop by done. unfold data_from. rewrite Hsec.
    apply list_fmap_ext. intros i x _. apply Hdata.
Qed.

#[export] Instance server_reads : ReadingPeer Server.
Proof.
  refine {| ahead p fd := match open_view p fd with Some (v, f) => data_from f v | None => [] end;
            position p fd := match open_view p fd with Some (v, _) => v | None => 0 end;
            ready p fd := exists v path f, readable p fd v path f |}.
  - intros p fd n (v & path & f & Hr) Hn. destruct (readable_served p fd v path f n Hr Hn)
      as (p1 & p2 & f' & d & E1 & E2 & Hd & Hq & Hr' & Hrest).
    destruct (rd_open _ _ _ _ _ Hr) as (id & o & Hop). rewrite (opened_view _ _ _ _ _ _ _ Hop).
    destruct (rd_open _ _ _ _ _ Hr') as (id' & o' & Hop').
    exists p1, p2, d. rewrite (opened_view _ _ _ _ _ _ _ Hop'). split_and!; try done.
    + rewrite Hd, length_take. lia.
    + rewrite Hd. apply prefix_take.
    + intros ->. destruct (data_from f v); [done|]. destruct (Z.to_nat n) eqn:En; [lia|done].
    + by exists (v + Z.of_nat (length d)), path, f'.
  - intros p fd q (v & path & f & [Hi (id & o & [H1 H2 H3 H4]) Hinv Hv Hc [Hrep Hb]]). exists v, path, f.
    split; [done|by exists id, o|done|done|done|]. split; [done|]. simpl. by rewrite lookup_insert_eq.
  - done.
  - done.
Defined.

(** *** Writes *)

Hypothesis line_pos : 0 < _max_line_size.

(** The descriptor is open at [v] on [f] and the thread has queued [q]. *)
Record writable (p : Server) (fd v : Z) (path : string) (f : CapioFile) (q : list (list cell)) : Prop := {
  wb_int : int32 fd;
  wb_open : exists id o, opened p tid fd path id o v f;
  wb_inv : file_inv f;
  wb_live : live (_buffer f);
  wb_offset : 0 <= v;
  wb_first : _first_write f = false;
  wb_registered : is_Some (files_created_by_producer (client_manager p) !! tid);
  wb_replies : ServerProps.replies p tid = Some [];
  wb_queue : exists b, data_buffers (client_manager p) !! tid = Some b /\ fifo_pending (ClientToServer b) = q
}.

(** [f] has the bytes [d] from [v] on. *)
Definition has_data (f : CapioFile) (v : Z) (d : list cell) : Prop :=
  forall i c, d !! i = Some c -> holds (_sectors f) (v + Z.of_nat i) /\ file_data f (v + Z.of_nat i) = c.

Lemma serve_write p fd v path f x0 d rest :
  let n := Z.of_nat (length d) in
  writable p fd (v + Z.of_nat (length x0)) path f (write_chunks _max_line_size d ++ rest) -> n < 2 ^ 63 ->
  has_data f v x0 ->
  exists p' f', serve (write_request fd n tid) p = Done p'
    /\ writable p' fd (v + Z.of_nat (length (x0 ++ d))) path f' rest
    /\ has_data f' v (x0 ++ d) /\ from_server p' = from_server p /\ produces p' path = true.
Proof.
  intros n [Hi (id & o & Hop) Hinv Hl Hv Hfirst Hreg Hrep (b & Hb & Hq)] Hn Hx. set (v' := v + Z.of_nat (length x0)) in *.
  rewrite <- same_line in Hq.
  destruct (write_handler_spec os_succeeds ltac:(by rewrite same_line) p tid fd path id o v' f b d rest Hop Hinv (or_introl Hl) Hv Hfirst Hb Hreg Hq)
    as (p' & f' & E & W).
  exists p', f'. split.
  { apply (serve_handled (Write tid fd n)); [|fits_tac|exact E].
    split; [done|]. split; [done|]. unfold int64, n. lia. }
  destruct W as [Hop' Hinv' Hsec Hnew Hold Hl' _ _ Hres Hdb Hprod Hf' Hreg'].
  split_and!.
  - specialize (Hl' Hl). split; try done.
    + exists id, o. rewrite length_app. replace (v + Z.of_nat (length x0 + length d)) with (v' + Z.of_nat (length d)) by (unfold v'; lia).
      done.
    + rewrite length_app. lia.
    + by rewrite Hf'.
    + unfold ServerProps.replies in *. by rewrite Hres.
    + eexists. split; [exact Hdb|]. by eapply fifo_skip_pending.
  - intros i c Hic. rewrite Hsec. apply lookup_app_Some in Hic as [Hic|[Hge Hic]].
    + destruct (Hx i c Hic) as [Hh Hc]. apply lookup_lt_Some in Hic. split.
      * apply insertSector_holds_sub; [apply Hinv|lia|by left].
      * rewrite Hold; [done|done|unfold v'; lia].
    + pose proof (lookup_lt_Some _ _ _ Hic) as Hlt. assert (Hr : v' <= v + Z.of_nat i < v' + Z.of_nat (length d)) by (unfold v'; lia).
      split; [apply insertSector_holds_sub; [apply Hinv|lia|by right]|]. rewrite Hnew by done.
      replace (Z.to_nat (v + Z.of_nat i - v')) with (i - length x0)%nat by (unfold v'; lia). by rewrite Hic.
  - simpl. unfold buffers. rewrite Hdb, Hb. done.
  - unfold produces. by rewrite Hprod, orb_true_r.
Qed.

(** All the write requests of a descriptor. *)
Lemma serve_writes fd path ws p v f x0 :
  writable p fd (v + Z.of_nat (length x0)) path f (concat (wchunks <$> ws)) -> has_data f v x0 ->
  Forall (fun w => w.1 = fd /\ Z.of_nat (length w.2) < 2 ^ 63) ws ->
  exists p' f', serve_all (wreq <$> ws) p = Done p'
    /\ writable p' fd (v + Z.of_nat (length (x0 ++ concat ws.*2))) path f' []
    /\ has_data f' v (x0 ++ concat ws.*2) /\ from_server p' = from_server p /\ (ws <> [] -> produces p' path = true).
Proof.
  revert p f x0. induction ws as [|[fd' d] ws IH]; intros p f x0 Hw Hx Hws.
  { exists p, f. simpl. rewrite app_nil_r. by split_and!. }
  apply Forall_cons in Hws as [[Hfd Hlen] Hws]. simpl in Hfd, Hlen. subst fd'.
  destruct (serve_write p fd v path f x0 d _ Hw Hlen Hx) as (p1 & f1 & E1 & Hw1 & Hx1 & Hq1 & Hp1).
  destruct (IH p1 f1 (x0 ++ d) Hw1 Hx1 Hws) as (p' & f' & E & Hw' & Hx' & Hq' & Hp').
  exists p', f'. rewrite <- app_assoc in Hw', Hx'. split_and!; try done.
  - cbn [fmap list_fmap serve_all]. unfold wreq at 1. cbn [fst snd]. rewrite E1. done.
  - by rewrite Hq'.
  - intros _. destruct ws as [|w ws]; [|by apply Hp']. simpl in E. injection E as <-. done.
Qed.

(** *** Seeks *)

Lemma writable_reads p fd v path f :
  writable p fd v path f [] -> produces p path = true -> readable p fd v path f.
Proof. intros [Hi Hop Hinv Hl Hv _ _ Hrep (b & Hb & _)] Hp. split; try done; [by left]. Qed.

Lemma serve_seek p fd v v' path f :
  readable p fd v path f -> 0 <= v' < 2 ^ 63 ->
  exists p1 p2, serve (seek_request fd v' tid) p = Done p1 /\ next_reply p1 = Some (v', p2)
    /\ readable p2 fd v' path f /\ from_server p2 = from_server p.
Proof.
  intros [Hi (id & o & Hop) Hinv Hv Hc [Hrep Hb]] Hv'.
  set (p0 := set_offsets (<[o := v']> (offsets p)) p).
  destruct (twp_setFileOffset tid fd path id o v f p v' (fun _ s' => s' = p0) Hop eq_refl) as ([] & s & E & ->).
  set (p1 := set_client_manager (set_responses (<[tid := [v']]> (responses (client_manager p))) (client_manager p)) p0).
  exists p1, (pop_reply p1). split.
  { apply (serve_handled (Seek tid fd v')).
    - split; [done|]. by split.
    - fits_tac.
    - cbn [handle_request]. unfold handle_lseek, bind. rewrite E. simpl. unfold reply, on_clients, zoom, replyToClient.
      change (responses (client_manager p0) !! tid) with (ServerProps.replies p tid). by rewrite Hrep. }
  split; [simpl; by rewrite lookup_insert_eq|]. split; [|done]. destruct Hop as [H1 H2 H3 H4]. split; try done; [|lia|].
  - exists id, o. split; try done. simpl. by rewrite lookup_insert_eq.
  - split; [|done]. unfold ServerProps.replies. simpl. by rewrite lookup_insert_eq.
Qed.

(** *** The client *)

(** The descriptor is open for writing whatever the thread has queued, and nothing
    has been read. *)
Definition writing (fd v : Z) (path : string) (f : CapioFile) (q : Fifo) (c : Client Server) : Prop :=
  (exists w, writable (server c) fd v path f w) /\ read_cache c = ReadCache_new /\ from_server (server c) = q.

Lemma writing_queue fd v path f q q' c :
  writing fd v path f q c -> writing fd v path f q (set_server (set_to_server q' (server c)) c).
Proof using.
  intros ((w & [Hi (id & o & [H1 H2 H3 H4]) Hinv Hl Hv Hf Hreg Hrep (b & Hb & Hq)]) & Hrc & Hfrom). split; [|split; [done|]].
  - eexists. split; try done; [by exists id, o|]. eexists. simpl. by rewrite lookup_insert_eq.
  - simpl. unfold buffers. simpl. rewrite lookup_insert_eq. simpl. exact Hfrom.
Qed.

Ltac writing_tac := preserves_caches ltac:(intros; first [done|by apply writing_queue]).
Lemma flush_keeps fd v path f q : preserves (writing fd v path f q) WriteCache_flush.
Proof using. writing_tac. Qed.
Lemma write_keeps fd' fd v path f q d : preserves (writing fd v path f q) (WriteCache_write fd' d).
Proof using. writing_tac. Qed.

(** The application writes its buffers to the descriptor. *)
Definition write_buffers (fd : Z) (bs : list (list cell)) : M (Client Server) unit :=
  for_each bs (fun b => let* _ := capio_write fd b in ret tt).

Lemma capio_write_cached fd b (c : Client Server) :
  read_cache c = ReadCache_new -> is_Some (files (tables c) !! fd) -> files (tables c) !! (-1) = None ->
  Z.of_nat (length b) < 2 ^ 63 ->
  capio_write fd b c = bind (WriteCache_write fd b) (fun _ => ret (Ret (Z.of_nat (length b)))) c.
Proof using.
  intros Hrc Hfd Hno Hlen. unfold capio_write, bind at 1, on_tables at 1, zoom at 1, exists_capio_fd, gets.
  rewrite bool_decide_eq_true_2 by done. cbn [outcome_bind]. replace (set_tables (tables c) c) with c by by destruct c.
  rewrite (proj2 (Z.ltb_ge SSIZE_MAX _)) by (unfold SSIZE_MAX; lia).
  assert (Hc : ReadCache_cachesFileOf fd c = Done (false, c)).
  { unfold ReadCache_cachesFileOf, bind at 1, get. cbn [outcome_bind]. rewrite Hrc. simpl.
    assert (fd <> -1) by (intros ->; destruct Hfd; congruence). rewrite (proj2 (Z.eqb_neq fd (-1))) by done.
    unfold bind, on_tables, zoom, exists_capio_fd, gets. rewrite Hno. simpl. by destruct c. }
  unfold capio_cached_write, bind at 1 2. rewrite Hc. cbn [outcome_bind when]. done.
Qed.

Lemma write_buffers_run fd v path f q bs t fd' x (c : Client Server) :
  fs_wf t -> is_Some (files t !! fd) -> files t !! (-1) = None -> wc_stream t fd' x c -> writing fd v path f q c ->
  Forall (fun b => Z.of_nat (length b) < 2 ^ 63) bs ->
  ends (write_buffers fd bs) c (fun c' => exists t' fd'', wc_stream t' fd'' (x ++ (pair fd <$> concat bs)) c'
    /\ writing fd v path f q c' /\ fs_wf t' /\ files t' = files t).
Proof using line_pos.
  revert t fd' x c. induction bs as [|b bs IH]; intros t fd' x c Hwf Hfd Hno Hs Hw Hbs.
  { exists c. split; [done|]. exists t, fd'. simpl. by rewrite app_nil_r. }
  apply Forall_cons in Hbs as [Hb Hbs]. assert (Ht : tables c = t) by by destruct Hs as (? & ? & (_ & ? & _) & _).
  destruct (wc_write line_pos t fd fd' x b c Hwf Hfd Hs) as (c1 & E1 & t1 & Hadv & Hs1).
  destruct (advanced_wf _ _ _ _ Hwf Hadv) as [Hwf1 Hfiles].
  pose proof (write_keeps fd fd v path f q b c tt c1 Hw E1) as Hw1.
  destruct (IH t1 fd (x ++ (pair fd <$> b)) c1) as (c' & E & t' & fd'' & Hs' & Hw' & Hwf' & Hf'); [done|by rewrite Hfiles..|done|done|done|].
  exists c'. split.
  - unfold write_buffers. cbn [for_each]. unfold bind at 1 2. rewrite capio_write_cached; [|apply Hw|by rewrite Ht..|done].
    unfold bind at 1. rewrite E1. cbn [outcome_bind ret]. exact E.
  - exists t', fd''. simpl. rewrite fmap_app, app_assoc, Hf'. by split_and!.
Qed.

Lemma serve_all_app cs cs' (p p1 : Server) : serve_all cs p = Done p1 -> serve_all (cs ++ cs') p = serve_all cs' p1.
Proof using.
  revert p. induction cs as [|x cs IH]; intros p; simpl; [by intros [= ->]|].
  destruct (outcome_bind (send_call x) _) as [p'| | | |]; simpl; try done. apply IH.
Qed.

Lemma tagged_same fd x ws :
  tagged ws = pair fd <$> x -> Forall (fun w => w.2 <> []) ws ->
  Forall (fun w => w.1 = fd) ws /\ concat ws.*2 = x /\ Forall (fun w => (length w.2 <= length x)%nat) ws.
Proof using.
  revert x. induction ws as [|[fd' d] ws IH]; intros x Ht Hne.
  { destruct x; [|done]. by split_and!. }
  apply Forall_cons in Hne as [Hd Hne]. simpl in Hd. unfold tagged in Ht. simpl in Ht. fold (tagged ws) in Ht.
  symmetry in Ht. apply fmap_app_inv in Ht as (x1 & x2 & H1 & H2 & ->).
  destruct (IH x2 H2 Hne) as (Hf & Hc & Hl).
  assert (d = x1) as ->.
  { apply (f_equal (fmap snd)) in H1. rewrite <- !list_fmap_compose in H1. unfold compose in H1. simpl in H1. by rewrite !list_fmap_id in H1. }
  split_and!.
  - apply Forall_cons. split; [|done]. destruct x1 as [|z x1]; [done|]. simpl in H1. injection H1 as -> _. done.
  - change (x1 ++ concat ws.*2 = x1 ++ x2). by rewrite Hc.
  - apply Forall_cons. rewrite length_app. split; [simpl; lia|]. eapply Forall_impl; [exact Hl|]. simpl. intros; lia.
Qed.

(** Data at [v] is the data from [v] on. *)
Lemma has_data_prefix f v d : sectors_wf (_sectors f) -> 0 <= v -> has_data f v d -> d `prefix_of` data_from f v.
Proof using.
  intros Hwf Hv Hd. assert (Hrun : Z.of_nat (length d) <= run_length (_sectors f) v).
  { apply Z.nlt_ge. intros Hlt. assert (Hn : 0 <= run_length (_sectors f) v) by (unfold run_length; lia).
    destruct (lookup_lt_is_Some_2 d (Z.to_nat (run_length (_sectors f) v))) as [x Hx]; [lia|].
    destruct (Hd _ _ Hx) as [Hh _]. rewrite Z2Nat.id in Hh by done. by apply (run_ends (_sectors f) v). }
  etrans; [|apply (data_from_prefix f v (Z.of_nat (length d))); lia].
  apply (reflexive_eq (R := prefix)). apply list_eq. intros i. rewrite list_lookup_fmap.
  destruct (decide (i < length d)%nat) as [Hlt|Hge].
  - rewrite lookup_seqZ_lt by lia. simpl. destruct (lookup_lt_is_Some_2 d i Hlt) as [x Hx]. rewrite Hx.
    f_equal. symmetry. by apply Hd.
  - rewrite lookup_seqZ_ge by lia. simpl. apply lookup_ge_None. lia.
Qed.

Lemma read_flush_new (c : Client Server) : read_cache c = ReadCache_new -> ReadCache_flush c = Done (tt, c).
Proof using. intros E. unfold ReadCache_flush, bind, get. simpl. by rewrite E. Qed.
Lemma write_flush_empty (c : Client Server) : wc_actual_size (write_cache c) = 0 -> WriteCache_flush c = Done (tt, c).
Proof using. intros E. unfold WriteCache_flush, bind, get. simpl. by rewrite E. Qed.

(** The server gets the requests, then the seek. *)
Lemma serve_writes_seek fd v path f ws x p :
  writable p fd v path f (concat (wchunks <$> ws)) -> tagged ws = pair fd <$> x -> Forall (fun w => w.2 <> []) ws ->
  x <> [] -> Z.of_nat (length x) < 2 ^ 63 -> v < 2 ^ 63 ->
  exists p1 p2 f', serve_all ((wreq <$> ws) ++ [seek_request fd v tid]) p = Done p1 /\ next_reply p1 = Some (v, p2)
    /\ readable p2 fd v path f' /\ x `prefix_of` data_from f' v /\ from_server p2 = from_server p.
Proof.
  intros Hw Ht Hne Hx Hlen Hv. destruct (tagged_same fd x ws Ht Hne) as (Hfd & Hc & Hl).
  assert (Hv0 : 0 <= v) by apply Hw.
  destruct (serve_writes fd path ws p v f []) as (p0 & f' & E0 & Hw0 & Hd0 & Hq0 & Hp0).
  - simpl. by rewrite Z.add_0_r.
  - by intros i c Hi.
  - apply Forall_forall. intros w Hin. rewrite Forall_forall in Hfd, Hl. split; [by apply Hfd|]. specialize (Hl w Hin). lia.
  - simpl in Hw0, Hd0. rewrite Hc in Hw0, Hd0.
    assert (Hr0 : readable p0 fd (v + Z.of_nat (length x)) path f').
    { apply writable_reads; [done|]. apply Hp0. intros ->. done. }
    destruct (serve_seek p0 fd _ v path f' Hr0) as (p1 & p2 & E1 & E2 & Hr & Hq); [lia|].
    exists p1, p2, f'. split_and!; [|done|done| |by rewrite Hq].
    + rewrite (serve_all_app _ _ _ _ E0). cbn [serve_all]. by rewrite E1.
    + apply has_data_prefix; [apply Hr|done|done].
Qed.

(** A seek sends what is in the cache first. *)
Lemma seek_after_writes fd v path f q fd' x t (c : Client Server) :
  fs_wf t -> is_Some (files t !! fd) -> wc_stream t fd' (pair fd <$> x) c -> writing fd v path f q c ->
  0 <= v < 2 ^ 63 -> x <> [] -> Z.of_nat (length x) < 2 ^ 63 ->
  exists c' f', capio_lseek fd v SEEK_SET c = Done (Ret v, c') /\ readable (server c') fd v path f'
    /\ x `prefix_of` data_from f' v /\ outbox c' = [] /\ at_offset fd v (tables c')
    /\ read_cache c' = ReadCache_new /\ from_server (server c') = q.
Proof.
  intros Hwf [g Hg] (ws & d & Hat & Htag) Hw Hv Hx Hlen.
  destruct (wc_flush line_pos t fd' ws d c Hat) as (c1 & E1 & [Ho Hsz _ (full & Hsl & Hn & Hdrop & _) Hne] & Ht1 & _).
  pose proof (flush_keeps _ _ _ _ _ _ _ _ Hw E1) as ((w & Hw1) & Hrc1 & Hq1).
  rewrite <- tagged_close_line in Htag. set (ws' := close_line fd' ws d) in *.
  assert (Hw1' : writable (server c1) fd v path f (concat (wchunks <$> ws'))).
  { destruct Hw1 as [Hi Hop Hinv Hl Hv1 Hf Hreg Hrep (b & Hb & Hq)]. split; try done. exists b. split; [done|].
    unfold to_server, server_peer, buffers in Hsl, Hn, Hdrop. rewrite Hb in Hsl, Hn, Hdrop. simpl in Hsl, Hn, Hdrop.
    unfold fifo_pending. rewrite Hsl, app_nil_r. exact Hdrop. }
  destruct (serve_writes_seek fd v path f ws' x (server c1) Hw1' Htag Hne Hx Hlen) as (p1 & p2 & f' & Es & Er & Hr & Hpre & Hq2); [lia|].
  destruct (wf_offsets t Hwf fd g Hg) as [o Hoff].
  assert (Hat1 : at_offset fd o (tables c1)) by (exists g; by rewrite Ht1).
  destruct (at_offset_set fd o v (tables c1) Hat1) as (t2 & Et & Hoff').
  exists (set_server p2 (set_outbox [] (set_outbox (outbox c1 ++ [seek_request fd v tid]) (set_tables t2 c1)))), f'.
  split_and!; try done; [|by rewrite <- Hq1].
  assert (Hrc : read_cache c = ReadCache_new) by apply Hw. assert (Htab : tables c = t) by apply Hat.
  unfold capio_lseek. apply (bind_done _ _ _ true c).
  { unfold on_tables, zoom, exists_capio_fd, gets. rewrite Htab, bool_decide_eq_true_2 by by eexists. rewrite <- Htab. by destruct c. }
  cbn [negb]. eapply bind_done; [by apply read_flush_new|]. eapply bind_done; [exact E1|].
  apply (bind_done _ _ _ o c1).
  { unfold on_tables, zoom. rewrite (at_offset_get _ _ _ Hat1). by destruct c1. }
  cbn [Z.eqb SEEK_SET]. rewrite (proj2 (Z.leb_le 0 v)) by lia. apply (bind_done _ _ _ tt (set_server p2 (set_outbox [] (set_outbox (outbox c1 ++ [seek_request fd v tid]) (set_tables t2 c1))))); [|done].
  unfold capio_set_fd_offset. eapply bind_done; [by apply read_flush_new|]. eapply bind_done; [by apply write_flush_empty|].
  apply (bind_done _ _ _ tt (set_tables t2 c1)); [unfold on_tables, zoom; by rewrite Et|].
  apply (bind_done _ _ _ v (set_server p2 (set_outbox [] (set_outbox (outbox c1 ++ [seek_request fd v tid]) (set_tables t2 c1))))); [|done].
  unfold ask. eapply bind_done; [reflexivity|]. unfold wait_reply. cbn [outbox set_outbox set_tables server].
  rewrite Ho, Es. cbn [outcome_bind]. by rewrite Er.
Qed.
End Peer.

(** ** End to end *)

Section EndToEnd.
Context `{Config} `{Thread}.
Hypothesis os_succeeds : forall n, fst (os n) = kernel_ok /\ 0 <= snd (os n).
Hypothesis same_line : getCacheLineSize = _max_line_size.
Hypothesis tid_int : int32 tid.
Hypothesis line_pos : 0 < _max_line_size < 2 ^ 63.

(** Reading through the cache from a descriptor of the server. *)
Lemma read_all_file fd v path f counts (c : Client Server) :
  readable (server c) fd v path f -> read_cache c = ReadCache_new -> outbox c = [] -> at_offset fd v (tables c) ->
  f_next (from_server (server c)) = length (f_slots (from_server (server c))) ->
  sizes_ok counts ->
  exists ds c', read_all fd counts c = Done (ds, c') /\ in_order counts ds (data_from f v) /\
    at_offset fd (v + Z.of_nat (length (concat ds))) (tables c').
Proof.
  intros Hr Hrc Ho Hoff Hn Hc. destruct (rd_open _ _ _ _ _ Hr) as (id & o & Hop).
  pose (HP := server_reads os_succeeds same_line tid_int).
  assert (Hah : ahead (server c) fd = data_from f v) by (simpl; by rewrite (opened_view _ _ _ _ _ _ _ Hop)).
  assert (Hpos : position (server c) fd = v) by (simpl; by rewrite (opened_view _ _ _ _ _ _ _ Hop)).
  apply (rc_read_all line_pos fd counts v [] (data_from f v)); [|done|by left].
  split; rewrite ?Hrc; try done; [by exists v, path, f|by left|apply prefix_nil|rewrite Hpos; simpl; lia].
Qed.
End EndToEnd.

(** C3. Reads reach the file.  A client reads through its read cache, which is empty at first, with a
    sequence of counts, the ones of more than a line before the others
    ([long_read_after_prefetch_misreads] says what happens otherwise), from the server's
    own loop: the requests go through
    their text and the table of handlers, the data through the queue.  When the file
    is complete for the thread and on this node (committed, or of its own making), the
    two use the same line size and the calls of the operating system succeed, each read
    gets the next bytes that the file holds from the descriptor's offset on, up to a
    hole or the end, at most its count, and is empty only
    there; the offset of the client ends after what it got. *)
Theorem reads_reach_the_file `{Config} `{Thread} fd v path f counts (c : Client Server) :
  (forall n, fst (os n) = kernel_ok /\ 0 <= snd (os n)) -> getCacheLineSize = _max_line_size -> int32 tid ->
  0 < _max_line_size < 2 ^ 63 -> sizes_ok counts ->
  readable (server c) fd v path f ->
  read_cache c = ReadCache_new -> outbox c = [] -> at_offset fd v (tables c) ->
  f_next (from_server (server c)) = length (f_slots (from_server (server c))) ->
  exists ds c', read_all fd counts c = Done (ds, c') /\ in_order counts ds (data_from f v) /\
    at_offset fd (v + Z.of_nat (length (concat ds))) (tables c').
Proof. intros Hos Hl Ht Hline Hc Hr Hrc Ho Hoff Hn. by eapply (read_all_file Hos Hl Ht Hline fd v path f). Qed.

(** C1. A process reads what it wrote, end to end.  It writes buffers of any sizes,
    with at least one byte, through the write cache, seeks back and reads through the read cache, with a sequence
    of counts, the ones of more than a line before the others (a read of more than a line that
    finds a part of a line prefetched goes wrong, [long_read_after_prefetch_misreads]); the server
    takes the requests in order, from their text, and the data from the queues.  The
    calls return; from the offset on the file then holds the buffers, one after the
    other; each read gets the next bytes of the file from that offset, at most its count,
    and none only at a hole or the end: so every byte read up to the end of the buffers is
    the one that was written there.  At first the caches are empty and no request waits; the
    descriptor is of a registered thread, on a file whose location is published and
    whose buffer can grow; client and server use the same line size, and the calls of the
    operating system succeed. *)
Theorem client_reads_its_writes `{Config} `{Thread} fd v path f bs counts (c : Client Server) :
  (forall n, fst (os n) = kernel_ok /\ 0 <= snd (os n)) -> getCacheLineSize = _max_line_size -> int32 tid ->
  0 < _max_line_size < 2 ^ 63 -> sizes_ok counts ->
  fs_wf (tables c) -> is_Some (files (tables c) !! fd) -> files (tables c) !! (-1) = None ->
  read_cache c = ReadCache_new -> write_cache c = WriteCache_new -> outbox c = [] ->
  f_next (from_server (server c)) = length (f_slots (from_server (server c))) ->
  (f_next (to_server (server c)) <= length (f_slots (to_server (server c))))%nat ->
  writable (server c) fd v path f [] -> v < 2 ^ 63 ->
  concat bs <> [] -> Z.of_nat (length (concat bs)) < 2 ^ 63 ->
  exists c1 c2 ds c3 f', write_buffers fd bs c = Done (tt, c1) /\ capio_lseek fd v SEEK_SET c1 = Done (Ret v, c2)
    /\ read_all fd counts c2 = Done (ds, c3)
    /\ open_view (server c2) fd = Some (v, f') /\ concat bs `prefix_of` data_from f' v
    /\ in_order counts ds (data_from f' v).
Proof.
  intros Hos Hl Ht Hline Hc Hwf Hfd Hno Hrc Hwc Ho Hnf Hnt Hw Hv Hne Hlen.
  assert (Hlens : Forall (fun b => Z.of_nat (length b) < 2 ^ 63) bs).
  { apply Forall_forall. intros b (l1 & l2 & ->)%list_elem_of_split. rewrite concat_app, length_app in Hlen. simpl in Hlen.
    rewrite length_app in Hlen. lia. }
  destruct (write_buffers_run (proj1 Hline) fd v path f (from_server (server c)) bs (tables c) (-1) [] c)
    as (c1 & E1 & t1 & fd1 & Hs1 & Hw1 & Hwf1 & Hf1); [done|done|done| |by split; [eexists|]|done|].
  { exists [], []. split; [|done]. split; [|by rewrite Hwc]. split; rewrite ?Hwc; try done; [simpl; lia|].
    exists (f_slots (to_server (server c))). rewrite app_nil_r. split_and!; [done|done| |done].
    destruct Hw as [_ _ _ _ _ _ _ _ (b & Hb & Hq)]. simpl. unfold buffers. by rewrite Hb. }
  destruct (seek_after_writes Hos Hl Ht (proj1 Hline) fd v path f (from_server (server c)) fd1 (concat bs) t1 c1)
    as (c2 & f' & E2 & Hr & Hpre & Ho2 & Hoff2 & Hrc2 & Hq2); [done|by rewrite Hf1|done|done|split; [apply Hw|done]|done|done|].
  destruct (read_all_file Hos Hl Ht Hline fd v path f' counts c2 Hr Hrc2 Ho2 Hoff2) as (ds & c3 & E3 & Hd & _);
    [by rewrite Hq2|done|].
  destruct (rd_open _ _ _ _ _ Hr) as (id & o & Hop).
  exists c1, c2, ds, c3, f'. split_and!; try done. by apply (opened_view _ _ _ _ _ _ _ Hop).
Qed.

(** ** Witnesses *)

#[local] Instance demo_thread : Thread := {| tid := 7; _max_line_size := 4 |}.
Definition e2e_server : Server :=
  let H := demo_config true in
  pop_reply (state_of (run [start_server 1; handle_request (HandshakeNamed 7 7 "app" false); handle_request (Create 7 3 "/c/f")])).
Definition e2e_client : Client Server := {|
  tables := demo_fs; read_cache := ReadCache_new; write_cache := WriteCache_new; outbox := []; server := e2e_server |}.
Definition e2e_file : CapioFile := default CapioFile_default (heap e2e_server !! 1).

Lemma e2e_writable : @writable (demo_thread) e2e_server 3 0 "/c/f" e2e_file [].
Proof.
  split.
  - unfold int32; lia.
  - exists 1, 0. split; vm_compute; reflexivity.
  - apply (same_data_inv (CapioFile_directory false 0 false 64 0)); [|apply file_inv_directory; lia]. vm_compute. auto.
  - exact I.
  - lia.
  - vm_compute. reflexivity.
  - vm_compute. by eexists.
  - vm_compute. reflexivity.
  - eexists. split; vm_compute; reflexivity.
Qed.

Lemma client_reads_its_writes_witness :
  let H := demo_config true in
  let bs := [[Some x61; Some x62]; [Some x63; Some x64; Some x65; Some x66; Some x67]] in
  exists c1 c2 ds c3 f', write_buffers 3 bs e2e_client = Done (tt, c1) /\ capio_lseek 3 0 SEEK_SET c1 = Done (Ret 0, c2)
    /\ read_all 3 [5; 3; 4] c2 = Done (ds, c3) /\ concat bs `prefix_of` data_from f' 0 /\ in_order [5; 3; 4] ds (data_from f' 0).
Proof.
  intros H bs.
  destruct (@client_reads_its_writes H demo_thread 3 0 "/c/f" e2e_file bs [5; 3; 4] e2e_client)
    as (c1 & c2 & ds & c3 & f' & E1 & E2 & E3 & _ & Hb & Hd).
  - intros n. split; [reflexivity|vm_compute; discriminate].
  - reflexivity.
  - unfold int32; simpl; lia.
  - vm_compute; split; reflexivity.
  - exists [5], [3; 4]. split; [reflexivity|]. split; repeat constructor; simpl; lia.
  - exact (fs_reachable_wf "/" demo_fs demo_fs_reachable).
  - vm_compute. by eexists.
  - vm_compute. reflexivity.
  - reflexivity.
  - reflexivity.
  - reflexivity.
  - vm_compute. reflexivity.
  - vm_compute. lia.
  - exact e2e_writable.
  - lia.
  - discriminate.
  - vm_compute. reflexivity.
  - exists c1, c2, ds, c3, f'. split; [exact E1|]. split; [exact E2|]. split; [exact E3|]. split; [exact Hb|exact Hd].
Defined.

(** The same after a write of three bytes and a seek back. *)
Definition e2e_written : Server :=
  let H := demo_config true in
  pop_reply (state_of (run [start_server 1; handle_request (HandshakeNamed 7 7 "app" false); handle_request (Create 7 3 "/c/f");
    client_data 7 [Some x61; Some x62; Some x63]; handle_request (Write 7 3 3); handle_request (Seek 7 3 0)])).
Definition e2e_written_file : CapioFile := default CapioFile_default (heap e2e_written !! 1).

Lemma e2e_sectors : _sectors e2e_written_file = [(0, 3)].
Proof. vm_compute. reflexivity. Qed.

Lemma e2e_readable : @readable (demo_config true) demo_thread e2e_written 3 0 "/c/f" e2e_written_file.
Proof.
  split.
  - unfold int32; lia.
  - exists 1, 0. split; vm_compute; reflexivity.
  - split.
    + rewrite e2e_sectors. split; repeat constructor; simpl; lia.
    + rewrite e2e_sectors. split; [vm_compute; discriminate|]. split; [|vm_compute; discriminate].
      apply Forall_cons_2; [|apply Forall_nil_2]. split; [simpl; lia|split; [simpl; lia|vm_compute; discriminate]].
    + vm_compute. by split.
  - lia.
  - left. vm_compute. reflexivity.
  - split; [vm_compute; reflexivity|]. vm_compute. by eexists.
Qed.
Lemma reads_reach_the_file_witness :
  let H := demo_config true in
  exists ds c', read_all 3 [2; 3; 1] (set_server e2e_written e2e_client) = Done (ds, c')
    /\ in_order [2; 3; 1] ds [Some x61; Some x62; Some x63].
Proof.
  intros H. assert (Hdata : data_from e2e_written_file 0 = [Some x61; Some x62; Some x63]) by (vm_compute; reflexivity).
  destruct (@reads_reach_the_file H demo_thread 3 0 "/c/f" e2e_written_file [2; 3; 1] (set_server e2e_written e2e_client)) as (ds & c' & E & Hd & _).
  - intros n. split; [reflexivity|vm_compute; discriminate].
  - reflexivity.
  - unfold int32; simpl; lia.
  - vm_compute; split; reflexivity.
  - exists [], [2; 3; 1]. split; [reflexivity|]. split; repeat constructor; simpl; lia.
  - exact e2e_readable.
  - reflexivity.
  - reflexivity.
  - eexists. split; reflexivity.
  - vm_compute. reflexivity.
  - exists ds, c'. split; [exact E|]. rewrite <- Hdata. exact Hd.
Defined.
