(* ===== verification/CopyEndToEnd.v ===== *)
(** * copy_file_range, from the client to the files of the server

    The server of [Server] keeps what [CopyingPeer] promises, so that the copies of
    [posix/handlers/copy_file_range.hpp] between two CAPIO files move the bytes of
    the files that the server stores. *)
From S2P Require Import Prelude Text Sectors Memory Queue FileBuffer CapioFile ClientManager Locations Server StorageManager Handlers RemoteHandlers ServerInv ServerProps ServerBehaviour Requests PosixPath PosixFs PosixCache PosixCacheProps PosixCalls PosixCopy PosixCopyProps EndToEnd.

(** ** The handler of the server *)

Section Copies.
Context `{Config} `{Thread}.
Hypothesis os_succeeds : forall n, fst (os n) = kernel_ok /\ 0 <= snd (os n).
Hypothesis tid_int : int32 tid.

(** The thread has [f] open for reading as [fd_in], complete and on this node, and
    [g], another file that it has created, as [fd_out]. *)
Record copies (p : Server) (fd_in fd_out id_in id_out : Z) (path_in path_out : string) (f g : CapioFile) : Prop := {
  co_in : exists o v, opened p tid fd_in path_in id_in o v f;
  co_out : exists o v, opened p tid fd_out path_out id_out o v g;
  co_ints : int32 fd_in /\ int32 fd_out;
  co_two : id_in <> id_out;
  co_inv : file_inv f /\ file_inv g;
  co_live : live (_buffer g);
  co_first : _first_write g = false;
  co_complete : complete_here p path_in f;
  co_registered : is_Some (files_created_by_producer (client_manager p) !! tid);
  co_replies : ServerProps.replies p tid = Some []
}.

(** What a copy of [k] bytes leaves: the output is [g'], and the client is told [k]. *)
Record copied (p p1 : Server) (id_out : Z) (path_out : string) (f g g' : CapioFile) (oi oo k : Z) : Prop := {
  cd_heap : heap p1 = <[id_out := g']> (heap p);
  cd_storage : _storage p1 = _storage p /\ _opened_fd_map p1 = _opened_fd_map p /\ offsets p1 = offsets p;
  cd_locations : locations p1 = locations p;
  cd_clients : exists c, (c = client_manager p \/ c = registerProducedFile tid path_out (client_manager p)) /\
    client_manager p1 = set_responses (<[tid := [k]]> (responses c)) c;
  cd_inv : file_inv g' /\ live (_buffer g') /\ _first_write g' = false;
  cd_new x : oo <= x < oo + k -> holds (_sectors g') x /\ file_data g' x = file_data f (x - oo + oi);
  cd_old x : holds (_sectors g) x -> ~ oo <= x < oo + k -> holds (_sectors g') x /\ file_data g' x = file_data g x
}.

Lemma twp_reply v s (Q : unit -> Server -> Prop) r :
  ServerProps.replies s tid = Some r ->
  Q tt (set_client_manager (set_responses (<[tid := r ++ [v]]> (responses (client_manager s))) (client_manager s)) s) ->
  twp (reply tid v) Q s.
Proof using. intros Hr HQ. eapply twp_Done; [|exact HQ]. unfold reply, on_clients, zoom, replyToClient. unfold ServerProps.replies in Hr. by rewrite Hr. Qed.

(** [copy_file_range_data] copies what is in one piece. *)
Lemma copy_data_files p fd_in fd_out id_in id_out path_in path_out f g oi oo n :
  _storage p !! path_in = Some id_in -> heap p !! id_in = Some f ->
  _storage p !! path_out = Some id_out -> heap p !! id_out = Some g -> id_in <> id_out ->
  file_inv f -> file_inv g -> live (_buffer g) -> _first_write g = false ->
  ServerProps.replies p tid = Some [] -> 0 <= oi -> 0 <= oo -> 0 < n ->
  twp (copy_file_range_data {| cp_tid := tid; cp_fd_in := fd_in; cp_fd_out := fd_out; cp_offset_in := oi;
         cp_offset_out := oo; cp_count := n; cp_path_in := path_in; cp_path_out := path_out |})
    (fun _ p1 => exists g', copied p p1 id_out path_out f g g' oi oo (Z.min n (run_length (_sectors f) oi))) p.
Proof using os_succeeds.
  intros Hsi Hhi Hso Hho Htwo Hf Hg Hl Hfirst Hrep Hoi Hoo Hn.
  unfold copy_file_range_data. cbn [cp_tid cp_path_in cp_path_out cp_offset_in cp_offset_out cp_count].
  apply twp_bind. eapply twp_storage_get; [done|]. apply twp_bind. eapply twp_file_get; [done|].
  set (k := Z.min n (run_length (_sectors f) oi)). set (bytes := if _ =? _ then 0 else _).
  assert (Hend : oi <= getSectorEnd (_sectors f) oi \/ getSectorEnd (_sectors f) oi = CAPIO_SECTOR_NOT_FOUND).
  { destruct (getSectorEnd_spec (_sectors f) oi (fi_wf f Hf)) as [(s & _ & ? & ->)|[_ ->]]; [left; lia|by right]. }
  assert (Hb : bytes = k).
  { unfold bytes, k, run_length, CAPIO_SECTOR_NOT_FOUND in *. destruct (Z.eqb_spec (getSectorEnd (_sectors f) oi) (-1)); lia. }
  rewrite Hb. clear bytes Hb Hend. assert (Hk : 0 <= k) by (unfold k, run_length; lia).
  unfold when. apply twp_bind. destruct (Z.ltb_spec 0 k) as [Hpos|Hzero].
  2: { apply twp_ret. eapply twp_reply; [done|]. exists g. split; simpl; try done.
       - by rewrite insert_id.
       - eexists. split; [by left|]. done.
       - intros; lia. }
  apply twp_bind. eapply twp_storage_get; [done|].
  apply twp_assoc, twp_bind. eapply twp_room; [done|done|done|by left|].
  intros b1 h m Hok1 Hl1 Hs1 Hsz1 Hx1. set (data := file_data f <$> seqZ oi k).
  assert (HL : Z.of_nat (length data) = k) by (unfold data; rewrite length_fmap, length_seqZ; lia).
  destruct (store_registers g h b1 oo data Hg Hoo Hok1 Hl1 Hs1) as (b2 & Est & Hl2 & Hsd); [by rewrite HL|done|]. specialize (Hl2 Hl).
  set (g1 := set_buffer b1 (set_home_node h g)) in *. rewrite HL in Hsd.
  apply twp_bind. unfold file_copyFromFile. rewrite (proj2 (Z.eqb_neq id_out id_in)) by done.
  apply twp_bind. eapply twp_file_get; [simpl; rewrite lookup_insert_ne by done; exact Hhi|].
  eapply twp_on_file; [simpl; by rewrite lookup_insert_eq| |].
  { unfold copyFromFile, bind, lift. rewrite load_spec; [|done|].
    - simpl. exact Est.
    - intros y Hy. apply (run_holds (_sectors f) oi); [apply Hf|done|unfold k in Hy; lia]. }
  simpl. rewrite insert_insert_eq. eapply twp_register; [simpl; by rewrite lookup_insert_eq|done|].
  simpl. rewrite insert_insert_eq. eapply twp_reply.
  { unfold ServerProps.replies. simpl. rewrite responses_registerProducedFile. exact Hrep. }
  eexists. destruct Hsd as [Hi' Hsec Hnew Hold]. rewrite HL in Hsec, Hnew, Hold. split; simpl; try done.
  - eexists. split; [by right|]. done.
  - intros x Hx. split; [apply insertSector_holds_sub; [apply Hg|lia|by right]|]. rewrite Hnew by done.
    unfold data. rewrite list_lookup_fmap, lookup_seqZ_lt by lia. simpl. f_equal. lia.
  - intros x Hh Hx. split; [apply insertSector_holds_sub; [apply Hg|lia|by left]|by apply Hold].
Qed.

Lemma copy_data_spec p fd_in fd_out id_in id_out path_in path_out f g oi oo n :
  copies p fd_in fd_out id_in id_out path_in path_out f g -> 0 <= oi -> 0 <= oo -> 0 < n ->
  twp (copy_file_range_data {| cp_tid := tid; cp_fd_in := fd_in; cp_fd_out := fd_out; cp_offset_in := oi;
         cp_offset_out := oo; cp_count := n; cp_path_in := path_in; cp_path_out := path_out |})
    (fun _ p1 => exists g', copied p p1 id_out path_out f g g' oi oo (Z.min n (run_length (_sectors f) oi))) p.
Proof using os_succeeds.
  intros [(o1 & v1 & [_ ? ? _]) (o2 & v2 & [_ ? ? _]) _ Htwo [Hf Hg] Hl Hfirst _ Hreg Hrep] Hoi Hoo Hn.
  by apply (copy_data_files p fd_in fd_out id_in).
Qed.

(** The request reaches it: the input is complete here. *)
Lemma copy_handler_spec p fd_in fd_out id_in id_out path_in path_out f g oi oo n :
  copies p fd_in fd_out id_in id_out path_in path_out f g -> 0 <= oi -> 0 <= oo -> 0 < n ->
  exists p1 g', RemoteHandlers.copy_file_range_handler tid fd_in fd_out oi oo n p = Done (tt, p1) /\
    copied p p1 id_out path_out f g g' oi oo (Z.min n (run_length (_sectors f) oi)).
Proof using os_succeeds.
  intros Hc Hoi Hoo Hn. pose proof (copy_data_spec _ _ _ _ _ _ _ _ _ oi oo n Hc Hoi Hoo Hn) as Hdata.
  destruct Hc as [(o1 & v1 & Hin) (o2 & v2 & Hout) _ _ _ _ _ Hcomp _ _].
  cut (twp (RemoteHandlers.copy_file_range_handler tid fd_in fd_out oi oo n)
    (fun _ p1 => exists g', copied p p1 id_out path_out f g g' oi oo (Z.min n (run_length (_sectors f) oi))) p).
  { intros ([] & p1 & E & g' & HQ). by exists p1, g'. }
  unfold RemoteHandlers.copy_file_range_handler. apply twp_bind. eapply twp_getPath; [done|]. apply twp_bind. eapply twp_getPath; [done|].
  apply twp_bind, twp_gets, twp_bind, twp_gets. fold (produces p path_in). unfold location_opt. apply twp_bind, twp_gets.
  assert (Hlocal : forall b, _committed f || b = true -> twp (handle_local_copy_file_range
    {| cp_tid := tid; cp_fd_in := fd_in; cp_fd_out := fd_out; cp_offset_in := oi; cp_offset_out := oo; cp_count := n;
       cp_path_in := path_in; cp_path_out := path_out |} b)
    (fun _ p1 => exists g', copied p p1 id_out path_out f g g' oi oo (Z.min n (run_length (_sectors f) oi))) p).
  { intros b Hb. unfold handle_local_copy_file_range. cbn [cp_path_in cp_offset_in cp_count].
    apply twp_bind. eapply twp_storage_get; [apply Hin|]. apply twp_bind. eapply twp_file_get; [apply Hin|].
    apply twp_bind. eapply twp_file_get; [apply Hin|]. unfold isCommitted. rewrite Hb. simpl. exact Hdata. }
  destruct Hcomp as [Hp|(Hcm & m & z & Hloc & Hm)].
  - rewrite Hp. simpl. destruct (get_file_location_opt (locations p) path_in) as [[m z]|]; apply Hlocal; apply orb_true_r.
  - rewrite Hloc. unfold handle_copy_file_range. destruct (produces p path_in); [by apply Hlocal, orb_true_iff; right|].
    apply twp_bind. eapply (twp_Done _ _ _ (m, z) p).
    + unfold location_get, on_locations, zoom, get_file_location, bind, gets. cbn [cp_path_in]. rewrite Hloc. simpl. by destruct p.
    + rewrite Hm. apply Hlocal. by rewrite Hcm.
Qed.

Lemma serve_copy p fd_in fd_out oi oo n p1 :
  int32 fd_in -> int32 fd_out -> 0 <= oi < 2 ^ 63 -> 0 <= oo < 2 ^ 63 -> 0 < n < 2 ^ 63 ->
  RemoteHandlers.copy_file_range_handler tid fd_in fd_out oi oo n p = Done (tt, p1) ->
  serve (copy_file_range_request fd_in fd_out oi oo n tid) p = Done p1.
Proof using tid_int.
  intros Hfi Hfo Hoi Hoo Hn E. apply (serve_handled (CopyFileRange tid fd_in fd_out oi oo n)); [|fits_tac|done].
  split_and!; try done; unfold int64; lia.
Qed.

Lemma produces_register p c path q :
  is_Some (files_created_by_producer (client_manager p) !! tid) ->
  c = client_manager p \/ c = registerProducedFile tid path (client_manager p) ->
  produces p q = true -> cl_isProducer q (getAppName c tid) || isProducer c tid q = true.
Proof using.
  intros Hreg Hc. unfold produces. destruct Hc as [->| ->]; [done|].
  rewrite (proj1 (producers_correct tid path q (client_manager p) Hreg)).
  assert (getAppName (registerProducedFile tid path (client_manager p)) tid = getAppName (client_manager p) tid) as ->.
  { unfold getAppName, registerProducedFile. by case_match. }
  intros [-> | ->]%orb_true_iff; [done|]. by rewrite !orb_true_r.
Qed.

(** After a copy the descriptors are still open, on the same input. *)
Lemma copies_again p p1 fd_in fd_out id_in id_out path_in path_out f g g' oi oo k :
  copies p fd_in fd_out id_in id_out path_in path_out f g -> copied p p1 id_out path_out f g g' oi oo k ->
  copies (pop_reply p1) fd_in fd_out id_in id_out path_in path_out f g'.
Proof using.
  intros [(o1 & v1 & [H1 H2 H3 H4]) (o2 & v2 & [K1 K2 K3 K4]) Hi Htwo [Hf Hg] Hl Hfirst Hcomp Hreg Hrep]
    [Hh (Hs1 & Hs2 & Hs3) Hloc (c & Hc & Hcm) (Hi' & Hl' & Hf') _ _].
  split; try done; simpl.
  - exists o1, v1. split; [unfold descriptor_at in *; simpl; by rewrite Hs2|simpl; by rewrite Hs1| |simpl; by rewrite Hs3].
    simpl. by rewrite Hh, lookup_insert_ne.
  - exists o2, v2. split; [unfold descriptor_at in *; simpl; by rewrite Hs2|simpl; by rewrite Hs1| |simpl; by rewrite Hs3].
    simpl. by rewrite Hh, lookup_insert_eq.
  - destruct Hcomp as [Hp|(Hcom & m & z & Hm & Hn)].
    + left. pose proof (produces_register p c path_out path_in Hreg Hc Hp) as E.
      unfold produces, pop_reply. simpl. rewrite Hcm. simpl. exact E.
    + right. split; [done|]. exists m, z. simpl. by rewrite Hloc.
  - rewrite Hcm. simpl. destruct Hc as [->| ->]; [done|]. by apply registered_producer.
  - unfold ServerProps.replies. simpl. by rewrite lookup_insert_eq.
Qed.

Lemma copies_view p fd_in fd_out id_in id_out path_in path_out f g :
  copies p fd_in fd_out id_in id_out path_in path_out f g ->
  snd <$> open_view p fd_in = Some f /\ snd <$> open_view p fd_out = Some g.
Proof using.
  intros [(o1 & v1 & Hin) (o2 & v2 & Hout) _ _ _ _ _ _ _ _].
  by rewrite (opened_view _ _ _ _ _ _ _ Hin), (opened_view _ _ _ _ _ _ _ Hout).
Qed.

#[export] Instance server_copies : CopyingPeer Server.
Proof using os_succeeds tid_int.
  refine {| byte_of fd x p := f ← snd <$> open_view p fd; file_data f x;
            has_byte fd x p := exists f, snd <$> open_view p fd = Some f /\ holds (_sectors f) x;
            in_one_piece fd x p := default 0 ((fun f => run_length (_sectors f) x) <$> (snd <$> open_view p fd));
            two_files fd_in fd_out p := exists id_in id_out path_in path_out f g,
              copies p fd_in fd_out id_in id_out path_in path_out f g |}.
  - intros fd_in fd_out oi oo n p (id_in & id_out & path_in & path_out & f & g & Hc) Hn Hoi1 Hoi2 Hoo1 Hoo2.
    destruct (copies_view _ _ _ _ _ _ _ _ _ Hc) as [Ef Eg]. rewrite Ef, Eg. simpl.
    destruct (copy_handler_spec _ _ _ _ _ _ _ _ _ oi oo n Hc Hoi1 Hoo1 Hn) as (p1 & g' & E & Hd).
    set (k := Z.min n (run_length (_sectors f) oi)) in *.
    pose proof (copies_again _ _ _ _ _ _ _ _ _ _ _ _ _ _ Hc Hd) as Hc'.
    destruct (copies_view _ _ _ _ _ _ _ _ _ Hc') as [Ef' Eg'].
    exists p1, (pop_reply p1). rewrite Ef', Eg'. simpl.
    assert (0 <= k) by (unfold k, run_length; lia).
    split_and!; [apply serve_copy; try done; try apply Hc; lia| |by exists id_in, id_out, path_in, path_out, f, g'| | |done|done].
    + destruct (cd_clients _ _ _ _ _ _ _ _ _ _ Hd) as (c & _ & Hcm).
      assert (responses (client_manager p1) !! tid = Some [k]) as -> by (rewrite Hcm; simpl; by rewrite lookup_insert_eq). done.
    + intros x Hx. destruct (cd_new _ _ _ _ _ _ _ _ _ _ Hd x Hx) as [? ->]. split; [by exists g'|done].
    + intros x (g0 & [= <-] & Hh) Hx. destruct (cd_old _ _ _ _ _ _ _ _ _ _ Hd x Hh Hx) as [? ->]. split; [by exists g'|done].
  - intros fd x p. destruct (open_view p fd) as [[v f]|]; simpl; [unfold run_length; lia|done].
Defined.
End Copies.

(** ** The system call *)

Section SystemCall.
Context {K : Type} `{Config} `{Thread} `{KernelFiles K}.
Hypothesis os_succeeds : forall n, fst (os n) = kernel_ok /\ 0 <= snd (os n).
Hypothesis tid_int : int32 tid.

(** The file of a path is on this node. *)
Definition located (p : Server) (path : string) : Prop :=
  exists m z, get_file_location_opt (locations p) path = Some (m, z) /\ node_is_backend m = true.

(** What a client asks about such a file: its size, and whether it is a directory. *)
Lemma fstat_served p fd path id o v f (c : Client Server) :
  opened p tid fd path id o v f -> located p path -> int32 fd -> ServerProps.replies p tid = Some [] ->
  server c = p -> outbox c = [] ->
  ask_pair (fstat_request fd tid) c = Done ((getFileSize (_sectors f), if _directory f then 1 else 0), c).
Proof using tid_int.
  intros Hop (m & z & Hloc & Hm) Hfd Hrep Hc Ho. set (d := if _directory f then 1 else 0). set (n := getFileSize (_sectors f)).
  set (p1 := set_client_manager (set_responses (<[tid := [n; d]]> (responses (client_manager p))) (client_manager p)) p).
  assert (E : Handlers.fstat_handler tid fd p = Done (tt, p1)).
  { cut (twp (Handlers.fstat_handler tid fd) (fun _ s => s = p1) p); [by intros ([] & s & E & ->)|].
    unfold Handlers.fstat_handler, reply_stat, location_known, location_opt. apply twp_bind. eapply twp_getPath; [done|].
    apply twp_bind, twp_bind, twp_gets. rewrite Hloc. apply twp_ret. cbn [negb]. unfold tryGet.
    apply twp_bind, twp_gets. rewrite (op_storage _ _ _ _ _ _ _ _ Hop). apply twp_bind, twp_ret, twp_bind, twp_gets. rewrite Hloc.
    apply twp_bind. eapply twp_file_get; [apply Hop|].
    assert (Hreply : twp (reply_size tid id) (fun _ s => s = p1) p).
    { unfold reply_size. apply twp_bind. eapply twp_file_get; [apply Hop|]. apply twp_bind. eapply twp_reply; [done|].
      apply twp_bind. eapply twp_file_get; [apply Hop|]. eapply twp_reply.
      - unfold ServerProps.replies. simpl. by rewrite lookup_insert_eq.
      - simpl. unfold p1, set_client_manager, set_responses. simpl. by rewrite insert_insert_eq. }
    destruct (isCommitted f); [done|]. apply twp_bind, twp_ret. by rewrite Hm. }
  assert (Hs : serve (fstat_request fd tid) p = Done p1).
  { apply (serve_handled (Fstat tid fd)); [by split|fits_tac|done]. }
  unfold ask_pair, PosixCache.send, bind, modify, wait_reply. cbn [outcome_bind]. simpl outbox. simpl server.
  rewrite Ho, Hc. cbn [app serve_all]. rewrite Hs. simpl. rewrite lookup_insert_eq. simpl. rewrite lookup_insert_eq. simpl.
  do 2 f_equal. unfold ServerProps.replies in Hrep. rewrite !insert_insert_eq, insert_id by done.
  destruct c. simpl in *. subst. by destruct p as [? ? ? ? ? ? [] ? ? ? ? ?].
Qed.

(** The tables of the client have the descriptor, with these flags. *)
Definition opened_as (t : Filesystem) (fd : Z) (path : string) (flags : Z) : Prop :=
  exists cf saved, files t !! fd = Some cf /\ offset_heap t !! cp_offset cf = Some saved /\
    cp_flags cf = flags /\ capio_files_descriptors t !! fd = Some path.

(** Both caches are empty and no request waits. *)
Definition caches_empty (c : Client Server) : Prop :=
  outbox c = [] /\ wc_actual_size (write_cache c) = 0 /\ rc_cache_offset (read_cache c) = rc_actual_size (read_cache c).

Lemma on_tables_done {A} (m : M Filesystem A) (c : Client Server) a :
  m (tables c) = Done (a, tables c) -> on_tables m c = Done (a, c).
Proof using. intros E. unfold on_tables, zoom. rewrite E. simpl. by destruct c. Qed.
Lemma on_client_done {A} (m : M (Client Server) A) (s : CopyState Server K) a :
  m (client s) = Done (a, client s) -> on_client m s = Done (a, s).
Proof using. intros E. unfold on_client, zoom. rewrite E. simpl. by destruct s. Qed.
Lemma flush_empty (c : Client Server) : wc_actual_size (write_cache c) = 0 -> WriteCache_flush c = Done (tt, c).
Proof using. intros E. unfold WriteCache_flush, bind, get. simpl. by rewrite E. Qed.

(** The end of a copy on such a file. *)
Lemma copy_end_spec (s : CopyState Server K) fd path flags id o v f a x :
  let p := server (client s) in
  opened_as (tables (client s)) fd path flags -> caches_empty (client s) -> user s !! a = Some x ->
  opened p tid fd path id o v f -> located p path -> int32 fd -> ServerProps.replies p tid = Some [] -> _directory f = false ->
  exists saved, at_offset fd saved (tables (client s)) /\ capio_copy_file_range_end fd (Some a) s =
    Done ({| e_fd := fd; e_offset := Some a; is_capio := true; is_open := true; e_flags := flags; is_dir := false;
             is_regular := true; e_size := (if getFileSize (_sectors f) <? 0 then 0 else getFileSize (_sectors f));
             e_position := x; saved_fd_offset := saved |}, s).
Proof using tid_int.
  intros p (cf & saved & Hcf & Hsv & Hfl & _) (Ho & Hw & _) Hx Hop Hloc Hfd Hrep Hdir. exists saved.
  split; [by exists cf|]. unfold capio_copy_file_range_end.
  eapply bind_done; [apply on_client_done, on_tables_done; unfold exists_capio_fd, gets; by rewrite Hcf|]. simpl.
  eapply bind_done; [by apply on_client_done, flush_empty|].
  eapply bind_done; [apply on_client_done; by apply (fstat_served p fd path id o v f)|]. cbn beta iota.
  eapply bind_done; [apply on_client_done, on_tables_done; unfold get_capio_fd_flags, bind, file_at; rewrite Hcf; done|].
  eapply bind_done; [apply on_client_done, on_tables_done, (at_offset_get fd saved); by exists cf|].
  eapply bind_done; [unfold load_offset; by rewrite Hx|]. by rewrite Hdir, Hfl.
Qed.

(** Nothing is left to do to a descriptor whose offset did not move. *)
Lemma finish_spec (s : CopyState Server K) e a x n :
  e_offset e = Some a -> user s !! a = Some x -> at_offset (e_fd e) (saved_fd_offset e) (tables (client s)) ->
  capio_copy_file_range_finish e n s = Done (tt, set_user (<[a := x + n]> (user s)) s).
Proof using.
  intros Ha Hx Hs. unfold capio_copy_file_range_finish. rewrite Ha. eapply bind_done.
  { unfold add_offset. eapply bind_done; [unfold load_offset; by rewrite Hx|]. done. }
  unfold when. destruct (is_capio e); [|done]. unfold capio_copy_file_range_seek. eapply bind_done.
  { apply on_client_done, on_tables_done. simpl. by apply at_offset_get. }
  simpl. by rewrite Z.eqb_refl.
Qed.

Lemma max_rw_count_range : 0 <= capio_max_rw_count < 2 ^ 31.
Proof using.
  unfold capio_max_rw_count. replace INT_MAX with (Z.ones 31) by reflexivity.
  rewrite Z.land_comm, Z.land_ones by lia. apply Z.mod_pos_bound. lia.
Qed.

(** The state a copy of [vi] to [vo] starts from: two files of the server, open with
    the right flags, and the caller's two offsets. *)
Record copy_ready (s : CopyState Server K) (fd_in fd_out a b len vi vo : Z) (f g : CapioFile) : Prop := {
  cr_files : exists id_in id_out path_in path_out fl_in fl_out,
    copies (server (client s)) fd_in fd_out id_in id_out path_in path_out f g /\
    located (server (client s)) path_in /\ located (server (client s)) path_out /\
    opened_as (tables (client s)) fd_in path_in fl_in /\ opened_as (tables (client s)) fd_out path_out fl_out /\
    (forall e, e_flags e = fl_in -> isReadable e = true) /\
    (forall e, e_flags e = fl_out -> isWritable e = true) /\ Z.land fl_out O_APPEND = 0;
  cr_regular : _directory f = false /\ _directory g = false;
  cr_caches : caches_empty (client s);
  cr_user : a <> b /\ user s !! a = Some vi /\ user s !! b = Some vo;
  cr_range : 0 < len /\ 0 <= vi /\ vi + len < 2 ^ 63 /\ 0 <= vo /\ vo + len < 2 ^ 63
}.

Lemma two_paths p fd_in fd_out id_in id_out path_in path_out f g :
  copies p fd_in fd_out id_in id_out path_in path_out f g -> path_in <> path_out.
Proof using. intros [(o1 & v1 & [_ Hs1 _ _]) (o2 & v2 & [_ Hs2 _ _]) _ Hne _ _ _ _ _ _] ->. congruence. Qed.

(** The checks pass and the copy runs on the server. *)
Lemma copy_reaches_server (s : CopyState Server K) fd_in fd_out a b len vi vo f g :
  copy_ready s fd_in fd_out a b len vi vo f g ->
  exists ein eout, capio_copy_file_range fd_in (Some a) fd_out (Some b) len 0 s = run_copy ein eout len s /\
    e_fd ein = fd_in /\ e_fd eout = fd_out /\ e_position ein = vi /\ e_position eout = vo /\
    e_offset ein = Some a /\ e_offset eout = Some b /\ is_capio ein = true /\ is_capio eout = true /\
    at_offset fd_in (saved_fd_offset ein) (tables (client s)) /\ at_offset fd_out (saved_fd_offset eout) (tables (client s)).
Proof using tid_int.
  intros [(id_in & id_out & path_in & path_out & fl_in & fl_out & Hc & Hl1 & Hl2 & Ht1 & Ht2 & Hr & Hw & Happ)
    [Hd1 Hd2] He (Hab & Hua & Hub) (Hlen & Hvi & Hvi' & Hvo & Hvo')].
  pose proof (two_paths _ _ _ _ _ _ _ _ _ Hc) as Hne.
  destruct Hc as [(o1 & w1 & Hin) (o2 & w2 & Hout) [Hi1 Hi2] _ _ _ _ _ _ Hrep].
  destruct (copy_end_spec s fd_in path_in fl_in id_in o1 w1 f a vi) as (sv1 & Ho1 & E1); [done..|].
  destruct (copy_end_spec s fd_out path_out fl_out id_out o2 w2 g b vo) as (sv2 & Ho2 & E2); [done..|].
  match type of E1 with _ = Done (?e, _) => exists e end.
  match type of E2 with _ = Done (?e, _) => exists e end.
  split; [|by split_and!].
  assert (Hex : forall fd p fl, opened_as (tables (client s)) fd p fl ->
    on_client (on_tables (exists_capio_fd fd)) s = Done (true, s) /\
    on_client (on_tables (get_capio_fd_path fd)) s = Done (p, s)).
  { intros fd p fl (cf & sv & Hcf & _ & _ & Hp). split; apply on_client_done, on_tables_done.
    - unfold exists_capio_fd, gets. by rewrite Hcf.
    - unfold get_capio_fd_path, path_at. by rewrite Hp. }
  destruct (Hex _ _ _ Ht1) as [X1 P1], (Hex _ _ _ Ht2) as [X2 P2].
  unfold capio_copy_file_range. eapply bind_done; [exact X1|]. eapply bind_done; [exact X2|]. simpl.
  eapply bind_done; [exact E1|]. simpl. eapply bind_done; [exact E2|]. simpl.
  match goal with |- context [check_ends ?e1 ?e2 len] => assert (check_ends e1 e2 len = None) as -> end.
  { apply check_ends_none; [lia|simpl; lia..|]. unfold copy_allowed. simpl. split_and!; try done; [by apply Hr|by apply Hw|lia..]. }
  rewrite (proj2 (Z.eqb_neq len 0)) by lia. eapply bind_done.
  { unfold same_file. simpl. eapply bind_done; [exact P1|]. eapply bind_done; [exact P2|]. done. }
  rewrite (proj2 (String.eqb_neq path_in path_out)) by done. by eapply bind_done.
Qed.

End SystemCall.

(** ** Two files of a server *)

(** The thread created "/c/f", wrote three bytes to it, and created "/c/g". *)
Definition copy_server : Server :=
  let H := demo_config true in
  @pop_reply demo_thread (state_of (run [start_server 1; handle_request (HandshakeNamed 7 7 "app" false);
    handle_request (Create 7 3 "/c/f"); client_data 7 [Some x61; Some x62; Some x63]; handle_request (Write 7 3 3);
    handle_request (Create 7 4 "/c/g")])).
Definition copy_in : CapioFile := default CapioFile_default (heap copy_server !! 1).
Definition copy_out : CapioFile := default CapioFile_default (heap copy_server !! 2).
Definition copy_tables : Filesystem :=
  match (add_capio_fd "/c/f" 3 0 64 O_RDONLY false ;; add_capio_fd "/c/g" 4 0 64 O_WRONLY false) (init_filesystem "/") with
  | Done (_, t) => t
  | _ => init_filesystem "/"
  end.
Definition copy_start : CopyState Server OneFile := {|
  client := {| tables := copy_tables; read_cache := ReadCache_new; write_cache := WriteCache_new; outbox := [];
               server := copy_server |};
  kernel_files := {| of_data := []; of_at := 0 |}; user := {[100 := 1; 200 := 5]} |}.

Lemma copy_in_inv : file_inv copy_in.
Proof.
  assert (Hs : _sectors copy_in = [(0, 3)]) by (vm_compute; reflexivity). split.
  - rewrite Hs. split; repeat constructor; simpl; lia.
  - rewrite Hs. split; [vm_compute; discriminate|]. split; [|vm_compute; discriminate].
    apply Forall_cons_2; [|apply Forall_nil_2]. split; [simpl; lia|split; [simpl; lia|vm_compute; discriminate]].
  - vm_compute. by split.
Qed.
Lemma copy_out_inv : file_inv copy_out.
Proof. apply (same_data_inv (CapioFile_directory false 0 false 64 0)); [vm_compute; auto|apply file_inv_directory; lia]. Qed.

Lemma copy_start_ready : @copy_ready _ (demo_config true) demo_thread copy_start 3 4 100 200 9 1 5 copy_in copy_out.
Proof.
  split.
  - exists 1, 2, "/c/f"%string, "/c/g"%string, O_RDONLY, O_WRONLY. split_and!.
    + split.
      * exists 0, 3. split; vm_compute; reflexivity.
      * exists 1, 0. split; vm_compute; reflexivity.
      * unfold int32; lia.
      * lia.
      * split; [exact copy_in_inv|exact copy_out_inv].
      * exact I.
      * vm_compute. reflexivity.
      * left. vm_compute. reflexivity.
      * vm_compute. by eexists.
      * vm_compute. reflexivity.
    + eexists _, _. split; vm_compute; reflexivity.
    + eexists _, _. split; vm_compute; reflexivity.
    + eexists _, _. split_and!; vm_compute; reflexivity.
    + eexists _, _. split_and!; vm_compute; reflexivity.
    + intros e He. unfold isReadable. rewrite He. vm_compute. reflexivity.
    + intros e He. unfold isWritable. rewrite He. vm_compute. reflexivity.
    + vm_compute. reflexivity.
  - split; vm_compute; reflexivity.
  - split_and!; vm_compute; reflexivity.
  - split; [lia|]. split; vm_compute; reflexivity.
  - lia.
Qed.

