(* ===== verification/RemoteCopy.v ===== *)
(** * copy_file_range from a file of another node

    A client copies from a file that another node stores: its server asks that
    node for the data with a message, stores the answer in its own copy of the
    input, and copies from there ([handlers/copy_file_range.hpp] and
    [remote/handlers/copy_file_range.hpp]), over the nodes of [Cluster]. *)
From S2P Require Import Prelude Text PosixCache EndToEnd CopyEndToEnd Sectors Memory Queue FileBuffer CapioFile ClientManager Locations Server StorageManager Handlers RemoteHandlers ServerInv ServerProps ServerBehaviour Requests RemoteText Mtcl Cluster.

(** ** The request *)

(** A client copies from a file that another node stores: its server asks that node. *)
Lemma copy_handler_asks `{Config} s t fd_in fd_out id_in o1 v1 path_in f id_out o2 v2 path_out g oi oo n p z :
  opened s t fd_in path_in id_in o1 v1 f -> opened s t fd_out path_out id_out o2 v2 g ->
  cl_isProducer path_in (getAppName (client_manager s) t) = false -> isProducer (client_manager s) t path_in = false ->
  files_location (locations s) !! path_in = Some (p, z) -> node_text p <> get_node_name ->
  _committed f = false -> getSectorEnd (_sectors f) oi < oi + n ->
  RemoteHandlers.copy_file_range_handler t fd_in fd_out oi oo n s =
  Done (tt, set_outbox (outbox s ++
    [{| s_dest := node_text p; s_message := RemoteCopy path_in t fd_in fd_out oi oo n; s_data := [] |}]) s).
Proof.
  intros Hin Hout Hcl Hprod Hloc Hne Hc Hend. set (s' := set_outbox _ s).
  cut (twp (RemoteHandlers.copy_file_range_handler t fd_in fd_out oi oo n) (fun _ x => x = s') s); [by intros ([] & x & E & ->)|].
  assert (Hget : location_get path_in s = Done ((p, z), s)).
  { unfold location_get, on_locations, zoom, get_file_location, bind, gets, get_file_location_opt. simpl. rewrite Hloc. simpl.
    by destruct s. }
  unfold RemoteHandlers.copy_file_range_handler. apply twp_bind. eapply twp_getPath; [done|]. apply twp_bind. eapply twp_getPath; [done|].
  apply twp_bind, twp_gets, twp_bind, twp_gets. rewrite Hcl, Hprod. unfold location_opt. apply twp_bind, twp_gets.
  unfold get_file_location_opt. rewrite Hloc. unfold handle_copy_file_range. cbn [orb cp_path_in].
  apply twp_bind. eapply twp_Done; [exact Hget|]. cbn beta iota.
  unfold node_is_backend. rewrite (proj2 (String.eqb_neq _ _) Hne). unfold handle_remote_copy_file_range. cbn [cp_path_in cp_offset_in cp_count].
  apply twp_bind. eapply twp_storage_get; [apply Hin|]. apply twp_bind. eapply twp_file_get; [apply Hin|].
  apply twp_bind. eapply twp_file_get; [apply Hin|]. apply twp_bind. eapply twp_file_get; [apply Hin|].
  unfold isCommitted. rewrite Hc, (proj2 (Z.leb_gt _ _) Hend), andb_false_r. simpl.
  unfold handle_remote_copy_file_range_request. apply twp_bind. eapply twp_Done; [exact Hget|]. by apply twp_modify.
Qed.

(** ** The answer of the node that stores the file *)

Lemma remote_copy_serves `{Config} s path dest t fd_in fd_out oi oo n id f :
  _storage s !! path = Some id -> heap s !! id = Some f -> file_inv f -> _committed f = true ->
  (forall y, oi <= y < getStoredSize f -> holds (_sectors f) y) ->
  handle_remote_copy_file_range_data path dest t fd_in fd_out oi oo n s =
  Done (tt, set_outbox (outbox s ++ [{| s_dest := dest;
    s_message := RemoteCopyReply t fd_in fd_out oi oo n (remote_reply_size f oi) (getStoredSize f) true;
    s_data := file_data f <$> seqZ oi (remote_reply_size f oi) |}]) s).
Proof.
  intros Hst Hf Hinv Hc Hall.
  assert (Hn : forall y, oi <= y < oi + remote_reply_size f oi -> holds (_sectors f) y).
  { intros y Hy. apply Hall. unfold remote_reply_size in Hy. case_match; lia. }
  set (s' := set_outbox _ s). cut (twp (handle_remote_copy_file_range_data path dest t fd_in fd_out oi oo n) (fun _ x => x = s') s).
  { by intros ([] & x & E & ->). }
  unfold handle_remote_copy_file_range_data. apply twp_bind. eapply twp_storage_get; [done|].
  apply twp_bind. eapply twp_file_get; [done|]. apply twp_bind. eapply twp_file_get; [done|].
  unfold isCommitted. rewrite Hc. unfold serve_copy. simpl.
  apply twp_bind. eapply twp_storage_get; [done|]. do 3 (apply twp_bind; eapply twp_file_get; [done|]).
  unfold isCommitted. rewrite Hc.
  apply twp_bind. unfold file_bytes. destruct (Z.eqb_spec (remote_reply_size f oi) 0) as [E0|E0].
  - apply twp_ret. eapply twp_Done; [done|]. unfold s'. rewrite E0. by rewrite seqZ_nil.
  - apply twp_bind. eapply twp_file_get; [done|].
    eapply twp_Done; [unfold lift; rewrite load_spec; [done|done|done]|]. by eapply twp_Done.
Qed.

(** ** The copy, once the answer has come *)

Section Reply.
Context `{Config} `{Thread}.
Hypothesis os_succeeds : forall n, fst (os n) = kernel_ok /\ 0 <= snd (os n).

(** The output has the first [n] bytes of [data] at [oo], and what it had elsewhere;
    this node's copy of the input has [data] at [oi]; the client is told [n]. *)
Record copy_done (s s' : Server) (id_in id_out : Z) (g : CapioFile) (oi oo n : Z) (data : list cell) : Prop := {
  cy_out : exists g', heap s' !! id_out = Some g' /\ file_inv g' /\
    (forall x, oo <= x < oo + n -> holds (_sectors g') x /\ file_data g' x = default None (data !! Z.to_nat (x - oo))) /\
    (forall x, holds (_sectors g) x -> ~ oo <= x < oo + n -> holds (_sectors g') x /\ file_data g' x = file_data g x);
  cy_in : exists f', heap s' !! id_in = Some f' /\ file_inv f' /\
    forall x, oi <= x < oi + Z.of_nat (length data) ->
      holds (_sectors f') x /\ file_data f' x = default None (data !! Z.to_nat (x - oi));
  cy_others : (forall id, id <> id_in -> id <> id_out -> heap s' !! id = heap s !! id) /\
    _storage s' = _storage s /\ _opened_fd_map s' = _opened_fd_map s /\ offsets s' = offsets s;
  cy_reply : ServerProps.replies s' tid = Some [n]
}.

(** The input with the answer stored. *)
Lemma input_stored f f3 oi data size complete :
  file_inv f -> 0 <= oi -> stored_in f (file_insertSector oi (oi + Z.of_nat (length data)) f3) oi data ->
  let f' := setCommitted complete (file_insertSector oi (oi + Z.of_nat (length data)) (setRealFileSize size f3)) in
  file_inv f' /\ forall x, oi <= x < oi + Z.of_nat (length data) ->
    holds (_sectors f') x /\ file_data f' x = default None (data !! Z.to_nat (x - oi)).
Proof using.
  intros Hinv Hoi [Hi Hsec Hnew _] f'. set (f1 := file_insertSector oi _ f3) in *.
  assert (Hsd : same_data f1 f') by (unfold f', setCommitted; by case_match).
  split; [by eapply same_data_inv|]. intros x Hx. split.
  - destruct Hsd as (_ & -> & _). rewrite Hsec. apply insertSector_holds_sub; [apply Hinv|lia|by right].
  - rewrite (same_data_data _ _ _ Hsd). by apply Hnew.
Qed.

Lemma copy_reply_spec s source fd_in fd_out id_in id_out o1 v1 o2 v2 path_in path_out f g oi oo n size complete data rest :
  opened s tid fd_in path_in id_in o1 v1 f -> opened s tid fd_out path_out id_out o2 v2 g -> id_in <> id_out ->
  file_inv f -> live (_buffer f) -> file_inv g -> live (_buffer g) -> _first_write g = false ->
  ServerProps.replies s tid = Some [] -> 0 <= oi -> 0 <= oo -> 0 < n -> data <> [] ->
  n <= Z.of_nat (length data) \/ (forall y, oi < y -> ~ covers (_sectors f) y) ->
  inbox s !! source = Some (data :: rest) ->
  exists s', handle_remote_copy_file_range_reply source tid fd_in fd_out oi oo n (Z.of_nat (length data)) size complete s = Done (tt, s') /\
    copy_done s s' id_in id_out g oi oo (Z.min n (Z.of_nat (length data))) data.
Proof using os_succeeds.
  intros Hin Hout Htwo Hf Hlf Hg Hlg Hfirst Hrep Hoi Hoo Hn Hne Habs Hbox.
  assert (0 < Z.of_nat (length data)) as Hlen by (destruct data; [done|simpl; lia]).
  cut (twp (handle_remote_copy_file_range_reply source tid fd_in fd_out oi oo n (Z.of_nat (length data)) size complete)
        (fun _ s' => copy_done s s' id_in id_out g oi oo (Z.min n (Z.of_nat (length data))) data) s).
  { intros ([] & s' & E & HQ). by exists s'. }
  unfold handle_remote_copy_file_range_reply. apply twp_bind. eapply twp_getPath; [done|]. apply twp_bind. eapply twp_getPath; [done|].
  apply twp_bind. eapply twp_storage_get; [apply Hin|].
  eapply (twp_receive os_succeeds source id_in f oi data rest); [apply Hin|done..|].
  intros f3 k Hsd Hl3 Hsec _ _. destruct (input_stored f f3 oi data size complete Hf Hoi Hsd) as [Hinv' Hdata].
  set (f' := setCommitted _ _) in *.
  apply twp_bind. eapply twp_file_do; [simpl; by rewrite lookup_insert_eq|]. file_do_step. file_do_step.
  simpl. rewrite ?insert_insert_eq. fold f'.
  set (s1 := set_heap _ _). eapply twp_mono.
  - apply (copy_data_files os_succeeds s1 fd_in fd_out id_in id_out path_in path_out f' g oi oo n);
      try done; try apply Hin; try apply Hout; simpl; rewrite ?lookup_insert_eq, ?lookup_insert_ne by done; try done; apply Hout.
  - intros [] s' (g' & [Hh (Hs1 & Hs2 & Hs3) _ (c & Hc & Hcm) (Hi' & _) Hnew Hold]).
    assert (Hk : Z.min n (run_length (_sectors f') oi) = Z.min n (Z.of_nat (length data))).
    { rewrite <- (inserted_length (_sectors f) oi (Z.of_nat (length data)) n) by (done || apply Hf).
      replace (_sectors f') with (insertSector (_sectors f) oi (oi + Z.of_nat (length data)))
        by (unfold f', setCommitted; case_match; simpl; by rewrite Hsec).
      unfold run_length. rewrite Z.max_r; [done|].
      assert (oi + Z.of_nat (length data) <= getSectorEnd (insertSector (_sectors f) oi (oi + Z.of_nat (length data))) oi); [|lia].
      apply sector_end_reaches; [apply insertSector_wf_aux; [apply Hf|lia]|done|lia|].
      intros y Hy. apply insertSector_holds_sub; [apply Hf|lia|by right]. }
    rewrite Hk in *. split.
    + exists g'. split; [by rewrite Hh, lookup_insert_eq|]. split; [done|]. split; [|done]. intros x Hx.
      destruct (Hnew x Hx) as [Hh' ->]. split; [done|]. rewrite (proj2 (Hdata (x - oo + oi) ltac:(lia))).
      by replace (x - oo + oi - oi) with (x - oo) by lia.
    + exists f'. split; [rewrite Hh, lookup_insert_ne by done; simpl; by rewrite lookup_insert_eq|]. by split.
    + split; [|by rewrite Hs1, Hs2, Hs3]. intros id H1 H2. rewrite Hh, lookup_insert_ne by done. simpl. by rewrite lookup_insert_ne.
    + unfold ServerProps.replies. rewrite Hcm. simpl. by rewrite lookup_insert_eq.
Qed.
End Reply.

(** ** From end to end *)

Section RemoteCopy.
Context {T : Transport} `{Thread}.

(** A client of node [y] has the input, which it knows node [nx] stores, and an output
    that it has created, another file, and asks for a copy of [n] bytes. The copy of
    [y] has no data past the offset, unless the [m] bytes of the answer are enough. *)
Record copy_asks (y : Node) (nx : string) (fd_in fd_out id_in id_out : Z) (path_in path_out : string) (f g : CapioFile)
    (oi oo n m : Z) : Prop := {
  ca_name : name_of y = @get_node_name (@config_nodes (cfg y));
  ca_outbox : outbox (srv y) = [];
  ca_inbox : default [] (Server.inbox (srv y) !! nx) = [];
  ca_in : exists o v, opened (srv y) tid fd_in path_in id_in o v f;
  ca_out : exists o v, opened (srv y) tid fd_out path_out id_out o v g;
  ca_two : id_in <> id_out;
  ca_files : file_inv f /\ live (_buffer f) /\ file_inv g /\ live (_buffer g) /\ _first_write g = false;
  ca_absent : _committed f = false /\ getSectorEnd (_sectors f) oi < oi + n /\ (n <= m \/ forall z, oi < z -> ~ covers (_sectors f) z);
  ca_producer : @cl_isProducer (cfg y) path_in (getAppName (client_manager (srv y)) tid) = false /\
    isProducer (client_manager (srv y)) tid path_in = false;
  ca_location : exists p z, files_location (locations (srv y)) !! path_in = Some (p, z) /\
    @node_text (@config_nodes (cfg y)) p = nx;
  ca_remote : nx <> name_of y;
  ca_kernel k : fst (@os (cfg y) k) = kernel_ok /\ 0 <= snd (@os (cfg y) k);
  ca_replies : ServerProps.replies (srv y) tid = Some [];
  ca_fields : c_word path_in /\ int32 tid /\ int32 fd_in /\ int32 fd_out /\ 0 <= oi /\ int64 oi /\ 0 <= oo /\ int64 oo /\
    0 < n /\ int64 n
}.

Definition copy_question (nx path_in : string) (fd_in fd_out oi oo n : Z) : sent :=
  {| s_dest := nx; s_message := RemoteCopy path_in tid fd_in fd_out oi oo n; s_data := [] |}.
Definition copy_answer (ny : string) (fd_in fd_out oi oo n size : Z) (bytes : list byte) : sent :=
  {| s_dest := ny; s_message := RemoteCopyReply tid fd_in fd_out oi oo n (zlen bytes) size true; s_data := Some <$> bytes |}.

Lemma copy_asks_question y nx fd_in fd_out id_in id_out path_in path_out f g oi oo n m :
  copy_asks y nx fd_in fd_out id_in id_out path_in path_out f g oi oo n m ->
  @RemoteHandlers.copy_file_range_handler (cfg y) tid fd_in fd_out oi oo n (srv y) =
  Done (tt, set_outbox [copy_question nx path_in fd_in fd_out oi oo n] (srv y)).
Proof.
  intros [Hname Ho _ (o1 & v1 & Hin) (o2 & v2 & Hout) _ _ (Hc & Hend & _) [P1 P2] (p & z & Hloc & Hp) Hrem _ _ _].
  rewrite (@copy_handler_asks (cfg y) (srv y) tid fd_in fd_out id_in o1 v1 path_in f id_out o2 v2 path_out g oi oo n p z); try done.
  - by rewrite Ho, Hp.
  - by rewrite Hp, <- Hname.
Qed.

Lemma stores_copy_answer x ny fd_in fd_out path f oi oo n bytes sy :
  stores x path f oi bytes -> outbox sy = [copy_question (name_of x) path fd_in fd_out oi oo n] ->
  deliver (cfg x) ny sy (srv x) =
  Done (set_outbox [] sy, set_outbox [copy_answer ny fd_in fd_out oi oo n (getStoredSize f) bytes] (srv x)).
Proof.
  intros Hx Ho. destruct (st_file _ _ _ _ _ Hx) as (id & Hst & Hf).
  destruct (stores_bytes _ _ _ _ _ Hx) as [Hz _].
  unfold deliver. rewrite Ho. cbn [s_message s_data copy_question arrived handle_message].
  rewrite (@remote_copy_serves (cfg x) (srv x) path ny tid fd_in fd_out oi oo n id f); try done; try apply Hx.
  simpl. rewrite (st_outbox _ _ _ _ _ Hx). unfold copy_answer. by rewrite Hz, (st_bytes _ _ _ _ _ Hx).
Qed.

Lemma copy_asks_reply y nx fd_in fd_out id_in id_out path_in path_out f g oi oo n size bytes sx sy :
  copy_asks y nx fd_in fd_out id_in id_out path_in path_out f g oi oo n (zlen bytes) -> 0 < zlen bytes ->
  outbox sx = [copy_answer (name_of y) fd_in fd_out oi oo n size bytes] -> sy = set_outbox [] (srv y) ->
  exists sy', deliver (cfg y) nx sx sy = Done (set_outbox [] sx, sy') /\
    copy_done (srv y) sy' id_in id_out g oi oo (Z.min n (zlen bytes)) (Some <$> bytes).
Proof.
  intros [Hname Ho Hbox (o1 & v1 & Hin) (o2 & v2 & Hout) Htwo (Hf & Hlf & Hg & Hlg & Hfirst) (_ & _ & Habs) _ _ _ Hos Hrep
    (_ & _ & _ & _ & Hoi & _ & Hoo & _ & Hn & _)] Hlen Hox ->.
  assert (HL : Z.of_nat (length (Some <$> bytes : list cell)) = zlen bytes) by (unfold zlen; by rewrite length_fmap).
  set (data := Some <$> bytes : list cell) in *. set (s0 := arrived nx data (set_outbox [] (srv y))).
  assert (Hs0 : s0 = set_inbox (<[nx := [data]]> (Server.inbox (srv y))) (set_outbox [] (srv y))).
  { unfold s0, arrived. destruct data; [simpl in HL; lia|]. simpl. by rewrite Hbox. }
  destruct (@copy_reply_spec (cfg y) _ Hos s0 nx fd_in fd_out id_in id_out o1 v1 o2 v2 path_in path_out f g oi oo n size true data [])
    as (sy' & E & Hd); try done; try lia; try (rewrite Hs0; by destruct Hin, Hout).
  - intros Hnil. rewrite Hnil in HL. simpl in HL. lia.
  - by rewrite HL.
  - rewrite Hs0. simpl. by rewrite lookup_insert_eq.
  - exists sy'. split.
    + unfold deliver. rewrite Hox. cbn [s_message s_data copy_answer handle_message]. rewrite HL in E. fold data s0. by rewrite E.
    + rewrite HL, Hs0 in Hd. destruct Hd. by split.
Qed.

(** A byte of the answer is a byte of the file. *)
Lemma answer_byte x path f offset bytes i :
  stores x path f offset bytes -> 0 <= i < zlen bytes ->
  default None ((Some <$> bytes : list cell) !! Z.to_nat i) = file_data f (offset + i).
Proof.
  intros Hx Hi. destruct (stores_bytes _ _ _ _ _ Hx) as [Hz Hl].
  rewrite <- (st_bytes _ _ _ _ _ Hx), list_lookup_fmap, lookup_seqZ_lt by lia. simpl. f_equal. lia.
Qed.

End RemoteCopy.

(** ** A client of node "a" copies "ab" of "/c/f", which "b" stores, into "/c/g" *)

#[local] Instance thread_7 : Thread := {| tid := 7; _max_line_size := 4 |}.
Definition demo_copier : Server :=
  match @handle_request (demo_config true) (Create 7 4 "/c/g") Cluster.demo_client with
  | Done (_, s) => set_client_manager (set_responses (<[7 := []]> (responses (client_manager s))) (client_manager s)) s
  | _ => Server_new
  end.
Definition node_copier : @Node mtcl_transport := @Build_Node mtcl_transport (demo_config true) demo_copier demo_a.
Definition demo_output : CapioFile := default CapioFile_default (heap demo_copier !! 2).

Lemma node_copier_asks : copy_asks node_copier "b" 3 4 1 2 "/c/f" "/c/g" client_file demo_output 0 0 2 3.
Proof.
  assert (forall f, same_data (CapioFile_directory false 0 false 64 0) f -> file_inv f) as Hnew.
  { intros f Hf. eapply same_data_inv; [exact Hf|]. apply file_inv_directory. lia. }
  split; try (vm_compute; reflexivity).
  - exists 0, 0. split; vm_compute; reflexivity.
  - exists 1, 0. split; vm_compute; reflexivity.
  - done.
  - split_and!; [apply Hnew; vm_compute; auto|exact I|apply Hnew; vm_compute; auto|exact I|vm_compute; reflexivity].
  - split; [vm_compute; reflexivity|]. split; [vm_compute; reflexivity|left; lia].
  - split; vm_compute; reflexivity.
  - exists (NodeCopy "b"), 7. split; vm_compute; reflexivity.
  - done.
  - exact (demo_os true).
  - vm_compute. split_and!; done.
Qed.

